(** * The socket unit of the service manager (src/cmd/manager/socket.c)

    A shallow embedding of the socket unit: its ports, its state machine,
    the dispatch of incoming connections and its serializer, followed by
    the properties proved about them.

    The unit object is a record; the functions of socket.c that change it
    take the record and return the new one.  Everything the unit calls in
    the rest of the manager, in libc or in the kernel is reached through a
    [World]: the answers of those calls are read from an [Env], one answer
    per call, and the calls that matter to the properties below are
    recorded in a trace. *)

From Stdlib Require Import ZArith NArith List String Ascii Bool Lia.
Import ListNotations.
Open Scope string_scope.
Open Scope Z_scope.

(** ** Enumerations of socket.h *)

Inductive SocketState :=
| SOCKET_DEAD
| SOCKET_START_PRE
| SOCKET_START_CHOWN
| SOCKET_START_POST
| SOCKET_LISTENING
| SOCKET_RUNNING
| SOCKET_STOP_PRE
| SOCKET_STOP_PRE_SIGTERM
| SOCKET_STOP_PRE_SIGKILL
| SOCKET_STOP_POST
| SOCKET_FINAL_SIGTERM
| SOCKET_FINAL_SIGKILL
| SOCKET_FAILED.

Inductive SocketResult :=
| SOCKET_SUCCESS
| SOCKET_FAILURE_RESOURCES
| SOCKET_FAILURE_TIMEOUT
| SOCKET_FAILURE_EXIT_CODE
| SOCKET_FAILURE_SIGNAL
| SOCKET_FAILURE_CORE_DUMP
| SOCKET_FAILURE_SERVICE_FAILED_PERMANENT.

(** [control_command_id] is a [SocketExecCommand] or
    [_SOCKET_EXEC_COMMAND_INVALID]; the latter is [None]. *)
Inductive SocketExecCommand :=
| SOCKET_EXEC_START_PRE
| SOCKET_EXEC_START_CHOWN
| SOCKET_EXEC_START_POST
| SOCKET_EXEC_STOP_PRE
| SOCKET_EXEC_STOP_POST.

Inductive SocketPortType :=
| SOCKET_SOCKET
| SOCKET_FIFO
| SOCKET_SPECIAL
| SOCKET_MQUEUE.

Inductive UnitActiveState :=
| UNIT_ACTIVE
| UNIT_INACTIVE
| UNIT_FAILED
| UNIT_ACTIVATING
| UNIT_DEACTIVATING.

Inductive UnitLoadState :=
| UNIT_STUB
| UNIT_LOADED
| UNIT_ERROR.

Inductive ServiceState :=
| SERVICE_DEAD
| SERVICE_START_PRE
| SERVICE_START
| SERVICE_START_POST
| SERVICE_RUNNING
| SERVICE_EXITED
| SERVICE_RELOAD
| SERVICE_STOP
| SERVICE_STOP_SIGTERM
| SERVICE_STOP_SIGKILL
| SERVICE_STOP_POST
| SERVICE_FINAL_SIGTERM
| SERVICE_FINAL_SIGKILL
| SERVICE_FAILED
| SERVICE_AUTO_RESTART.

Scheme Equality for SocketState.
Scheme Equality for SocketResult.
Scheme Equality for SocketExecCommand.
Scheme Equality for SocketPortType.
Scheme Equality for ServiceState.
Scheme Equality for UnitLoadState.

(** [si_code] of a SIGCHLD *)
Inductive SigchldCode :=
| CLD_EXITED
| CLD_KILLED
| CLD_DUMPED
| CLD_OTHER.

(** [IN_SET(x, ...)] *)
Definition IN_SET (x : SocketState) (l : list SocketState) : bool :=
  existsb (SocketState_beq x) l.

(** ** Results of calls

    A C function that returns [int] and fails with a negative errno is a
    function into [rc]: [Ok v] is a return value [v >= 0], [Err e] is
    [-e].  Only the errno names socket.c itself tests or returns are
    told apart. *)

Inductive errno :=
| EPERM
| ENOENT
| EAGAIN
| ENOMEM
| EBUSY
| EBADMSG
| ENOTCONN
| EOTHER (n : nat).

Inductive rc (A : Type) :=
| Ok (a : A)
| Err (e : errno).
Arguments Ok {A} a.
Arguments Err {A} e.

Definition errno_is_ENOTCONN (e : errno) : bool :=
  match e with ENOTCONN => true | _ => false end.

Definition errno_is_EPERM (e : errno) : bool :=
  match e with EPERM => true | _ => false end.

(** ** Data model *)

(** [union sockaddr_union]: the members instance_from_socket reads, with
    addresses and ports as the bytes on the wire (network order). *)
Inductive sockaddr :=
| SA_in (sin_addr : list Z) (sin_port : list Z)
| SA_in6 (sin6_addr : list Z) (sin6_port : list Z)
| SA_un (sun_path : string)
| SA_nl (nl_groups : Z)
| SA_unspec.

Record SocketAddress := {
  sa_sockaddr : sockaddr;
  sa_type : Z
}.

Definition AF_NETLINK_family (a : SocketAddress) : bool :=
  match sa_sockaddr a with SA_nl _ => true | _ => false end.

Record SocketPort := {
  p_type : SocketPortType;
  p_address : SocketAddress;
  p_path : string;
  p_fd : Z;                (* -1 when closed *)
  p_fd_watch : bool        (* the I/O watch of the fd is installed *)
}.

Record ExecCommand := {
  c_path : string;
  c_argv : list string;
  c_ignore : bool
}.

(** The service a socket refers to ([s->service], a UnitRef), with the
    fields of it that socket.c reads. *)
Record Service := {
  svc_id : string;
  svc_load_state : UnitLoadState;
  svc_state : ServiceState;
  svc_exec_start : option string;   (* path of exec_command[SERVICE_EXEC_START] *)
  svc_is_sysv : bool
}.

Record ExecContext := {
  tmp_dir : option string;
  var_tmp_dir : option string
}.

(** Configuration of the unit: set at load time, read by the state
    machine. *)
Record SocketConfig := {
  id : string;
  accept : bool;
  max_connections : Z;
  exec_command : SocketExecCommand -> list ExecCommand;
  user : string;
  group : string;
  send_sigkill : bool          (* kill_context.send_sigkill *)
}.

(** [control_command] points into one of the [exec_command] lists: it is
    the list from the current command on, [[]] for NULL. *)
Record Socket := {
  config : SocketConfig;
  state : SocketState;
  deserialized_state : SocketState;
  result : SocketResult;
  n_accepted : Z;
  n_connections : Z;
  control_pid : Z;
  control_command_id : option SocketExecCommand;
  control_command : list ExecCommand;
  timer_watch : bool;
  ports : list SocketPort;
  service : option Service;
  exec_context : ExecContext
}.

Definition set_state_field (s : Socket) (v : SocketState) : Socket :=
  {| config := config s; state := v; deserialized_state := deserialized_state s;
     result := result s; n_accepted := n_accepted s;
     n_connections := n_connections s; control_pid := control_pid s;
     control_command_id := control_command_id s;
     control_command := control_command s; timer_watch := timer_watch s;
     ports := ports s; service := service s; exec_context := exec_context s |}.

Definition set_deserialized_state (s : Socket) (v : SocketState) : Socket :=
  {| config := config s; state := state s; deserialized_state := v;
     result := result s; n_accepted := n_accepted s;
     n_connections := n_connections s; control_pid := control_pid s;
     control_command_id := control_command_id s;
     control_command := control_command s; timer_watch := timer_watch s;
     ports := ports s; service := service s; exec_context := exec_context s |}.

Definition set_result (s : Socket) (v : SocketResult) : Socket :=
  {| config := config s; state := state s;
     deserialized_state := deserialized_state s;
     result := v; n_accepted := n_accepted s;
     n_connections := n_connections s; control_pid := control_pid s;
     control_command_id := control_command_id s;
     control_command := control_command s; timer_watch := timer_watch s;
     ports := ports s; service := service s; exec_context := exec_context s |}.

Definition set_n_accepted (s : Socket) (v : Z) : Socket :=
  {| config := config s; state := state s;
     deserialized_state := deserialized_state s;
     result := result s; n_accepted := v;
     n_connections := n_connections s; control_pid := control_pid s;
     control_command_id := control_command_id s;
     control_command := control_command s; timer_watch := timer_watch s;
     ports := ports s; service := service s; exec_context := exec_context s |}.

Definition set_n_connections (s : Socket) (v : Z) : Socket :=
  {| config := config s; state := state s;
     deserialized_state := deserialized_state s;
     result := result s; n_accepted := n_accepted s;
     n_connections := v; control_pid := control_pid s;
     control_command_id := control_command_id s;
     control_command := control_command s; timer_watch := timer_watch s;
     ports := ports s; service := service s; exec_context := exec_context s |}.

Definition set_control_pid (s : Socket) (v : Z) : Socket :=
  {| config := config s; state := state s;
     deserialized_state := deserialized_state s;
     result := result s; n_accepted := n_accepted s;
     n_connections := n_connections s; control_pid := v;
     control_command_id := control_command_id s;
     control_command := control_command s; timer_watch := timer_watch s;
     ports := ports s; service := service s; exec_context := exec_context s |}.

Definition set_control_command_id (s : Socket)
    (v : option SocketExecCommand) : Socket :=
  {| config := config s; state := state s;
     deserialized_state := deserialized_state s;
     result := result s; n_accepted := n_accepted s;
     n_connections := n_connections s; control_pid := control_pid s;
     control_command_id := v;
     control_command := control_command s; timer_watch := timer_watch s;
     ports := ports s; service := service s; exec_context := exec_context s |}.

Definition set_control_command (s : Socket) (v : list ExecCommand) : Socket :=
  {| config := config s; state := state s;
     deserialized_state := deserialized_state s;
     result := result s; n_accepted := n_accepted s;
     n_connections := n_connections s; control_pid := control_pid s;
     control_command_id := control_command_id s;
     control_command := v; timer_watch := timer_watch s;
     ports := ports s; service := service s; exec_context := exec_context s |}.

Definition set_timer_watch (s : Socket) (v : bool) : Socket :=
  {| config := config s; state := state s;
     deserialized_state := deserialized_state s;
     result := result s; n_accepted := n_accepted s;
     n_connections := n_connections s; control_pid := control_pid s;
     control_command_id := control_command_id s;
     control_command := control_command s; timer_watch := v;
     ports := ports s; service := service s; exec_context := exec_context s |}.

Definition set_ports (s : Socket) (v : list SocketPort) : Socket :=
  {| config := config s; state := state s;
     deserialized_state := deserialized_state s;
     result := result s; n_accepted := n_accepted s;
     n_connections := n_connections s; control_pid := control_pid s;
     control_command_id := control_command_id s;
     control_command := control_command s; timer_watch := timer_watch s;
     ports := v; service := service s; exec_context := exec_context s |}.

Definition set_service (s : Socket) (v : option Service) : Socket :=
  {| config := config s; state := state s;
     deserialized_state := deserialized_state s;
     result := result s; n_accepted := n_accepted s;
     n_connections := n_connections s; control_pid := control_pid s;
     control_command_id := control_command_id s;
     control_command := control_command s; timer_watch := timer_watch s;
     ports := ports s; service := v; exec_context := exec_context s |}.

Definition set_exec_context (s : Socket) (v : ExecContext) : Socket :=
  {| config := config s; state := state s;
     deserialized_state := deserialized_state s;
     result := result s; n_accepted := n_accepted s;
     n_connections := n_connections s; control_pid := control_pid s;
     control_command_id := control_command_id s;
     control_command := control_command s; timer_watch := timer_watch s;
     ports := ports s; service := service s; exec_context := v |}.

Definition set_fd (p : SocketPort) (v : Z) : SocketPort :=
  {| p_type := p_type p; p_address := p_address p; p_path := p_path p;
     p_fd := v; p_fd_watch := p_fd_watch p |}.

Definition set_fd_watch (p : SocketPort) (v : bool) : SocketPort :=
  {| p_type := p_type p; p_address := p_address p; p_path := p_path p;
     p_fd := p_fd p; p_fd_watch := v |}.

(** [unsigned] arithmetic of the counters *)
Definition UINT_MOD : Z := 2 ^ 32.
Definition wrap_u (x : Z) : Z := x mod UINT_MOD.

(** ** The world around the unit *)

(** What is recorded of the calls the unit makes. *)
Inductive Event :=
| EvClose (fd : Z)                        (* safe_close of an open fd *)
| EvOpen (t : SocketPortType) (fd : Z)    (* an endpoint was created *)
| EvOpenFailed (t : SocketPortType)       (* creating an endpoint failed *)
| EvWatchPid (pid : Z)
| EvUnwatchPid (pid : Z)
| EvSpawn (c : ExecCommand) (pid : Z)     (* exec_spawn succeeded *)
| EvFork (pid : Z)                        (* the chown helper was forked *)
| EvKill (sigkill : bool) (pid : Z)       (* unit_kill_context *)
| EvNotify (os ns : UnitActiveState)      (* unit_notify *)
| EvAddJob (service_id : string)          (* manager_add_job(JOB_START) ok *)
| EvSetSocketFd (service_id : string) (fd : Z)
                                          (* service_set_socket_fd ok *)
| EvDup (fd copy : Z).                    (* fdset_put_dup ok *)

(** The answers of the calls into the manager, libc and the kernel: the
    [n]-th call of a run takes the [n]-th answer of the kind it needs.
    The build switches of socket.c and the pure helpers of socket-util
    and libc that are not part of this file are fields as well. *)
Record Env := {
  o_rc : nat -> rc N;
  o_bool : nat -> bool;
  o_sockaddr : nat -> rc sockaddr;
  o_ucred : nat -> rc (N * N);
  o_unit : nat -> rc Service;
  Use_MQ : bool;
  Have_linux_netlink_h : bool;
  Have_SO_PEERCRED : bool;
  HAVE_SYSV_COMPAT : bool;
  socket_address_print : SocketAddress -> rc string;
  socket_address_is : SocketAddress -> string -> Z -> bool;
  socket_address_is_netlink : SocketAddress -> string -> bool;
  inet_ntop6 : list Z -> string;
  is_clean_exit : SigchldCode -> Z -> bool;
  unit_name_to_prefix : string -> option string;
  unit_name_build : string -> string -> string -> option string;
  exec_context_serialize : ExecContext -> list (string * string)
}.

Record World := {
  env : Env;
  tick : nat;
  trace : list Event       (* latest event first *)
}.

(** A computation either aborts (a failed [assert]) or returns a value
    and the world after it. *)
Definition M (A : Type) : Type := World -> option (A * World).

Definition ret {A} (a : A) : M A := fun w => Some (a, w).

Definition bind {A B} (m : M A) (k : A -> M B) : M B :=
  fun w => match m w with
           | Some (a, w') => k a w'
           | None => None
           end.

Notation "x <- m ;; k" := (bind m (fun x => k))
  (at level 61, m at next level, right associativity).
Notation "m ;;; k" := (bind m (fun _ => k))
  (at level 61, right associativity).

Definition abort {A} : M A := fun _ => None.

Definition assert (b : bool) : M unit :=
  if b then ret tt else abort.

Definition emit (e : Event) : M unit :=
  fun w => Some (tt, {| env := env w; tick := tick w; trace := e :: trace w |}).

Definition next_tick (w : World) : World :=
  {| env := env w; tick := S (tick w); trace := trace w |}.

Definition ask_rc : M (rc N) :=
  fun w => Some (o_rc (env w) (tick w), next_tick w).

Definition ask_bool : M bool :=
  fun w => Some (o_bool (env w) (tick w), next_tick w).

Definition ask_sockaddr : M (rc sockaddr) :=
  fun w => Some (o_sockaddr (env w) (tick w), next_tick w).

Definition ask_ucred : M (rc (N * N)) :=
  fun w => Some (o_ucred (env w) (tick w), next_tick w).

Definition ask_unit : M (rc Service) :=
  fun w => Some (o_unit (env w) (tick w), next_tick w).

Definition get_env : M Env := fun w => Some (env w, w).

Notation "' pat <- m ;; k" :=
  (bind m (fun x => match x with pat => k end))
  (at level 61, pat pattern, m at next level, right associativity).

(** State tests as socket.c writes them *)
Definition state_ne (a b : SocketState) : bool := negb (SocketState_beq a b).
Definition state_eq (a b : SocketState) : bool := SocketState_beq a b.
Definition result_ne (a b : SocketResult) : bool := negb (SocketResult_beq a b).
Definition result_eq (a b : SocketResult) : bool := SocketResult_beq a b.

Definition state_translation_table (st : SocketState) : UnitActiveState :=
  match st with
  | SOCKET_DEAD => UNIT_INACTIVE
  | SOCKET_START_PRE => UNIT_ACTIVATING
  | SOCKET_START_CHOWN => UNIT_ACTIVATING
  | SOCKET_START_POST => UNIT_ACTIVATING
  | SOCKET_LISTENING => UNIT_ACTIVE
  | SOCKET_RUNNING => UNIT_ACTIVE
  | SOCKET_STOP_PRE => UNIT_DEACTIVATING
  | SOCKET_STOP_PRE_SIGTERM => UNIT_DEACTIVATING
  | SOCKET_STOP_PRE_SIGKILL => UNIT_DEACTIVATING
  | SOCKET_STOP_POST => UNIT_DEACTIVATING
  | SOCKET_FINAL_SIGTERM => UNIT_DEACTIVATING
  | SOCKET_FINAL_SIGKILL => UNIT_DEACTIVATING
  | SOCKET_FAILED => UNIT_FAILED
  end.

(** ** Calls into the manager and the kernel *)

(** [safe_close(fd)]: closes [fd] when it is one, and returns -1. *)
Definition safe_close (fd : Z) : M Z :=
  if 0 <=? fd then emit (EvClose fd) ;;; ret (-1) else ret (-1).

Definition unit_unwatch_fd (p : SocketPort) : SocketPort :=
  set_fd_watch p false.

Definition unit_watch_fd (p : SocketPort) : M (rc N * SocketPort) :=
  r <- ask_rc ;;
  match r with
  | Ok _ => ret (r, set_fd_watch p true)
  | Err _ => ret (r, p)
  end.

Definition unit_watch_pid (pid : Z) : M (rc N) :=
  r <- ask_rc ;;
  match r with
  | Ok _ => emit (EvWatchPid pid) ;;; ret r
  | Err _ => ret r
  end.

Definition unit_unwatch_pid (pid : Z) : M unit := emit (EvUnwatchPid pid).

Definition unit_watch_timer (s : Socket) : M (rc N * Socket) :=
  r <- ask_rc ;;
  match r with
  | Ok _ => ret (r, set_timer_watch s true)
  | Err _ => ret (r, s)
  end.

Definition unit_unwatch_timer (s : Socket) : Socket := set_timer_watch s false.

Definition unit_notify (os ns : UnitActiveState) : M unit :=
  emit (EvNotify os ns).

(** [unit_kill_context]: negative on error, positive when processes were
    signalled and are waited for, 0 when there are none. *)
Definition unit_kill_context (sigkill : bool) (control_pid : Z) : M (rc N) :=
  r <- ask_rc ;;
  match r with
  | Ok _ => emit (EvKill sigkill control_pid) ;;; ret r
  | Err _ => ret r
  end.

Definition unit_stop_pending : M bool := ask_bool.

(** Some unit of [dependencies[UNIT_TRIGGERS]] is active or pending. *)
Definition triggers_active_or_pending : M bool := ask_bool.

(** An allocation ([asprintf], [strdup]) ran out of memory. *)
Definition alloc_failed : M bool := ask_bool.

Definition manager_add_job (svc : Service) : M (rc N) :=
  r <- ask_rc ;;
  match r with
  | Ok _ => emit (EvAddJob (svc_id svc)) ;;; ret r
  | Err _ => ret r
  end.

Definition manager_load_unit (name : string) : M (rc Service) := ask_unit.

Definition unit_add_two_dependencies : M (rc N) := ask_rc.

Definition unit_add_name (svc : Service) (name : string) : M (rc N) := ask_rc.

(** [service_set_socket_fd(service, fd, s)]: on success the service owns
    [fd]. *)
Definition service_set_socket_fd (svc : Service) (fd : Z) : M (rc N) :=
  r <- ask_rc ;;
  match r with
  | Ok _ => emit (EvSetSocketFd (svc_id svc) fd) ;;; ret r
  | Err _ => ret r
  end.

Definition label_get_create_label_from_exe (path : string) : M (rc N) :=
  ask_rc.

(** The four constructors of an endpoint ([socket_address_listen],
    [special_address_create], [fifo_address_create], [mq_address_create]):
    each returns the new fd through its last argument, or fails. *)
Definition endpoint_create (t : SocketPortType) : M (rc N) :=
  r <- ask_rc ;;
  match r with
  | Ok fd => emit (EvOpen t (Z.of_N fd)) ;;; ret r
  | Err _ => emit (EvOpenFailed t) ;;; ret r
  end.

Definition socket_address_listen : M (rc N) := endpoint_create SOCKET_SOCKET.
Definition special_address_create : M (rc N) := endpoint_create SOCKET_SPECIAL.
Definition fifo_address_create : M (rc N) := endpoint_create SOCKET_FIFO.
Definition mq_address_create : M (rc N) := endpoint_create SOCKET_MQUEUE.

(** ** Ports *)

Definition socket_unwatch_control_pid (s : Socket) : M Socket :=
  if control_pid s <=? 0 then ret s
  else
    unit_unwatch_pid (control_pid s) ;;;
    ret (set_control_pid s 0).

Fixpoint socket_close_fds_loop (ps : list SocketPort) : M (list SocketPort) :=
  match ps with
  | [] => ret []
  | p :: rest =>
      if p_fd p <? 0 then
        rest' <- socket_close_fds_loop rest ;;
        ret (p :: rest')
      else
        let p := unit_unwatch_fd p in
        fd <- safe_close (p_fd p) ;;
        rest' <- socket_close_fds_loop rest ;;
        ret (set_fd p fd :: rest')
  end.

Definition socket_close_fds (s : Socket) : M Socket :=
  ps <- socket_close_fds_loop (ports s) ;;
  ret (set_ports s ps).

(** ** printf conversions *)

Definition digit_char (d : Z) : ascii :=
  match d with
  | 0 => "0" | 1 => "1" | 2 => "2" | 3 => "3" | 4 => "4"
  | 5 => "5" | 6 => "6" | 7 => "7" | 8 => "8" | _ => "9"
  end%char.

Fixpoint fmt_digits (fuel : nat) (n : Z) (acc : string) : string :=
  match fuel with
  | O => acc
  | S f =>
      let acc' := String (digit_char (n mod 10)) acc in
      if n <? 10 then acc' else fmt_digits f (n / 10) acc'
  end.

(** ["%u"] and ["%lu"] of a value that is not negative *)
Definition fmt_u (n : Z) : string :=
  fmt_digits (S (Z.to_nat (Z.log2 n))) n "".

(** ["%i"] *)
Definition fmt_i (n : Z) : string :=
  if n <? 0 then String "-"%char (fmt_u (- n)) else fmt_u n.

(** ** Opening and watching the ports *)

(** [socket_instantiate_service]: fills in [s->service] when it is not
    set; for Accept=yes sockets this loads the next connection service. *)
Definition socket_instantiate_service (s : Socket) : M (rc unit * Socket) :=
  match service s with
  | Some _ => ret (Ok tt, s)
  | None =>
      assert (accept (config s)) ;;;
      e <- get_env ;;
      match unit_name_to_prefix e (id (config s)) with
      | None => ret (Err ENOMEM, s)
      | Some prefix =>
          oom <- alloc_failed ;;
          if oom then ret (Err ENOMEM, s)
          else
            let name := prefix ++ "@" ++ fmt_u (n_accepted s) ++ ".service" in
            r <- manager_load_unit name ;;
            match r with
            | Err e => ret (Err e, s)
            | Ok u =>
                if HAVE_SYSV_COMPAT e && svc_is_sysv u then ret (Err ENOENT, s)
                else
                let s := set_service s (Some u) in
                r <- unit_add_two_dependencies ;;
                match r with
                | Err e => ret (Err e, s)
                | Ok _ => ret (Ok tt, s)
                end
            end
      end
  end.

(** How the loop of [socket_open_fds] ends: at the end of the list, by
    [return r], or by [goto rollback]. *)
Inductive OpenExit :=
| OpenDone
| OpenReturn (e : errno)
| OpenRollback (e : errno).

(** The part of the loop body guarded by [!know_label]. *)
Definition socket_open_fds_label (s : Socket) : M (rc unit * Socket) :=
  '(r, s) <- socket_instantiate_service s ;;
  match r with
  | Err e => ret (Err e, s)
  | Ok _ =>
      match service s with
      | Some svc =>
          match svc_exec_start svc with
          | Some path =>
              r <- label_get_create_label_from_exe path ;;
              match r with
              | Err e => if errno_is_EPERM e then ret (Ok tt, s)
                         else ret (Err e, s)
              | Ok _ => ret (Ok tt, s)
              end
          | None => ret (Ok tt, s)
          end
      | None => ret (Ok tt, s)
      end
  end.

(** The constructor call of one port, by its type; [None] is the
    [assert_not_reached("Unknown port type")] branch. *)
Definition socket_open_fds_create (t : SocketPortType) : M (rc N) :=
  match t with
  | SOCKET_SOCKET => socket_address_listen
  | SOCKET_SPECIAL => special_address_create
  | SOCKET_FIFO => fifo_address_create
  | SOCKET_MQUEUE =>
      e <- get_env ;;
      if Use_MQ e then mq_address_create else abort
  end.

Fixpoint socket_open_fds_loop (s : Socket) (know_label : bool)
    (ps : list SocketPort) : M (OpenExit * Socket * list SocketPort) :=
  match ps with
  | [] => ret (OpenDone, s, [])
  | p :: rest =>
      if 0 <=? p_fd p then
        '(x, s, rest') <- socket_open_fds_loop s know_label rest ;;
        ret (x, s, p :: rest')
      else
        '(lr, s) <- (if SocketPortType_beq (p_type p) SOCKET_SOCKET
                        && negb know_label
                     then socket_open_fds_label s
                     else ret (Ok tt, s)) ;;
        match lr with
        | Err e => ret (OpenReturn e, s, p :: rest)
        | Ok _ =>
            let know_label :=
              SocketPortType_beq (p_type p) SOCKET_SOCKET || know_label in
            r <- socket_open_fds_create (p_type p) ;;
            match r with
            | Err e => ret (OpenRollback e, s, p :: rest)
            | Ok fd =>
                '(x, s, rest') <- socket_open_fds_loop s know_label rest ;;
                ret (x, s, set_fd p (Z.of_N fd) :: rest')
            end
        end
  end.

Definition socket_open_fds (s : Socket) : M (rc unit * Socket) :=
  '(x, s1, ps) <- socket_open_fds_loop s false (ports s) ;;
  let s2 := set_ports s1 ps in
  match x with
  | OpenDone => ret (Ok tt, s2)
  | OpenReturn e => ret (Err e, s2)
  | OpenRollback e =>
      s3 <- socket_close_fds s2 ;;
      ret (Err e, s3)
  end.

Definition socket_unwatch_fds (s : Socket) : Socket :=
  set_ports s
    (map (fun p => if p_fd p <? 0 then p else unit_unwatch_fd p) (ports s)).

Fixpoint socket_watch_fds_loop (ps : list SocketPort)
    : M (rc unit * list SocketPort) :=
  match ps with
  | [] => ret (Ok tt, [])
  | p :: rest =>
      if p_fd p <? 0 then
        '(r, rest') <- socket_watch_fds_loop rest ;;
        ret (r, p :: rest')
      else
        '(r, p') <- unit_watch_fd p ;;
        match r with
        | Err e => ret (Err e, p' :: rest)
        | Ok _ =>
            '(r, rest') <- socket_watch_fds_loop rest ;;
            ret (r, p' :: rest')
        end
  end.

Definition socket_watch_fds (s : Socket) : M (rc unit * Socket) :=
  '(r, ps) <- socket_watch_fds_loop (ports s) ;;
  let s := set_ports s ps in
  match r with
  | Ok _ => ret (Ok tt, s)
  | Err e => ret (Err e, socket_unwatch_fds s)
  end.

(** ** socket_set_state *)

Definition socket_set_state (s : Socket) (st : SocketState) : M Socket :=
  let old_state := state s in
  let s := set_state_field s st in
  s <- (if state_ne st SOCKET_START_PRE &&
           state_ne st SOCKET_START_CHOWN &&
           state_ne st SOCKET_START_POST &&
           state_ne st SOCKET_STOP_PRE &&
           state_ne st SOCKET_STOP_PRE_SIGTERM &&
           state_ne st SOCKET_STOP_PRE_SIGKILL &&
           state_ne st SOCKET_STOP_POST &&
           state_ne st SOCKET_FINAL_SIGTERM &&
           state_ne st SOCKET_FINAL_SIGKILL
        then
          let s := unit_unwatch_timer s in
          s <- socket_unwatch_control_pid s ;;
          let s := set_control_command s [] in
          ret (set_control_command_id s None)
        else ret s) ;;
  let s := if state_ne st SOCKET_LISTENING then socket_unwatch_fds s else s in
  s <- (if state_ne st SOCKET_START_CHOWN &&
           state_ne st SOCKET_START_POST &&
           state_ne st SOCKET_LISTENING &&
           state_ne st SOCKET_RUNNING &&
           state_ne st SOCKET_STOP_PRE &&
           state_ne st SOCKET_STOP_PRE_SIGTERM &&
           state_ne st SOCKET_STOP_PRE_SIGKILL
        then socket_close_fds s
        else ret s) ;;
  unit_notify (state_translation_table old_state)
              (state_translation_table st) ;;;
  ret s.

(** ** Control processes *)

Definition unit_full_printf_strv (argv : list string) : M (rc N) := ask_rc.

Definition exec_spawn (c : ExecCommand) : M (rc N) :=
  r <- ask_rc ;;
  match r with
  | Ok pid => emit (EvSpawn c (Z.of_N pid)) ;;; ret r
  | Err _ => ret r
  end.

(** [socket_spawn(s, c, &s->control_pid)]: every caller passes the
    address of [s->control_pid]. *)
Definition socket_spawn (s : Socket) (c : ExecCommand) : M (rc unit * Socket) :=
  '(r, s) <- unit_watch_timer s ;;
  match r with
  | Err e => ret (Err e, unit_unwatch_timer s)
  | Ok _ =>
      r <- unit_full_printf_strv (c_argv c) ;;
      match r with
      | Err e => ret (Err e, unit_unwatch_timer s)
      | Ok _ =>
          r <- exec_spawn c ;;
          match r with
          | Err e => ret (Err e, unit_unwatch_timer s)
          | Ok pid =>
              r <- unit_watch_pid (Z.of_N pid) ;;
              match r with
              | Err e => ret (Err e, unit_unwatch_timer s)
              | Ok _ => ret (Ok tt, set_control_pid s (Z.of_N pid))
              end
          end
      end
  end.

(** [socket_chown(s, &s->control_pid)] as the manager runs it.  The
    forked child resolves the names, chowns the paths and leaves through
    [_exit]: it never returns into the state machine, so a run that
    continues in the child ([fork] returned 0) ends here. *)
Definition socket_chown (s : Socket) : M (rc unit * Socket) :=
  r <- ask_rc ;;
  match r with
  | Err e => ret (Err e, s)
  | Ok pid =>
      if (pid =? 0)%N then abort
      else
        emit (EvFork (Z.of_N pid)) ;;;
        r <- unit_watch_pid (Z.of_N pid) ;;
        match r with
        | Err e => ret (Err e, s)
        | Ok _ => ret (Ok tt, set_control_pid s (Z.of_N pid))
        end
  end.

Definition exec_context_tmp_dirs_done (c : ExecContext) : ExecContext :=
  {| tmp_dir := None; var_tmp_dir := None |}.

Definition isempty (x : string) : bool :=
  match x with EmptyString => true | _ => false end.

(** ** Entering the states *)

Definition socket_enter_dead (s : Socket) (f : SocketResult) : M Socket :=
  let s := if result_ne f SOCKET_SUCCESS then set_result s f else s in
  let s := set_exec_context s (exec_context_tmp_dirs_done (exec_context s)) in
  socket_set_state s
    (if result_ne (result s) SOCKET_SUCCESS then SOCKET_FAILED else SOCKET_DEAD).

(** [socket_enter_signal] and [socket_enter_stop_post] call each other:
    the former enters stop-post from the two STOP_PRE signal states, the
    latter enters FINAL_SIGTERM.  [socket_enter_signal_with] is the body
    of [socket_enter_signal] over the function it calls for stop-post;
    [socket_enter_stop_post] uses it for FINAL_SIGTERM, where that
    function is not called, and [socket_enter_signal] closes the knot
    (lemma [socket_enter_stop_post_eq] below). *)
Definition socket_enter_signal_with
    (enter_stop_post : Socket -> SocketResult -> M Socket)
    (s : Socket) (st : SocketState) (f : SocketResult) : M Socket :=
  let s := if result_ne f SOCKET_SUCCESS then set_result s f else s in
  let fail (s : Socket) :=
    if state_eq st SOCKET_STOP_PRE_SIGTERM || state_eq st SOCKET_STOP_PRE_SIGKILL
    then enter_stop_post s SOCKET_FAILURE_RESOURCES
    else socket_enter_dead s SOCKET_FAILURE_RESOURCES in
  r <- unit_kill_context
         (state_ne st SOCKET_STOP_PRE_SIGTERM && state_ne st SOCKET_FINAL_SIGTERM)
         (control_pid s) ;;
  match r with
  | Err _ => fail s
  | Ok n =>
      if (0 <? n)%N then
        '(r, s) <- unit_watch_timer s ;;
        match r with
        | Err _ => fail s
        | Ok _ => socket_set_state s st
        end
      else if state_eq st SOCKET_STOP_PRE_SIGTERM
              || state_eq st SOCKET_STOP_PRE_SIGKILL
      then enter_stop_post s SOCKET_SUCCESS
      else socket_enter_dead s SOCKET_SUCCESS
  end.

Definition socket_enter_stop_post_with
    (enter_signal : Socket -> SocketState -> SocketResult -> M Socket)
    (s : Socket) (f : SocketResult) : M Socket :=
  let s := if result_ne f SOCKET_SUCCESS then set_result s f else s in
  s <- socket_unwatch_control_pid s ;;
  let s := set_control_command_id s (Some SOCKET_EXEC_STOP_POST) in
  let s := set_control_command s (exec_command (config s) SOCKET_EXEC_STOP_POST) in
  match control_command s with
  | c :: _ =>
      '(r, s) <- socket_spawn s c ;;
      match r with
      | Err _ => enter_signal s SOCKET_FINAL_SIGTERM SOCKET_FAILURE_RESOURCES
      | Ok _ => socket_set_state s SOCKET_STOP_POST
      end
  | [] => enter_signal s SOCKET_FINAL_SIGTERM SOCKET_SUCCESS
  end.

Definition socket_enter_stop_post : Socket -> SocketResult -> M Socket :=
  socket_enter_stop_post_with
    (socket_enter_signal_with (fun s _ => ret s)).

Definition socket_enter_signal
    : Socket -> SocketState -> SocketResult -> M Socket :=
  socket_enter_signal_with socket_enter_stop_post.

Definition socket_enter_stop_pre (s : Socket) (f : SocketResult) : M Socket :=
  let s := if result_ne f SOCKET_SUCCESS then set_result s f else s in
  s <- socket_unwatch_control_pid s ;;
  let s := set_control_command_id s (Some SOCKET_EXEC_STOP_PRE) in
  let s := set_control_command s (exec_command (config s) SOCKET_EXEC_STOP_PRE) in
  match control_command s with
  | c :: _ =>
      '(r, s) <- socket_spawn s c ;;
      match r with
      | Err _ => socket_enter_stop_post s SOCKET_FAILURE_RESOURCES
      | Ok _ => socket_set_state s SOCKET_STOP_PRE
      end
  | [] => socket_enter_stop_post s SOCKET_SUCCESS
  end.

Definition socket_enter_listening (s : Socket) : M Socket :=
  '(r, s) <- socket_watch_fds s ;;
  match r with
  | Err _ => socket_enter_stop_pre s SOCKET_FAILURE_RESOURCES
  | Ok _ => socket_set_state s SOCKET_LISTENING
  end.

Definition socket_enter_start_post (s : Socket) : M Socket :=
  s <- socket_unwatch_control_pid s ;;
  let s := set_control_command_id s (Some SOCKET_EXEC_START_POST) in
  let s := set_control_command s (exec_command (config s) SOCKET_EXEC_START_POST) in
  match control_command s with
  | c :: _ =>
      '(r, s) <- socket_spawn s c ;;
      match r with
      | Err _ => socket_enter_stop_pre s SOCKET_FAILURE_RESOURCES
      | Ok _ => socket_set_state s SOCKET_START_POST
      end
  | [] => socket_enter_listening s
  end.

Definition socket_enter_start_chown (s : Socket) : M Socket :=
  '(r, s) <- socket_open_fds s ;;
  match r with
  | Err _ => socket_enter_stop_pre s SOCKET_FAILURE_RESOURCES
  | Ok _ =>
      if negb (isempty (user (config s))) || negb (isempty (group (config s)))
      then
        s <- socket_unwatch_control_pid s ;;
        let s := set_control_command_id s (Some SOCKET_EXEC_START_CHOWN) in
        let s := set_control_command s [] in
        '(r, s) <- socket_chown s ;;
        match r with
        | Err _ => socket_enter_stop_pre s SOCKET_FAILURE_RESOURCES
        | Ok _ => socket_set_state s SOCKET_START_CHOWN
        end
      else socket_enter_start_post s
  end.

Definition socket_enter_start_pre (s : Socket) : M Socket :=
  s <- socket_unwatch_control_pid s ;;
  let s := set_control_command_id s (Some SOCKET_EXEC_START_PRE) in
  let s := set_control_command s (exec_command (config s) SOCKET_EXEC_START_PRE) in
  match control_command s with
  | c :: _ =>
      '(r, s) <- socket_spawn s c ;;
      match r with
      | Err _ => socket_enter_dead s SOCKET_FAILURE_RESOURCES
      | Ok _ => socket_set_state s SOCKET_START_PRE
      end
  | [] => socket_enter_start_chown s
  end.

(** ** Naming the instance of a connection *)

(** [ntohl], [ntohs]: the value of bytes in network order *)
Definition ntoh (bs : list Z) : Z :=
  fold_left (fun acc b => acc * 256 + b) bs 0.

(** The [.in] view of the address union; the peer of a connection has the
    family of the local address, another member reads as zeros here. *)
Definition sockaddr_in_view (a : sockaddr) : list Z * list Z :=
  match a with
  | SA_in addr port => (addr, port)
  | _ => ([0; 0; 0; 0], [0; 0])
  end.

Definition sockaddr_in6_view (a : sockaddr) : list Z * list Z :=
  match a with
  | SA_in6 addr port => (addr, port)
  | _ => (repeat 0 16, [0; 0])
  end.

Definition ipv4_prefix : list Z := [0; 0; 0; 0; 0; 0; 0; 0; 0; 0; 255; 255].

(** [memcmp(addr, ipv4_prefix, sizeof(ipv4_prefix)) == 0] *)
Definition has_ipv4_prefix (addr : list Z) : bool :=
  if list_eq_dec Z.eq_dec (firstn 12 addr) ipv4_prefix then true else false.

Definition dotted_quad (a b c d : Z) : string :=
  fmt_u a ++ "." ++ fmt_u b ++ "." ++ fmt_u c ++ "." ++ fmt_u d.

Definition instance_from_socket (fd : Z) (nr : Z) : M (rc string) :=
  assert (0 <=? fd) ;;;
  e <- get_env ;;
  l <- ask_sockaddr ;;
  match l with
  | Err e => ret (Err e)
  | Ok local =>
      r <- ask_sockaddr ;;
      match r with
      | Err e => ret (Err e)
      | Ok remote =>
          match local with
          | SA_in _ _ =>
              let a := ntoh (fst (sockaddr_in_view local)) in
              let b := ntoh (fst (sockaddr_in_view remote)) in
              oom <- alloc_failed ;;
              if oom then ret (Err ENOMEM)
              else ret (Ok (
                fmt_u nr ++ "-" ++
                dotted_quad (Z.shiftr a 24) (Z.land (Z.shiftr a 16) 255)
                            (Z.land (Z.shiftr a 8) 255) (Z.land a 255) ++ ":" ++
                fmt_u (ntoh (snd (sockaddr_in_view local))) ++ "-" ++
                dotted_quad (Z.shiftr b 24) (Z.land (Z.shiftr b 16) 255)
                            (Z.land (Z.shiftr b 8) 255) (Z.land b 255) ++ ":" ++
                fmt_u (ntoh (snd (sockaddr_in_view remote)))))
          | SA_in6 _ _ =>
              let la := fst (sockaddr_in6_view local) in
              let ra := fst (sockaddr_in6_view remote) in
              let lp := ntoh (snd (sockaddr_in6_view local)) in
              let rp := ntoh (snd (sockaddr_in6_view remote)) in
              oom <- alloc_failed ;;
              if oom then ret (Err ENOMEM)
              else if has_ipv4_prefix la && has_ipv4_prefix ra then
                let a := skipn 12 la in
                let b := skipn 12 ra in
                ret (Ok (
                  fmt_u nr ++ "-" ++
                  dotted_quad (nth 0 a 0) (nth 1 a 0) (nth 2 a 0) (nth 3 a 0)
                    ++ ":" ++ fmt_u lp ++ "-" ++
                  dotted_quad (nth 0 b 0) (nth 1 b 0) (nth 2 b 0) (nth 3 b 0)
                    ++ ":" ++ fmt_u rp))
              else
                ret (Ok (
                  fmt_u nr ++ "-" ++ inet_ntop6 e la ++ ":" ++ fmt_u lp ++ "-" ++
                  inet_ntop6 e ra ++ ":" ++ fmt_u rp))
          | SA_un _ =>
              (* without SO_PEERCRED the result is never assigned *)
              if Have_SO_PEERCRED e then
                c <- ask_ucred ;;
                match c with
                | Err e => ret (Err e)
                | Ok (pid, uid) =>
                    oom <- alloc_failed ;;
                    if oom then ret (Err ENOMEM)
                    else ret (Ok (fmt_u nr ++ "-" ++ fmt_u (Z.of_N pid) ++ "-" ++
                                  fmt_u (Z.of_N uid)))
                end
              else abort
          | _ => abort      (* assert_not_reached("Unhandled socket type.") *)
          end
      end
  end.

(** ** Dispatching a connection *)

Definition socket_enter_running (s : Socket) (cfd : Z) : M Socket :=
  e <- get_env ;;
  let fail (s : Socket) (cfd : Z) : M Socket :=
    s <- socket_enter_stop_pre s SOCKET_FAILURE_RESOURCES ;;
    safe_close cfd ;;;
    ret s in
  stop_pending <- unit_stop_pending ;;
  if stop_pending then
    if 0 <=? cfd then safe_close cfd ;;; ret s
    else
      (* Flush all sockets by closing and reopening them *)
      s <- socket_close_fds s ;;
      '(r, s) <- socket_watch_fds s ;;
      match r with
      | Err _ => socket_enter_stop_pre s SOCKET_FAILURE_RESOURCES
      | Ok _ => ret s
      end
  else if cfd <? 0 then
    pending <- triggers_active_or_pending ;;
    if negb pending then
      match service s with
      | None => fail s cfd
      | Some svc =>
          r <- manager_add_job svc ;;
          match r with
          | Err _ => fail s cfd
          | Ok _ => socket_set_state s SOCKET_RUNNING
          end
      end
    else socket_set_state s SOCKET_RUNNING
  else
    if max_connections (config s) <=? n_connections s then
      safe_close cfd ;;; ret s
    else
      '(r, s) <- socket_instantiate_service s ;;
      match r with
      | Err _ => fail s cfd
      | Ok _ =>
          r <- instance_from_socket cfd (n_accepted s) ;;
          match r with
          | Err en =>
              if negb (errno_is_ENOTCONN en) then fail s cfd
              else
                (* ENOTCONN is legitimate if TCP RST was received. *)
                safe_close cfd ;;; ret s
          | Ok instance =>
              match unit_name_to_prefix e (id (config s)) with
              | None => fail s cfd
              | Some prefix =>
                  match unit_name_build e prefix instance ".service" with
                  | None => fail s cfd
                  | Some name =>
                      match service s with
                      | None => abort
                      | Some svc =>
                          r <- unit_add_name svc name ;;
                          match r with
                          | Err _ => fail s cfd
                          | Ok _ =>
                              let s := set_service s None in
                              let s := set_n_accepted s (wrap_u (n_accepted s + 1)) in
                              (* unit_choose_id(UNIT(service), name) *)
                              let svc := {| svc_id := name;
                                            svc_load_state := svc_load_state svc;
                                            svc_state := svc_state svc;
                                            svc_exec_start := svc_exec_start svc;
                                            svc_is_sysv := svc_is_sysv svc |} in
                              r <- service_set_socket_fd svc cfd ;;
                              match r with
                              | Err _ => fail s cfd
                              | Ok _ =>
                                  let cfd := -1 in
                                  let s := set_n_connections s
                                             (wrap_u (n_connections s + 1)) in
                                  r <- manager_add_job svc ;;
                                  match r with
                                  | Err _ => fail s cfd
                                  | Ok _ => ret s
                                  end
                              end
                          end
                      end
                  end
              end
          end
      end.

Definition socket_run_next (s : Socket) : M Socket :=
  match control_command s with
  | _ :: (c :: _) as next =>
      s <- socket_unwatch_control_pid s ;;
      let s := set_control_command s next in
      '(r, s) <- socket_spawn s c ;;
      match r with
      | Ok _ => ret s
      | Err _ =>
          if state_eq (state s) SOCKET_START_POST then
            socket_enter_stop_pre s SOCKET_FAILURE_RESOURCES
          else if state_eq (state s) SOCKET_STOP_POST then
            socket_enter_dead s SOCKET_FAILURE_RESOURCES
          else
            socket_enter_signal s SOCKET_FINAL_SIGTERM SOCKET_FAILURE_RESOURCES
      end
  | _ => abort       (* assert(s->control_command->command_next) *)
  end.

(** ** The entry points of the unit vtable *)

Definition socket_start (s : Socket) : M (rc unit * Socket) :=
  e <- get_env ;;
  if IN_SET (state s)
       [SOCKET_STOP_PRE; SOCKET_STOP_PRE_SIGKILL; SOCKET_STOP_PRE_SIGTERM;
        SOCKET_STOP_POST; SOCKET_FINAL_SIGTERM; SOCKET_FINAL_SIGKILL]
  then ret (Err EAGAIN, s)
  else if IN_SET (state s)
            [SOCKET_START_PRE; SOCKET_START_CHOWN; SOCKET_START_POST]
  then ret (Ok tt, s)
  else
    let refused :=
      match service s with
      | Some svc =>
          if negb (UnitLoadState_beq (svc_load_state svc) UNIT_LOADED)
          then Some ENOENT
          else if negb (ServiceState_beq (svc_state svc) SERVICE_DEAD) &&
                  negb (ServiceState_beq (svc_state svc) SERVICE_FAILED) &&
                  negb (ServiceState_beq (svc_state svc) SERVICE_AUTO_RESTART)
          then Some EBUSY
          else if HAVE_SYSV_COMPAT e && svc_is_sysv svc then Some ENOENT
          else None
      | None => None
      end in
    match refused with
    | Some en => ret (Err en, s)
    | None =>
        assert (state_eq (state s) SOCKET_DEAD || state_eq (state s) SOCKET_FAILED) ;;;
        let s := set_result s SOCKET_SUCCESS in
        s <- socket_enter_start_pre s ;;
        ret (Ok tt, s)
    end.

Definition socket_stop (s : Socket) : M (rc unit * Socket) :=
  if IN_SET (state s)
       [SOCKET_STOP_PRE; SOCKET_STOP_PRE_SIGTERM; SOCKET_STOP_PRE_SIGKILL;
        SOCKET_STOP_POST; SOCKET_FINAL_SIGTERM; SOCKET_FINAL_SIGKILL]
  then ret (Ok tt, s)
  else if IN_SET (state s)
            [SOCKET_START_PRE; SOCKET_START_CHOWN; SOCKET_START_POST]
  then
    s <- socket_enter_signal s SOCKET_STOP_PRE_SIGTERM SOCKET_SUCCESS ;;
    ret (Err EAGAIN, s)
  else
    assert (state_eq (state s) SOCKET_LISTENING || state_eq (state s) SOCKET_RUNNING) ;;;
    s <- socket_enter_stop_pre s SOCKET_SUCCESS ;;
    ret (Ok tt, s).

Definition EV_READ : Z := 1.

Definition socket_fd_event (s : Socket) (fd : Z) (revents : Z) : M Socket :=
  let cfd := -1 in
  assert (0 <=? fd) ;;;
  if state_ne (state s) SOCKET_LISTENING then ret s
  else if negb (revents =? EV_READ) then
    socket_enter_stop_pre s SOCKET_FAILURE_RESOURCES
  else
    (* the accept4 loop is compiled out (#if 0): cfd stays -1 *)
    socket_enter_running s cfd.

Definition socket_sigchld_event (s : Socket) (pid : Z) (code : SigchldCode)
    (status : Z) : M Socket :=
  e <- get_env ;;
  assert (0 <=? pid) ;;;
  if negb (pid =? control_pid s) then ret s
  else
    let s := set_control_pid s 0 in
    f <- (if is_clean_exit e code status then ret SOCKET_SUCCESS
          else match code with
               | CLD_EXITED => ret SOCKET_FAILURE_EXIT_CODE
               | CLD_KILLED => ret SOCKET_FAILURE_SIGNAL
               | CLD_DUMPED => ret SOCKET_FAILURE_CORE_DUMP
               | CLD_OTHER => abort     (* assert_not_reached("Unknown code") *)
               end) ;;
    let f := match control_command s with
             | c :: _ => if c_ignore c then SOCKET_SUCCESS else f
             | [] => f
             end in
    let s := if result_ne f SOCKET_SUCCESS then set_result s f else s in
    let has_next := match control_command s with
                    | _ :: _ :: _ => true
                    | _ => false
                    end in
    if has_next && result_eq f SOCKET_SUCCESS then socket_run_next s
    else
      let s := set_control_command s [] in
      let s := set_control_command_id s None in
      match state s with
      | SOCKET_START_PRE =>
          if result_eq f SOCKET_SUCCESS then socket_enter_start_chown s
          else socket_enter_signal s SOCKET_FINAL_SIGTERM f
      | SOCKET_START_CHOWN =>
          if result_eq f SOCKET_SUCCESS then socket_enter_start_post s
          else socket_enter_stop_pre s f
      | SOCKET_START_POST =>
          if result_eq f SOCKET_SUCCESS then socket_enter_listening s
          else socket_enter_stop_pre s f
      | SOCKET_STOP_PRE | SOCKET_STOP_PRE_SIGTERM | SOCKET_STOP_PRE_SIGKILL =>
          socket_enter_stop_post s f
      | SOCKET_STOP_POST | SOCKET_FINAL_SIGTERM | SOCKET_FINAL_SIGKILL =>
          socket_enter_dead s f
      | _ => abort   (* "Uh, control process died at wrong time." *)
      end.

Definition socket_timer_event (s : Socket) : M Socket :=
  match state s with
  | SOCKET_START_PRE =>
      socket_enter_signal s SOCKET_FINAL_SIGTERM SOCKET_FAILURE_TIMEOUT
  | SOCKET_START_CHOWN | SOCKET_START_POST =>
      socket_enter_stop_pre s SOCKET_FAILURE_TIMEOUT
  | SOCKET_STOP_PRE =>
      socket_enter_signal s SOCKET_STOP_PRE_SIGTERM SOCKET_FAILURE_TIMEOUT
  | SOCKET_STOP_PRE_SIGTERM =>
      if send_sigkill (config s) then
        socket_enter_signal s SOCKET_STOP_PRE_SIGKILL SOCKET_FAILURE_TIMEOUT
      else
        socket_enter_stop_post s SOCKET_FAILURE_TIMEOUT
  | SOCKET_STOP_PRE_SIGKILL =>
      socket_enter_stop_post s SOCKET_FAILURE_TIMEOUT
  | SOCKET_STOP_POST =>
      socket_enter_signal s SOCKET_FINAL_SIGTERM SOCKET_FAILURE_TIMEOUT
  | SOCKET_FINAL_SIGTERM =>
      if send_sigkill (config s) then
        socket_enter_signal s SOCKET_FINAL_SIGKILL SOCKET_FAILURE_TIMEOUT
      else
        socket_enter_dead s SOCKET_FAILURE_TIMEOUT
  | SOCKET_FINAL_SIGKILL =>
      socket_enter_dead s SOCKET_FAILURE_TIMEOUT
  | _ => abort         (* assert_not_reached("Timeout at wrong time.") *)
  end.


Definition socket_connection_unref (s : Socket) : M Socket :=
  assert (0 <? n_connections s) ;;;
  ret (set_n_connections s (wrap_u (n_connections s - 1))).

Definition socket_reset_failed (s : Socket) : M Socket :=
  s <- (if state_eq (state s) SOCKET_FAILED
        then socket_set_state s SOCKET_DEAD else ret s) ;;
  ret (set_result s SOCKET_SUCCESS).

Definition socket_coldplug (s : Socket) : M (rc unit * Socket) :=
  assert (state_eq (state s) SOCKET_DEAD) ;;;
  let d := deserialized_state s in
  if state_ne d (state s) then
    '(r, s) <-
      (if IN_SET d [SOCKET_START_PRE; SOCKET_START_CHOWN; SOCKET_START_POST;
                    SOCKET_STOP_PRE; SOCKET_STOP_PRE_SIGTERM;
                    SOCKET_STOP_PRE_SIGKILL; SOCKET_STOP_POST;
                    SOCKET_FINAL_SIGTERM; SOCKET_FINAL_SIGKILL]
       then
         if control_pid s <=? 0 then ret (Err EBADMSG, s)
         else
           r <- unit_watch_pid (control_pid s) ;;
           match r with
           | Err e => ret (Err e, s)
           | Ok _ =>
               '(r, s) <- unit_watch_timer s ;;
               match r with
               | Err e => ret (Err e, s)
               | Ok _ => ret (Ok tt, s)
               end
           end
       else ret (Ok tt, s)) ;;
    match r with
    | Err e => ret (Err e, s)
    | Ok _ =>
        '(r, s) <-
          (if IN_SET d [SOCKET_START_CHOWN; SOCKET_START_POST; SOCKET_LISTENING;
                        SOCKET_RUNNING; SOCKET_STOP_PRE; SOCKET_STOP_PRE_SIGTERM;
                        SOCKET_STOP_PRE_SIGKILL]
           then socket_open_fds s else ret (Ok tt, s)) ;;
        match r with
        | Err e => ret (Err e, s)
        | Ok _ =>
            '(r, s) <-
              (if state_eq d SOCKET_LISTENING
               then socket_watch_fds s else ret (Ok tt, s)) ;;
            match r with
            | Err e => ret (Err e, s)
            | Ok _ =>
                s <- socket_set_state s d ;;
                ret (Ok tt, s)
            end
        end
    end
  else ret (Ok tt, s).

(** ** String tables ([DEFINE_STRING_TABLE_LOOKUP]) *)

Definition socket_state_to_string (st : SocketState) : string :=
  match st with
  | SOCKET_DEAD => "dead"
  | SOCKET_START_PRE => "start-pre"
  | SOCKET_START_CHOWN => "start-chown"
  | SOCKET_START_POST => "start-post"
  | SOCKET_LISTENING => "listening"
  | SOCKET_RUNNING => "running"
  | SOCKET_STOP_PRE => "stop-pre"
  | SOCKET_STOP_PRE_SIGTERM => "stop-pre-sigterm"
  | SOCKET_STOP_PRE_SIGKILL => "stop-pre-sigkill"
  | SOCKET_STOP_POST => "stop-post"
  | SOCKET_FINAL_SIGTERM => "final-sigterm"
  | SOCKET_FINAL_SIGKILL => "final-sigkill"
  | SOCKET_FAILED => "failed"
  end.

Definition socket_state_table : list SocketState :=
  [SOCKET_DEAD; SOCKET_START_PRE; SOCKET_START_CHOWN; SOCKET_START_POST;
   SOCKET_LISTENING; SOCKET_RUNNING; SOCKET_STOP_PRE; SOCKET_STOP_PRE_SIGTERM;
   SOCKET_STOP_PRE_SIGKILL; SOCKET_STOP_POST; SOCKET_FINAL_SIGTERM;
   SOCKET_FINAL_SIGKILL; SOCKET_FAILED].

Definition socket_state_from_string (v : string) : option SocketState :=
  find (fun st => String.eqb (socket_state_to_string st) v) socket_state_table.

Definition socket_exec_command_to_string (c : SocketExecCommand) : string :=
  match c with
  | SOCKET_EXEC_START_PRE => "StartPre"
  | SOCKET_EXEC_START_CHOWN => "StartChown"
  | SOCKET_EXEC_START_POST => "StartPost"
  | SOCKET_EXEC_STOP_PRE => "StopPre"
  | SOCKET_EXEC_STOP_POST => "StopPost"
  end.

Definition socket_exec_command_table : list SocketExecCommand :=
  [SOCKET_EXEC_START_PRE; SOCKET_EXEC_START_CHOWN; SOCKET_EXEC_START_POST;
   SOCKET_EXEC_STOP_PRE; SOCKET_EXEC_STOP_POST].

Definition socket_exec_command_from_string (v : string)
    : option SocketExecCommand :=
  find (fun c => String.eqb (socket_exec_command_to_string c) v)
       socket_exec_command_table.

Definition socket_result_to_string (r : SocketResult) : string :=
  match r with
  | SOCKET_SUCCESS => "success"
  | SOCKET_FAILURE_RESOURCES => "resources"
  | SOCKET_FAILURE_TIMEOUT => "timeout"
  | SOCKET_FAILURE_EXIT_CODE => "exit-code"
  | SOCKET_FAILURE_SIGNAL => "signal"
  | SOCKET_FAILURE_CORE_DUMP => "core-dump"
  | SOCKET_FAILURE_SERVICE_FAILED_PERMANENT => "service-failed-permanent"
  end.

Definition socket_result_table : list SocketResult :=
  [SOCKET_SUCCESS; SOCKET_FAILURE_RESOURCES; SOCKET_FAILURE_TIMEOUT;
   SOCKET_FAILURE_EXIT_CODE; SOCKET_FAILURE_SIGNAL; SOCKET_FAILURE_CORE_DUMP;
   SOCKET_FAILURE_SERVICE_FAILED_PERMANENT].

Definition socket_result_from_string (v : string) : option SocketResult :=
  find (fun r => String.eqb (socket_result_to_string r) v) socket_result_table.

(** ** scanf conversions *)

Definition is_space (c : ascii) : bool :=
  match c with
  | " " | "009" | "010" | "011" | "012" | "013" => true
  | _ => false
  end%char.

Fixpoint skip_spaces (s : string) : string :=
  match s with
  | String c r => if is_space c then skip_spaces r else s
  | EmptyString => s
  end.

Definition digit_val (c : ascii) : option Z :=
  let n := Z.of_N (N_of_ascii c) in
  if (48 <=? n) && (n <=? 57) then Some (n - 48)
  else if (97 <=? n) && (n <=? 102) then Some (n - 87)
  else if (65 <=? n) && (n <=? 70) then Some (n - 55)
  else None.

Definition is_digit_of (base : Z) (c : ascii) : bool :=
  match digit_val c with
  | Some d => d <? base
  | None => false
  end.

Fixpoint scan_digits (base : Z) (s : string) (acc : Z) : Z * string :=
  match s with
  | String c r =>
      match digit_val c with
      | Some d => if d <? base then scan_digits base r (acc * base + d)
                  else (acc, s)
      | None => (acc, s)
      end
  | EmptyString => (acc, s)
  end.

(** The integer that [strtol(s, &end, 0)], [strtoul] and the ["%i"] of
    scanf read at the start of [s], with what follows it: white space, a
    sign, then hexadecimal after ["0x"], octal after ["0"], decimal
    otherwise.  [None] when there is no number.  A ["0x"] that no
    hexadecimal digit follows is the number 0 followed by [x], as
    [strtol] reads it.  The value is the number as it is written:
    [safe_atou] and [parse_pid] check its range, and the ["%i"]
    conversions below store it into an [int], which is that number for
    every text that ["%i"] has printed from an [int]. *)
Definition scan_int (s : string) : option (Z * string) :=
  let s := skip_spaces s in
  let '(neg, s) :=
    match s with
    | String "-" r => (true, r)
    | String "+" r => (false, r)
    | _ => (false, s)
    end%char in
  let signed (v : Z) := if neg then - v else v in
  match s with
  | String c r =>
      let hex :=
        match s with
        | String "0" (String x (String h r')) =>
            if (Ascii.eqb x "x" || Ascii.eqb x "X") && is_digit_of 16 h
            then Some (String h r') else None
        | _ => None
        end%char in
      match hex with
      | Some digits =>
          let '(v, rest) := scan_digits 16 digits 0 in Some (signed v, rest)
      | None =>
          if Ascii.eqb c "0" then
            let '(v, rest) := scan_digits 8 s 0 in Some (signed v, rest)
          else if is_digit_of 10 c then
            let '(v, rest) := scan_digits 10 s 0 in Some (signed v, rest)
          else None
      end
  | EmptyString => None
  end.

(** [sscanf(value, "%i %n", &fd, &skip)]: the number read, and
    [value + skip]; [None] when fewer than one item was converted. *)
Definition sscanf_i_n (value : string) : option (Z * string) :=
  match scan_int value with
  | Some (fd, rest) => Some (fd, skip_spaces rest)
  | None => None
  end.

(** [sscanf(value, "%i %i %n", &fd, &type, &skip)]; [None] when fewer
    than two items were converted. *)
Definition sscanf_i_i_n (value : string) : option (Z * Z * string) :=
  match scan_int value with
  | Some (fd, rest) =>
      match scan_int (skip_spaces rest) with
      | Some (type, rest) => Some (fd, type, skip_spaces rest)
      | None => None
      end
  | None => None
  end.

(** Modelled from the spec: [safe_atou] (util.c is not among the
    sources) reads the [unsigned] of the [n-accepted] line: the whole
    string has to be one number that fits an [unsigned]. *)
Definition safe_atou (v : string) : option Z :=
  match scan_int v with
  | Some (k, EmptyString) =>
      if (0 <=? k) && (k <? UINT_MOD) then Some k else None
  | _ => None
  end.

(** Modelled from the spec: [parse_pid] (util.c is not among the
    sources) reads the pid of the [control-pid] line: the whole string
    has to be one number that is a positive [pid_t]. *)
Definition parse_pid (v : string) : option Z :=
  match scan_int v with
  | Some (k, EmptyString) =>
      if (0 <? k) && (k <? 2 ^ 31) then Some k else None
  | _ => None
  end.

(** ** Serialization *)

(** The file the unit is serialized to: the items written, in order. *)
Definition Line : Type := (string * string)%type.

(** Modelled from the spec: [unit_serialize_item] and
    [unit_serialize_item_format] (unit.c is not among the sources) emit
    one key/value line. *)
Definition unit_serialize_item (f : list Line) (key value : string)
    : list Line :=
  (f ++ [(key, value)])%list.

(** Modelled from the spec: the fd set shared with the new process image
    (fdset.c is not among the sources): a set of descriptors the
    serializer duplicates owned fds into, and the deserializer pulls them
    out of. *)
Definition FDSet : Type := list Z.

Definition fdset_contains (fds : FDSet) (fd : Z) : bool :=
  existsb (Z.eqb fd) fds.

Definition fdset_remove (fds : FDSet) (fd : Z) : Z * FDSet :=
  (fd, filter (fun x => negb (x =? fd)) fds).

Definition fdset_put_dup (fds : FDSet) (fd : Z) : M (rc N * FDSet) :=
  r <- ask_rc ;;
  match r with
  | Err _ => ret (r, fds)
  | Ok copy =>
      emit (EvDup fd (Z.of_N copy)) ;;;
      ret (r, if fdset_contains fds (Z.of_N copy) then fds
              else Z.of_N copy :: fds)
  end.

Fixpoint socket_serialize_ports (e : Env) (ps : list SocketPort)
    (f : list Line) (fds : FDSet) : M (rc unit * list Line * FDSet) :=
  match ps with
  | [] => ret (Ok tt, f, fds)
  | p :: rest =>
      if p_fd p <? 0 then socket_serialize_ports e rest f fds
      else
        '(r, fds) <- fdset_put_dup fds (p_fd p) ;;
        match r with
        | Err en => ret (Err en, f, fds)
        | Ok copy =>
            let copy := Z.of_N copy in
            match p_type p with
            | SOCKET_SOCKET =>
                match socket_address_print e (p_address p) with
                | Err en => ret (Err en, f, fds)
                | Ok t =>
                    let f :=
                      if Have_linux_netlink_h e && AF_NETLINK_family (p_address p)
                      then unit_serialize_item f "netlink"
                             (fmt_i copy ++ " " ++ t)
                      else unit_serialize_item f "socket"
                             (fmt_i copy ++ " " ++ fmt_i (sa_type (p_address p))
                                ++ " " ++ t) in
                    socket_serialize_ports e rest f fds
                end
            | SOCKET_SPECIAL =>
                socket_serialize_ports e rest
                  (unit_serialize_item f "special" (fmt_i copy ++ " " ++ p_path p))
                  fds
            | SOCKET_MQUEUE =>
                socket_serialize_ports e rest
                  (unit_serialize_item f "mqueue" (fmt_i copy ++ " " ++ p_path p))
                  fds
            | SOCKET_FIFO =>
                socket_serialize_ports e rest
                  (unit_serialize_item f "fifo" (fmt_i copy ++ " " ++ p_path p))
                  fds
            end
        end
  end.

Definition socket_serialize (s : Socket) (f : list Line) (fds : FDSet)
    : M (rc unit * list Line * FDSet) :=
  e <- get_env ;;
  let f := unit_serialize_item f "state" (socket_state_to_string (state s)) in
  let f := unit_serialize_item f "result" (socket_result_to_string (result s)) in
  let f := unit_serialize_item f "n-accepted" (fmt_u (n_accepted s)) in
  let f := if 0 <? control_pid s
           then unit_serialize_item f "control-pid" (fmt_u (control_pid s))
           else f in
  let f := match control_command_id s with
           | Some c => unit_serialize_item f "control-command"
                         (socket_exec_command_to_string c)
           | None => f
           end in
  '(r, f, fds) <- socket_serialize_ports e (ports s) f fds ;;
  match r with
  | Err en => ret (Err en, f, fds)
  | Ok _ => ret (Ok tt, (f ++ exec_context_serialize e (exec_context s))%list, fds)
  end.

(** The loop that looks for the port of a line and, when there is one,
    closes its fd and moves [fd] from the set into it. *)
Fixpoint deserialize_port (test : SocketPort -> bool) (fd : Z)
    (ps : list SocketPort) (fds : FDSet) : M (list SocketPort * FDSet) :=
  match ps with
  | [] => ret ([], fds)
  | p :: rest =>
      if test p then
        safe_close (p_fd p) ;;;
        let '(fd, fds) := fdset_remove fds fd in
        ret (set_fd p fd :: rest, fds)
      else
        '(rest', fds) <- deserialize_port test fd rest fds ;;
        ret (p :: rest', fds)
  end.

Definition socket_deserialize_item (s : Socket) (key value : string)
    (fds : FDSet) : M (rc unit * Socket * FDSet) :=
  e <- get_env ;;
  let by_path (t : SocketPortType) :=
    match sscanf_i_n value with
    | Some (fd, rest) =>
        if (fd <? 0) || negb (fdset_contains fds fd) then ret (Ok tt, s, fds)
        else
          '(ps, fds) <- deserialize_port
                          (fun p => SocketPortType_beq (p_type p) t &&
                                    String.eqb (p_path p) rest)
                          fd (ports s) fds ;;
          ret (Ok tt, set_ports s ps, fds)
    | None => ret (Ok tt, s, fds)
    end in
  if String.eqb key "state" then
    match socket_state_from_string value with
    | None => ret (Ok tt, s, fds)
    | Some st => ret (Ok tt, set_deserialized_state s st, fds)
    end
  else if String.eqb key "result" then
    match socket_result_from_string value with
    | None => ret (Ok tt, s, fds)
    | Some f =>
        if result_ne f SOCKET_SUCCESS then ret (Ok tt, set_result s f, fds)
        else ret (Ok tt, s, fds)
    end
  else if String.eqb key "n-accepted" then
    match safe_atou value with
    | None => ret (Ok tt, s, fds)
    | Some k => ret (Ok tt, set_n_accepted s (wrap_u (n_accepted s + k)), fds)
    end
  else if String.eqb key "control-pid" then
    match parse_pid value with
    | None => ret (Ok tt, s, fds)
    | Some pid => ret (Ok tt, set_control_pid s pid, fds)
    end
  else if String.eqb key "control-command" then
    match socket_exec_command_from_string value with
    | None => ret (Ok tt, s, fds)
    | Some c =>
        let s := set_control_command_id s (Some c) in
        ret (Ok tt, set_control_command s (exec_command (config s) c), fds)
    end
  else if String.eqb key "fifo" then by_path SOCKET_FIFO
  else if String.eqb key "special" then by_path SOCKET_SPECIAL
  else if String.eqb key "mqueue" then by_path SOCKET_MQUEUE
  else if String.eqb key "socket" then
    match sscanf_i_i_n value with
    | Some (fd, type, rest) =>
        if (fd <? 0) || (type <? 0) || negb (fdset_contains fds fd)
        then ret (Ok tt, s, fds)
        else
          '(ps, fds) <- deserialize_port
                          (fun p => socket_address_is e (p_address p) rest type)
                          fd (ports s) fds ;;
          ret (Ok tt, set_ports s ps, fds)
    | None => ret (Ok tt, s, fds)
    end
  else if Have_linux_netlink_h e && String.eqb key "netlink" then
    match sscanf_i_n value with
    | Some (fd, rest) =>
        if (fd <? 0) || negb (fdset_contains fds fd) then ret (Ok tt, s, fds)
        else
          '(ps, fds) <- deserialize_port
                          (fun p => socket_address_is_netlink e (p_address p) rest)
                          fd (ports s) fds ;;
          ret (Ok tt, set_ports s ps, fds)
    | None => ret (Ok tt, s, fds)
    end
  else if String.eqb key "tmp-dir" then
    oom <- alloc_failed ;;
    if oom then ret (Err ENOMEM, s, fds)
    else ret (Ok tt,
              set_exec_context s {| tmp_dir := Some value;
                                    var_tmp_dir := var_tmp_dir (exec_context s) |},
              fds)
  else if String.eqb key "var-tmp-dir" then
    oom <- alloc_failed ;;
    if oom then ret (Err ENOMEM, s, fds)
    else ret (Ok tt,
              set_exec_context s {| tmp_dir := tmp_dir (exec_context s);
                                    var_tmp_dir := Some value |},
              fds)
  else ret (Ok tt, s, fds).

(** Feeding the lines of a serialized unit to [socket_deserialize_item],
    one after the other. *)
Fixpoint deserialize_lines (s : Socket) (lines : list Line) (fds : FDSet)
    : M (Socket * FDSet) :=
  match lines with
  | [] => ret (s, fds)
  | (key, value) :: rest =>
      '(_, s, fds) <- socket_deserialize_item s key value fds ;;
      deserialize_lines s rest fds
  end.

(** The unit as [socket_init] and a load of the same fragment leave it:
    the configuration and the list of ports of [s], nothing open, nothing
    running. *)
Definition freshly_loaded (s : Socket) : Socket :=
  {| config := config s;
     state := SOCKET_DEAD;
     deserialized_state := SOCKET_DEAD;
     result := SOCKET_SUCCESS;
     n_accepted := 0;
     n_connections := 0;
     control_pid := 0;
     control_command_id := None;
     control_command := [];
     timer_watch := false;
     ports := map (fun p => set_fd_watch (set_fd p (-1)) false) (ports s);
     service := service s;
     exec_context := {| tmp_dir := None; var_tmp_dir := None |} |}.

(** * Reasoning about computations *)

(** [wpt m Q w]: run from [w], [m] returns, and its value and the world
    after it satisfy [Q]. *)
Definition wpt {A} (m : M A) (Q : A -> World -> Prop) (w : World) : Prop :=
  match m w with
  | Some (a, w') => Q a w'
  | None => False
  end.

(** [wp m Q w]: if [m] returns when run from [w], its value and the world
    after it satisfy [Q]. *)
Definition wp {A} (m : M A) (Q : A -> World -> Prop) (w : World) : Prop :=
  match m w with
  | Some (a, w') => Q a w'
  | None => True
  end.

(** [extends P w w']: [w'] is [w] after some more calls, whose recorded
    events all satisfy [P]. *)
Definition extends (P : Event -> Prop) (w w' : World) : Prop :=
  env w' = env w /\ exists new, trace w' = (new ++ trace w)%list /\ Forall P new.

(** The events of the stop path: it closes fds of ports of the unit, and
    neither opens nor hands over anything. *)
Definition quiet (fds : list Z) (e : Event) : Prop :=
  match e with
  | EvClose fd => 0 <= fd /\ In fd fds
  | EvOpen _ _ | EvOpenFailed _ | EvAddJob _ | EvSetSocketFd _ _ | EvDup _ _ => False
  | _ => True
  end.

Definition port_fds (s : Socket) : list Z := map p_fd (ports s).

(** What closing and unwatching do to one port *)
Definition close_port (p : SocketPort) : SocketPort :=
  if p_fd p <? 0 then p else set_fd (unit_unwatch_fd p) (-1).

Definition unwatch_port (p : SocketPort) : SocketPort :=
  if p_fd p <? 0 then p else unit_unwatch_fd p.

(** The states whose entry keeps the control process and the timer ... *)
Definition keeps_control (st : SocketState) : bool :=
  IN_SET st [SOCKET_START_PRE; SOCKET_START_CHOWN; SOCKET_START_POST;
             SOCKET_STOP_PRE; SOCKET_STOP_PRE_SIGTERM; SOCKET_STOP_PRE_SIGKILL;
             SOCKET_STOP_POST; SOCKET_FINAL_SIGTERM; SOCKET_FINAL_SIGKILL].

(** ... and the states whose entry keeps the ports open *)
Definition keeps_fds (st : SocketState) : bool :=
  IN_SET st [SOCKET_START_CHOWN; SOCKET_START_POST; SOCKET_LISTENING;
             SOCKET_RUNNING; SOCKET_STOP_PRE; SOCKET_STOP_PRE_SIGTERM;
             SOCKET_STOP_PRE_SIGKILL].

(** The ports after [socket_set_state(s, st)] *)
Definition ports_after_set_state (st : SocketState) (ps : list SocketPort)
    : list SocketPort :=
  let ps := if state_ne st SOCKET_LISTENING then map unwatch_port ps else ps in
  if keeps_fds st then ps else map close_port ps.

(** The unit after [socket_set_state(s, st)] *)
Record set_state_post (s : Socket) (st : SocketState) (s' : Socket) : Prop := {
  ssp_state : state s' = st;
  ssp_result : result s' = result s;
  ssp_config : config s' = config s;
  ssp_n_accepted : n_accepted s' = n_accepted s;
  ssp_n_connections : n_connections s' = n_connections s;
  ssp_service : service s' = service s;
  ssp_deserialized : deserialized_state s' = deserialized_state s;
  ssp_exec_context : exec_context s' = exec_context s;
  ssp_ports : ports s' = ports_after_set_state st (ports s);
  ssp_control :
    if keeps_control st
    then control_pid s' = control_pid s /\
         control_command_id s' = control_command_id s /\
         control_command s' = control_command s /\
         timer_watch s' = timer_watch s
    else (control_pid s' = 0 \/ control_pid s' = control_pid s) /\
         control_pid s' <= 0 /\
         control_command_id s' = None /\
         control_command s' = [] /\ timer_watch s' = false
}.

(** What a step of the stop path leaves alone *)
Record sframe (s s' : Socket) : Prop := {
  sf_config : config s' = config s;
  sf_n_accepted : n_accepted s' = n_accepted s;
  sf_n_connections : n_connections s' = n_connections s;
  sf_service : service s' = service s;
  sf_deserialized : deserialized_state s' = deserialized_state s;
  sf_fds : incl (port_fds s') (-1 :: port_fds s)
}.

Definition step (s : Socket) (w : World) (s' : Socket) (w' : World) : Prop :=
  sframe s s' /\ extends (quiet (port_fds s)) w w'.

(** The result a transition latches:
    [if (f != SOCKET_SUCCESS) s->result = f]. *)
Definition latch (r f : SocketResult) : SocketResult :=
  if result_ne f SOCKET_SUCCESS then f else r.

(** Where a step of the stop path that aims at state [first] ends: in
    [first] with the latched result, or further down the path. *)
Definition outcome (r0 : SocketResult) (first : SocketState)
    (later : list SocketState) (s' : Socket) : Prop :=
  (state s' = first /\ result s' = r0) \/
  (In (state s') later /\
   (result s' = r0 \/ result s' = SOCKET_FAILURE_RESOURCES)) \/
  (state s' = SOCKET_DEAD /\ result s' = SOCKET_SUCCESS /\ r0 = SOCKET_SUCCESS) \/
  (state s' = SOCKET_FAILED /\ result s' <> SOCKET_SUCCESS /\
   (result s' = r0 \/ result s' = SOCKET_FAILURE_RESOURCES)).

(** The end of the stop path: dead when nothing failed, failed
    otherwise. *)
Definition terminal (r0 : SocketResult) (s' : Socket) : Prop :=
  (state s' = SOCKET_DEAD /\ result s' = SOCKET_SUCCESS /\ r0 = SOCKET_SUCCESS) \/
  (state s' = SOCKET_FAILED /\ result s' <> SOCKET_SUCCESS /\ result s' = r0).

Definition stop_post_states : list SocketState :=
  [SOCKET_STOP_POST; SOCKET_FINAL_SIGTERM].

Definition is_stop_pre_signal (st : SocketState) : bool :=
  state_eq st SOCKET_STOP_PRE_SIGTERM || state_eq st SOCKET_STOP_PRE_SIGKILL.

(** ** The answers a transition consumes *)
(** The [k]-th call into the manager succeeds. *)
Definition answer_ok (e : Env) (k : nat) : bool :=
  match o_rc e k with Ok _ => true | Err _ => false end.

(** The [n] calls from the [t]-th on all succeed. *)
Definition all_ok (e : Env) (t n : nat) : bool :=
  forallb (answer_ok e) (seq t n).

(** Every call made between [w] and [w'] succeeded. *)
Definition calls_ok (w w' : World) : bool :=
  all_ok (env w) (tick w) (tick w' - tick w).

(** [unit_kill_context] called at [t] signals processes that are waited
    for, and the timer is armed after it. *)
Definition kill_waits (e : Env) (t : nat) : bool :=
  match o_rc e t with
  | Ok n => (0 <? n)%N && answer_ok e (S t)
  | Err _ => false
  end.

(** There is a command to run, and the four calls of [socket_spawn]
    made from [t] on (timer, printf, spawn, watch) succeed. *)
Definition command_runs (cmds : list ExecCommand) (e : Env) (t : nat) : bool :=
  match cmds with
  | [] => false
  | _ :: _ => all_ok e t 4
  end.

(** The result after a transition that was to latch [r0], run from
    [w]: [r0] when every call into the manager succeeded, and
    FailureResources when one of them failed. *)
Definition latched (w : World) (r0 : SocketResult) (s' : Socket) (w' : World)
    : Prop :=
  env w' = env w /\ (tick w <= tick w')%nat /\
  result s' = if calls_ok w w' then r0 else SOCKET_FAILURE_RESOURCES.

(** The unit went past the state it aimed at: it is in one of the
    states [later], or at the end of the stop path, failed iff a
    failure is latched. *)
Definition beyond (later : list SocketState) (s' : Socket) : Prop :=
  In (state s') later \/
  state s' = (if result_ne (result s') SOCKET_SUCCESS
              then SOCKET_FAILED else SOCKET_DEAD).

(** Where a transition that aims at state [first] ends: when [entered]
    the unit is in [first] (every call succeeded, so the result is
    [r0]), and otherwise beyond it. *)
Definition lands (w : World) (r0 : SocketResult) (first : SocketState)
    (entered : bool) (later : list SocketState) (s' : Socket) (w' : World)
    : Prop :=
  latched w r0 s' w' /\
  if entered then state s' = first /\ calls_ok w w' = true
  else beyond later s'.

(** ** Timeouts *)

(** The order in which the life of a unit passes through its states *)
Definition stage (st : SocketState) : Z :=
  match st with
  | SOCKET_START_PRE => 1
  | SOCKET_START_CHOWN => 2
  | SOCKET_START_POST => 3
  | SOCKET_LISTENING => 4
  | SOCKET_RUNNING => 5
  | SOCKET_STOP_PRE => 6
  | SOCKET_STOP_PRE_SIGTERM => 7
  | SOCKET_STOP_PRE_SIGKILL => 8
  | SOCKET_STOP_POST => 9
  | SOCKET_FINAL_SIGTERM => 10
  | SOCKET_FINAL_SIGKILL => 11
  | SOCKET_DEAD | SOCKET_FAILED => 12
  end.

(** The timeout table of the specification: the state a timer fire in a
    transient state goes to, with FailureTimeout.  Other states have no
    timer. *)
Definition timeout_table (st : SocketState) (send_sigkill : bool)
    : option SocketState :=
  match st with
  | SOCKET_START_PRE => Some SOCKET_FINAL_SIGTERM
  | SOCKET_START_CHOWN | SOCKET_START_POST => Some SOCKET_STOP_PRE
  | SOCKET_STOP_PRE => Some SOCKET_STOP_PRE_SIGTERM
  | SOCKET_STOP_PRE_SIGTERM =>
      Some (if send_sigkill then SOCKET_STOP_PRE_SIGKILL else SOCKET_STOP_POST)
  | SOCKET_STOP_PRE_SIGKILL => Some SOCKET_STOP_POST
  | SOCKET_STOP_POST => Some SOCKET_FINAL_SIGTERM
  | SOCKET_FINAL_SIGTERM =>
      Some (if send_sigkill then SOCKET_FINAL_SIGKILL else SOCKET_DEAD)
  | SOCKET_FINAL_SIGKILL => Some SOCKET_DEAD
  | _ => None
  end.

(** The state [target] of the timeout table is entered from unit [s] in
    world [w]: a state with a control command when the command exists
    and can be spawned, a signal state when [unit_kill_context] has
    signalled processes to wait for and the timer is armed.  Dead is
    always entered. *)
Definition enters (target : SocketState) (s : Socket) (w : World) : bool :=
  match target with
  | SOCKET_STOP_PRE =>
      command_runs (exec_command (config s) SOCKET_EXEC_STOP_PRE)
                   (env w) (tick w)
  | SOCKET_STOP_POST =>
      command_runs (exec_command (config s) SOCKET_EXEC_STOP_POST)
                   (env w) (tick w)
  | SOCKET_STOP_PRE_SIGTERM | SOCKET_STOP_PRE_SIGKILL
  | SOCKET_FINAL_SIGTERM | SOCKET_FINAL_SIGKILL =>
      kill_waits (env w) (tick w)
  | _ => true
  end.

(** The machine goes to [target] with FailureTimeout: when [target] is
    entered the unit is in [target] with that result, and otherwise it
    is further down the stop path with a failure.  Going to Dead with a
    failure ends in the failed state. *)
Definition goes_to (target : SocketState) (entered : bool) (s' : Socket)
    : Prop :=
  match target with
  | SOCKET_DEAD =>
      state s' = SOCKET_FAILED /\ result s' = SOCKET_FAILURE_TIMEOUT
  | _ =>
      if entered
      then state s' = target /\ result s' = SOCKET_FAILURE_TIMEOUT
      else stage target < stage (state s') /\ result s' <> SOCKET_SUCCESS
  end.

(** What opening the ports leaves alone: everything but the ports and
    the service reference. *)
Record oframe (s s' : Socket) : Prop := {
  of_config : config s' = config s;
  of_state : state s' = state s;
  of_result : result s' = result s;
  of_n_accepted : n_accepted s' = n_accepted s;
  of_n_connections : n_connections s' = n_connections s;
  of_deserialized : deserialized_state s' = deserialized_state s;
  of_control_pid : control_pid s' = control_pid s;
  of_control_command_id : control_command_id s' = control_command_id s;
  of_control_command : control_command s' = control_command s;
  of_timer_watch : timer_watch s' = timer_watch s;
  of_exec_context : exec_context s' = exec_context s
}.

(** No constructor of an endpoint failed. *)
Definition no_open_failed (e : Event) : Prop :=
  match e with EvOpenFailed _ => False | _ => True end.

(** No endpoint was created or closed. *)
Definition no_fd_event (e : Event) : Prop :=
  match e with
  | EvOpenFailed _ | EvOpen _ _ | EvClose _ | EvSetSocketFd _ _ | EvDup _ _ => False
  | _ => True
  end.

(** A port after [socket_open_fds] went over it: a port that was open is
    as it was, a port that was closed has the fd of its constructor. *)
Definition opened_or_kept (p p' : SocketPort) : Prop :=
  if p_fd p <? 0 then 0 <= p_fd p' /\ p' = set_fd p (p_fd p') else p' = p.

(** The constructor calls that opened [ps'] from [ps], first port first *)
Fixpoint opening (ps ps' : list SocketPort) : list Event :=
  match ps, ps' with
  | p :: rest, p' :: rest' =>
      if p_fd p <? 0 then EvOpen (p_type p) (p_fd p') :: opening rest rest'
      else opening rest rest'
  | _, _ => []
  end.

(** The loop of [socket_open_fds] stopped at port [p]: the ports before
    it were gone over, [p] and the ports after it are as they were. *)
Definition opened_until (ps ps' pre pre' : list SocketPort) (p : SocketPort)
    : Prop :=
  exists post, ps = (pre ++ p :: post)%list /\ ps' = (pre' ++ p :: post)%list /\
               Forall2 opened_or_kept pre pre' /\ p_fd p < 0.

Definition open_fds_loop_post (s : Socket) (w : World) (ps : list SocketPort)
    (x : OpenExit) (s1 : Socket) (ps' : list SocketPort) (w' : World) : Prop :=
  oframe s s1 /\ ports s1 = ports s /\ env w' = env w /\
  match x with
  | OpenDone =>
      Forall2 opened_or_kept ps ps' /\
      trace w' = (rev (opening ps ps') ++ trace w)%list
  | OpenReturn _ =>
      exists pre pre' p, opened_until ps ps' pre pre' p /\
        trace w' = (rev (opening pre pre') ++ trace w)%list
  | OpenRollback _ =>
      exists pre pre' p, opened_until ps ps' pre pre' p /\
        trace w' = (EvOpenFailed (p_type p) :: rev (opening pre pre') ++ trace w)%list
  end.

(** The [safe_close] calls of [socket_close_fds], first port first *)
Definition closing (ps : list SocketPort) : list Event :=
  flat_map (fun p => if p_fd p <? 0 then [] else [EvClose (p_fd p)]) ps.

Definition open_fds_post (s : Socket) (w : World) (r : rc unit) (s' : Socket)
    (w' : World) : Prop :=
  oframe s s' /\ env w' = env w /\
  match r with
  | Ok _ =>
      Forall2 opened_or_kept (ports s) (ports s') /\
      trace w' = (rev (opening (ports s) (ports s')) ++ trace w)%list
  | Err _ =>
      exists pre pre' p mid,
        opened_until (ports s) mid pre pre' p /\
        ((ports s' = mid /\
          trace w' = (rev (opening pre pre') ++ trace w)%list) \/
         (ports s' = map close_port mid /\
          trace w' = (rev (closing mid) ++
                      EvOpenFailed (p_type p) :: rev (opening pre pre') ++
                      trace w)%list))
  end.

(** A port after [socket_watch_fds] or [socket_unwatch_fds] went over
    it: only its watch may differ, and only when it is open. *)
Definition rewatched (p p' : SocketPort) : Prop :=
  p' = set_fd_watch p (p_fd_watch p') /\ (p_fd p < 0 -> p' = p).

Definition all_open_watched (ps : list SocketPort) : Prop :=
  Forall (fun p => 0 <= p_fd p -> p_fd_watch p = true) ps.

Definition all_open_unwatched (ps : list SocketPort) : Prop :=
  Forall (fun p => 0 <= p_fd p -> p_fd_watch p = false) ps.

(** What watching the ports leaves alone: everything but the ports. *)
Definition wframe (s s' : Socket) : Prop :=
  oframe s s' /\ service s' = service s /\ Forall2 rewatched (ports s) (ports s').

(** The unit entered the stop path for a failure of the manager. *)
Definition stop_path_entered (s' : Socket) : Prop :=
  In (state s') [SOCKET_STOP_PRE; SOCKET_STOP_POST; SOCKET_FINAL_SIGTERM;
                 SOCKET_FAILED] /\
  result s' = SOCKET_FAILURE_RESOURCES.

(** Where the start path ends: in one of its own states with the result
    untouched, or on the stop path with FailureResources latched. *)
Definition started (r0 : SocketResult) (s' : Socket) : Prop :=
  (In (state s') [SOCKET_START_PRE; SOCKET_START_CHOWN; SOCKET_START_POST;
                  SOCKET_LISTENING] /\ result s' = r0) \/
  stop_path_entered s'.

(** The events of a dispatch after the hand-over: the stop path, or the
    start job of the service. *)
Definition quiet_or_job (fds : list Z) (e : Event) : Prop :=
  quiet fds e \/ exists i, e = EvAddJob i.

(** The dispatch of an accepted connection [cfd] handed the fd to the
    service and counted the connection ... *)
Definition dispatch_handed (s : Socket) (cfd : Z) (w : World) (s' : Socket)
    (w' : World) : Prop :=
  exists id w1 w2,
    extends (quiet (port_fds s)) w w1 /\
    env w2 = env w1 /\ trace w2 = EvSetSocketFd id cfd :: trace w1 /\
    extends (quiet_or_job (port_fds s)) w2 w' /\
    n_connections s' = wrap_u (n_connections s + 1).

(** ... or closed it and left the count alone. *)
Definition dispatch_closed (s : Socket) (cfd : Z) (w : World) (s' : Socket)
    (w' : World) : Prop :=
  exists w1,
    extends (quiet (port_fds s)) w w1 /\
    env w' = env w1 /\ trace w' = EvClose cfd :: trace w1 /\
    n_connections s' = n_connections s.

Definition dispatched (s : Socket) (cfd : Z) (w : World) (s' : Socket)
    (w' : World) : Prop :=
  dispatch_handed s cfd w s' w' \/ dispatch_closed s cfd w s' w'.

(** * Runs of the unit *)

(** What can happen to a unit: the calls of the manager into the vtable,
    and an accepted connection handed to the dispatch. *)
Inductive UnitEvent :=
| OnStart
| OnStop
| OnTimer
| OnSigchld (pid : Z) (code : SigchldCode) (status : Z)
| OnFdEvent (fd revents : Z)
| OnConnection (cfd : Z)
| OnResetFailed.

Definition handle (s : Socket) (ev : UnitEvent) : M Socket :=
  match ev with
  | OnStart => '(_, s') <- socket_start s ;; ret s'
  | OnStop => '(_, s') <- socket_stop s ;; ret s'
  | OnTimer => socket_timer_event s
  | OnSigchld pid code status => socket_sigchld_event s pid code status
  | OnFdEvent fd revents => socket_fd_event s fd revents
  | OnConnection cfd => socket_enter_running s cfd
  | OnResetFailed => socket_reset_failed s
  end.

(** The unit after each event of a run, first event first *)
Fixpoint run (s : Socket) (evs : list UnitEvent) : M (list Socket) :=
  match evs with
  | [] => ret []
  | ev :: rest =>
      s' <- handle s ev ;;
      ss <- run s' rest ;;
      ret (s' :: ss)
  end.

(** ** Sample units

    An environment in which calls answer as [answers] and [flags] say,
    addresses print as their path, and a control process has exited
    cleanly when it returned 0 or died of SIGHUP, SIGINT, SIGPIPE or
    SIGTERM. *)
Definition sample_service : Service :=
  {| svc_id := "x.service"; svc_load_state := UNIT_LOADED;
     svc_state := SERVICE_DEAD; svc_exec_start := None; svc_is_sysv := false |}.

Definition sample_env (answers : nat -> rc N) (flags : nat -> bool)
    (addrs : nat -> rc sockaddr) : Env :=
  {| o_rc := answers;
     o_bool := flags;
     o_sockaddr := addrs;
     o_ucred := fun _ => Ok (1%N, 0%N);
     o_unit := fun _ => Ok sample_service;
     Use_MQ := true;
     Have_linux_netlink_h := false;
     Have_SO_PEERCRED := true;
     HAVE_SYSV_COMPAT := false;
     socket_address_print :=
       fun a => match sa_sockaddr a with
                | SA_un path => Ok path
                | _ => Ok "0.0.0.0:9000"
                end;
     socket_address_is :=
       fun a text type =>
         (sa_type a =? type) &&
         match sa_sockaddr a with
         | SA_un path => String.eqb path text
         | SA_in _ _ => String.eqb "0.0.0.0:9000" text
         | _ => false
         end;
     socket_address_is_netlink := fun _ _ => false;
     inet_ntop6 := fun _ => "::";
     is_clean_exit :=
       fun code status =>
         match code with
         | CLD_EXITED => status =? 0
         | CLD_KILLED => (status =? 1) || (status =? 2) || (status =? 13)
                         || (status =? 15)
         | _ => false
         end;
     unit_name_to_prefix := fun _ => Some "x";
     unit_name_build := fun prefix instance suffix =>
                          Some (prefix ++ "@" ++ instance ++ suffix);
     exec_context_serialize :=
       fun c =>
         (match tmp_dir c with Some d => [("tmp-dir", d)] | None => [] end ++
          match var_tmp_dir c with Some d => [("var-tmp-dir", d)] | None => [] end)%list
  |}.

(** The addresses of a connection from 127.0.0.1 to port 9000 *)
Definition loopback (n : nat) : rc sockaddr :=
  Ok (SA_in [127; 0; 0; 1] [35; 40]).

(** Every call succeeds and returns 7; no stop is pending. *)
Definition sample_world : World :=
  {| env := sample_env (fun _ => Ok 7%N) (fun _ => false) loopback;
     tick := 0; trace := [] |}.

(** The world [n] calls later *)
Definition after_calls (n : nat) (w : World) : World :=
  Nat.iter n next_tick w.

(** As [sample_world], but the [n]-th call fails. *)
Definition failing_world (n : nat) : World :=
  {| env := sample_env (fun k => if Nat.eqb k n then Err (EOTHER 0) else Ok 7%N)
                       (fun _ => false) loopback;
     tick := 0; trace := [] |}.

(** As [sample_world], but the address lookup at the [n]-th call finds
    the connection reset. *)
Definition reset_world (n : nat) : World :=
  {| env := sample_env (fun _ => Ok 7%N) (fun _ => false)
                       (fun k => if Nat.eqb k n then Err ENOTCONN else loopback k);
     tick := 0; trace := [] |}.

(** As [sample_world], but a stop of the unit is pending at the [n]-th
    call. *)
Definition stop_pending_world (n : nat) : World :=
  {| env := sample_env (fun _ => Ok 7%N) (fun k => Nat.eqb k n) loopback;
     tick := 0; trace := [] |}.

Definition sample_config (acc : bool) (max : Z)
    (cmds : SocketExecCommand -> list ExecCommand) : SocketConfig :=
  {| id := "x.socket"; accept := acc; max_connections := max;
     exec_command := cmds; user := ""; group := ""; send_sigkill := true |}.

Definition fifo_port (path : string) (fd : Z) (watched : bool) : SocketPort :=
  {| p_type := SOCKET_FIFO;
     p_address := {| sa_sockaddr := SA_unspec; sa_type := 0 |};
     p_path := path; p_fd := fd; p_fd_watch := watched |}.

Definition stream_port (fd : Z) (watched : bool) : SocketPort :=
  {| p_type := SOCKET_SOCKET;
     p_address := {| sa_sockaddr := SA_in [0; 0; 0; 0] [35; 40]; sa_type := 1 |};
     p_path := ""; p_fd := fd; p_fd_watch := watched |}.

Definition sample_unit (c : SocketConfig) (st : SocketState)
    (ps : list SocketPort) (svc : option Service) : Socket :=
  {| config := c; state := st; deserialized_state := SOCKET_DEAD;
     result := SOCKET_SUCCESS; n_accepted := 0; n_connections := 0;
     control_pid := 0; control_command_id := None; control_command := [];
     timer_watch := false; ports := ps; service := svc;
     exec_context := {| tmp_dir := None; var_tmp_dir := None |} |}.

Definition no_commands (c : SocketExecCommand) : list ExecCommand := [].

(** ExecStartPre=/bin/sleep 10 *)
Definition sleep_before_start (c : SocketExecCommand) : list ExecCommand :=
  match c with
  | SOCKET_EXEC_START_PRE =>
      [{| c_path := "/bin/sleep"; c_argv := ["/bin/sleep"; "10"];
          c_ignore := false |}]
  | _ => []
  end.

(** A dead unit with one FIFO and its service *)
Definition fifo_unit : Socket :=
  sample_unit (sample_config false 64 no_commands) SOCKET_DEAD
    [fifo_port "/run/x.pipe" (-1) false] (Some sample_service).

(** A dead unit with ExecStartPre *)
Definition slow_unit : Socket :=
  sample_unit (sample_config false 64 sleep_before_start) SOCKET_DEAD
    [fifo_port "/run/x.pipe" (-1) false] (Some sample_service).

(** A listening Accept=yes unit with MaxConnections=1 *)
Definition accepting_unit : Socket :=
  sample_unit (sample_config true 1 no_commands) SOCKET_LISTENING
    [stream_port 5 true] None.

(** [accepting_unit] while its one connection is being served *)
Definition busy_unit : Socket :=
  set_n_connections (set_n_accepted accepting_unit 1) 1.

(** [slow_unit] while its ExecStartPre runs *)
Definition starting_unit : Socket :=
  set_control_pid (set_state_field slow_unit SOCKET_START_PRE) 7.

(** A unit with two FIFOs of which the first is open *)
Definition half_open_unit : Socket :=
  sample_unit (sample_config false 64 no_commands) SOCKET_DEAD
    [fifo_port "/run/a.pipe" 5 false; fifo_port "/run/b.pipe" (-1) false]
    (Some sample_service).

(** A listening unit with one watched FIFO *)
Definition listening_unit : Socket :=
  sample_unit (sample_config false 64 no_commands) SOCKET_LISTENING
    [fifo_port "/run/x.pipe" 5 true] (Some sample_service).

(** What [socket_set_state(s, st)] does to one port *)
Definition port_after_set_state (st : SocketState) (p : SocketPort)
    : SocketPort :=
  let p := if state_ne st SOCKET_LISTENING then unwatch_port p else p in
  if keeps_fds st then p else close_port p.

(** The watches of a unit are on open fds. *)
Definition watches_on_open_fds (ps : list SocketPort) : Prop :=
  Forall (fun p => p_fd_watch p = true -> 0 <= p_fd p) ps.

(** What may follow a number in a line: nothing, or a blank *)
Definition ends_number (rest : string) : Prop :=
  rest = "" \/ exists r, rest = String " " r.

(** A path or address that a line can carry: scanf eats the blanks in
    front of it. *)
Definition no_leading_space (t : string) : bool :=
  match t with
  | String c _ => negb (is_space c)
  | EmptyString => true
  end.

(** ** The lines of the ports *)
(** A freshly loaded port *)
Definition closed_port (p : SocketPort) : SocketPort :=
  set_fd_watch (set_fd p (-1)) false.

(** The test with which the deserializer looks for the port of the line
    that the serializer writes for [p] *)
Definition port_test (e : Env) (p : SocketPort) : SocketPort -> bool :=
  match p_type p with
  | SOCKET_SOCKET =>
      match socket_address_print e (p_address p) with
      | Ok t =>
          if Have_linux_netlink_h e && AF_NETLINK_family (p_address p)
          then fun q => socket_address_is_netlink e (p_address q) t
          else fun q => socket_address_is e (p_address q) t
                          (sa_type (p_address p))
      | Err _ => fun _ => false
      end
  | t => fun q => SocketPortType_beq (p_type q) t &&
                  String.eqb (p_path q) (p_path p)
  end.

(** The path or the printed address of [p] survives the scanf of the
    deserializer, and the socket type is one. *)
Definition port_text_ok (e : Env) (p : SocketPort) : bool :=
  match p_type p with
  | SOCKET_SOCKET =>
      match socket_address_print e (p_address p) with
      | Ok t => no_leading_space t && (0 <=? sa_type (p_address p))
      | Err _ => false
      end
  | _ => no_leading_space (p_path p)
  end.

(** The deserializer can tell the open ports apart: the line of an open
    port finds this port, and no port before it in the list. *)
Fixpoint endpoints_distinguished (e : Env) (before ps : list SocketPort)
    : bool :=
  match ps with
  | [] => true
  | p :: rest =>
      ((p_fd p <? 0) ||
       (port_text_ok e p && port_test e p p &&
        negb (existsb (port_test e p) before))) &&
      endpoints_distinguished e (before ++ [p]) rest
  end.

(** The line that the serializer writes for the open port [p] whose fd
    was duplicated as [copy] *)
Definition port_line (e : Env) (p : SocketPort) (copy : Z) : option Line :=
  match p_type p with
  | SOCKET_SOCKET =>
      match socket_address_print e (p_address p) with
      | Ok t =>
          Some (if Have_linux_netlink_h e && AF_NETLINK_family (p_address p)
                then ("netlink", fmt_i copy ++ " " ++ t)
                else ("socket", fmt_i copy ++ " " ++
                                fmt_i (sa_type (p_address p)) ++ " " ++ t))
      | Err _ => None
      end
  | SOCKET_SPECIAL => Some ("special", fmt_i copy ++ " " ++ p_path p)
  | SOCKET_MQUEUE => Some ("mqueue", fmt_i copy ++ " " ++ p_path p)
  | SOCKET_FIFO => Some ("fifo", fmt_i copy ++ " " ++ p_path p)
  end.

Fixpoint port_lines (e : Env) (ps : list SocketPort) (copies : list Z)
    : list Line :=
  match ps with
  | [] => []
  | p :: rest =>
      if p_fd p <? 0 then port_lines e rest copies
      else match copies with
           | c :: cs =>
               (match port_line e p c with Some l => [l] | None => [] end ++
                port_lines e rest cs)%list
           | [] => []
           end
  end.

(** The [fdset_put_dup] calls of the serializer, first port first *)
Fixpoint dup_events (ps : list SocketPort) (copies : list Z) : list Event :=
  match ps with
  | [] => []
  | p :: rest =>
      if p_fd p <? 0 then dup_events rest copies
      else match copies with
           | c :: cs => EvDup (p_fd p) c :: dup_events rest cs
           | [] => []
           end
  end.

(** The freshly loaded ports with the duplicates in place of the fds *)
Fixpoint restore (ps : list SocketPort) (copies : list Z) : list SocketPort :=
  match ps with
  | [] => []
  | p :: rest =>
      if p_fd p <? 0 then closed_port p :: restore rest copies
      else match copies with
           | c :: cs => set_fd (closed_port p) c :: restore rest cs
           | [] => closed_port p :: restore rest []
           end
  end.

Definition open_count (ps : list SocketPort) : nat :=
  List.length (filter (fun p => negb (p_fd p <? 0)) ps).

(** The deserializer's step for the line of a port, given what it scanned *)
Definition transplant (s : Socket) (test : SocketPort -> bool) (fd : Z)
    (fds : FDSet) : M (rc unit * Socket * FDSet) :=
  '(ps, fds') <- deserialize_port test fd (ports s) fds ;;
  ret (Ok tt, set_ports s ps, fds').

(** ** The lines of all ports *)
(** The set after the deserializer took the duplicates [cs] out of it *)
Definition fdset_remove_all (fds : FDSet) (cs : list Z) : FDSet :=
  fold_left (fun fds c => snd (fdset_remove fds c)) cs fds.

(** ** The lines of the unit itself *)
Definition header_lines (s : Socket) : list Line :=
  ([("state", socket_state_to_string (state s));
    ("result", socket_result_to_string (result s));
    ("n-accepted", fmt_u (n_accepted s))] ++
   (if 0 <? control_pid s then [("control-pid", fmt_u (control_pid s))] else []) ++
   match control_command_id s with
   | Some c => [("control-command", socket_exec_command_to_string c)]
   | None => []
   end)%list.

(** The freshly loaded unit after the lines of [header_lines] *)
Definition header_restored (s : Socket) : Socket :=
  {| config := config s;
     state := SOCKET_DEAD;
     deserialized_state := state s;
     result := result s;
     n_accepted := n_accepted s;
     n_connections := 0;
     control_pid := control_pid s;
     control_command_id := control_command_id s;
     control_command := match control_command_id s with
                        | Some c => exec_command (config s) c
                        | None => []
                        end;
     timer_watch := false;
     ports := map closed_port (ports s);
     service := service s;
     exec_context := {| tmp_dir := None; var_tmp_dir := None |} |}.

(** The lines of the execution context carry its two keys *)
Definition exec_lines_ok (lines : list Line) : bool :=
  forallb (fun l => String.eqb (fst l) "tmp-dir" ||
                    String.eqb (fst l) "var-tmp-dir") lines.

(** What a round trip is to restore *)
Record restored (s s2 : Socket) (copies : list Z) : Prop := {
  restored_state : deserialized_state s2 = state s;
  restored_result : result s2 = result s;
  restored_n_accepted : n_accepted s2 = n_accepted s;
  restored_control_pid : control_pid s2 = control_pid s;
  restored_control_command_id : control_command_id s2 = control_command_id s;
  restored_ports : ports s2 = restore (ports s) copies
}.

(** Serializing [s] and feeding the lines written to the freshly loaded
    unit *)
Definition round_trip (s : Socket) (fds : FDSet) : M (Socket * FDSet) :=
  '(_, lines, fds') <- socket_serialize s [] fds ;;
  deserialize_lines (freshly_loaded s) lines fds'.

(** Every call succeeds, the [k]-th one returns [10 + k]: the duplicates
    handed out are 10, 11, ... *)
Definition dup_world : World :=
  {| env := sample_env (fun k => Ok (N.of_nat (10 + k))) (fun _ => false) loopback;
     tick := 0; trace := [] |}.

(** A listening unit with a FIFO and a stream socket open, a second FIFO
    closed, and three connections accepted so far *)
Definition served_unit : Socket :=
  set_n_accepted
    (sample_unit (sample_config false 64 no_commands) SOCKET_LISTENING
       [fifo_port "/run/a.pipe" 5 true; stream_port 6 true;
        fifo_port "/run/b.pipe" (-1) false]
       (Some sample_service)) 3.

(** A listening unit with ListenFIFO=/run/x.pipe given twice *)
Definition twin_unit : Socket :=
  sample_unit (sample_config false 64 no_commands) SOCKET_LISTENING
    [fifo_port "/run/x.pipe" 5 true; fifo_port "/run/x.pipe" 6 true]
    (Some sample_service).



(** What coldplugging leaves alone until it sets the state *)
Definition cold_frame (s s' : Socket) : Prop :=
  state s' = state s /\ result s' = result s /\
  n_accepted s' = n_accepted s /\ n_connections s' = n_connections s /\
  deserialized_state s' = deserialized_state s.

(** ** Control processes *)
(** The result the exit of a control process stands for when it is not
    a clean one *)
Definition failure_of (code : SigchldCode) : option SocketResult :=
  match code with
  | CLD_EXITED => Some SOCKET_FAILURE_EXIT_CODE
  | CLD_KILLED => Some SOCKET_FAILURE_SIGNAL
  | CLD_DUMPED => Some SOCKET_FAILURE_CORE_DUMP
  | CLD_OTHER => None
  end.

(** The exit of the control process counts as a success: it was clean,
    or the command is one whose failure is ignored. *)
Definition counts_as_success (e : Env) (s : Socket) (code : SigchldCode)
    (status : Z) : Prop :=
  is_clean_exit e code status = true \/
  (code <> CLD_OTHER /\
   exists c cs, control_command s = c :: cs /\ c_ignore c = true).

(** Where the unit goes when its control process has failed with [f]:
    out of the start path, or one stage down the stop path. *)
Definition after_failed_control (s : Socket) (f : SocketResult) (w : World)
    (s' : Socket) (w' : World) : Prop :=
  match state s with
  | SOCKET_START_PRE =>
      lands w f SOCKET_FINAL_SIGTERM (kill_waits (env w) (tick w)) [] s' w'
  | SOCKET_START_CHOWN | SOCKET_START_POST =>
      lands w f SOCKET_STOP_PRE
            (command_runs (exec_command (config s) SOCKET_EXEC_STOP_PRE)
                          (env w) (tick w))
            stop_post_states s' w'
  | SOCKET_STOP_PRE | SOCKET_STOP_PRE_SIGTERM | SOCKET_STOP_PRE_SIGKILL =>
      lands w f SOCKET_STOP_POST
            (command_runs (exec_command (config s) SOCKET_EXEC_STOP_POST)
                          (env w) (tick w))
            [SOCKET_FINAL_SIGTERM] s' w'
  | _ =>
      latched w f s' w' /\ state s' = SOCKET_FAILED
  end.

(** The start job of the service is queued: the service is there, and
    [manager_add_job], called at [t], succeeds. *)
Definition job_queued (s : Socket) (e : Env) (t : nat) : bool :=
  match service s with
  | Some _ => answer_ok e t
  | None => false
  end.

(** ** Handing the fds to the service: socket_collect_fds *)
(** [a[k] = v] on an array of ints *)
Fixpoint array_set (a : list Z) (k : nat) (v : Z) : list Z :=
  match a, k with
  | [], _ => []
  | _ :: rest, O => v :: rest
  | x :: rest, S k' => x :: array_set rest k' v
  end.

(** The first loop: [if (p->fd >= 0) rn_fds++] *)
Fixpoint collect_count (ps : list SocketPort) (rn_fds : Z) : Z :=
  match ps with
  | [] => rn_fds
  | p :: rest =>
      collect_count rest (if 0 <=? p_fd p then wrap_u (rn_fds + 1) else rn_fds)
  end.

(** The second loop: [if (p->fd >= 0) rfds[k++] = p->fd] *)
Fixpoint collect_fill (ps : list SocketPort) (rfds : list Z) (k : Z)
    : list Z * Z :=
  match ps with
  | [] => (rfds, k)
  | p :: rest =>
      if 0 <=? p_fd p
      then collect_fill rest (array_set rfds (Z.to_nat k) (p_fd p)) (wrap_u (k + 1))
      else collect_fill rest rfds k
  end.

(** [socket_collect_fds(s, &fds, &n_fds)]: the array and its length, or
    -ENOMEM.  The array of [new(int, rn_fds)] starts out as zeros here;
    NULL is the empty array. *)
Definition socket_collect_fds (s : Socket) : M (rc (list Z * Z)) :=
  let rn_fds := collect_count (ports s) 0 in
  if rn_fds <=? 0 then ret (Ok ([], 0))
  else
    oom <- alloc_failed ;;
    if oom then ret (Err ENOMEM)
    else
      let '(rfds, k) :=
        collect_fill (ports s) (repeat 0 (Z.to_nat rn_fds)) 0 in
      assert (k =? rn_fds) ;;;
      ret (Ok (rfds, rn_fds)).

(** The fds of the open ports, in the order of the ports *)
Definition open_fds_of (ps : list SocketPort) : list Z :=
  filter (fun fd => 0 <=? fd) (map p_fd ps).

(** ** Checking the configuration: socket_verify *)
(** [EINVAL] of errno.h *)
Definition EINVAL : errno := EOTHER 22.

(** The loop of [have_non_accept_socket]; [socket_address_can_accept]
    is the helper of socket-util. *)
Fixpoint have_non_accept_socket_loop
    (socket_address_can_accept : SocketAddress -> bool)
    (ps : list SocketPort) : bool :=
  match ps with
  | [] => false
  | p :: rest =>
      if negb (SocketPortType_beq (p_type p) SOCKET_SOCKET) then true
      else if negb (socket_address_can_accept (p_address p)) then true
      else have_non_accept_socket_loop socket_address_can_accept rest
  end.

Definition have_non_accept_socket
    (socket_address_can_accept : SocketAddress -> bool) (s : Socket) : bool :=
  if negb (accept (config s)) then true
  else have_non_accept_socket_loop socket_address_can_accept (ports s).

(** [socket_verify]: [load_state] is that of the unit, [pam_name] and
    [kill_mode] are the settings of its execution and kill contexts.  The
    kill modes are the ints of their enumeration, of which the function
    names KILL_CONTROL_GROUP. *)
Definition socket_verify
    (socket_address_can_accept : SocketAddress -> bool)
    (KILL_CONTROL_GROUP : Z)
    (load_state : UnitLoadState) (pam_name : option string)
    (kill_mode : Z) (s : Socket) : rc unit :=
  if negb (UnitLoadState_beq load_state UNIT_LOADED) then Ok tt
  else if match ports s with [] => true | _ => false end then Err EINVAL
  else if accept (config s) &&
          have_non_accept_socket socket_address_can_accept s then Err EINVAL
  else if accept (config s) && (max_connections (config s) <=? 0) then Err EINVAL
  else if accept (config s) &&
          match service s with Some _ => true | None => false end
  then Err EINVAL
  else if match pam_name with Some _ => true | None => false end &&
          negb (kill_mode =? KILL_CONTROL_GROUP)
  then Err EINVAL
  else Ok tt.

(** What a unit that passed the check looks like *)
Definition well_configured (can_accept : SocketAddress -> bool)
    (KILL_CONTROL_GROUP : Z) (pam_name : option string) (kill_mode : Z)
    (s : Socket) : Prop :=
  ports s <> [] /\
  (accept (config s) = true ->
   Forall (fun p => p_type p = SOCKET_SOCKET /\ can_accept (p_address p) = true)
          (ports s) /\
   0 < max_connections (config s) /\
   service s = None) /\
  (pam_name <> None -> kill_mode = KILL_CONTROL_GROUP).

(** ** Fds inherited from the environment: socket_distribute_fds *)
(** The loop over the ports.  [socket_address_matches_fd] is the helper
    of socket-util; [FDSET_FOREACH] goes over the set in the order of
    its list, and the first fd that matches is taken. *)
Fixpoint socket_distribute_fds_loop
    (socket_address_matches_fd : SocketAddress -> Z -> bool)
    (ps : list SocketPort) (fds : FDSet) (d : SocketState)
    : list SocketPort * FDSet * SocketState :=
  match ps with
  | [] => ([], fds, d)
  | p :: rest =>
      let continue :=
        let '(rest', fds', d') :=
          socket_distribute_fds_loop socket_address_matches_fd rest fds d in
        (p :: rest', fds', d') in
      if negb (SocketPortType_beq (p_type p) SOCKET_SOCKET) then continue
      else if 0 <=? p_fd p then continue
      else
        match find (socket_address_matches_fd (p_address p)) fds with
        | Some fd =>
            let '(fd, fds) := fdset_remove fds fd in
            let '(rest', fds', d') :=
              socket_distribute_fds_loop socket_address_matches_fd rest fds
                SOCKET_LISTENING in
            (set_fd p fd :: rest', fds', d')
        | None => continue
        end
  end.

Definition socket_distribute_fds
    (socket_address_matches_fd : SocketAddress -> Z -> bool)
    (s : Socket) (fds : FDSet) : rc unit * Socket * FDSet :=
  let '(ps, fds', d) :=
    socket_distribute_fds_loop socket_address_matches_fd (ports s) fds
      (deserialized_state s) in
  (Ok tt, set_deserialized_state (set_ports s ps) d, fds').

(** A port after the distribution: as it was, or a closed socket that
    took a matching fd out of the set. *)
Definition took_fd (matches_fd : SocketAddress -> Z -> bool)
    (fds fds' : FDSet) (p p' : SocketPort) : Prop :=
  p' = p \/
  (p_type p = SOCKET_SOCKET /\ p_fd p < 0 /\ 0 <= p_fd p' /\
   p' = set_fd p (p_fd p') /\
   matches_fd (p_address p) (p_fd p') = true /\
   In (p_fd p') fds /\ ~ In (p_fd p') fds').

(** The fds that the distribution handed out *)
Fixpoint handed (ps ps' : list SocketPort) : list Z :=
  match ps, ps' with
  | p :: rest, p' :: rest' =>
      if (p_fd p <? 0) && (0 <=? p_fd p') then p_fd p' :: handed rest rest'
      else handed rest rest'
  | _, _ => []
  end.

Record distributed (matches_fd : SocketAddress -> Z -> bool)
    (ps : list SocketPort) (fds : FDSet) (d : SocketState)
    (ps' : list SocketPort) (fds' : FDSet) (d' : SocketState) : Prop := {
  dist_ports : Forall2 (took_fd matches_fd fds fds') ps ps';
  dist_incl : incl fds' fds;
  dist_handed : forall fd, In fd (handed ps ps') -> In fd fds /\ ~ In fd fds';
  dist_nodup : NoDup (handed ps ps');
  dist_state : (d' = SOCKET_LISTENING /\ handed ps ps' <> []) \/
               (d' = d /\ ps' = ps /\ fds' = fds);
  dist_complete :
    Forall (fun p' => p_type p' = SOCKET_SOCKET -> p_fd p' < 0 ->
                      forall fd, In fd fds' ->
                                 matches_fd (p_address p') fd = false) ps'
}.



(** ** What the state says about the ports *)
(** The ports of a unit are as its state says: a watched port is open,
    a port is open only in a state that keeps the fds, and watched only
    in Listening. *)
Record ports_inv (s : Socket) : Prop := {
  pi_watch : watches_on_open_fds (ports s);
  pi_closed : keeps_fds (state s) = false ->
              Forall (fun p => p_fd p < 0) (ports s);
  pi_unwatched : state s <> SOCKET_LISTENING ->
                 Forall (fun p => p_fd_watch p = false) (ports s)
}.

(** A step that leaves ports and state alone *)
Definition untouched (s s' : Socket) : Prop :=
  ports s' = ports s /\ state s' = state s.

(** ** The name of a connection *)
Definition is_byte (x : Z) : Prop := 0 <= x < 256.

(** The instance name of a connection between two IPv4 endpoints *)
Definition ipv4_instance (nr : Z) (a1 a2 a3 a4 ap1 ap2 b1 b2 b3 b4 bp1 bp2 : Z)
    : string :=
  fmt_u nr ++ "-" ++ dotted_quad a1 a2 a3 a4 ++ ":" ++
  fmt_u (256 * ap1 + ap2) ++ "-" ++
  dotted_quad b1 b2 b3 b4 ++ ":" ++ fmt_u (256 * bp1 + bp2).

(** ** More sample units *)
(** [fifo_unit] while its ExecStopPost runs *)
Definition stopping_unit : Socket :=
  set_state_field fifo_unit SOCKET_STOP_POST.

(** [starting_unit] with two commands queued, the first one running *)
Definition two_step_unit : Socket :=
  set_control_command starting_unit
    [{| c_path := "/bin/true"; c_argv := ["/bin/true"]; c_ignore := false |};
     {| c_path := "/bin/sleep"; c_argv := ["/bin/sleep"; "1"];
        c_ignore := false |}].

(** [starting_unit] with its ExecStartPre command as the running
    control command *)
Definition pre_unit : Socket :=
  set_control_command starting_unit (sleep_before_start SOCKET_EXEC_START_PRE).


(** [listening_unit] as the deserializer leaves it *)
Definition restored_unit : Socket :=
  set_deserialized_state (set_state_field listening_unit SOCKET_DEAD)
    SOCKET_LISTENING.

(** An Accept=yes unit with a FIFO and a socket, both closed *)
Definition mixed_unit : Socket :=
  set_ports accepting_unit
    [fifo_port "/run/a.pipe" (-1) false; stream_port (-1) false].

(** * Lemmas

    First the equality tests of the enumerations, then the rules of the
    two predicates on computations, then the specification of each
    function of the stop path. *)

Lemma SocketState_eqb_eq (a b : SocketState) :
  SocketState_beq a b = true <-> a = b.
Proof. destruct a, b; simpl; split; congruence. Qed.

Lemma SocketResult_eqb_eq (a b : SocketResult) :
  SocketResult_beq a b = true <-> a = b.
Proof. destruct a, b; simpl; split; congruence. Qed.

Lemma SocketPortType_eqb_eq (a b : SocketPortType) :
  SocketPortType_beq a b = true <-> a = b.
Proof. destruct a, b; simpl; split; congruence. Qed.

Lemma wpt_wp {A} (m : M A) Q w : wpt m Q w -> wp m Q w.
Proof. unfold wpt, wp. destruct (m w) as [[a w']|]; tauto. Qed.

Lemma wpt_ret {A} (a : A) (Q : A -> World -> Prop) w : Q a w -> wpt (ret a) Q w.
Proof. exact (fun H => H). Qed.

Lemma wp_ret {A} (a : A) (Q : A -> World -> Prop) w : Q a w -> wp (ret a) Q w.
Proof. exact (fun H => H). Qed.

Lemma wpt_bind {A B} (m : M A) (k : A -> M B) Q w :
  wpt m (fun a w1 => wpt (k a) Q w1) w -> wpt (bind m k) Q w.
Proof. unfold wpt, bind. destruct (m w) as [[a w1]|]; auto. Qed.

Lemma wp_bind {A B} (m : M A) (k : A -> M B) Q w :
  wp m (fun a w1 => wp (k a) Q w1) w -> wp (bind m k) Q w.
Proof. unfold wp, bind. destruct (m w) as [[a w1]|]; auto. Qed.

Lemma wpt_conseq {A} (m : M A) (Q Q' : A -> World -> Prop) w :
  wpt m Q w -> (forall a w', Q a w' -> Q' a w') -> wpt m Q' w.
Proof. unfold wpt. destruct (m w) as [[a w1]|]; auto. Qed.

Lemma wp_conseq {A} (m : M A) (Q Q' : A -> World -> Prop) w :
  wp m Q w -> (forall a w', Q a w' -> Q' a w') -> wp m Q' w.
Proof. unfold wp. destruct (m w) as [[a w1]|]; auto. Qed.

Lemma wpt_inv {A} (m : M A) Q w :
  wpt m Q w -> exists a w', m w = Some (a, w') /\ Q a w'.
Proof. unfold wpt. destruct (m w) as [[a w1]|]; [eauto | tauto]. Qed.

Lemma wp_inv {A} (m : M A) Q w a w' :
  wp m Q w -> m w = Some (a, w') -> Q a w'.
Proof. unfold wp. intros H E. rewrite E in H. exact H. Qed.

(** ** The trace *)

Lemma extends_refl P w : extends P w w.
Proof. split; [reflexivity | exists []; split; [reflexivity | constructor]]. Qed.

Lemma extends_trans P w1 w2 w3 :
  extends P w1 w2 -> extends P w2 w3 -> extends P w1 w3.
Proof.
  intros [E1 [n1 [T1 F1]]] [E2 [n2 [T2 F2]]]. split; [congruence |].
  exists (n2 ++ n1)%list. split.
  - rewrite T2, T1. apply app_assoc.
  - apply Forall_app; split; assumption.
Qed.

Lemma extends_weaken (P P' : Event -> Prop) w w' :
  (forall e, P e -> P' e) -> extends P w w' -> extends P' w w'.
Proof.
  intros H [E [n [T F]]]. split; [exact E |]. exists n. split; [exact T |].
  eapply Forall_impl; eauto.
Qed.

Lemma extends_tick P w : extends P w (next_tick w).
Proof. split; [reflexivity | exists []; split; [reflexivity | constructor]]. Qed.

Lemma extends_emit (P : Event -> Prop) e w :
  P e -> extends P w {| env := env w; tick := tick w; trace := e :: trace w |}.
Proof.
  intros H. split; [reflexivity |]. exists [e]. split; [reflexivity |].
  constructor; [exact H | constructor].
Qed.

Lemma quiet_incl fds fds' e :
  incl fds' (-1 :: fds) -> quiet fds' e -> quiet fds e.
Proof.
  intros H Q. destruct e; simpl in *; auto.
  destruct Q as [Hfd Q]. split; [exact Hfd |].
  apply H in Q. destruct Q as [Q | Q]; [lia | exact Q].
Qed.

Lemma socket_close_fds_loop_spec ps w :
  wpt (socket_close_fds_loop ps)
      (fun ps' w' => ps' = map close_port ps /\
                     extends (quiet (map p_fd ps)) w w') w.
Proof.
  revert w. induction ps as [| p rest IH]; intros w.
  - simpl. apply wpt_ret. split; [reflexivity | apply extends_refl].
  - cbn [socket_close_fds_loop map]. unfold close_port at 1.
    destruct (p_fd p <? 0) eqn:Hfd.
    + apply wpt_bind. eapply wpt_conseq; [apply IH |].
      intros ps' w' HH; cbv beta in HH; destruct HH as [-> X]. apply wpt_ret. split; [reflexivity |].
      eapply extends_weaken; [| exact X]. intros e.
      apply quiet_incl. intros x Hx. right. right. exact Hx.
    + apply Z.ltb_ge in Hfd. unfold safe_close. cbn [unit_unwatch_fd set_fd_watch p_fd].
      destruct (0 <=? p_fd p) eqn:Hfd'; [| apply Z.leb_gt in Hfd'; lia].
      apply wpt_bind. apply wpt_bind. unfold wpt at 1, emit.
      apply wpt_ret. apply wpt_bind. eapply wpt_conseq; [apply IH |].
      intros ps' w' HH; cbv beta in HH; destruct HH as [-> X]. apply wpt_ret. split; [reflexivity |].
      eapply extends_trans.
      * apply (extends_emit _ (EvClose (p_fd p))). simpl. split; [exact Hfd | left; reflexivity].
      * eapply extends_weaken; [| exact X]. intros e.
        apply quiet_incl. intros x Hx. right. right. exact Hx.
Qed.

Lemma map_close_port_fds ps :
  incl (map p_fd (map close_port ps)) (-1 :: map p_fd ps).
Proof.
  induction ps as [| p rest IH]; simpl.
  - intros x [].
  - intros x [Hx | Hx].
    + unfold close_port in Hx. destruct (p_fd p <? 0).
      * right. left. exact Hx.
      * left. simpl in Hx. exact Hx.
    + apply IH in Hx. destruct Hx as [Hx | Hx]; [left | right; right]; exact Hx.
Qed.

Lemma map_unwatch_port_fds ps : map p_fd (map unwatch_port ps) = map p_fd ps.
Proof.
  induction ps as [| p rest IH]; simpl; [reflexivity |].
  rewrite IH. unfold unwatch_port. destruct (p_fd p <? 0); reflexivity.
Qed.

Lemma socket_set_state_spec s st w :
  wpt (socket_set_state s st)
      (fun s' w' => set_state_post s st s' /\
                    extends (quiet (port_fds s)) w w') w.
Proof.
  unfold socket_set_state.
  apply wpt_bind.
  set (c1 := (_ && _)%bool).
  assert (Hc1 : c1 = negb (keeps_control st)) by (destruct st; reflexivity).
  clearbody c1. subst c1.
  set (c2 := (_ && _)%bool).
  assert (Hc2 : c2 = negb (keeps_fds st)) by (destruct st; reflexivity).
  clearbody c2. subst c2.
  assert (U : forall s0, port_fds s0 = port_fds s ->
            wpt (socket_unwatch_control_pid s0)
              (fun s1 w1 => (s1 = s0 \/ (0 < control_pid s0 /\ s1 = set_control_pid s0 0)) /\
                            control_pid s1 <= Z.max 0 0 /\
                            extends (quiet (port_fds s)) w w1) w).
  { intros s0 _. unfold socket_unwatch_control_pid.
    destruct (control_pid s0 <=? 0) eqn:E.
    - apply Z.leb_le in E. apply wpt_ret. split; [left; reflexivity |].
      split; [simpl; lia | apply extends_refl].
    - apply Z.leb_gt in E. unfold unit_unwatch_pid.
      apply wpt_bind. unfold wpt at 1, emit. apply wpt_ret.
      split; [right; split; [lia | reflexivity] |].
      split; [simpl; lia |]. apply (extends_emit _ (EvUnwatchPid _)). exact I. }
  assert (F : forall s3 w3, 
            set_state_post s st 
              (if keeps_fds st then s3 else set_ports s3 (map close_port (ports s3))) ->
            extends (quiet (port_fds s)) w w3 ->
            incl (port_fds s3) (-1 :: port_fds s) ->
            wpt (s4 <- (if negb (keeps_fds st) then socket_close_fds s3 else ret s3) ;;
                 unit_notify (state_translation_table (state s))
                             (state_translation_table st) ;;; ret s4)
                (fun s' w' => set_state_post s st s' /\
                              extends (quiet (port_fds s)) w w') w3).
  { intros s3 w3 HP HX HI. apply wpt_bind.
    destruct (keeps_fds st) eqn:Hf; cbn [negb].
    - apply wpt_ret. apply wpt_bind. unfold unit_notify, emit, wpt at 1.
      apply wpt_ret. split; [exact HP |].
      eapply extends_trans; [exact HX |].
      apply (extends_emit _ (EvNotify _ _)). exact I.
    - unfold socket_close_fds. apply wpt_bind.
      eapply wpt_conseq; [apply socket_close_fds_loop_spec |].
      intros ps' w' HH; cbv beta in HH; destruct HH as [-> X].
      apply wpt_ret. apply wpt_bind. unfold unit_notify, emit, wpt at 1.
      apply wpt_ret. split; [exact HP |].
      eapply extends_trans; [exact HX |].
      eapply extends_trans.
      + eapply extends_weaken; [| exact X]. intros e. apply quiet_incl.
        exact HI.
      + apply (extends_emit _ (EvNotify _ _)). exact I. }
  assert (PF : forall s0 : Socket, 
     port_fds (if state_ne st SOCKET_LISTENING then socket_unwatch_fds s0 else s0) = port_fds s0).
  { intros s0. destruct (state_ne st SOCKET_LISTENING); [| reflexivity].
    unfold port_fds, socket_unwatch_fds. cbn [ports set_ports].
    apply map_unwatch_port_fds. }
  destruct (keeps_control st) eqn:Hk; cbn [negb].
  - apply wpt_ret. apply F.
    + constructor; unfold ports_after_set_state;
        destruct (keeps_fds st) eqn:Hf, (state_ne st SOCKET_LISTENING) eqn:Hl;
        rewrite ?Hk; cbn; auto.
    + apply extends_refl.
    + rewrite PF. intros x Hx. right. exact Hx.
  - apply wpt_bind. eapply wpt_conseq; [apply U; reflexivity |].
    intros s1 w1 HH; cbv beta in HH. destruct HH as [Hs1 [Hcp X]].
    apply wpt_ret. apply F.
    + constructor; unfold ports_after_set_state;
        destruct (keeps_fds st) eqn:Hf, (state_ne st SOCKET_LISTENING) eqn:Hl;
        rewrite ?Hk; destruct Hs1 as [-> | [Hpos ->]]; cbn; auto; try (cbn in Hcp; intuition lia).
    + exact X.
    + rewrite PF. destruct Hs1 as [-> | [Hpos ->]]; intros x Hx; right; exact Hx.
Qed.

Lemma wpt_emit (e : Event) (Q : unit -> World -> Prop) w :
  Q tt {| env := env w; tick := tick w; trace := e :: trace w |} ->
  wpt (emit e) Q w.
Proof. exact (fun H => H). Qed.

Lemma wpt_ask_rc (Q : rc N -> World -> Prop) w :
  Q (o_rc (env w) (tick w)) (next_tick w) -> wpt ask_rc Q w.
Proof. exact (fun H => H). Qed.

Lemma wpt_ask_bool (Q : bool -> World -> Prop) w :
  Q (o_bool (env w) (tick w)) (next_tick w) -> wpt ask_bool Q w.
Proof. exact (fun H => H). Qed.

Lemma wpt_get_env (Q : Env -> World -> Prop) w :
  Q (env w) w -> wpt get_env Q w.
Proof. exact (fun H => H). Qed.

(** ** The stop path *)

Lemma incl_cons_self (x : Z) l : incl l (x :: l).
Proof. intros y Hy. right. exact Hy. Qed.

Lemma sframe_refl s : sframe s s.
Proof. constructor; try reflexivity. apply incl_cons_self. Qed.

Lemma sframe_trans s1 s2 s3 : sframe s1 s2 -> sframe s2 s3 -> sframe s1 s3.
Proof.
  intros [A1 A2 A3 A4 A5 A6] [B1 B2 B3 B4 B5 B6].
  constructor; try congruence.
  intros x Hx. apply B6 in Hx. destruct Hx as [Hx | Hx].
  - left. exact Hx.
  - apply A6. exact Hx.
Qed.

Lemma step_refl s w : step s w s w.
Proof. split; [apply sframe_refl | apply extends_refl]. Qed.

Lemma step_trans s1 w1 s2 w2 s3 w3 :
  step s1 w1 s2 w2 -> step s2 w2 s3 w3 -> step s1 w1 s3 w3.
Proof.
  intros [F1 X1] [F2 X2]. split; [eapply sframe_trans; eauto |].
  eapply extends_trans; [exact X1 |].
  eapply extends_weaken; [| exact X2].
  intros e. apply quiet_incl. apply (sf_fds _ _ F1).
Qed.

(** A step that only touches what [sframe] does not mention. *)
Lemma step_pure s s' w :
  config s' = config s -> n_accepted s' = n_accepted s ->
  n_connections s' = n_connections s -> service s' = service s ->
  deserialized_state s' = deserialized_state s -> ports s' = ports s ->
  step s w s' w.
Proof.
  intros. split; [| apply extends_refl].
  constructor; auto. unfold port_fds. rewrite H4. apply incl_cons_self.
Qed.

Lemma set_state_post_step s st s' w w' :
  set_state_post s st s' -> extends (quiet (port_fds s)) w w' -> step s w s' w'.
Proof.
  intros P X. split; [| exact X]. destruct P. constructor; auto.
  unfold port_fds. rewrite ssp_ports0. unfold ports_after_set_state.
  destruct (state_ne st SOCKET_LISTENING), (keeps_fds st).
  - rewrite map_unwatch_port_fds. apply incl_cons_self.
  - eapply incl_tran; [apply map_close_port_fds |].
    rewrite map_unwatch_port_fds. apply incl_refl.
  - apply incl_cons_self.
  - apply map_close_port_fds.
Qed.

Lemma socket_unwatch_control_pid_spec s w :
  wpt (socket_unwatch_control_pid s)
      (fun s' w' => step s w s' w' /\ state s' = state s /\
                    result s' = result s /\ exec_context s' = exec_context s) w.
Proof.
  unfold socket_unwatch_control_pid. destruct (control_pid s <=? 0).
  - apply wpt_ret. repeat split; try reflexivity; try apply sframe_refl; try apply extends_refl.
  - apply wpt_bind. apply wpt_emit. apply wpt_ret.
    split; [| repeat split].
    split; [constructor; try reflexivity; apply incl_cons_self |].
    apply (extends_emit _ (EvUnwatchPid _)). exact I.
Qed.

Ltac wstep :=
  lazymatch goal with
  | |- wpt (bind _ _) _ _ => apply wpt_bind
  | |- wpt (ret _) _ _ => apply wpt_ret
  | |- wpt ask_rc _ _ => apply wpt_ask_rc
  | |- wpt ask_bool _ _ => apply wpt_ask_bool
  | |- wpt get_env _ _ => apply wpt_get_env
  | |- wpt (emit _) _ _ => apply wpt_emit
  | |- wpt (match ?x with _ => _ end) _ _ => destruct x eqn:?
  end.

Lemma extends_cons (P : Event -> Prop) e w w' :
  extends P w w' -> P e ->
  extends P w {| env := env w'; tick := tick w'; trace := e :: trace w' |}.
Proof.
  intros X H. eapply extends_trans; [exact X |]. apply extends_emit. exact H.
Qed.

Lemma extends_next (P : Event -> Prop) w w' :
  extends P w w' -> extends P w (next_tick w').
Proof. intros X. eapply extends_trans; [exact X |]. apply extends_tick. Qed.

Ltac ext :=
  repeat first
    [ apply extends_refl
    | apply extends_next
    | apply extends_cons; [| simpl; try exact I] ].

Lemma socket_spawn_spec s c w :
  wpt (socket_spawn s c)
      (fun '(r, s') w' => step s w s' w' /\ state s' = state s /\
                          result s' = result s /\
                          exec_context s' = exec_context s) w.
Proof.
  unfold socket_spawn, unit_watch_timer, unit_full_printf_strv, exec_spawn,
    unit_watch_pid.
  repeat wstep.
  all: split; [| repeat split].
  all: split; [constructor; try reflexivity; apply incl_cons_self | ext].
Qed.

Lemma outcome_weaken r1 f1 l1 r0 f l s' :
  outcome r1 f1 l1 s' ->
  r1 = r0 \/ r1 = SOCKET_FAILURE_RESOURCES ->
  In f1 l -> incl l1 l ->
  outcome r0 f l s'.
Proof.
  intros O Hr Hf Hl. unfold outcome in *.
  destruct O as [[A B] | [[A B] | [[A [B C]] | [A [B C]]]]].
  - right. left. split; [rewrite A; exact Hf |].
    rewrite B. exact Hr.
  - right. left. split; [apply Hl; exact A |].
    destruct B as [B | B]; [rewrite B; exact Hr | right; exact B].
  - right. right. left. repeat split; auto.
    destruct Hr as [Hr | Hr]; congruence.
  - right. right. right. repeat split; auto.
    destruct C as [C | C]; [rewrite C; exact Hr | right; exact C].
Qed.

Lemma outcome_first r0 f l s' :
  state s' = f -> result s' = r0 -> outcome r0 f l s'.
Proof. intros A B. left. split; assumption. Qed.

Lemma latch_cases r f :
  latch r f = r \/ (latch r f = f /\ f <> SOCKET_SUCCESS).
Proof. unfold latch. destruct f; simpl; auto; right; split; congruence. Qed.

Lemma socket_enter_dead_spec s f w :
  wpt (socket_enter_dead s f)
      (fun s' w' =>
         step s w s' w' /\ result s' = latch (result s) f /\
         state s' = (if result_ne (latch (result s) f) SOCKET_SUCCESS
                     then SOCKET_FAILED else SOCKET_DEAD) /\
         exec_context s' = exec_context_tmp_dirs_done (exec_context s)) w.
Proof.
  unfold socket_enter_dead.
  eapply wpt_conseq; [apply socket_set_state_spec |].
  intros s' w' HH; cbv beta in HH. destruct HH as [P X].
  assert (R : result (set_exec_context
                 (if result_ne f SOCKET_SUCCESS then set_result s f else s)
                 (exec_context_tmp_dirs_done
                    (exec_context
                       (if result_ne f SOCKET_SUCCESS then set_result s f else s))))
              = latch (result s) f).
  { unfold latch. destruct (result_ne f SOCKET_SUCCESS); reflexivity. }
  rewrite R in P.
  split; [| split; [| split]].
  - eapply step_trans; [| eapply set_state_post_step; [exact P | exact X]].
    apply step_pure; destruct (result_ne f SOCKET_SUCCESS); reflexivity.
  - rewrite (ssp_result _ _ _ P). exact R.
  - apply (ssp_state _ _ _ P).
  - rewrite (ssp_exec_context _ _ _ P). reflexivity.
Qed.

Lemma terminal_outcome r1 r0 f l s' :
  terminal r1 s' ->
  r1 = r0 \/ r1 = SOCKET_FAILURE_RESOURCES ->
  outcome r0 f l s'.
Proof.
  intros [[A [B C]] | [A [B C]]] Hr.
  - right. right. left. repeat split; auto. destruct Hr; congruence.
  - right. right. right. repeat split; auto. rewrite C. exact Hr.
Qed.

Lemma socket_enter_dead_terminal s f w :
  wpt (socket_enter_dead s f)
      (fun s' w' => step s w s' w' /\ terminal (latch (result s) f) s') w.
Proof.
  eapply wpt_conseq; [apply socket_enter_dead_spec |].
  intros s' w' HH; cbv beta in HH. destruct HH as (ST & R & S & _).
  split; [exact ST |]. unfold terminal. rewrite S, R.
  destruct (latch (result s) f); simpl;
    [left; auto | right; repeat split; congruence ..].
Qed.

Lemma socket_enter_signal_with_spec k s st f w :
  (is_stop_pre_signal st = true ->
   forall s1 f1 w1,
     wpt (k s1 f1)
         (fun s' w' => step s1 w1 s' w' /\
                       outcome (latch (result s1) f1) SOCKET_STOP_POST
                               [SOCKET_FINAL_SIGTERM] s') w1) ->
  wpt (socket_enter_signal_with k s st f)
      (fun s' w' => step s w s' w' /\
                    outcome (latch (result s) f) st
                      (if is_stop_pre_signal st then stop_post_states else [])
                      s') w.
Proof.
  intros K. unfold socket_enter_signal_with.
  fold (is_stop_pre_signal st).
  set (s0 := if result_ne f SOCKET_SUCCESS then set_result s f else s).
  assert (R0 : result s0 = latch (result s) f).
  { unfold s0, latch. destruct (result_ne f SOCKET_SUCCESS); reflexivity. }
  assert (P0 : step s w s0 w).
  { apply step_pure; unfold s0; destruct (result_ne f SOCKET_SUCCESS); reflexivity. }
  assert (NEXT : forall f1 s1 w1,
    f1 = SOCKET_SUCCESS \/ f1 = SOCKET_FAILURE_RESOURCES ->
    step s w s1 w1 -> result s1 = latch (result s) f ->
    wpt (if is_stop_pre_signal st then k s1 f1 else socket_enter_dead s1 f1)
        (fun s' w' => step s w s' w' /\
                      outcome (latch (result s) f) st
                        (if is_stop_pre_signal st then stop_post_states else [])
                        s') w1).
  { intros f1 s1 w1 Hf1 ST R1.
    assert (L : latch (result s1) f1 = latch (result s) f \/
                latch (result s1) f1 = SOCKET_FAILURE_RESOURCES).
    { destruct Hf1 as [-> | ->]; [left; exact R1 | right; reflexivity]. }
    destruct (is_stop_pre_signal st).
    - eapply wpt_conseq; [apply K; reflexivity |].
      intros s' w' HH; cbv beta in HH. destruct HH as [ST' O].
      split; [eapply step_trans; eauto |].
      eapply outcome_weaken; [exact O | exact L | left; reflexivity |].
      intros x Hx. right. exact Hx.
    - eapply wpt_conseq; [apply socket_enter_dead_terminal |].
      intros s' w' HH; cbv beta in HH. destruct HH as [ST' O].
      split; [eapply step_trans; eauto |].
      eapply terminal_outcome; [exact O | exact L]. }
  unfold unit_kill_context.
  apply wpt_bind. apply wpt_bind. apply wpt_ask_rc.
  destruct (o_rc (env w) (tick w)) as [n | e].
  - apply wpt_bind. apply wpt_emit. apply wpt_ret.
    assert (ST1 : step s w s0 {| env := env (next_tick w); tick := tick (next_tick w);
                                 trace := EvKill (state_ne st SOCKET_STOP_PRE_SIGTERM &&
                                            state_ne st SOCKET_FINAL_SIGTERM)
                                            (control_pid s0) :: trace (next_tick w) |}).
    { split; [apply P0 | ext]. }
    destruct (0 <? n)%N.
    + unfold unit_watch_timer. apply wpt_bind. apply wpt_bind. apply wpt_ask_rc.
      match goal with |- wpt (match ?x with _ => _ end) _ _ => destruct x end.
      * apply wpt_ret.
        eapply wpt_conseq; [apply socket_set_state_spec |].
        intros s' w' HH; cbv beta in HH. destruct HH as [P X].
        split.
        -- eapply step_trans; [| eapply set_state_post_step; [exact P | exact X]].
           eapply step_trans; [exact ST1 |]. split; [| ext].
           constructor; try reflexivity. apply incl_cons_self.
        -- apply outcome_first; [apply (ssp_state _ _ _ P) |].
           rewrite (ssp_result _ _ _ P). exact R0.
      * apply wpt_ret. apply NEXT; [right; reflexivity | | exact R0].
        eapply step_trans; [exact ST1 |]. split; [apply sframe_refl | ext].
    + apply NEXT; [left; reflexivity | exact ST1 | exact R0].
  - apply wpt_ret. apply NEXT; [right; reflexivity | | exact R0].
    split; [apply P0 | ext].
Qed.

Lemma socket_enter_stop_post_with_spec k s f w :
  (forall s1 f1 w1,
     wpt (k s1 SOCKET_FINAL_SIGTERM f1)
         (fun s' w' => step s1 w1 s' w' /\
                       outcome (latch (result s1) f1) SOCKET_FINAL_SIGTERM [] s') w1) ->
  wpt (socket_enter_stop_post_with k s f)
      (fun s' w' => step s w s' w' /\
                    outcome (latch (result s) f) SOCKET_STOP_POST
                            [SOCKET_FINAL_SIGTERM] s') w.
Proof.
  intros K. unfold socket_enter_stop_post_with.
  set (s0 := if result_ne f SOCKET_SUCCESS then set_result s f else s).
  assert (R0 : result s0 = latch (result s) f).
  { unfold s0, latch. destruct (result_ne f SOCKET_SUCCESS); reflexivity. }
  assert (P0 : step s w s0 w).
  { apply step_pure; unfold s0; destruct (result_ne f SOCKET_SUCCESS); reflexivity. }
  assert (NEXT : forall f1 s1 w1,
    f1 = SOCKET_SUCCESS \/ f1 = SOCKET_FAILURE_RESOURCES ->
    step s w s1 w1 -> result s1 = latch (result s) f ->
    wpt (k s1 SOCKET_FINAL_SIGTERM f1)
        (fun s' w' => step s w s' w' /\
                      outcome (latch (result s) f) SOCKET_STOP_POST
                              [SOCKET_FINAL_SIGTERM] s') w1).
  { intros f1 s1 w1 Hf1 ST R1.
    assert (L : latch (result s1) f1 = latch (result s) f \/
                latch (result s1) f1 = SOCKET_FAILURE_RESOURCES).
    { destruct Hf1 as [-> | ->]; [left; exact R1 | right; reflexivity]. }
    eapply wpt_conseq; [apply K |].
    intros s' w' HH; cbv beta in HH. destruct HH as [ST' O].
    split; [eapply step_trans; eauto |].
    eapply outcome_weaken; [exact O | exact L | left; reflexivity |].
    intros x []. }
  apply wpt_bind.
  eapply wpt_conseq; [apply socket_unwatch_control_pid_spec |].
  intros s1 w1 HH; cbv beta in HH. destruct HH as (ST1 & S1 & R1 & _).
  cbn [control_command set_control_command set_control_command_id config].
  destruct (exec_command (config s1) SOCKET_EXEC_STOP_POST) as [| c cs].
  - apply NEXT; [left; reflexivity | | cbn; congruence].
    eapply step_trans; [exact P0 |]. eapply step_trans; [exact ST1 |].
    apply step_pure; reflexivity.
  - apply wpt_bind.
    eapply wpt_conseq; [apply socket_spawn_spec |].
    intros [r s2] w2 HH; cbv beta in HH. destruct HH as (ST2 & S2 & R2 & _).
    assert (ST : step s w s2 w2).
    { eapply step_trans; [exact P0 |]. eapply step_trans; [exact ST1 |].
      eapply step_trans; [| exact ST2]. apply step_pure; reflexivity. }
    cbn in R2.
    destruct r.
    + eapply wpt_conseq; [apply socket_set_state_spec |].
      intros s' w' HH; cbv beta in HH. destruct HH as [P X].
      split.
      * eapply step_trans; [exact ST |]. eapply set_state_post_step; eauto.
      * apply outcome_first; [apply (ssp_state _ _ _ P) |].
        rewrite (ssp_result _ _ _ P). congruence.
    + apply NEXT; [right; reflexivity | exact ST | congruence].
Qed.

Lemma socket_enter_stop_post_spec s f w :
  wpt (socket_enter_stop_post s f)
      (fun s' w' => step s w s' w' /\
                    outcome (latch (result s) f) SOCKET_STOP_POST
                            [SOCKET_FINAL_SIGTERM] s') w.
Proof.
  unfold socket_enter_stop_post. apply socket_enter_stop_post_with_spec.
  intros s1 f1 w1.
  apply (socket_enter_signal_with_spec _ s1 SOCKET_FINAL_SIGTERM f1 w1).
  discriminate.
Qed.

Lemma socket_enter_signal_spec s st f w :
  wpt (socket_enter_signal s st f)
      (fun s' w' => step s w s' w' /\
                    outcome (latch (result s) f) st
                      (if is_stop_pre_signal st then stop_post_states else [])
                      s') w.
Proof.
  unfold socket_enter_signal. apply socket_enter_signal_with_spec.
  intros _ s1 f1 w1. apply socket_enter_stop_post_spec.
Qed.

(** The two mutually recursive functions are the functions of socket.c:
    [socket_enter_stop_post] calls [socket_enter_signal]. *)
Lemma socket_enter_signal_with_final k1 k2 s f :
  socket_enter_signal_with k1 s SOCKET_FINAL_SIGTERM f =
  socket_enter_signal_with k2 s SOCKET_FINAL_SIGTERM f.
Proof. reflexivity. Qed.

Lemma socket_enter_stop_post_eq s f :
  socket_enter_stop_post s f =
  socket_enter_stop_post_with socket_enter_signal s f.
Proof. reflexivity. Qed.

Lemma socket_enter_stop_pre_spec s f w :
  wpt (socket_enter_stop_pre s f)
      (fun s' w' => step s w s' w' /\
                    outcome (latch (result s) f) SOCKET_STOP_PRE
                            stop_post_states s') w.
Proof.
  unfold socket_enter_stop_pre.
  set (s0 := if result_ne f SOCKET_SUCCESS then set_result s f else s).
  assert (R0 : result s0 = latch (result s) f).
  { unfold s0, latch. destruct (result_ne f SOCKET_SUCCESS); reflexivity. }
  assert (P0 : step s w s0 w).
  { apply step_pure; unfold s0; destruct (result_ne f SOCKET_SUCCESS); reflexivity. }
  assert (NEXT : forall f1 s1 w1,
    f1 = SOCKET_SUCCESS \/ f1 = SOCKET_FAILURE_RESOURCES ->
    step s w s1 w1 -> result s1 = latch (result s) f ->
    wpt (socket_enter_stop_post s1 f1)
        (fun s' w' => step s w s' w' /\
                      outcome (latch (result s) f) SOCKET_STOP_PRE
                              stop_post_states s') w1).
  { intros f1 s1 w1 Hf1 ST R1.
    assert (L : latch (result s1) f1 = latch (result s) f \/
                latch (result s1) f1 = SOCKET_FAILURE_RESOURCES).
    { destruct Hf1 as [-> | ->]; [left; exact R1 | right; reflexivity]. }
    eapply wpt_conseq; [apply socket_enter_stop_post_spec |].
    intros s' w' HH; cbv beta in HH. destruct HH as [ST' O].
    split; [eapply step_trans; eauto |].
    eapply outcome_weaken; [exact O | exact L | left; reflexivity |].
    intros x Hx. right. exact Hx. }
  apply wpt_bind.
  eapply wpt_conseq; [apply socket_unwatch_control_pid_spec |].
  intros s1 w1 HH; cbv beta in HH. destruct HH as (ST1 & S1 & R1 & _).
  cbn [control_command set_control_command set_control_command_id config].
  destruct (exec_command (config s1) SOCKET_EXEC_STOP_PRE) as [| c cs].
  - apply NEXT; [left; reflexivity | | cbn; congruence].
    eapply step_trans; [exact P0 |]. eapply step_trans; [exact ST1 |].
    apply step_pure; reflexivity.
  - apply wpt_bind.
    eapply wpt_conseq; [apply socket_spawn_spec |].
    intros [r s2] w2 HH; cbv beta in HH. destruct HH as (ST2 & S2 & R2 & _).
    assert (ST : step s w s2 w2).
    { eapply step_trans; [exact P0 |]. eapply step_trans; [exact ST1 |].
      eapply step_trans; [| exact ST2]. apply step_pure; reflexivity. }
    cbn in R2.
    destruct r.
    + eapply wpt_conseq; [apply socket_set_state_spec |].
      intros s' w' HH; cbv beta in HH. destruct HH as [P X].
      split.
      * eapply step_trans; [exact ST |]. eapply set_state_post_step; eauto.
      * apply outcome_first; [apply (ssp_state _ _ _ P) |].
        rewrite (ssp_result _ _ _ P). congruence.
    + apply NEXT; [right; reflexivity | exact ST | congruence].
Qed.

Lemma wp_emit (e : Event) (Q : unit -> World -> Prop) w :
  Q tt {| env := env w; tick := tick w; trace := e :: trace w |} ->
  wp (emit e) Q w.
Proof. exact (fun H => H). Qed.

Lemma wp_ask_rc (Q : rc N -> World -> Prop) w :
  Q (o_rc (env w) (tick w)) (next_tick w) -> wp ask_rc Q w.
Proof. exact (fun H => H). Qed.

Lemma wp_ask_bool (Q : bool -> World -> Prop) w :
  Q (o_bool (env w) (tick w)) (next_tick w) -> wp ask_bool Q w.
Proof. exact (fun H => H). Qed.

Lemma wp_ask_unit (Q : rc Service -> World -> Prop) w :
  Q (o_unit (env w) (tick w)) (next_tick w) -> wp ask_unit Q w.
Proof. exact (fun H => H). Qed.

Lemma wp_ask_sockaddr (Q : rc sockaddr -> World -> Prop) w :
  Q (o_sockaddr (env w) (tick w)) (next_tick w) -> wp ask_sockaddr Q w.
Proof. exact (fun H => H). Qed.

Lemma wp_ask_ucred (Q : rc (N * N) -> World -> Prop) w :
  Q (o_ucred (env w) (tick w)) (next_tick w) -> wp ask_ucred Q w.
Proof. exact (fun H => H). Qed.

Lemma wp_get_env (Q : Env -> World -> Prop) w :
  Q (env w) w -> wp get_env Q w.
Proof. exact (fun H => H). Qed.

Lemma wp_abort {A} (Q : A -> World -> Prop) w : wp abort Q w.
Proof. exact I. Qed.

Lemma wp_assert (b : bool) (Q : unit -> World -> Prop) w :
  (b = true -> Q tt w) -> wp (assert b) Q w.
Proof. destruct b; intros H; [apply H; reflexivity | exact I]. Qed.

Ltac pstep :=
  lazymatch goal with
  | |- wp (bind _ _) _ _ => apply wp_bind
  | |- wp (ret _) _ _ => apply wp_ret
  | |- wp abort _ _ => apply wp_abort
  | |- wp (assert _) _ _ => apply wp_assert; intros ?
  | |- wp ask_rc _ _ => apply wp_ask_rc
  | |- wp ask_bool _ _ => apply wp_ask_bool
  | |- wp ask_unit _ _ => apply wp_ask_unit
  | |- wp ask_sockaddr _ _ => apply wp_ask_sockaddr
  | |- wp ask_ucred _ _ => apply wp_ask_ucred
  | |- wp get_env _ _ => apply wp_get_env
  | |- wp (emit _) _ _ => apply wp_emit
  | |- wp (match ?x with _ => _ end) _ _ => destruct x eqn:?
  end.

Lemma oframe_refl s : oframe s s.
Proof. constructor; reflexivity. Qed.

Lemma oframe_trans s1 s2 s3 : oframe s1 s2 -> oframe s2 s3 -> oframe s1 s3.
Proof. intros [] []. constructor; congruence. Qed.

Lemma socket_instantiate_service_spec s w :
  wp (socket_instantiate_service s)
     (fun '(r, s') w' =>
        oframe s s' /\ ports s' = ports s /\
        env w' = env w /\ trace w' = trace w /\
        (service s <> None -> s' = s) /\
        (r = Ok tt -> service s' <> None)) w.
Proof.
  unfold socket_instantiate_service, alloc_failed, manager_load_unit,
    unit_add_two_dependencies.
  repeat pstep.
  all: cbv beta; repeat split; try reflexivity; try congruence.
  intros _. cbn. discriminate.
Qed.

Lemma socket_open_fds_label_spec s w :
  wp (socket_open_fds_label s)
     (fun '(r, s') w' =>
        oframe s s' /\ ports s' = ports s /\ env w' = env w /\ trace w' = trace w) w.
Proof.
  unfold socket_open_fds_label. apply wp_bind.
  eapply wp_conseq; [apply socket_instantiate_service_spec |].
  intros [r s1] w1 HH; cbv beta in HH.
  destruct HH as (F & P & E & T & _).
  unfold label_get_create_label_from_exe.
  repeat pstep; cbv beta;
    (split; [exact F | split; [exact P | split; cbn; congruence]]).
Qed.

Lemma socket_open_fds_create_spec t w :
  wp (socket_open_fds_create t)
     (fun r w' =>
        env w' = env w /\
        match r with
        | Ok fd => trace w' = EvOpen t (Z.of_N fd) :: trace w
        | Err _ => trace w' = EvOpenFailed t :: trace w
        end) w.
Proof.
  unfold socket_open_fds_create, socket_address_listen, special_address_create,
    fifo_address_create, mq_address_create, endpoint_create.
  destruct t; repeat pstep; cbv beta; split; reflexivity.
Qed.

Lemma opened_until_cons q q' ps ps' pre pre' p :
  opened_or_kept q q' -> opened_until ps ps' pre pre' p ->
  opened_until (q :: ps) (q' :: ps') (q :: pre) (q' :: pre') p.
Proof.
  intros H (post & A & B & C & D). exists post.
  split; [rewrite A; reflexivity |]. split; [rewrite B; reflexivity |].
  split; [constructor; assumption | exact D].
Qed.

Lemma socket_open_fds_loop_spec ps : forall s know w,
  wp (socket_open_fds_loop s know ps)
     (fun '(x, s1, ps') w' => open_fds_loop_post s w ps x s1 ps' w') w.
Proof.
  induction ps as [| p rest IH]; intros s know w.
  - simpl. apply wp_ret. unfold open_fds_loop_post.
    repeat split; try reflexivity. constructor.
  - cbn [socket_open_fds_loop].
    destruct (0 <=? p_fd p) eqn:Hfd.
    + apply Z.leb_le in Hfd. apply wp_bind.
      eapply wp_conseq; [apply IH |].
      intros [[x s1] rest'] w1 HH; cbv beta in HH.
      apply wp_ret. destruct HH as (F & P & E & X).
      assert (K : opened_or_kept p p).
      { unfold opened_or_kept. destruct (p_fd p <? 0) eqn:C; [| reflexivity].
        apply Z.ltb_lt in C. lia. }
      assert (O : forall l l', opening (p :: l) (p :: l') = opening l l').
      { intros l l'. simpl. destruct (p_fd p <? 0) eqn:C; [| reflexivity].
        apply Z.ltb_lt in C. lia. }
      split; [exact F |]. split; [exact P |]. split; [exact E |].
      destruct x.
      * destruct X as [X T]. split; [constructor; assumption |].
        rewrite O. exact T.
      * destruct X as (pre & pre' & q & U & T).
        exists (p :: pre), (p :: pre'), q.
        split; [apply opened_until_cons; assumption |]. rewrite O. exact T.
      * destruct X as (pre & pre' & q & U & T).
        exists (p :: pre), (p :: pre'), q.
        split; [apply opened_until_cons; assumption |]. rewrite O. exact T.
    + apply Z.leb_gt in Hfd. apply wp_bind.
      assert (L : wp (if SocketPortType_beq (p_type p) SOCKET_SOCKET && negb know
                      then socket_open_fds_label s else ret (Ok tt, s))
                     (fun '(r, s') w' =>
                        oframe s s' /\ ports s' = ports s /\ env w' = env w /\
                        trace w' = trace w) w).
      { destruct (SocketPortType_beq (p_type p) SOCKET_SOCKET && negb know).
        - apply socket_open_fds_label_spec.
        - apply wp_ret. repeat split; reflexivity. }
      eapply wp_conseq; [exact L |]. clear L.
      intros [lr s1] w1 HH; cbv beta in HH. destruct HH as (F1 & P1 & E1 & T1).
      destruct lr as [[] | e].
      * apply wp_bind.
        eapply wp_conseq; [apply socket_open_fds_create_spec |].
        intros r w2 HH; cbv beta in HH. destruct HH as (E2 & T2).
        destruct r as [fd | e].
        -- apply wp_bind. eapply wp_conseq; [apply IH |].
           intros [[x s2] rest'] w3 HH; cbv beta in HH.
           apply wp_ret. destruct HH as (F & P & E & X).
           assert (K : opened_or_kept p (set_fd p (Z.of_N fd))).
           { unfold opened_or_kept. destruct (p_fd p <? 0) eqn:C.
             - cbn. split; [lia | reflexivity].
             - apply Z.ltb_ge in C. lia. }
           assert (O : forall l l',
                     opening (p :: l) (set_fd p (Z.of_N fd) :: l') =
                     EvOpen (p_type p) (Z.of_N fd) :: opening l l').
           { intros l l'. simpl. destruct (p_fd p <? 0) eqn:C; [reflexivity |].
             apply Z.ltb_ge in C. lia. }
           split; [eapply oframe_trans; eassumption |].
           split; [congruence |]. split; [congruence |].
           destruct x.
           ++ destruct X as [X T]. split; [constructor; assumption |].
              rewrite O. cbn [rev]. rewrite <- app_assoc. cbn [app].
              rewrite T, T2, T1. reflexivity.
           ++ destruct X as (pre & pre' & q & U & T).
              exists (p :: pre), (set_fd p (Z.of_N fd) :: pre'), q.
              split; [apply opened_until_cons; assumption |].
              rewrite O. cbn [rev]. rewrite <- app_assoc. cbn [app].
              rewrite T, T2, T1. reflexivity.
           ++ destruct X as (pre & pre' & q & U & T).
              exists (p :: pre), (set_fd p (Z.of_N fd) :: pre'), q.
              split; [apply opened_until_cons; assumption |].
              rewrite O. cbn [rev]. rewrite <- app_assoc. cbn [app].
              rewrite T, T2, T1. reflexivity.
        -- apply wp_ret. split; [exact F1 |]. split; [exact P1 |].
           split; [congruence |].
           exists [], [], p. split.
           ++ exists rest. repeat split; try reflexivity; [constructor | exact Hfd].
           ++ cbn. rewrite T2, T1. reflexivity.
      * apply wp_ret. split; [exact F1 |]. split; [exact P1 |].
        split; [exact E1 |].
        exists [], [], p. split.
        -- exists rest. repeat split; try reflexivity; [constructor | exact Hfd].
        -- cbn. exact T1.
Qed.

Lemma socket_close_fds_loop_exact ps : forall w,
  wpt (socket_close_fds_loop ps)
      (fun ps' w' => ps' = map close_port ps /\ env w' = env w /\
                     trace w' = (rev (closing ps) ++ trace w)%list) w.
Proof.
  induction ps as [| p rest IH]; intros w.
  - simpl. apply wpt_ret. repeat split; reflexivity.
  - cbn [socket_close_fds_loop map closing flat_map]. unfold close_port at 1.
    destruct (p_fd p <? 0) eqn:Hfd.
    + apply wpt_bind. eapply wpt_conseq; [apply IH |].
      intros ps' w' HH; cbv beta in HH; destruct HH as (-> & E & T).
      apply wpt_ret. repeat split; [exact E |]. exact T.
    + apply Z.ltb_ge in Hfd. unfold safe_close.
      cbn [unit_unwatch_fd set_fd_watch p_fd].
      destruct (0 <=? p_fd p) eqn:Hfd'; [| apply Z.leb_gt in Hfd'; lia].
      apply wpt_bind. apply wpt_bind. apply wpt_emit. apply wpt_ret.
      apply wpt_bind. eapply wpt_conseq; [apply IH |].
      intros ps' w' HH; cbv beta in HH; destruct HH as (-> & E & T).
      apply wpt_ret. repeat split; [exact E |].
      rewrite T. cbn [trace app rev]. fold (closing rest).
      rewrite <- app_assoc. reflexivity.
Qed.

Lemma socket_open_fds_spec s w :
  wp (socket_open_fds s) (fun '(r, s') w' => open_fds_post s w r s' w') w.
Proof.
  unfold socket_open_fds. apply wp_bind.
  eapply wp_conseq; [apply socket_open_fds_loop_spec |].
  intros [[x s1] ps'] w1 HH; cbv beta in HH.
  destruct HH as (F & P & E & X).
  assert (F' : oframe s (set_ports s1 ps')).
  { destruct F. constructor; assumption. }
  destruct x.
  - apply wp_ret. destruct X as [X T]. split; [exact F' |].
    split; [exact E |]. split; assumption.
  - apply wp_ret. destruct X as (pre & pre' & p & U & T).
    split; [exact F' |]. split; [exact E |].
    exists pre, pre', p, ps'. split; [exact U |]. left. split; [reflexivity | exact T].
  - destruct X as (pre & pre' & p & U & T).
    unfold socket_close_fds. apply wp_bind. apply wp_bind. apply wpt_wp.
    eapply wpt_conseq; [apply socket_close_fds_loop_exact |].
    intros ps2 w2 HH; cbv beta in HH. destruct HH as (-> & E2 & T2).
    apply wp_ret. apply wp_ret.
    split; [destruct F; constructor; assumption |]. split; [congruence |].
    exists pre, pre', p, ps'. split; [exact U |]. right.
    split; [reflexivity |]. cbn [ports set_ports] in T2. rewrite T2, T. reflexivity.
Qed.

Lemma opening_only_opens ps : forall ps' e,
  In e (opening ps ps') -> exists t fd, e = EvOpen t fd.
Proof.
  induction ps as [| p rest IH]; intros [| p' rest'] e H; simpl in H;
    try contradiction.
  destruct (p_fd p <? 0).
  - destruct H as [<- | H]; [eauto | eapply IH; eauto].
  - eapply IH; eauto.
Qed.

Lemma opening_opened ps ps' t fd :
  Forall2 opened_or_kept ps ps' -> In (EvOpen t fd) (opening ps ps') ->
  exists p', In p' ps' /\ p_fd p' = fd /\ 0 <= fd.
Proof.
  induction 1 as [| p p' rest rest' K F IH]; simpl; [contradiction |].
  unfold opened_or_kept in K. destruct (p_fd p <? 0).
  - intros [E | H].
    + injection E as _ <-. exists p'. split; [left; reflexivity |].
      split; [reflexivity | apply K].
    + destruct (IH H) as (q & A & B). exists q. split; [right; exact A | exact B].
  - intros H. destruct (IH H) as (q & A & B).
    exists q. split; [right; exact A | exact B].
Qed.

Lemma kept_open ps ps' p :
  Forall2 opened_or_kept ps ps' -> In p ps -> 0 <= p_fd p -> In p ps'.
Proof.
  induction 1 as [| q q' rest rest' K F IH]; simpl; [contradiction |].
  intros [-> | H] Hfd.
  - left. unfold opened_or_kept in K. destruct (p_fd p <? 0) eqn:C.
    + apply Z.ltb_lt in C. lia.
    + exact K.
  - right. apply IH; assumption.
Qed.

Lemma closing_closes ps p :
  In p ps -> 0 <= p_fd p -> In (EvClose (p_fd p)) (closing ps).
Proof.
  intros H Hfd. unfold closing. apply in_flat_map. exists p.
  split; [exact H |]. destruct (p_fd p <? 0) eqn:C.
  - apply Z.ltb_lt in C. lia.
  - left. reflexivity.
Qed.

Lemma closing_only_closes ps e :
  In e (closing ps) -> exists fd, e = EvClose fd.
Proof.
  unfold closing. intros H. apply in_flat_map in H. destruct H as (p & _ & H).
  destruct (p_fd p <? 0); [contradiction |].
  destruct H as [<- | []]. eauto.
Qed.

Lemma close_port_closed p : p_fd (close_port p) < 0.
Proof.
  unfold close_port. destruct (p_fd p <? 0) eqn:C.
  - apply Z.ltb_lt in C. exact C.
  - simpl. lia.
Qed.

Lemma rewatched_refl p : rewatched p p.
Proof. split; [destruct p; reflexivity | reflexivity]. Qed.

Lemma rewatched_fds ps ps' :
  Forall2 rewatched ps ps' -> map p_fd ps' = map p_fd ps.
Proof.
  induction 1 as [| p p' rest rest' [K _] F IH]; simpl; [reflexivity |].
  rewrite IH, K. reflexivity.
Qed.

Lemma Forall2_rewatched_refl ps : Forall2 rewatched ps ps.
Proof. induction ps; constructor; [apply rewatched_refl | assumption]. Qed.

Lemma socket_watch_fds_loop_spec ps : forall w,
  wpt (socket_watch_fds_loop ps)
      (fun '(r, ps') w' =>
         env w' = env w /\ trace w' = trace w /\
         Forall2 rewatched ps ps' /\
         (r = Ok tt -> all_open_watched ps')) w.
Proof.
  induction ps as [| p rest IH]; intros w.
  - simpl. apply wpt_ret. repeat split; constructor.
  - cbn [socket_watch_fds_loop]. destruct (p_fd p <? 0) eqn:Hfd.
    + apply Z.ltb_lt in Hfd. apply wpt_bind.
      eapply wpt_conseq; [apply IH |].
      intros [r rest'] w1 HH; cbv beta in HH. destruct HH as (E & T & F & W).
      apply wpt_ret. split; [exact E |]. split; [exact T |].
      split; [constructor; [apply rewatched_refl | exact F] |].
      intros R. constructor; [intros; lia | apply W; exact R].
    + apply Z.ltb_ge in Hfd. unfold unit_watch_fd.
      apply wpt_bind. apply wpt_bind. apply wpt_ask_rc.
      destruct (o_rc (env w) (tick w)) as [n | e].
      * apply wpt_ret. apply wpt_bind.
        eapply wpt_conseq; [apply IH |].
        intros [r rest'] w1 HH; cbv beta in HH. destruct HH as (E & T & F & W).
        apply wpt_ret. split; [exact E |]. split; [exact T |]. split.
        -- constructor; [| exact F]. split; [reflexivity |]. intros; lia.
        -- intros R. constructor; [intros _; reflexivity | apply W; exact R].
      * apply wpt_ret. apply wpt_ret. split; [reflexivity |].
        split; [reflexivity |]. split.
        -- constructor; [apply rewatched_refl | apply Forall2_rewatched_refl].
        -- discriminate.
Qed.

Lemma socket_unwatch_fds_rewatched ps :
  Forall2 rewatched ps
    (map (fun p => if p_fd p <? 0 then p else unit_unwatch_fd p) ps) /\
  all_open_unwatched
    (map (fun p => if p_fd p <? 0 then p else unit_unwatch_fd p) ps).
Proof.
  induction ps as [| p rest [IH1 IH2]]; simpl; [split; constructor |].
  destruct (p_fd p <? 0) eqn:C.
  - apply Z.ltb_lt in C. split; constructor; auto.
    + apply rewatched_refl.
    + intros; lia.
  - apply Z.ltb_ge in C. split; constructor; auto.
    split; [reflexivity | intros; lia].
Qed.

Lemma Forall2_rewatched_trans ps1 ps2 ps3 :
  Forall2 rewatched ps1 ps2 -> Forall2 rewatched ps2 ps3 ->
  Forall2 rewatched ps1 ps3.
Proof.
  intros H. revert ps3. induction H as [| p p' r r' [K1 K2] F IH]; intros ps3 H3.
  - inversion H3. constructor.
  - inversion H3 as [| q q' t t' [L1 L2] G]; subst. constructor; [| apply IH; exact G].
    split.
    + rewrite L1. rewrite K1. reflexivity.
    + intros C. rewrite L2; [apply K2; exact C |].
      rewrite K1. simpl. exact C.
Qed.

Lemma socket_watch_fds_spec s w :
  wpt (socket_watch_fds s)
      (fun '(r, s') w' =>
         env w' = env w /\ trace w' = trace w /\ wframe s s' /\
         match r with
         | Ok _ => all_open_watched (ports s')
         | Err _ => all_open_unwatched (ports s')
         end) w.
Proof.
  unfold socket_watch_fds. apply wpt_bind.
  eapply wpt_conseq; [apply socket_watch_fds_loop_spec |].
  intros [r ps'] w1 HH; cbv beta in HH. destruct HH as (E & T & F & W).
  destruct r as [[] | e]; apply wpt_ret.
  - split; [exact E |]. split; [exact T |]. split.
    + split; [constructor; reflexivity |]. split; [reflexivity | exact F].
    + apply W. reflexivity.
  - split; [exact E |]. split; [exact T |].
    destruct (socket_unwatch_fds_rewatched ps') as [U1 U2]. split.
    + split; [constructor; reflexivity |]. split; [reflexivity |].
      eapply Forall2_rewatched_trans; [exact F | exact U1].
    + exact U2.
Qed.

Lemma outcome_stop_path first later s' :
  outcome SOCKET_FAILURE_RESOURCES first later s' ->
  In first [SOCKET_STOP_PRE; SOCKET_STOP_POST; SOCKET_FINAL_SIGTERM] ->
  incl later [SOCKET_STOP_PRE; SOCKET_STOP_POST; SOCKET_FINAL_SIGTERM] ->
  stop_path_entered s'.
Proof.
  intros O F L.
  destruct O as [[A B] | [[A B] | [[A [B C]] | [A [B C]]]]].
  - split; [| exact B]. rewrite A. simpl in F |- *. tauto.
  - split; [| destruct B; assumption]. apply L in A. simpl in A |- *. tauto.
  - discriminate C.
  - split; [| destruct C; assumption]. rewrite A. simpl. tauto.
Qed.

Lemma outcome_started r0 first later s' :
  outcome SOCKET_FAILURE_RESOURCES first later s' ->
  In first [SOCKET_STOP_PRE; SOCKET_STOP_POST; SOCKET_FINAL_SIGTERM] ->
  incl later [SOCKET_STOP_PRE; SOCKET_STOP_POST; SOCKET_FINAL_SIGTERM] ->
  started r0 s'.
Proof. intros O F L. right. eapply outcome_stop_path; eassumption. Qed.

Lemma stop_pre_started s r0 w :
  wpt (socket_enter_stop_pre s SOCKET_FAILURE_RESOURCES)
      (fun s' _ => started r0 s') w.
Proof.
  eapply wpt_conseq; [apply socket_enter_stop_pre_spec |].
  intros s' w' HH; cbv beta in HH. destruct HH as [_ O].
  eapply outcome_started; [exact O | simpl; tauto |].
  intros x Hx. simpl in Hx |- *. tauto.
Qed.

Lemma socket_enter_listening_spec s w :
  wpt (socket_enter_listening s)
      (fun s' w' =>
         started (result s) s' /\
         (state s' = SOCKET_LISTENING ->
          all_open_watched (ports s') /\
          Forall2 rewatched (ports s) (ports s'))) w.
Proof.
  unfold socket_enter_listening. apply wpt_bind.
  eapply wpt_conseq; [apply socket_watch_fds_spec |].
  intros [r s1] w1 HH; cbv beta in HH. destruct HH as (E & T & (F & SV & P) & W).
  destruct r as [[] | e].
  - eapply wpt_conseq; [apply socket_set_state_spec |].
    intros s' w' HH; cbv beta in HH. destruct HH as [Q X]. split.
    + left. rewrite (ssp_state _ _ _ Q), (ssp_result _ _ _ Q), (of_result _ _ F).
      split; [simpl; tauto | reflexivity].
    + intros _. rewrite (ssp_ports _ _ _ Q). unfold ports_after_set_state. simpl.
      split; [exact W | exact P].
  - eapply wpt_conseq; [apply socket_enter_stop_pre_spec |].
    intros s' w' HH; cbv beta in HH. destruct HH as [_ O]. split.
    + eapply outcome_started; [exact O | simpl; tauto |].
      intros x Hx. simpl in Hx |- *. tauto.
    + intros L. exfalso.
      destruct O as [[A B] | [[A B] | [[A [B C]] | [A [B C]]]]];
        rewrite L in A; simpl in A; try discriminate A.
      destruct A as [A | [A | []]]; discriminate A.
Qed.

Lemma socket_enter_start_post_spec s w :
  wpt (socket_enter_start_post s) (fun s' w' => started (result s) s') w.
Proof.
  unfold socket_enter_start_post. apply wpt_bind.
  eapply wpt_conseq; [apply socket_unwatch_control_pid_spec |].
  intros s1 w1 HH; cbv beta in HH. destruct HH as (_ & _ & R1 & _).
  cbn [control_command set_control_command set_control_command_id config].
  destruct (exec_command (config s1) SOCKET_EXEC_START_POST) as [| c cs].
  - eapply wpt_conseq; [apply socket_enter_listening_spec |].
    intros s' w' HH; cbv beta in HH. destruct HH as [O _].
    cbn in O. rewrite R1 in O. exact O.
  - apply wpt_bind. eapply wpt_conseq; [apply socket_spawn_spec |].
    intros [r s2] w2 HH; cbv beta in HH. destruct HH as (_ & _ & R2 & _).
    cbn in R2. destruct r.
    + eapply wpt_conseq; [apply socket_set_state_spec |].
      intros s' w' HH; cbv beta in HH. destruct HH as [Q X].
      left. rewrite (ssp_state _ _ _ Q), (ssp_result _ _ _ Q).
      split; [simpl; tauto | congruence].
    + apply stop_pre_started.
Qed.

Lemma socket_chown_spec s w :
  wp (socket_chown s)
     (fun '(r, s') w' => result s' = result s /\ config s' = config s) w.
Proof.
  unfold socket_chown, unit_watch_pid.
  repeat pstep; cbv beta; split; reflexivity.
Qed.

Lemma socket_enter_start_chown_spec s w :
  wp (socket_enter_start_chown s) (fun s' w' => started (result s) s') w.
Proof.
  unfold socket_enter_start_chown. apply wp_bind.
  eapply wp_conseq; [apply socket_open_fds_spec |].
  intros [r s1] w1 HH; cbv beta in HH. destruct HH as (F & _).
  pose proof (of_result _ _ F) as R1.
  destruct r as [[] | e].
  - destruct (negb (isempty (user (config s1))) || negb (isempty (group (config s1)))).
    + apply wp_bind. apply wpt_wp.
      eapply wpt_conseq; [apply socket_unwatch_control_pid_spec |].
      intros s2 w2 HH; cbv beta in HH. destruct HH as (_ & _ & R2 & _).
      apply wp_bind. eapply wp_conseq; [apply socket_chown_spec |].
      intros [r s3] w3 HH; cbv beta in HH. destruct HH as (R3 & _).
      cbn in R3. destruct r.
      * apply wpt_wp. eapply wpt_conseq; [apply socket_set_state_spec |].
        intros s' w' HH; cbv beta in HH. destruct HH as [Q X].
        left. rewrite (ssp_state _ _ _ Q), (ssp_result _ _ _ Q).
        split; [simpl; tauto | congruence].
      * apply wpt_wp. apply stop_pre_started.
    + apply wpt_wp. eapply wpt_conseq; [apply socket_enter_start_post_spec |].
      intros s' w' HH; cbv beta in HH. rewrite R1 in HH. exact HH.
  - apply wpt_wp. apply stop_pre_started.
Qed.

Lemma socket_enter_start_pre_spec s w :
  wp (socket_enter_start_pre s) (fun s' w' => started (result s) s') w.
Proof.
  unfold socket_enter_start_pre. apply wp_bind. apply wpt_wp.
  eapply wpt_conseq; [apply socket_unwatch_control_pid_spec |].
  intros s1 w1 HH; cbv beta in HH. destruct HH as (_ & _ & R1 & _).
  cbn [control_command set_control_command set_control_command_id config].
  destruct (exec_command (config s1) SOCKET_EXEC_START_PRE) as [| c cs].
  - eapply wp_conseq; [apply socket_enter_start_chown_spec |].
    intros s' w' HH; cbv beta in HH. cbn in HH. rewrite R1 in HH. exact HH.
  - apply wp_bind. apply wpt_wp. eapply wpt_conseq; [apply socket_spawn_spec |].
    intros [r s2] w2 HH; cbv beta in HH. destruct HH as (_ & _ & R2 & _).
    cbn in R2. destruct r; apply wpt_wp.
    + eapply wpt_conseq; [apply socket_set_state_spec |].
      intros s' w' HH; cbv beta in HH. destruct HH as [Q X].
      left. rewrite (ssp_state _ _ _ Q), (ssp_result _ _ _ Q).
      split; [simpl; tauto | congruence].
    + eapply wpt_conseq; [apply socket_enter_dead_terminal |].
      intros s' w' HH; cbv beta in HH. destruct HH as [_ O].
      right. destruct O as [[A [B C]] | [A [B C]]]; [discriminate C |].
      split; [rewrite A; simpl; tauto | exact C].
Qed.

Lemma instance_from_socket_spec fd nr w :
  wp (instance_from_socket fd nr)
     (fun r w' => env w' = env w /\ trace w' = trace w) w.
Proof.
  unfold instance_from_socket, alloc_failed.
  repeat pstep; cbv beta; split; reflexivity.
Qed.

Lemma extends_same P w w' :
  env w' = env w -> trace w' = trace w -> extends P w w'.
Proof.
  intros E T. split; [exact E |]. exists []. split; [exact T | constructor].
Qed.

(** The [fail] label of [socket_enter_running], before the hand-over *)
Lemma enter_running_fail_spec s s1 cfd w w1 :
  0 <= cfd ->
  n_connections s1 = n_connections s -> port_fds s1 = port_fds s ->
  extends (quiet (port_fds s)) w w1 ->
  wpt (s2 <- socket_enter_stop_pre s1 SOCKET_FAILURE_RESOURCES ;;
       safe_close cfd ;;; ret s2)
      (fun s' w' => dispatch_closed s cfd w s' w' /\ stop_path_entered s') w1.
Proof.
  intros Hfd N P X. apply wpt_bind.
  eapply wpt_conseq; [apply socket_enter_stop_pre_spec |].
  intros s2 w2 HH; cbv beta in HH. destruct HH as [[F X2] O].
  unfold safe_close. destruct (0 <=? cfd) eqn:C; [| apply Z.leb_gt in C; lia].
  apply wpt_bind. apply wpt_bind. apply wpt_emit. apply wpt_ret. apply wpt_ret.
  split.
  - exists w2. split; [| split; [reflexivity | split; [reflexivity |]]].
    + eapply extends_trans; [exact X |]. rewrite <- P. exact X2.
    + rewrite (sf_n_connections _ _ F). exact N.
  - eapply outcome_stop_path; [exact O | simpl; tauto |].
    intros x Hx. simpl in Hx |- *. tauto.
Qed.

Lemma socket_enter_running_accept_spec s cfd w :
  0 <= cfd ->
  wp (socket_enter_running s cfd)
     (fun s' w' => dispatched s cfd w s' w') w.
Proof.
  intros Hfd. unfold socket_enter_running, unit_stop_pending.
  apply wp_bind. apply wp_get_env. cbv beta zeta.
  assert (C1 : (0 <=? cfd) = true) by (apply Z.leb_le; exact Hfd).
  assert (C2 : (cfd <? 0) = false) by (apply Z.ltb_ge; exact Hfd).
  assert (CLOSE : forall s1 w1,
            n_connections s1 = n_connections s ->
            extends (quiet (port_fds s)) w w1 ->
            wp (safe_close cfd ;;; ret s1)
               (fun s' w' => dispatched s cfd w s' w') w1).
  { intros s1 w1 N X. unfold safe_close. rewrite C1.
    repeat pstep. right. exists w1.
    split; [exact X |]. split; [reflexivity |]. split; [reflexivity | exact N]. }
  assert (FAIL : forall s1 w1,
            n_connections s1 = n_connections s -> port_fds s1 = port_fds s ->
            extends (quiet (port_fds s)) w w1 ->
            wp (s2 <- socket_enter_stop_pre s1 SOCKET_FAILURE_RESOURCES ;;
                safe_close cfd ;;; ret s2)
               (fun s' w' => dispatched s cfd w s' w') w1).
  { intros s1 w1 N P X. apply wpt_wp.
    eapply wpt_conseq; [apply (enter_running_fail_spec s s1 cfd w w1); assumption |].
    intros s' w' [D _]. right. exact D. }
  apply wp_bind. apply wp_ask_bool.
  destruct (o_bool (env w) (tick w)).
  - rewrite C1. apply CLOSE; [reflexivity | ext].
  - rewrite C2.
    destruct (max_connections (config s) <=? n_connections s).
    + apply CLOSE; [reflexivity | ext].
    + apply wp_bind.
      eapply wp_conseq; [apply socket_instantiate_service_spec |].
      intros [r s1] w1 HH; cbv beta in HH. destruct HH as (F & P & E1 & T1 & _ & SV).
      assert (X1 : extends (quiet (port_fds s)) w w1).
      { apply extends_same; cbn in E1, T1 |- *; assumption. }
      assert (N1 : n_connections s1 = n_connections s) by apply (of_n_connections _ _ F).
      assert (P1 : port_fds s1 = port_fds s) by (unfold port_fds; rewrite P; reflexivity).
      destruct r as [[] | e]; [| apply FAIL; assumption].
      apply wp_bind.
      eapply wp_conseq; [apply instance_from_socket_spec |].
      intros r w2 HH; cbv beta in HH. destruct HH as (E2 & T2).
      assert (X2 : extends (quiet (port_fds s)) w w2).
      { eapply extends_trans; [exact X1 |]. apply extends_same; assumption. }
      destruct r as [instance | en].
      2: { destruct (negb (errno_is_ENOTCONN en));
             [apply FAIL | apply CLOSE]; assumption. }
      destruct (unit_name_to_prefix (env w) (id (config s1))) as [prefix |];
        [| apply FAIL; assumption].
      destruct (unit_name_build (env w) prefix instance ".service") as [name |];
        [| apply FAIL; assumption].
      destruct (service s1) as [svc |]; [| apply wp_abort].
      unfold unit_add_name. apply wp_bind. apply wp_ask_rc.
      destruct (o_rc (env w2) (tick w2)); [| apply FAIL; try assumption; ext; exact X2].
      unfold service_set_socket_fd. apply wp_bind. apply wp_bind. apply wp_ask_rc.
      match goal with |- wp (match ?x with _ => _ end) _ _ => destruct x end.
      2: { apply wp_ret. apply FAIL; try assumption; ext; exact X2. }
      apply wp_bind. apply wp_emit. apply wp_ret.
      unfold manager_add_job. apply wp_bind. apply wp_bind. apply wp_ask_rc.
      match goal with |- wp (match ?x with _ => _ end) _ _ => destruct x end.
      * apply wp_bind. apply wp_emit. apply wp_ret. apply wp_ret.
        left. exists name, (next_tick (next_tick w2)).
        exists {| env := env (next_tick (next_tick w2));
                  tick := tick (next_tick (next_tick w2));
                  trace := EvSetSocketFd name cfd :: trace (next_tick (next_tick w2)) |}.
        split; [| split; [| split; [reflexivity | split]]].
        -- ext. exact X2.
        -- reflexivity.
        -- ext. right. eexists. reflexivity.
        -- cbn. rewrite N1. reflexivity.
      * apply wp_ret. apply wpt_wp. apply wpt_bind.
        eapply wpt_conseq; [apply socket_enter_stop_pre_spec |].
        intros s3 w3 HH; cbv beta in HH. destruct HH as [[F3 X3] _].
        unfold safe_close. cbn. apply wpt_ret.
        left. exists name, (next_tick (next_tick w2)).
        exists {| env := env (next_tick (next_tick w2));
                  tick := tick (next_tick (next_tick w2));
                  trace := EvSetSocketFd name cfd :: trace (next_tick (next_tick w2)) |}.
        split; [| split; [| split; [reflexivity | split]]].
        -- ext. exact X2.
        -- reflexivity.
        -- eapply extends_trans; [apply extends_tick |].
           eapply extends_weaken; [| exact X3].
           intros ev Q. left. cbn in Q. unfold port_fds in Q |- *.
           cbn in Q. rewrite P in Q. exact Q.
        -- rewrite (sf_n_connections _ _ F3). cbn. rewrite N1. reflexivity.
Qed.

Lemma wpt_known {A} (m : M A) (Q : A -> World -> Prop) w a w1 :
  m w = Some (a, w1) -> Q a w1 -> wpt m Q w.
Proof. intros E H. unfold wpt. rewrite E. exact H. Qed.

Lemma outcome_result r0 first later s' :
  outcome r0 first later s' ->
  result s' = r0 \/ result s' = SOCKET_FAILURE_RESOURCES.
Proof.
  intros [[A B] | [[A B] | [[A [B C]] | [A [B C]]]]]; auto.
  left. congruence.
Qed.

Lemma ports_after_set_state_map st ps :
  ports_after_set_state st ps = map (port_after_set_state st) ps.
Proof.
  unfold ports_after_set_state, port_after_set_state.
  destruct (state_ne st SOCKET_LISTENING), (keeps_fds st);
    rewrite ?map_map; try reflexivity; symmetry; apply map_id.
Qed.

Lemma port_after_set_state_facts st p :
  (p_fd_watch p = true -> 0 <= p_fd p) ->
  let p' := port_after_set_state st p in
  (0 <= p_fd p' -> keeps_fds st = true) /\
  (p_fd_watch p' = true -> st = SOCKET_LISTENING /\ 0 <= p_fd p') /\
  (0 <= p_fd p' -> p_fd p' = p_fd p) /\
  (p_fd_watch p' = true -> p_fd_watch p = true) /\
  (keeps_fds st = true -> p_fd p' = p_fd p) /\
  (st = SOCKET_LISTENING -> p' = p).
Proof.
  intros C. unfold port_after_set_state, unwatch_port, close_port.
  destruct (p_fd p <? 0) eqn:Hfd;
    [apply Z.ltb_lt in Hfd | apply Z.ltb_ge in Hfd].
  - destruct st; cbn; rewrite ?(proj2 (Z.ltb_lt _ _) Hfd); cbn;
      repeat split; intros; try congruence; try lia;
      try (specialize (C H); lia).
  - destruct st; cbn; rewrite ?(proj2 (Z.ltb_ge _ _) Hfd); cbn;
      repeat split; intros; try congruence; try lia;
      try (specialize (C H); lia).
Qed.

Lemma socket_serialize_ports_spec e ps : forall f fds w,
  wpt (socket_serialize_ports e ps f fds)
      (fun '(r, f', fds') w' => exists more, f' = (f ++ more)%list) w.
Proof.
  induction ps as [| p rest IH]; intros f fds w.
  - simpl. apply wpt_ret. exists []. symmetry. apply app_nil_r.
  - cbn [socket_serialize_ports]. destruct (p_fd p <? 0); [apply IH |].
    unfold fdset_put_dup. apply wpt_bind. apply wpt_bind. apply wpt_ask_rc.
    assert (NIL : exists more, f = (f ++ more)%list)
      by (exists []; symmetry; apply app_nil_r).
    assert (STEP : forall k v fds1 w1,
              wpt (socket_serialize_ports e rest (unit_serialize_item f k v) fds1)
                  (fun '(r, f', fds') w' => exists more, f' = (f ++ more)%list) w1).
    { intros k v fds1 w1. eapply wpt_conseq; [apply IH |].
      intros [[r f'] fds'] w' [more ->]. unfold unit_serialize_item.
      exists ([(k, v)] ++ more)%list. rewrite app_assoc. reflexivity. }
    destruct (o_rc (env w) (tick w)) as [copy | en].
    + apply wpt_bind. apply wpt_emit. apply wpt_ret.
      destruct (p_type p); try apply STEP.
      destruct (socket_address_print e (p_address p)); [| apply wpt_ret; exact NIL].
      destruct (Have_linux_netlink_h e && AF_NETLINK_family (p_address p));
        apply STEP.
    + apply wpt_ret. apply wpt_ret. exact NIL.
Qed.

(** ** Printing and scanning numbers *)
Lemma digit_cases (d : Z) :
  0 <= d < 10 ->
  d = 0 \/ d = 1 \/ d = 2 \/ d = 3 \/ d = 4 \/ d = 5 \/ d = 6 \/ d = 7 \/
  d = 8 \/ d = 9.
Proof. lia. Qed.

Lemma digit_val_digit_char (d : Z) :
  0 <= d < 10 -> digit_val (digit_char d) = Some d.
Proof.
  intros H. destruct (digit_cases d H) as [-> | [-> | [-> | [-> | [-> | [-> |
    [-> | [-> | [-> | ->]]]]]]]]]; reflexivity.
Qed.

Lemma fmt_digits_app fuel : forall n acc rest,
  fmt_digits fuel n (acc ++ rest) = fmt_digits fuel n acc ++ rest.
Proof.
  induction fuel as [| f IH]; intros n acc rest; simpl; [reflexivity |].
  destruct (n <? 10); [reflexivity |].
  rewrite <- IH. reflexivity.
Qed.

Lemma scan_digits_digit (d : Z) (r : string) (a : Z) :
  0 <= d < 10 ->
  scan_digits 10 (String (digit_char d) r) a = scan_digits 10 r (a * 10 + d).
Proof.
  intros H. cbn [scan_digits]. rewrite (digit_val_digit_char d H).
  destruct (d <? 10) eqn:C; [reflexivity | apply Z.ltb_ge in C; lia].
Qed.

Lemma scan_fmt_digits fuel : forall n acc a,
  0 <= n < 10 ^ Z.of_nat fuel ->
  exists k, 0 <= k /\
    scan_digits 10 (fmt_digits fuel n acc) a
    = scan_digits 10 acc (a * 10 ^ k + n).
Proof.
  induction fuel as [| f IH]; intros n acc a H.
  - simpl in H. assert (n = 0) by lia. subst n. exists 0. split; [lia |].
    simpl. f_equal. lia.
  - cbn [fmt_digits]. destruct (n <? 10) eqn:C.
    + apply Z.ltb_lt in C. exists 1. split; [lia |].
      rewrite Z.mod_small by lia. rewrite scan_digits_digit by lia.
      f_equal.
    + apply Z.ltb_ge in C.
      assert (Hq : 0 <= n / 10 < 10 ^ Z.of_nat f).
      { split; [apply Z.div_pos; lia |].
        apply Z.div_lt_upper_bound; [lia |].
        rewrite Nat2Z.inj_succ, Z.pow_succ_r in H by lia. lia. }
      destruct (IH (n / 10) (String (digit_char (n mod 10)) acc) a Hq)
        as (k & Hk & E).
      exists (k + 1). split; [lia |]. rewrite E.
      rewrite scan_digits_digit by (apply Z.mod_pos_bound; lia).
      f_equal. rewrite Z.pow_add_r by lia.
      pose proof (Z.div_mod n 10). lia.
Qed.

Lemma fmt_u_fuel (n : Z) :
  0 <= n -> 0 <= n < 10 ^ Z.of_nat (S (Z.to_nat (Z.log2 n))).
Proof.
  intros H. split; [exact H |].
  rewrite Nat2Z.inj_succ, Z2Nat.id by apply Z.log2_nonneg.
  destruct (Z.eq_dec n 0) as [-> | Hn]; [reflexivity |].
  assert (B : n < 2 ^ Z.succ (Z.log2 n)) by (apply Z.log2_spec; lia).
  eapply Z.lt_le_trans; [exact B |].
  apply Z.pow_le_mono_l. pose proof (Z.log2_nonneg n). lia.
Qed.

Lemma scan_digits_end base rest a :
  ends_number rest -> scan_digits base rest a = (a, rest).
Proof. intros [-> | [r ->]]; reflexivity. Qed.

Lemma scan_digits_fmt_u n rest :
  0 <= n -> ends_number rest ->
  scan_digits 10 (fmt_u n ++ rest) 0 = (n, rest).
Proof.
  intros H R. unfold fmt_u. rewrite <- fmt_digits_app. cbn [append].
  destruct (scan_fmt_digits _ n rest 0 (fmt_u_fuel n H)) as (k & _ & E).
  rewrite E. cbn. apply scan_digits_end. exact R.
Qed.

Lemma fmt_digits_first fuel : forall n acc,
  0 < n < 10 ^ Z.of_nat fuel ->
  exists d r, 1 <= d < 10 /\ fmt_digits fuel n acc = String (digit_char d) r.
Proof.
  induction fuel as [| f IH]; intros n acc H.
  - simpl in H. lia.
  - cbn [fmt_digits]. destruct (n <? 10) eqn:C.
    + apply Z.ltb_lt in C. exists n, acc. split; [lia |].
      rewrite Z.mod_small by lia. reflexivity.
    + apply Z.ltb_ge in C. apply IH. split.
      * apply Z.div_str_pos. lia.
      * apply Z.div_lt_upper_bound; [lia |].
        rewrite Nat2Z.inj_succ, Z.pow_succ_r in H by lia. lia.
Qed.

Lemma scan_int_fmt_u n rest :
  0 <= n -> ends_number rest -> scan_int (fmt_u n ++ rest) = Some (n, rest).
Proof.
  intros H R. destruct (Z.eq_dec n 0) as [-> | Hn].
  - destruct R as [-> | [r ->]]; [reflexivity | destruct r; reflexivity].
  - pose proof (scan_digits_fmt_u n rest H R) as E.
    assert (F : 0 < n < 10 ^ Z.of_nat (S (Z.to_nat (Z.log2 n))))
      by (pose proof (fmt_u_fuel n H); lia).
    destruct (fmt_digits_first _ n "" F) as (d & r & Hd & Ed).
    unfold fmt_u in E |- *. rewrite Ed in E |- *. cbn [append] in E |- *.
    assert (D : 0 <= d < 10) by lia.
    destruct (digit_cases d D) as [-> | [-> | [-> | [-> | [-> | [-> |
      [-> | [-> | [-> | ->]]]]]]]]]; try lia;
      unfold scan_int; cbn [skip_spaces is_space digit_char];
      cbv beta iota; cbn [Ascii.eqb Bool.eqb is_digit_of digit_val]; 
      (cbn in E |- *; rewrite E; reflexivity).
Qed.

Lemma append_empty (s : string) : s ++ "" = s.
Proof. induction s as [| c s IH]; simpl; [reflexivity | rewrite IH; reflexivity]. Qed.

Lemma safe_atou_fmt_u (n : Z) :
  0 <= n < UINT_MOD -> safe_atou (fmt_u n) = Some n.
Proof.
  intros H. unfold safe_atou.
  pose proof (scan_int_fmt_u n "" (proj1 H) (or_introl eq_refl)) as E.
  rewrite append_empty in E. rewrite E.
  destruct (0 <=? n) eqn:A; [| apply Z.leb_gt in A; lia].
  destruct (n <? UINT_MOD) eqn:B; [reflexivity | apply Z.ltb_ge in B; lia].
Qed.

Lemma parse_pid_fmt_u (n : Z) :
  0 < n < 2 ^ 31 -> parse_pid (fmt_u n) = Some n.
Proof.
  intros H. unfold parse_pid.
  assert (H0 : 0 <= n) by lia.
  pose proof (scan_int_fmt_u n "" H0 (or_introl eq_refl)) as E.
  rewrite append_empty in E. rewrite E.
  destruct (0 <? n) eqn:A; [| apply Z.ltb_ge in A; lia].
  destruct (n <? 2 ^ 31) eqn:B; [reflexivity | apply Z.ltb_ge in B; lia].
Qed.

Lemma skip_spaces_text (t : string) :
  no_leading_space t = true -> skip_spaces (String " " t) = t.
Proof.
  intros H. cbn. destruct t as [| c t]; [reflexivity |].
  simpl in H |- *. destruct (is_space c); [discriminate H | reflexivity].
Qed.

Lemma fmt_i_nonneg (n : Z) : 0 <= n -> fmt_i n = fmt_u n.
Proof.
  intros H. unfold fmt_i. destruct (n <? 0) eqn:C; [| reflexivity].
  apply Z.ltb_lt in C. lia.
Qed.

Lemma append_assoc (a b c : string) : (a ++ b) ++ c = a ++ (b ++ c).
Proof. induction a as [| x a IH]; simpl; [reflexivity | rewrite IH; reflexivity]. Qed.

Lemma sscanf_i_n_line (fd : Z) (t : string) :
  0 <= fd -> no_leading_space t = true ->
  sscanf_i_n (fmt_i fd ++ " " ++ t) = Some (fd, t).
Proof.
  intros H T. unfold sscanf_i_n. rewrite fmt_i_nonneg by exact H.
  cbn [append]. rewrite scan_int_fmt_u by (try exact H; right; eauto).
  rewrite skip_spaces_text by exact T. reflexivity.
Qed.

Lemma skip_spaces_fmt_u (n : Z) (rest : string) :
  0 <= n -> skip_spaces (fmt_u n ++ rest) = fmt_u n ++ rest.
Proof.
  intros H. destruct (Z.eq_dec n 0) as [-> | Hn]; [reflexivity |].
  assert (F : 0 < n < 10 ^ Z.of_nat (S (Z.to_nat (Z.log2 n))))
    by (pose proof (fmt_u_fuel n H); lia).
  destruct (fmt_digits_first _ n "" F) as (d & r & Hd & Ed).
  unfold fmt_u. rewrite Ed. cbn [append skip_spaces].
  assert (D : 0 <= d < 10) by lia.
  destruct (digit_cases d D) as [-> | [-> | [-> | [-> | [-> | [-> |
    [-> | [-> | [-> | ->]]]]]]]]]; reflexivity.
Qed.

Lemma sscanf_i_i_n_line (fd type : Z) (t : string) :
  0 <= fd -> 0 <= type -> no_leading_space t = true ->
  sscanf_i_i_n (fmt_i fd ++ " " ++ fmt_i type ++ " " ++ t) = Some (fd, type, t).
Proof.
  intros H Ht T. unfold sscanf_i_i_n. rewrite !fmt_i_nonneg by assumption.
  cbn [append]. rewrite scan_int_fmt_u by (try exact H; right; eauto).
  cbn [skip_spaces is_space]. rewrite skip_spaces_fmt_u by exact Ht.
  rewrite scan_int_fmt_u by (try exact Ht; right; eauto).
  rewrite skip_spaces_text by exact T. reflexivity.
Qed.

Lemma socket_state_from_to_string (st : SocketState) :
  socket_state_from_string (socket_state_to_string st) = Some st.
Proof. destruct st; reflexivity. Qed.

Lemma socket_result_from_to_string (r : SocketResult) :
  socket_result_from_string (socket_result_to_string r) = Some r.
Proof. destruct r; reflexivity. Qed.

Lemma socket_exec_command_from_to_string (c : SocketExecCommand) :
  socket_exec_command_from_string (socket_exec_command_to_string c) = Some c.
Proof. destruct c; reflexivity. Qed.

Lemma deserialize_item_fifo s v fds w :
  socket_deserialize_item s "fifo" v fds w =
  match sscanf_i_n v with
  | Some (fd, rest) =>
      if (fd <? 0) || negb (fdset_contains fds fd) then Some (Ok tt, s, fds, w)
      else transplant s (fun p => SocketPortType_beq (p_type p) SOCKET_FIFO &&
                                  String.eqb (p_path p) rest) fd fds w
  | None => Some (Ok tt, s, fds, w)
  end.
Proof.
  unfold socket_deserialize_item, bind, get_env. cbn [String.eqb Ascii.eqb Bool.eqb].
  destruct (sscanf_i_n v) as [[fd rest] |]; [| reflexivity].
  destruct ((fd <? 0) || negb (fdset_contains fds fd)); reflexivity.
Qed.

Lemma deserialize_item_special s v fds w :
  socket_deserialize_item s "special" v fds w =
  match sscanf_i_n v with
  | Some (fd, rest) =>
      if (fd <? 0) || negb (fdset_contains fds fd) then Some (Ok tt, s, fds, w)
      else transplant s (fun p => SocketPortType_beq (p_type p) SOCKET_SPECIAL &&
                                  String.eqb (p_path p) rest) fd fds w
  | None => Some (Ok tt, s, fds, w)
  end.
Proof.
  unfold socket_deserialize_item, bind, get_env. cbn [String.eqb Ascii.eqb Bool.eqb].
  destruct (sscanf_i_n v) as [[fd rest] |]; [| reflexivity].
  destruct ((fd <? 0) || negb (fdset_contains fds fd)); reflexivity.
Qed.

Lemma deserialize_item_mqueue s v fds w :
  socket_deserialize_item s "mqueue" v fds w =
  match sscanf_i_n v with
  | Some (fd, rest) =>
      if (fd <? 0) || negb (fdset_contains fds fd) then Some (Ok tt, s, fds, w)
      else transplant s (fun p => SocketPortType_beq (p_type p) SOCKET_MQUEUE &&
                                  String.eqb (p_path p) rest) fd fds w
  | None => Some (Ok tt, s, fds, w)
  end.
Proof.
  unfold socket_deserialize_item, bind, get_env. cbn [String.eqb Ascii.eqb Bool.eqb].
  destruct (sscanf_i_n v) as [[fd rest] |]; [| reflexivity].
  destruct ((fd <? 0) || negb (fdset_contains fds fd)); reflexivity.
Qed.

Lemma deserialize_item_socket s v fds w :
  socket_deserialize_item s "socket" v fds w =
  match sscanf_i_i_n v with
  | Some (fd, type, rest) =>
      if (fd <? 0) || (type <? 0) || negb (fdset_contains fds fd)
      then Some (Ok tt, s, fds, w)
      else transplant s (fun p => socket_address_is (env w) (p_address p) rest type)
             fd fds w
  | None => Some (Ok tt, s, fds, w)
  end.
Proof.
  unfold socket_deserialize_item, bind, get_env. cbn [String.eqb Ascii.eqb Bool.eqb].
  destruct (sscanf_i_i_n v) as [[[fd type] rest] |]; [| reflexivity].
  destruct ((fd <? 0) || (type <? 0) || negb (fdset_contains fds fd)); reflexivity.
Qed.

Lemma deserialize_item_netlink s v fds w :
  Have_linux_netlink_h (env w) = true ->
  socket_deserialize_item s "netlink" v fds w =
  match sscanf_i_n v with
  | Some (fd, rest) =>
      if (fd <? 0) || negb (fdset_contains fds fd) then Some (Ok tt, s, fds, w)
      else transplant s (fun p => socket_address_is_netlink (env w) (p_address p) rest)
             fd fds w
  | None => Some (Ok tt, s, fds, w)
  end.
Proof.
  intros H.
  unfold socket_deserialize_item, bind, get_env. cbn [String.eqb Ascii.eqb Bool.eqb].
  rewrite H. cbn [andb].
  destruct (sscanf_i_n v) as [[fd rest] |]; [| reflexivity].
  destruct ((fd <? 0) || negb (fdset_contains fds fd)); reflexivity.
Qed.

Lemma deserialize_port_at test fd fds w : forall done q rest,
  existsb test done = false -> test q = true -> p_fd q < 0 ->
  deserialize_port test fd (done ++ q :: rest) fds w =
  Some ((done ++ set_fd q fd :: rest)%list, snd (fdset_remove fds fd), w).
Proof.
  induction done as [| d done IH]; intros q rest Hd Hq Hfd.
  - cbn [app deserialize_port]. rewrite Hq. unfold safe_close, bind.
    destruct (0 <=? p_fd q) eqn:C; [apply Z.leb_le in C; lia |].
    reflexivity.
  - cbn [existsb] in Hd. apply orb_false_iff in Hd. destruct Hd as [Hd1 Hd2].
    cbn [app deserialize_port]. rewrite Hd1. unfold bind.
    rewrite (IH q rest Hd2 Hq Hfd). reflexivity.
Qed.

Lemma port_test_closed e p q :
  port_test e p (closed_port q) = port_test e p q.
Proof.
  unfold port_test. destruct (p_type p); try reflexivity.
  destruct (socket_address_print e (p_address p)); [| reflexivity].
  destruct (Have_linux_netlink_h e && AF_NETLINK_family (p_address p));
    reflexivity.
Qed.

Lemma port_test_set_fd e p q fd :
  port_test e p (set_fd q fd) = port_test e p q.
Proof.
  unfold port_test. destruct (p_type p); try reflexivity.
  destruct (socket_address_print e (p_address p)); [| reflexivity].
  destruct (Have_linux_netlink_h e && AF_NETLINK_family (p_address p));
    reflexivity.
Qed.

Lemma sscanf_i_n_cons (fd : Z) (t : string) :
  0 <= fd -> no_leading_space t = true ->
  sscanf_i_n (fmt_i fd ++ String " " t) = Some (fd, t).
Proof. exact (sscanf_i_n_line fd t). Qed.

Lemma sscanf_i_i_n_cons (fd type : Z) (t : string) :
  0 <= fd -> 0 <= type -> no_leading_space t = true ->
  sscanf_i_i_n (fmt_i fd ++ String " " (fmt_i type ++ String " " t)) =
  Some (fd, type, t).
Proof. exact (sscanf_i_i_n_line fd type t). Qed.

(** The deserializer puts the duplicate of the line of [p] into the
    freshly loaded [p]. *)
Lemma deserialize_port_line s p c done rest fds w k v :
  ports s = (done ++ closed_port p :: rest)%list ->
  port_text_ok (env w) p = true ->
  port_test (env w) p p = true ->
  existsb (port_test (env w) p) done = false ->
  0 <= c -> fdset_contains fds c = true ->
  port_line (env w) p c = Some (k, v) ->
  socket_deserialize_item s k v fds w =
  Some (Ok tt, set_ports s (done ++ set_fd (closed_port p) c :: rest)%list,
        snd (fdset_remove fds c), w).
Proof.
  intros P TX TS TD Hc Hin L.
  rewrite <- (port_test_closed (env w) p p) in TS.
  assert (CF : p_fd (closed_port p) < 0) by (cbn; lia).
  assert (C1 : (c <? 0) = false) by (apply Z.ltb_ge; exact Hc).
  unfold port_test in TS, TD. unfold port_text_ok in TX. unfold port_line in L.
  destruct (p_type p) eqn:T.
  - destruct (socket_address_print (env w) (p_address p)) as [t |] eqn:PR;
      [| discriminate L].
    apply andb_true_iff in TX. destruct TX as [TX1 TX2]. apply Z.leb_le in TX2.
    destruct (Have_linux_netlink_h (env w) && AF_NETLINK_family (p_address p)) eqn:NL.
    + injection L as <- <-.
      apply andb_true_iff in NL. destruct NL as [NL _].
      rewrite (deserialize_item_netlink _ _ _ _ NL).
      rewrite sscanf_i_n_cons by assumption. rewrite C1, Hin. cbn [orb negb].
      unfold transplant, bind. rewrite P.
      rewrite (deserialize_port_at _ c fds w done (closed_port p) rest TD TS CF).
      reflexivity.
    + injection L as <- <-.
      rewrite deserialize_item_socket.
      rewrite sscanf_i_i_n_cons by assumption. rewrite C1, Hin.
      destruct (sa_type (p_address p) <? 0) eqn:C2; [apply Z.ltb_lt in C2; lia |].
      cbn [orb negb].
      unfold transplant, bind. rewrite P.
      rewrite (deserialize_port_at _ c fds w done (closed_port p) rest TD TS CF).
      reflexivity.
  - injection L as <- <-. rewrite deserialize_item_fifo.
    rewrite sscanf_i_n_cons by assumption. rewrite C1, Hin. cbn [orb negb].
    unfold transplant, bind. rewrite P.
    rewrite (deserialize_port_at _ c fds w done (closed_port p) rest TD TS CF).
    reflexivity.
  - injection L as <- <-. rewrite deserialize_item_special.
    rewrite sscanf_i_n_cons by assumption. rewrite C1, Hin. cbn [orb negb].
    unfold transplant, bind. rewrite P.
    rewrite (deserialize_port_at _ c fds w done (closed_port p) rest TD TS CF).
    reflexivity.
  - injection L as <- <-. rewrite deserialize_item_mqueue.
    rewrite sscanf_i_n_cons by assumption. rewrite C1, Hin. cbn [orb negb].
    unfold transplant, bind. rewrite P.
    rewrite (deserialize_port_at _ c fds w done (closed_port p) rest TD TS CF).
    reflexivity.
Qed.

Lemma set_ports_same s : set_ports s (ports s) = s.
Proof. destruct s; reflexivity. Qed.

Lemma restore_app : forall before cb ps cs,
  List.length cb = open_count before ->
  restore (before ++ ps) (cb ++ cs) = (restore before cb ++ restore ps cs)%list.
Proof.
  unfold open_count.
  induction before as [| b before IH]; intros cb ps cs L.
  - destruct cb; [reflexivity | discriminate L].
  - cbn [app restore filter] in *.
    destruct (p_fd b <? 0); cbn [negb] in L.
    + rewrite (IH cb ps cs L). reflexivity.
    + destruct cb as [| c cb]; [discriminate L |].
      cbn [List.length] in L. injection L as L.
      cbn [app]. rewrite (IH cb ps cs L). reflexivity.
Qed.

Lemma existsb_port_test_restore e p : forall l cs,
  existsb (port_test e p) (restore l cs) = existsb (port_test e p) l.
Proof.
  induction l as [| q l IH]; intros cs; [reflexivity |].
  cbn [restore]. destruct (p_fd q <? 0).
  - cbn [existsb]. rewrite port_test_closed, IH. reflexivity.
  - destruct cs as [| c cs]; cbn [existsb].
    + rewrite port_test_closed, IH. reflexivity.
    + rewrite port_test_set_fd, port_test_closed, IH. reflexivity.
Qed.

Lemma port_line_some e p c :
  port_text_ok e p = true -> exists l, port_line e p c = Some l.
Proof.
  unfold port_text_ok, port_line. intros H.
  destruct (p_type p); eauto.
  destruct (socket_address_print e (p_address p)); [eauto | discriminate H].
Qed.

Lemma fdset_contains_remove fds c c' :
  c' <> c -> fdset_contains fds c' = true ->
  fdset_contains (snd (fdset_remove fds c)) c' = true.
Proof.
  unfold fdset_contains, fdset_remove. cbn [snd]. intros N H.
  apply existsb_exists in H. destruct H as [x [Hx E]].
  apply Z.eqb_eq in E. subst x.
  apply existsb_exists. exists c'. split; [| apply Z.eqb_refl].
  apply filter_In. split; [exact Hx |].
  apply negb_true_iff. apply Z.eqb_neq. exact N.
Qed.

Lemma deserialize_port_lines : forall ps before cb cs s fds w tail,
  ports s = (restore before cb ++ map closed_port ps)%list ->
  List.length cb = open_count before ->
  endpoints_distinguished (env w) before ps = true ->
  List.length cs = open_count ps ->
  NoDup cs ->
  Forall (fun c => 0 <= c /\ fdset_contains fds c = true) cs ->
  deserialize_lines s (port_lines (env w) ps cs ++ tail) fds w =
  deserialize_lines (set_ports s (restore before cb ++ restore ps cs)) tail
    (fdset_remove_all fds cs) w.
Proof.
  induction ps as [| p ps IH]; intros before cb cs s fds w tail P Lb D Lc ND F.
  - destruct cs; [| discriminate Lc].
    cbn [port_lines restore app map fdset_remove_all fold_left] in *.
    rewrite <- P, set_ports_same. reflexivity.
  - cbn [endpoints_distinguished] in D. apply andb_true_iff in D.
    destruct D as [D1 D2].
    unfold open_count in Lc. cbn [filter] in Lc.
    cbn [port_lines restore map]. destruct (p_fd p <? 0) eqn:C.
    + cbn [negb] in Lc.
      assert (P' : ports s = (restore (before ++ [p]) (cb ++ []) ++
                              map closed_port ps)%list).
      { rewrite restore_app by exact Lb. cbn [restore]. rewrite C.
        rewrite <- app_assoc. exact P. }
      rewrite app_nil_r in P'.
      rewrite (IH (before ++ [p])%list cb cs s fds w tail P').
      * rewrite <- (app_nil_r cb) at 1. rewrite restore_app by exact Lb.
        cbn [restore]. rewrite C. rewrite <- app_assoc. reflexivity.
      * unfold open_count in *. rewrite filter_app, length_app. cbn [filter].
        rewrite C. cbn [negb List.length]. lia.
      * exact D2.
      * exact Lc.
      * exact ND.
      * exact F.
    + cbn [negb orb] in D1, Lc.
      destruct cs as [| c cs]; [discriminate Lc |].
      cbn [List.length] in Lc. injection Lc as Lc.
      apply andb_true_iff in D1. destruct D1 as [D1 D3].
      apply andb_true_iff in D1. destruct D1 as [D0 D1].
      apply negb_true_iff in D3.
      inversion ND as [| ? ? NI ND']; subst.
      inversion F as [| ? ? [Fc Fin] F']; subst.
      destruct (port_line_some (env w) p c D0) as [[k v] L]. rewrite L.
      cbn [app deserialize_lines]. unfold bind at 1.
      rewrite <- (existsb_port_test_restore (env w) p before cb) in D3.
      rewrite (deserialize_port_line s p c (restore before cb)
                 (map closed_port ps) fds w k v P D0 D1 D3 Fc Fin L).
      cbn [fdset_remove_all fold_left].
      set (s1 := set_ports s _).
      assert (P' : ports s1 = (restore (before ++ [p]) (cb ++ [c]) ++
                               map closed_port ps)%list).
      { rewrite restore_app by exact Lb. cbn [restore]. rewrite C.
        rewrite <- app_assoc. reflexivity. }
      rewrite (IH (before ++ [p])%list (cb ++ [c])%list cs s1 _ w tail P').
      * rewrite restore_app by exact Lb.
        cbn [restore]. rewrite C. rewrite <- app_assoc. reflexivity.
      * unfold open_count in *. rewrite filter_app, !length_app. cbn [filter].
        rewrite C. cbn [negb List.length]. lia.
      * exact D2.
      * exact Lc.
      * exact ND'.
      * rewrite Forall_forall in *. intros x Hx.
        destruct (F' x Hx) as [H0 H1]. split; [exact H0 |].
        apply fdset_contains_remove; [| exact H1].
        intros ->. exact (NI Hx).
Qed.

(** ** What the serializer writes *)
Lemma fdset_put_dup_ok fds fd w r fds1 w1 :
  fdset_put_dup fds fd w = Some (r, fds1, w1) ->
  match r with
  | Ok copy =>
      fdset_contains fds1 (Z.of_N copy) = true /\
      (forall c, fdset_contains fds c = true -> fdset_contains fds1 c = true) /\
      trace w1 = EvDup fd (Z.of_N copy) :: trace w /\ env w1 = env w
  | Err _ => True
  end.
Proof.
  unfold fdset_put_dup, bind, ask_rc, emit, ret.
  destruct (o_rc (env w) (tick w)) as [copy | en]; intros H.
  - injection H as <- <- <-. cbn [trace env next_tick].
    destruct (fdset_contains fds (Z.of_N copy)) eqn:C.
    + repeat split; auto.
    + repeat split; auto.
      * unfold fdset_contains. cbn [existsb]. rewrite Z.eqb_refl. reflexivity.
      * intros c Hc. unfold fdset_contains in *. cbn [existsb].
        rewrite Hc. apply orb_true_r.
  - injection H as <- <- <-. exact I.
Qed.

Lemma socket_serialize_ports_lines e : forall ps f fds w f' fds' w',
  socket_serialize_ports e ps f fds w = Some (Ok tt, f', fds', w') ->
  exists copies,
    List.length copies = open_count ps /\
    f' = (f ++ port_lines e ps copies)%list /\
    Forall (fun c => 0 <= c /\ fdset_contains fds' c = true) copies /\
    trace w' = (rev (dup_events ps copies) ++ trace w)%list /\
    env w' = env w /\
    (forall c, fdset_contains fds c = true -> fdset_contains fds' c = true).
Proof.
  induction ps as [| p ps IH]; intros f fds w f' fds' w' H.
  - cbn [socket_serialize_ports] in H. unfold ret in H.
    injection H as <- <- <-. exists []. cbn. rewrite app_nil_r.
    repeat split; auto.
  - cbn [socket_serialize_ports] in H. unfold open_count. cbn [filter].
    destruct (p_fd p <? 0) eqn:C; cbn [negb List.length].
    + destruct (IH _ _ _ _ _ _ H) as [cs [L [F [A [T [E M]]]]]].
      exists cs. cbn [port_lines dup_events]. rewrite C.
      repeat split; assumption.
    + unfold bind at 1 in H.
      destruct (fdset_put_dup fds (p_fd p) w) as [[[r fds1] w1] |] eqn:Dp;
        [| discriminate H].
      pose proof (fdset_put_dup_ok _ _ _ _ _ _ Dp) as Hd.
      destruct r as [copy | en]; [| discriminate H].
      destruct Hd as [Hin [Hmono [Ht He]]].
      match goal with
      | |- ?G =>
          assert (K : forall k v,
            port_line e p (Z.of_N copy) = Some (k, v) ->
            socket_serialize_ports e ps (unit_serialize_item f k v) fds1 w1 =
              Some (Ok tt, f', fds', w') -> G)
      end.
      { intros k v PL H1.
        destruct (IH _ _ _ _ _ _ H1) as [cs [L [F [A [T [E M]]]]]].
        exists (Z.of_N copy :: cs). cbn [port_lines dup_events]. rewrite C, PL.
        split; [cbn [List.length]; unfold open_count in L; lia |].
        split; [rewrite F; unfold unit_serialize_item; rewrite <- app_assoc;
                reflexivity |].
        split; [constructor; [split; [lia | apply M; exact Hin] | exact A] |].
        split; [rewrite T, Ht; cbn [rev]; rewrite <- app_assoc; reflexivity |].
        split; [congruence |].
        intros c Hc. apply M, Hmono, Hc. }
      unfold port_line in K.
      destruct (p_type p).
      * destruct (socket_address_print e (p_address p)) as [t |];
          [| discriminate H].
        destruct (Have_linux_netlink_h e && AF_NETLINK_family (p_address p));
          exact (K _ _ eq_refl H).
      * exact (K _ _ eq_refl H).
      * exact (K _ _ eq_refl H).
      * exact (K _ _ eq_refl H).
Qed.

Lemma deserialize_item_state s st fds w :
  socket_deserialize_item s "state" (socket_state_to_string st) fds w =
  Some (Ok tt, set_deserialized_state s st, fds, w).
Proof.
  unfold socket_deserialize_item, bind, get_env. cbn [String.eqb Ascii.eqb Bool.eqb].
  rewrite socket_state_from_to_string. reflexivity.
Qed.

Lemma deserialize_item_result s r fds w :
  socket_deserialize_item s "result" (socket_result_to_string r) fds w =
  Some (Ok tt, if result_ne r SOCKET_SUCCESS then set_result s r else s, fds, w).
Proof.
  unfold socket_deserialize_item, bind, get_env. cbn [String.eqb Ascii.eqb Bool.eqb].
  rewrite socket_result_from_to_string.
  destruct (result_ne r SOCKET_SUCCESS); reflexivity.
Qed.

Lemma deserialize_item_n_accepted s k fds w :
  0 <= k < UINT_MOD ->
  socket_deserialize_item s "n-accepted" (fmt_u k) fds w =
  Some (Ok tt, set_n_accepted s (wrap_u (n_accepted s + k)), fds, w).
Proof.
  intros H.
  unfold socket_deserialize_item, bind, get_env. cbn [String.eqb Ascii.eqb Bool.eqb].
  rewrite safe_atou_fmt_u by exact H. reflexivity.
Qed.

Lemma deserialize_item_control_pid s pid fds w :
  0 < pid < 2 ^ 31 ->
  socket_deserialize_item s "control-pid" (fmt_u pid) fds w =
  Some (Ok tt, set_control_pid s pid, fds, w).
Proof.
  intros H.
  unfold socket_deserialize_item, bind, get_env. cbn [String.eqb Ascii.eqb Bool.eqb].
  rewrite parse_pid_fmt_u by exact H. reflexivity.
Qed.

Lemma deserialize_item_control_command s c fds w :
  socket_deserialize_item s "control-command"
    (socket_exec_command_to_string c) fds w =
  Some (Ok tt,
        set_control_command (set_control_command_id s (Some c))
          (exec_command (config s) c), fds, w).
Proof.
  unfold socket_deserialize_item, bind, get_env. cbn [String.eqb Ascii.eqb Bool.eqb].
  rewrite socket_exec_command_from_to_string. reflexivity.
Qed.

Lemma deserialize_header s tail fds w :
  0 <= n_accepted s < UINT_MOD ->
  0 <= control_pid s < 2 ^ 31 ->
  deserialize_lines (freshly_loaded s) (header_lines s ++ tail) fds w =
  deserialize_lines (header_restored s) tail fds w.
Proof.
  intros Hn Hp. unfold header_lines.
  cbn [app deserialize_lines]. unfold bind at 1.
  rewrite deserialize_item_state. unfold bind at 1.
  rewrite deserialize_item_result. unfold bind at 1.
  rewrite deserialize_item_n_accepted by exact Hn.
  assert (W : wrap_u (n_accepted s) = n_accepted s).
  { unfold wrap_u. apply Z.mod_small. exact Hn. }
  destruct (0 <? control_pid s) eqn:C.
  - apply Z.ltb_lt in C. cbn [app deserialize_lines]. unfold bind at 1.
    rewrite deserialize_item_control_pid by lia.
    destruct (control_command_id s) as [c |] eqn:CC.
    + cbn [app deserialize_lines]. unfold bind at 1.
      rewrite deserialize_item_control_command.
      f_equal. unfold header_restored. rewrite CC.
      destruct (result s) eqn:R; cbn; rewrite ?W, ?R; reflexivity.
    + cbn [app]. f_equal. unfold header_restored. rewrite CC.
      destruct (result s) eqn:R; cbn; rewrite ?W, ?R; reflexivity.
  - apply Z.ltb_ge in C. assert (Z0 : control_pid s = 0) by lia.
    destruct (control_command_id s) as [c |] eqn:CC.
    + cbn [app deserialize_lines]. unfold bind at 1.
      rewrite deserialize_item_control_command.
      f_equal. unfold header_restored. rewrite CC, Z0.
      destruct (result s) eqn:R; cbn; rewrite ?W, ?R; reflexivity.
    + cbn [app]. f_equal. unfold header_restored. rewrite CC, Z0.
      destruct (result s) eqn:R; cbn; rewrite ?W, ?R; reflexivity.
Qed.

Lemma socket_serialize_lines s fds w lines fds' w' :
  socket_serialize s [] fds w = Some (Ok tt, lines, fds', w') ->
  exists copies,
    List.length copies = open_count (ports s) /\
    lines = (header_lines s ++ port_lines (env w) (ports s) copies ++
             exec_context_serialize (env w) (exec_context s))%list /\
    Forall (fun c => 0 <= c /\ fdset_contains fds' c = true) copies /\
    trace w' = (rev (dup_events (ports s) copies) ++ trace w)%list /\
    env w' = env w.
Proof.
  unfold socket_serialize, bind, get_env. intros H.
  match type of H with
  | match socket_serialize_ports ?e ?ps ?f ?fds ?w with _ => _ end = _ =>
      destruct (socket_serialize_ports e ps f fds w) as [[[[r f1] fds1] w1] |] eqn:E;
        [| discriminate H]
  end.
  destruct r as [[] | en]; unfold ret in H; [| discriminate H].
  injection H as <- <- <-.
  destruct (socket_serialize_ports_lines _ _ _ _ _ _ _ _ E)
    as [cs [L [F [A [T [Ee M]]]]]].
  exists cs. split; [exact L |]. split; [| auto].
  rewrite F. unfold header_lines, unit_serialize_item.
  destruct (0 <? control_pid s); destruct (control_command_id s);
    cbn [app]; rewrite <- ?app_assoc; reflexivity.
Qed.

Lemma deserialize_exec_lines : forall lines s fds w copies s0,
  exec_lines_ok lines = true ->
  restored s0 s copies ->
  exists s2 fds2 w2,
    deserialize_lines s lines fds w = Some (s2, fds2, w2) /\
    restored s0 s2 copies.
Proof.
  induction lines as [| [k v] lines IH]; intros s fds w copies s0 K R.
  - exists s, fds, w. split; [reflexivity | exact R].
  - cbn [exec_lines_ok forallb fst] in K. apply andb_true_iff in K.
    destruct K as [K1 K2].
    cbn [deserialize_lines]. unfold bind at 1.
    assert (E : exists r s1 w1,
              socket_deserialize_item s k v fds w = Some (r, s1, fds, w1) /\
              restored s0 s1 copies).
    { apply orb_true_iff in K1. destruct K1 as [K1 | K1];
        apply String.eqb_eq in K1; subst k;
        unfold socket_deserialize_item, bind, get_env, alloc_failed, ask_bool, ret;
        cbn [String.eqb Ascii.eqb Bool.eqb andb];
        rewrite ?andb_false_r;
        destruct (o_bool (env w) (tick w));
        eexists; eexists; eexists; (split; [reflexivity |]);
        try exact R; destruct R; constructor; assumption. }
    destruct E as [r [s1 [w1 [E R1]]]]. rewrite E.
    apply (IH s1 fds w1 copies s0 K2 R1).
Qed.

Lemma dup_events_inj : forall ps c1 c2,
  List.length c1 = open_count ps -> List.length c2 = open_count ps ->
  dup_events ps c1 = dup_events ps c2 -> c1 = c2.
Proof.
  unfold open_count.
  induction ps as [| p ps IH]; intros c1 c2 L1 L2 E.
  - destruct c1; [| discriminate L1]. destruct c2; [| discriminate L2].
    reflexivity.
  - cbn [dup_events filter] in *. destruct (p_fd p <? 0); cbn [negb] in *.
    + apply IH; assumption.
    + destruct c1 as [| a c1]; [discriminate L1 |].
      destruct c2 as [| b c2]; [discriminate L2 |].
      cbn [List.length] in L1, L2. injection L1 as L1. injection L2 as L2.
      injection E as -> E. f_equal. apply IH; assumption.
Qed.

Lemma restored_header s copies :
  restored s (set_ports (header_restored s) (restore (ports s) copies)) copies.
Proof. constructor; reflexivity. Qed.

(** ** The entry points *)
Lemma outcome_state r0 first later s' :
  outcome r0 first later s' ->
  In (state s') (first :: later ++ [SOCKET_DEAD; SOCKET_FAILED])%list.
Proof.
  intros [[A _] | [[A _] | [[A _] | [A _]]]].
  - left. symmetry. exact A.
  - right. apply in_or_app. left. exact A.
  - right. apply in_or_app. right. rewrite A. simpl. tauto.
  - right. apply in_or_app. right. rewrite A. simpl. tauto.
Qed.



Lemma set_result_same s : set_result s (result s) = s.
Proof. destruct s; reflexivity. Qed.

Lemma cold_frame_refl s : cold_frame s s.
Proof. repeat split. Qed.

Lemma cold_frame_trans a b c : cold_frame a b -> cold_frame b c -> cold_frame a c.
Proof.
  intros (A1 & A2 & A3 & A4 & A5) (B1 & B2 & B3 & B4 & B5).
  repeat split; congruence.
Qed.

Lemma oframe_cold_frame s s' : oframe s s' -> cold_frame s s'.
Proof.
  intros F. repeat split;
    [apply (of_state _ _ F) | apply (of_result _ _ F)
    | apply (of_n_accepted _ _ F) | apply (of_n_connections _ _ F)
    | apply (of_deserialized _ _ F)].
Qed.

Lemma socket_spawn_exact s c w :
  wpt (socket_spawn s c)
      (fun '(r, s') w' =>
         env w' = env w /\
         match r with
         | Ok _ =>
             exists pid, 0 <= pid /\
               s' = set_control_pid (set_timer_watch s true) pid /\
               trace w' = EvWatchPid pid :: EvSpawn c pid :: trace w
         | Err _ =>
             s' = set_timer_watch s false /\
             (trace w' = trace w \/ exists pid, trace w' = EvSpawn c pid :: trace w)
         end) w.
Proof.
  unfold socket_spawn, unit_watch_timer, unit_full_printf_strv, exec_spawn,
    unit_watch_pid, unit_unwatch_timer.
  repeat wstep; (split; [reflexivity |]).
  all: try (split; [reflexivity |]; first [left; reflexivity | right; eexists; reflexivity]).
  eexists. split; [apply N2Z.is_nonneg |]. split; reflexivity.
Qed.

Lemma counts_as_success_result e s code status (Q : SocketResult -> World -> Prop) w :
  counts_as_success e s code status ->
  (forall f,
     match control_command (set_control_pid s 0) with
     | c :: _ => if c_ignore c then SOCKET_SUCCESS else f
     | [] => f
     end = SOCKET_SUCCESS -> Q f w) ->
  wpt (if is_clean_exit e code status then ret SOCKET_SUCCESS
       else match code with
            | CLD_EXITED => ret SOCKET_FAILURE_EXIT_CODE
            | CLD_KILLED => ret SOCKET_FAILURE_SIGNAL
            | CLD_DUMPED => ret SOCKET_FAILURE_CORE_DUMP
            | CLD_OTHER => abort
            end) Q w.
Proof.
  intros [C | (NO & c & cs & CC & IG)] HQ.
  - rewrite C. apply wpt_ret. apply HQ.
    destruct (control_command _) as [| c cs]; [reflexivity |].
    destruct (c_ignore c); reflexivity.
  - assert (G : forall f,
              match control_command (set_control_pid s 0) with
              | c :: _ => if c_ignore c then SOCKET_SUCCESS else f
              | [] => f
              end = SOCKET_SUCCESS).
    { intros f. cbn [control_command set_control_pid]. rewrite CC, IG.
      reflexivity. }
    destruct (is_clean_exit e code status); [apply wpt_ret; apply HQ, G |].
    destruct code; try (apply wpt_ret; apply HQ, G).
    contradiction NO. reflexivity.
Qed.

(** ** Activation of the service of a socket *)
Lemma extends_new (P : Event -> Prop) w w' :
  extends P w w' -> exists new, trace w' = (new ++ trace w)%list /\ Forall P new.
Proof. intros [_ H]. exact H. Qed.

Lemma quiet_no_job fds new id :
  Forall (quiet fds) new -> ~ In (EvAddJob id) new.
Proof.
  intros F I. rewrite Forall_forall in F. exact (F _ I).
Qed.

Lemma open_fds_of_length ps :
  (List.length (open_fds_of ps) <= List.length ps)%nat.
Proof.
  unfold open_fds_of. rewrite <- (length_map p_fd ps). apply filter_length_le.
Qed.

Lemma collect_count_spec : forall ps n,
  0 <= n -> n + Z.of_nat (List.length ps) < UINT_MOD ->
  collect_count ps n = n + Z.of_nat (List.length (open_fds_of ps)).
Proof.
  induction ps as [| p ps IH]; intros n Hn B.
  - cbn. lia.
  - cbn [collect_count]. unfold open_fds_of in *. cbn [map filter].
    cbn [List.length] in B.
    pose proof (open_fds_of_length ps) as L. unfold open_fds_of in L.
    destruct (0 <=? p_fd p).
    + unfold wrap_u. rewrite Z.mod_small by lia.
      rewrite IH by lia. cbn [List.length]. lia.
    + rewrite IH by lia. reflexivity.
Qed.

Lemma array_set_app done v : forall junk,
  array_set (done ++ v :: junk) (List.length done) v =
  (done ++ v :: junk)%list.
Proof.
  induction done as [| d done IH]; intros junk; [reflexivity |].
  cbn. rewrite IH. reflexivity.
Qed.

Lemma array_set_at done v : forall x junk,
  array_set (done ++ x :: junk) (List.length done) v =
  (done ++ v :: junk)%list.
Proof.
  induction done as [| d done IH]; intros x junk; [reflexivity |].
  cbn. rewrite IH. reflexivity.
Qed.

Lemma collect_fill_spec : forall ps done junk,
  Z.of_nat (List.length done) + Z.of_nat (List.length ps) < UINT_MOD ->
  (List.length (open_fds_of ps) <= List.length junk)%nat ->
  collect_fill ps (done ++ junk) (Z.of_nat (List.length done)) =
  ((done ++ open_fds_of ps ++ skipn (List.length (open_fds_of ps)) junk)%list,
   Z.of_nat (List.length done) + Z.of_nat (List.length (open_fds_of ps))).
Proof.
  induction ps as [| p ps IH]; intros done junk B L.
  - cbn. f_equal. lia.
  - cbn [collect_fill]. unfold open_fds_of in *. cbn [map filter] in *.
    cbn [List.length] in B.
    destruct (0 <=? p_fd p) eqn:O.
    + cbn [List.length] in L. destruct junk as [| x junk]; [cbn [List.length] in L; lia |].
      cbn [List.length] in L.
      rewrite Nat2Z.id, array_set_at.
      unfold wrap_u. rewrite Z.mod_small by lia.
      replace (Z.of_nat (List.length done) + 1)
        with (Z.of_nat (List.length (done ++ [p_fd p]))).
      2:{ rewrite length_app. cbn [List.length]. lia. }
      replace (done ++ p_fd p :: junk)%list
        with ((done ++ [p_fd p]) ++ junk)%list.
      2:{ rewrite <- app_assoc. reflexivity. }
      rewrite IH.
      * rewrite <- app_assoc. cbn [app skipn List.length]. f_equal.
        rewrite length_app. cbn [List.length]. lia.
      * rewrite length_app. cbn [List.length]. lia.
      * lia.
    + rewrite IH by (try exact L; lia). reflexivity.
Qed.

Lemma open_fds_of_open p ps :
  In p ps -> 0 <= p_fd p -> open_fds_of ps <> [].
Proof.
  intros I O E.
  assert (X : In (p_fd p) (open_fds_of ps)).
  { unfold open_fds_of. apply filter_In. split; [apply in_map; exact I |].
    apply Z.leb_le. exact O. }
  rewrite E in X. exact X.
Qed.

Lemma open_fds_of_nonempty ps :
  open_fds_of ps <> [] -> exists p, In p ps /\ 0 <= p_fd p.
Proof.
  unfold open_fds_of. intros N.
  destruct (filter _ _) as [| fd l] eqn:F; [contradiction N; reflexivity |].
  assert (X : In fd (filter (fun fd => 0 <=? fd) (map p_fd ps))).
  { rewrite F. left. reflexivity. }
  apply filter_In in X. destruct X as [X O].
  apply in_map_iff in X. destruct X as (p & <- & I).
  exists p. split; [exact I | apply Z.leb_le; exact O].
Qed.

Lemma have_non_accept_socket_loop_false can_accept ps :
  have_non_accept_socket_loop can_accept ps = false <->
  Forall (fun p => p_type p = SOCKET_SOCKET /\ can_accept (p_address p) = true) ps.
Proof.
  induction ps as [| p ps IH]; cbn [have_non_accept_socket_loop].
  - split; [constructor | reflexivity].
  - destruct (SocketPortType_beq (p_type p) SOCKET_SOCKET) eqn:T; cbn [negb].
    + apply SocketPortType_eqb_eq in T.
      destruct (can_accept (p_address p)) eqn:C; cbn [negb].
      * rewrite IH. split.
        -- intros F. constructor; [split; assumption | exact F].
        -- intros F. inversion F; assumption.
      * split; [discriminate |]. intros F. inversion F as [| ? ? [_ X] _].
        congruence.
    + split; [discriminate |]. intros F. inversion F as [| ? ? [X _] _].
      rewrite X in T. discriminate T.
Qed.

Lemma took_fd_weaken m fds1 fds fds' p p' :
  incl fds1 fds -> took_fd m fds1 fds' p p' -> took_fd m fds fds' p p'.
Proof.
  intros I [E | (A & B & C & D & E & F & G)]; [left; exact E | right].
  repeat split; try assumption. apply I. exact F.
Qed.

Lemma fdset_remove_incl fds fd : incl (snd (fdset_remove fds fd)) fds.
Proof.
  unfold fdset_remove. cbn [snd]. intros x Hx. apply filter_In in Hx. tauto.
Qed.

Lemma fdset_remove_gone fds fd : ~ In fd (snd (fdset_remove fds fd)).
Proof.
  unfold fdset_remove. cbn [snd]. intros Hx. apply filter_In in Hx.
  destruct Hx as [_ Hx]. rewrite Z.eqb_refl in Hx. discriminate Hx.
Qed.

Lemma socket_distribute_fds_loop_spec m : forall ps fds d,
  Forall (fun fd => 0 <= fd) fds ->
  let '(ps', fds', d') := socket_distribute_fds_loop m ps fds d in
  distributed m ps fds d ps' fds' d'.
Proof.
  induction ps as [| p ps IH]; intros fds d POS.
  - cbn. constructor; try (constructor; fail).
    + apply incl_refl.
    + intros fd [].
    + right. auto.
  - cbn [socket_distribute_fds_loop].
    assert (CONT :
      let '(rest', fds', d') := socket_distribute_fds_loop m ps fds d in
      (p_type p = SOCKET_SOCKET -> p_fd p < 0 ->
       forall fd, In fd fds -> m (p_address p) fd = false) ->
      distributed m (p :: ps) fds d (p :: rest') fds' d').
    { specialize (IH fds d POS).
      destruct (socket_distribute_fds_loop m ps fds d) as [[rest' fds'] d'].
      intros NM. destruct IH as [A B C D E F].
      assert (H : handed (p :: ps) (p :: rest') = handed ps rest').
      { cbn [handed]. destruct (p_fd p <? 0) eqn:X; cbn [andb]; [| reflexivity].
        apply Z.ltb_lt in X. destruct (0 <=? p_fd p) eqn:Y;
          [apply Z.leb_le in Y; lia | reflexivity]. }
      constructor.
      - constructor; [left; reflexivity | exact A].
      - exact B.
      - rewrite H. exact C.
      - rewrite H. exact D.
      - rewrite H. destruct E as [E | (E1 & E2 & E3)]; [left; exact E | right].
        subst. auto.
      - constructor; [| exact F].
        intros T C0 fd Hfd. apply NM; try assumption. apply B. exact Hfd. }
    destruct (SocketPortType_beq (p_type p) SOCKET_SOCKET) eqn:T; cbn [negb].
    2:{ destruct (socket_distribute_fds_loop m ps fds d) as [[rest' fds'] d'].
        apply CONT. intros X. rewrite X in T. discriminate T. }
    destruct (0 <=? p_fd p) eqn:O.
    { destruct (socket_distribute_fds_loop m ps fds d) as [[rest' fds'] d'].
      apply CONT. intros _ X. apply Z.leb_le in O. lia. }
    apply Z.leb_gt in O. apply SocketPortType_eqb_eq in T.
    destruct (find (m (p_address p)) fds) as [fd |] eqn:FD.
    2:{ destruct (socket_distribute_fds_loop m ps fds d) as [[rest' fds'] d'].
        apply CONT. intros _ _ fd Hfd. exact (find_none _ _ FD fd Hfd). }
    clear CONT. apply find_some in FD. destruct FD as [FI FM].
    unfold fdset_remove.
    set (fds1 := filter (fun x => negb (x =? fd)) fds).
    assert (I1 : incl fds1 fds) by apply (fdset_remove_incl fds fd).
    assert (G1 : ~ In fd fds1) by apply (fdset_remove_gone fds fd).
    assert (POS1 : Forall (fun fd => 0 <= fd) fds1).
    { rewrite Forall_forall in *. intros x Hx. apply POS, I1, Hx. }
    assert (P0 : 0 <= fd) by (rewrite Forall_forall in POS; apply POS, FI).
    specialize (IH fds1 SOCKET_LISTENING POS1).
    destruct (socket_distribute_fds_loop m ps fds1 SOCKET_LISTENING)
      as [[rest' fds'] d'].
    destruct IH as [A B C D E F].
    assert (H : handed (p :: ps) (set_fd p fd :: rest') = fd :: handed ps rest').
    { cbn [handed p_fd set_fd].
      destruct (p_fd p <? 0) eqn:X; [| apply Z.ltb_ge in X; lia].
      destruct (0 <=? fd) eqn:Y; [reflexivity | apply Z.leb_gt in Y; lia]. }
    constructor.
    + constructor.
      * right. cbn [p_fd set_fd]. repeat split; try assumption.
        intros X. apply G1, B, X.
      * eapply Forall2_impl; [| exact A].
        intros a b. apply took_fd_weaken. exact I1.
    + intros x Hx. apply I1, B, Hx.
    + rewrite H. intros x [<- | Hx].
      * split; [exact FI |]. intros X. apply G1, B, X.
      * destruct (C x Hx) as [C1 C2]. split; [apply I1, C1 | exact C2].
    + rewrite H. constructor; [| exact D].
      intros X. destruct (C fd X) as [C1 _]. exact (G1 C1).
    + left. rewrite H. split; [| discriminate].
      destruct E as [[E _] | (E & _)]; exact E.
    + constructor; [| exact F].
      cbn [p_fd set_fd]. intros _ X. lia.
Qed.

Lemma untouched_inv s s' : untouched s s' -> ports_inv s -> ports_inv s'.
Proof.
  intros [P S] [A B C]. constructor; rewrite ?P, ?S; assumption.
Qed.

Lemma set_state_post_inv s st s' :
  watches_on_open_fds (ports s) -> set_state_post s st s' -> ports_inv s'.
Proof.
  intros W Q. unfold watches_on_open_fds in W. rewrite Forall_forall in W.
  assert (F : forall p', In p' (ports s') ->
            exists p, In p (ports s) /\ p' = port_after_set_state st p).
  { intros p' I. rewrite (ssp_ports _ _ _ Q), ports_after_set_state_map in I.
    apply in_map_iff in I. destruct I as (p & E & I). exists p. auto. }
  constructor; rewrite ?(ssp_state _ _ _ Q).
  - apply Forall_forall. intros p' I. destruct (F p' I) as (p & Ip & ->).
    destruct (port_after_set_state_facts st p (W p Ip)) as (_ & B & _).
    intros X. apply B. exact X.
  - intros K. apply Forall_forall. intros p' I.
    destruct (F p' I) as (p & Ip & ->).
    destruct (port_after_set_state_facts st p (W p Ip)) as (A & _).
    destruct (Z_lt_ge_dec (p_fd (port_after_set_state st p)) 0) as [L | G];
      [exact L |].
    assert (X : keeps_fds st = true) by (apply A; lia). congruence.
  - intros N. apply Forall_forall. intros p' I.
    destruct (F p' I) as (p & Ip & ->).
    destruct (port_after_set_state_facts st p (W p Ip)) as (_ & B & _).
    destruct (p_fd_watch (port_after_set_state st p)) eqn:X; [| reflexivity].
    destruct (B eq_refl) as [E _]. contradiction.
Qed.

Lemma inv_set_state s st w :
  watches_on_open_fds (ports s) ->
  wp (socket_set_state s st) (fun s' _ => ports_inv s') w.
Proof.
  intros W. apply wpt_wp. eapply wpt_conseq; [apply socket_set_state_spec |].
  intros s' w' [Q _]. eapply set_state_post_inv; eassumption.
Qed.

Lemma untouched_unwatch_control_pid s w :
  wp (socket_unwatch_control_pid s) (fun s' _ => untouched s s') w.
Proof.
  unfold socket_unwatch_control_pid, unit_unwatch_pid.
  destruct (control_pid s <=? 0); repeat pstep; split; reflexivity.
Qed.

Lemma untouched_spawn s c w :
  wp (socket_spawn s c) (fun '(r, s') _ => untouched s s') w.
Proof.
  apply wpt_wp. eapply wpt_conseq; [apply socket_spawn_exact |].
  intros [r s'] w' [_ Q]. destruct r.
  - destruct Q as (pid & _ & -> & _). split; reflexivity.
  - destruct Q as (-> & _). split; reflexivity.
Qed.

Lemma untouched_chown s w :
  wp (socket_chown s) (fun '(r, s') _ => untouched s s') w.
Proof.
  unfold socket_chown, unit_watch_pid.
  repeat pstep; split; reflexivity.
Qed.

Lemma Forall2_Forall {A B} (R : A -> B -> Prop) (P : A -> Prop)
    (Q : B -> Prop) l l' :
  (forall a b, R a b -> P a -> Q b) ->
  Forall2 R l l' -> Forall P l -> Forall Q l'.
Proof.
  intros H F. induction F as [| a b l l' Rab F IH]; intros FP; [constructor |].
  inversion FP; subst. constructor; [eapply H; eassumption | apply IH; assumption].
Qed.

Lemma close_port_all ps :
  watches_on_open_fds ps ->
  watches_on_open_fds (map close_port ps) /\
  Forall (fun p => p_fd p < 0) (map close_port ps) /\
  Forall (fun p => p_fd_watch p = false) (map close_port ps).
Proof.
  unfold watches_on_open_fds. rewrite !Forall_forall. intros W.
  assert (K : forall p', In p' (map close_port ps) ->
            p_fd p' < 0 /\ p_fd_watch p' = false).
  { intros p' I. apply in_map_iff in I. destruct I as (p & <- & I).
    split; [apply close_port_closed |].
    unfold close_port. destruct (p_fd p <? 0) eqn:C; [| reflexivity].
    apply Z.ltb_lt in C. destruct (p_fd_watch p) eqn:X; [| reflexivity].
    specialize (W p I X). lia. }
  split; [| split]; intros p' I; destruct (K p' I) as [A B];
    [rewrite B; discriminate | exact A | exact B].
Qed.

Lemma opened_or_kept_watch ps ps' :
  Forall2 opened_or_kept ps ps' ->
  watches_on_open_fds ps -> watches_on_open_fds ps'.
Proof.
  apply Forall2_Forall. intros p p' O W. unfold opened_or_kept in O.
  destruct (p_fd p <? 0); [destruct O as [O _]; intros _; exact O |].
  subst. exact W.
Qed.

Lemma W_open_fds s w :
  watches_on_open_fds (ports s) ->
  wp (socket_open_fds s)
     (fun '(r, s') _ => watches_on_open_fds (ports s') /\ state s' = state s) w.
Proof.
  intros W. eapply wp_conseq; [apply socket_open_fds_spec |].
  intros [r s'] w' (F & _ & Q). split; [| exact (of_state _ _ F)].
  destruct r.
  - destruct Q as [Q _]. eapply opened_or_kept_watch; eassumption.
  - destruct Q as (pre & pre' & p & mid & (post & E1 & E2 & FF & C) & Q).
    assert (WM : watches_on_open_fds mid).
    { rewrite E1 in W. rewrite E2. unfold watches_on_open_fds in *.
      apply Forall_app in W. destruct W as [W1 W2].
      apply Forall_app. split; [| exact W2].
      exact (opened_or_kept_watch _ _ FF W1). }
    destruct Q as [[-> _] | [-> _]]; [exact WM |].
    apply close_port_all. exact WM.
Qed.

Lemma rewatched_watch ps ps' :
  Forall2 rewatched ps ps' ->
  watches_on_open_fds ps -> watches_on_open_fds ps'.
Proof.
  apply Forall2_Forall. intros p p' [E C] W X.
  destruct (Z_lt_ge_dec (p_fd p) 0) as [L | G].
  - rewrite (C L) in *. apply W, X.
  - rewrite E. cbn. lia.
Qed.

Lemma W_watch_fds s w :
  watches_on_open_fds (ports s) ->
  wp (socket_watch_fds s)
     (fun '(r, s') _ => watches_on_open_fds (ports s') /\ state s' = state s) w.
Proof.
  intros W. apply wpt_wp. eapply wpt_conseq; [apply socket_watch_fds_spec |].
  intros [r s'] w' (_ & _ & (F & _ & R) & _).
  split; [eapply rewatched_watch; eassumption | exact (of_state _ _ F)].
Qed.

Lemma inv_enter_dead s f w :
  watches_on_open_fds (ports s) ->
  wp (socket_enter_dead s f) (fun s' _ => ports_inv s') w.
Proof.
  intros W. unfold socket_enter_dead. apply inv_set_state.
  destruct (result_ne f SOCKET_SUCCESS); exact W.
Qed.

Lemma inv_enter_signal_with k s st f w :
  (is_stop_pre_signal st = true ->
   forall s1 f1 w1, watches_on_open_fds (ports s1) ->
     wp (k s1 f1) (fun s' _ => ports_inv s') w1) ->
  watches_on_open_fds (ports s) ->
  wp (socket_enter_signal_with k s st f) (fun s' _ => ports_inv s') w.
Proof.
  intros K W. unfold socket_enter_signal_with, unit_kill_context, unit_watch_timer.
  assert (W1 : watches_on_open_fds
                 (ports (if result_ne f SOCKET_SUCCESS then set_result s f else s))).
  { destruct (result_ne f SOCKET_SUCCESS); exact W. }
  set (s0 := if result_ne f SOCKET_SUCCESS then set_result s f else s) in *.
  fold (is_stop_pre_signal st).
  destruct (is_stop_pre_signal st) eqn:SP.
  - specialize (K eq_refl).
    repeat pstep.
    all: first [apply inv_set_state; exact W1 | apply K; exact W1].
  - repeat pstep.
    all: first [apply inv_set_state; exact W1 | apply inv_enter_dead; exact W1].
Qed.

Lemma inv_enter_stop_post_with k s f w :
  (forall s1 f1 w1, watches_on_open_fds (ports s1) ->
     wp (k s1 SOCKET_FINAL_SIGTERM f1) (fun s' _ => ports_inv s') w1) ->
  watches_on_open_fds (ports s) ->
  wp (socket_enter_stop_post_with k s f) (fun s' _ => ports_inv s') w.
Proof.
  intros K W. unfold socket_enter_stop_post_with.
  assert (W1 : watches_on_open_fds
                 (ports (if result_ne f SOCKET_SUCCESS then set_result s f else s))).
  { destruct (result_ne f SOCKET_SUCCESS); exact W. }
  set (s0 := if result_ne f SOCKET_SUCCESS then set_result s f else s) in *.
  apply wp_bind. eapply wp_conseq; [apply untouched_unwatch_control_pid |].
  intros s1 w1 [P1 _]. rewrite <- P1 in W1.
  cbn [control_command set_control_command set_control_command_id config].
  destruct (exec_command (config s1) SOCKET_EXEC_STOP_POST) as [| c cs].
  - apply K. exact W1.
  - apply wp_bind. eapply wp_conseq; [apply untouched_spawn |].
    intros [r s2] w2 [P2 _]. cbn [ports set_control_command set_control_command_id] in P2.
    rewrite <- P2 in W1.
    destruct r; [apply inv_set_state | apply K]; exact W1.
Qed.

Lemma inv_enter_stop_post s f w :
  watches_on_open_fds (ports s) ->
  wp (socket_enter_stop_post s f) (fun s' _ => ports_inv s') w.
Proof.
  intros W. unfold socket_enter_stop_post.
  apply inv_enter_stop_post_with; [| exact W].
  intros s1 f1 w1 W1. apply inv_enter_signal_with; [| exact W1].
  intros X. discriminate X.
Qed.

Lemma inv_enter_signal s st f w :
  watches_on_open_fds (ports s) ->
  wp (socket_enter_signal s st f) (fun s' _ => ports_inv s') w.
Proof.
  intros W. unfold socket_enter_signal.
  apply inv_enter_signal_with; [| exact W].
  intros _ s1 f1 w1 W1. apply inv_enter_stop_post. exact W1.
Qed.

Lemma inv_enter_stop_pre s f w :
  watches_on_open_fds (ports s) ->
  wp (socket_enter_stop_pre s f) (fun s' _ => ports_inv s') w.
Proof.
  intros W. unfold socket_enter_stop_pre.
  assert (W1 : watches_on_open_fds
                 (ports (if result_ne f SOCKET_SUCCESS then set_result s f else s))).
  { destruct (result_ne f SOCKET_SUCCESS); exact W. }
  set (s0 := if result_ne f SOCKET_SUCCESS then set_result s f else s) in *.
  apply wp_bind. eapply wp_conseq; [apply untouched_unwatch_control_pid |].
  intros s1 w1 [P1 _]. rewrite <- P1 in W1.
  cbn [control_command set_control_command set_control_command_id config].
  destruct (exec_command (config s1) SOCKET_EXEC_STOP_PRE) as [| c cs].
  - apply inv_enter_stop_post. exact W1.
  - apply wp_bind. eapply wp_conseq; [apply untouched_spawn |].
    intros [r s2] w2 [P2 _]. cbn [ports set_control_command set_control_command_id] in P2.
    rewrite <- P2 in W1.
    destruct r; [apply inv_set_state | apply inv_enter_stop_post]; exact W1.
Qed.

Lemma inv_enter_listening s w :
  watches_on_open_fds (ports s) ->
  wp (socket_enter_listening s) (fun s' _ => ports_inv s') w.
Proof.
  intros W. unfold socket_enter_listening. apply wp_bind.
  eapply wp_conseq; [apply W_watch_fds; exact W |].
  intros [r s1] w1 [W1 _].
  destruct r; [apply inv_set_state | apply inv_enter_stop_pre]; exact W1.
Qed.

Lemma inv_enter_start_post s w :
  watches_on_open_fds (ports s) ->
  wp (socket_enter_start_post s) (fun s' _ => ports_inv s') w.
Proof.
  intros W. unfold socket_enter_start_post.
  apply wp_bind. eapply wp_conseq; [apply untouched_unwatch_control_pid |].
  intros s1 w1 [P1 _]. rewrite <- P1 in W.
  cbn [control_command set_control_command set_control_command_id config].
  destruct (exec_command (config s1) SOCKET_EXEC_START_POST) as [| c cs].
  - apply inv_enter_listening. exact W.
  - apply wp_bind. eapply wp_conseq; [apply untouched_spawn |].
    intros [r s2] w2 [P2 _]. cbn [ports set_control_command set_control_command_id] in P2.
    rewrite <- P2 in W.
    destruct r; [apply inv_set_state | apply inv_enter_stop_pre]; exact W.
Qed.

Lemma inv_enter_start_chown s w :
  watches_on_open_fds (ports s) ->
  wp (socket_enter_start_chown s) (fun s' _ => ports_inv s') w.
Proof.
  intros W. unfold socket_enter_start_chown. apply wp_bind.
  eapply wp_conseq; [apply W_open_fds; exact W |].
  intros [r s1] w1 [W1 _].
  destruct r; [| apply inv_enter_stop_pre; exact W1].
  destruct (negb (isempty (user (config s1))) || negb (isempty (group (config s1)))).
  - apply wp_bind. eapply wp_conseq; [apply untouched_unwatch_control_pid |].
    intros s2 w2 [P2 _]. rewrite <- P2 in W1.
    apply wp_bind. eapply wp_conseq; [apply untouched_chown |].
    intros [r s3] w3 [P3 _].
    cbn [ports set_control_command set_control_command_id] in P3.
    rewrite <- P3 in W1.
    destruct r; [apply inv_set_state | apply inv_enter_stop_pre]; exact W1.
  - apply inv_enter_start_post. exact W1.
Qed.

Lemma inv_enter_start_pre s w :
  watches_on_open_fds (ports s) ->
  wp (socket_enter_start_pre s) (fun s' _ => ports_inv s') w.
Proof.
  intros W. unfold socket_enter_start_pre.
  apply wp_bind. eapply wp_conseq; [apply untouched_unwatch_control_pid |].
  intros s1 w1 [P1 _]. rewrite <- P1 in W.
  cbn [control_command set_control_command set_control_command_id config].
  destruct (exec_command (config s1) SOCKET_EXEC_START_PRE) as [| c cs].
  - apply inv_enter_start_chown. exact W.
  - apply wp_bind. eapply wp_conseq; [apply untouched_spawn |].
    intros [r s2] w2 [P2 _]. cbn [ports set_control_command set_control_command_id] in P2.
    rewrite <- P2 in W.
    destruct r; [apply inv_set_state | apply inv_enter_dead]; exact W.
Qed.

Lemma inv_run_next s w :
  ports_inv s -> wp (socket_run_next s) (fun s' _ => ports_inv s') w.
Proof.
  intros I. pose proof (pi_watch _ I) as W. unfold socket_run_next.
  destruct (control_command s) as [| c0 [| c cs]]; try apply wp_abort.
  apply wp_bind. eapply wp_conseq; [apply untouched_unwatch_control_pid |].
  intros s1 w1 U1.
  apply wp_bind. eapply wp_conseq; [apply untouched_spawn |].
  intros [r s2] w2 U2.
  assert (U : untouched s s2).
  { destruct U1 as [A B], U2 as [C D]. cbn in C, D. split; congruence. }
  assert (W2 : watches_on_open_fds (ports s2)).
  { destruct U as [A _]. rewrite A. exact W. }
  destruct r.
  - apply wp_ret. eapply untouched_inv; eassumption.
  - destruct (state_eq (state s2) SOCKET_START_POST);
      [apply inv_enter_stop_pre; exact W2 |].
    destruct (state_eq (state s2) SOCKET_STOP_POST);
      [apply inv_enter_dead; exact W2 | apply inv_enter_signal; exact W2].
Qed.

Lemma inv_fail s cfd w :
  watches_on_open_fds (ports s) ->
  wp (s1 <- socket_enter_stop_pre s SOCKET_FAILURE_RESOURCES ;;
      safe_close cfd ;;; ret s1)
     (fun s' _ => ports_inv s') w.
Proof.
  intros W. apply wp_bind.
  eapply wp_conseq; [apply inv_enter_stop_pre; exact W |].
  intros s1 w1 I. unfold safe_close. repeat pstep; exact I.
Qed.

Lemma inv_close_fds s w :
  watches_on_open_fds (ports s) ->
  wp (socket_close_fds s)
     (fun s' _ => ports s' = map close_port (ports s) /\ state s' = state s) w.
Proof.
  intros W. unfold socket_close_fds. apply wp_bind. apply wpt_wp.
  eapply wpt_conseq; [apply socket_close_fds_loop_spec |].
  intros ps w1 [-> _]. apply wp_ret. split; reflexivity.
Qed.

Lemma inv_instantiate s w :
  wp (socket_instantiate_service s) (fun '(r, s') _ => untouched s s') w.
Proof.
  eapply wp_conseq; [apply socket_instantiate_service_spec |].
  intros [r s'] w' (F & P & _). split; [exact P | exact (of_state _ _ F)].
Qed.

Ltac fail_tac W :=
  first
    [ apply inv_fail; exact W
    | eapply wp_conseq;
      [ apply inv_enter_stop_pre; exact W
      | intros ? ? ?; unfold safe_close; repeat pstep; assumption ] ].

Lemma inv_enter_running s cfd w :
  ports_inv s -> wp (socket_enter_running s cfd) (fun s' _ => ports_inv s') w.
Proof.
  intros I. pose proof (pi_watch _ I) as W.
  unfold socket_enter_running, unit_stop_pending, triggers_active_or_pending.
  apply wp_bind. apply wp_get_env. apply wp_bind. apply wp_ask_bool.
  destruct (o_bool (env w) (tick w)).
  - destruct (0 <=? cfd).
    + unfold safe_close. rewrite Z.leb_refl || idtac.
      repeat pstep; exact I.
    + apply wp_bind. eapply wp_conseq; [apply inv_close_fds; exact W |].
      intros s1 w1 [P1 S1].
      destruct (close_port_all _ W) as (WC & CL & UW).
      rewrite <- P1 in WC, CL, UW.
      apply wp_bind. apply wpt_wp.
      eapply wpt_conseq; [apply socket_watch_fds_spec |].
      intros [r s2] w2 (_ & _ & (F & _ & R) & _).
      assert (P2 : ports s2 = ports s1).
      { clear - R CL. induction R as [| p p' l l' [_ C] R IH]; [reflexivity |].
        inversion CL; subst. rewrite (C H1), IH by assumption. reflexivity. }
      destruct r.
      * apply wp_ret. constructor; rewrite P2; intros; assumption.
      * apply inv_enter_stop_pre. rewrite P2. exact WC.
  - destruct (cfd <? 0).
    + apply wp_bind. apply wp_ask_bool.
      destruct (o_bool _ _); cbn [negb]; [apply inv_set_state; exact W |].
      destruct (service s) as [svc |]; [| fail_tac W].
      unfold manager_add_job. apply wp_bind. repeat pstep.
      * apply inv_set_state; exact W.
      * fail_tac W.
    + destruct (max_connections (config s) <=? n_connections s).
      { unfold safe_close. repeat pstep; exact I. }
      apply wp_bind. eapply wp_conseq; [apply inv_instantiate |].
      intros [r s1] w1 [P1 S1].
      assert (W1 : watches_on_open_fds (ports s1)) by (rewrite P1; exact W).
      assert (I1 : ports_inv s1) by (apply (untouched_inv s); [split |]; assumption).
      destruct r; [| fail_tac W1].
      apply wp_bind.
      eapply wp_conseq; [apply instance_from_socket_spec |].
      intros r w2 _. destruct r as [instance | en].
      2:{ destruct (negb (errno_is_ENOTCONN en)); [fail_tac W1 |].
          unfold safe_close. repeat pstep; exact I1. }
      destruct (unit_name_to_prefix (env w) (id (config s1))) as [prefix |];
        [| fail_tac W1].
      destruct (unit_name_build (env w) prefix instance ".service") as [name |];
        [| fail_tac W1].
      destruct (service s1) as [svc |]; [| apply wp_abort].
      unfold unit_add_name, service_set_socket_fd, manager_add_job.
      repeat pstep.
      all: try (fail_tac W1).
      apply (untouched_inv s1); [split; reflexivity | exact I1].
Qed.

Lemma inv_start s w :
  ports_inv s -> wp (socket_start s) (fun '(r, s') _ => ports_inv s') w.
Proof.
  intros I. pose proof (pi_watch _ I) as W. unfold socket_start.
  apply wp_bind. apply wp_get_env.
  destruct (IN_SET (state s) _); [apply wp_ret; exact I |].
  destruct (IN_SET (state s) _); [apply wp_ret; exact I |].
  match goal with
  | |- wp (match ?x with _ => _ end) _ _ => destruct x
  end; [apply wp_ret; exact I |].
  apply wp_bind. apply wp_assert. intros _.
  apply wp_bind. eapply wp_conseq; [apply inv_enter_start_pre; exact W |].
  intros s' w' I'. apply wp_ret. exact I'.
Qed.

Lemma inv_stop s w :
  ports_inv s -> wp (socket_stop s) (fun '(r, s') _ => ports_inv s') w.
Proof.
  intros I. pose proof (pi_watch _ I) as W. unfold socket_stop.
  destruct (IN_SET (state s) _); [apply wp_ret; exact I |].
  destruct (IN_SET (state s) _).
  - apply wp_bind. eapply wp_conseq; [apply inv_enter_signal; exact W |].
    intros s' w' I'. apply wp_ret. exact I'.
  - apply wp_bind. apply wp_assert. intros _.
    apply wp_bind. eapply wp_conseq; [apply inv_enter_stop_pre; exact W |].
    intros s' w' I'. apply wp_ret. exact I'.
Qed.

Lemma inv_timer_event s w :
  ports_inv s -> wp (socket_timer_event s) (fun s' _ => ports_inv s') w.
Proof.
  intros I. pose proof (pi_watch _ I) as W. unfold socket_timer_event.
  destruct (state s); try apply wp_abort;
    try destruct (send_sigkill (config s));
    first [apply inv_enter_signal | apply inv_enter_stop_pre
          | apply inv_enter_stop_post | apply inv_enter_dead]; exact W.
Qed.

Lemma inv_sigchld_event s pid code status w :
  ports_inv s ->
  wp (socket_sigchld_event s pid code status) (fun s' _ => ports_inv s') w.
Proof.
  intros I. pose proof (pi_watch _ I) as W. unfold socket_sigchld_event.
  apply wp_bind. apply wp_get_env. apply wp_bind. apply wp_assert. intros _.
  destruct (negb (pid =? control_pid s)); [apply wp_ret; exact I |].
  apply wp_bind.
  assert (F : forall Q : SocketResult -> World -> Prop,
            (forall f, Q f w) ->
            wp (if is_clean_exit (env w) code status then ret SOCKET_SUCCESS
                else match code with
                     | CLD_EXITED => ret SOCKET_FAILURE_EXIT_CODE
                     | CLD_KILLED => ret SOCKET_FAILURE_SIGNAL
                     | CLD_DUMPED => ret SOCKET_FAILURE_CORE_DUMP
                     | CLD_OTHER => abort
                     end) Q w).
  { intros Q HQ. destruct (is_clean_exit (env w) code status);
      [apply wp_ret; apply HQ |].
    destruct code; first [apply wp_ret; apply HQ | apply wp_abort]. }
  apply F. clear F. intros f0.
  cbn [control_command set_control_pid].
  set (f := match control_command s with
            | c :: _ => if c_ignore c then SOCKET_SUCCESS else f0
            | [] => f0
            end).
  set (s0 := if result_ne f SOCKET_SUCCESS
             then set_result (set_control_pid s 0) f else set_control_pid s 0).
  assert (U0 : untouched s s0).
  { unfold s0. destruct (result_ne f SOCKET_SUCCESS); split; reflexivity. }
  pose proof (untouched_inv _ _ U0 I) as I0.
  pose proof (pi_watch _ I0) as W0.
  destruct (_ && _); [apply inv_run_next; exact I0 |].
  cbn [state set_control_command_id set_control_command].
  destruct (state s0); try apply wp_abort;
    try destruct (result_eq f SOCKET_SUCCESS);
    first [apply inv_enter_start_chown | apply inv_enter_signal
          | apply inv_enter_start_post | apply inv_enter_stop_pre
          | apply inv_enter_listening | apply inv_enter_stop_post
          | apply inv_enter_dead]; exact W0.
Qed.

Lemma inv_fd_event s fd revents w :
  ports_inv s -> wp (socket_fd_event s fd revents) (fun s' _ => ports_inv s') w.
Proof.
  intros I. pose proof (pi_watch _ I) as W. unfold socket_fd_event.
  apply wp_bind. apply wp_assert. intros _.
  destruct (state_ne (state s) SOCKET_LISTENING); [apply wp_ret; exact I |].
  destruct (negb (revents =? EV_READ));
    [apply inv_enter_stop_pre; exact W | apply inv_enter_running; exact I].
Qed.

Lemma inv_reset_failed s w :
  ports_inv s -> wp (socket_reset_failed s) (fun s' _ => ports_inv s') w.
Proof.
  intros I. pose proof (pi_watch _ I) as W. unfold socket_reset_failed.
  apply wp_bind. destruct (state_eq (state s) SOCKET_FAILED).
  - eapply wp_conseq; [apply inv_set_state; exact W |].
    intros s1 w1 I1. apply wp_ret.
    apply (untouched_inv s1); [split; reflexivity | exact I1].
  - apply wp_ret. apply wp_ret.
    apply (untouched_inv s); [split; reflexivity | exact I].
Qed.

Lemma inv_handle s ev w :
  ports_inv s -> wp (handle s ev) (fun s' _ => ports_inv s') w.
Proof.
  intros I. destruct ev; cbn [handle].
  - apply wp_bind. eapply wp_conseq; [apply inv_start; exact I |].
    intros [r s'] w' I'. apply wp_ret. exact I'.
  - apply wp_bind. eapply wp_conseq; [apply inv_stop; exact I |].
    intros [r s'] w' I'. apply wp_ret. exact I'.
  - apply inv_timer_event. exact I.
  - apply inv_sigchld_event. exact I.
  - apply inv_fd_event. exact I.
  - apply inv_enter_running. exact I.
  - apply inv_reset_failed. exact I.
Qed.

(** ** Closing, watching and opening the ports *)
Lemma closing_closed ps :
  Forall (fun p => p_fd p < 0) ps -> closing ps = [] /\ map close_port ps = ps.
Proof.
  induction 1 as [| p ps C F [IH1 IH2]]; [split; reflexivity |].
  unfold closing in *. cbn [flat_map map]. unfold close_port at 1.
  destruct (p_fd p <? 0) eqn:X; [| apply Z.ltb_ge in X; lia].
  rewrite IH1, IH2. split; reflexivity.
Qed.

Lemma socket_close_fds_loop_closed ps w :
  Forall (fun p => p_fd p < 0) ps -> socket_close_fds_loop ps w = Some (ps, w).
Proof.
  induction 1 as [| p ps C F IH]; [reflexivity |].
  cbn [socket_close_fds_loop].
  destruct (p_fd p <? 0) eqn:X; [| apply Z.ltb_ge in X; lia].
  unfold bind. rewrite IH. reflexivity.
Qed.

Lemma opening_closes_nothing ps ps' fd : ~ In (EvClose fd) (rev (opening ps ps')).
Proof.
  intros I. apply in_rev in I. apply opening_only_opens in I.
  destruct I as (t & f & I). discriminate I.
Qed.

Lemma socket_open_fds_loop_open s know w : forall ps,
  Forall (fun p => 0 <= p_fd p) ps ->
  socket_open_fds_loop s know ps w = Some (OpenDone, s, ps, w).
Proof.
  induction 1 as [| p ps O F IH]; [reflexivity |].
  cbn [socket_open_fds_loop].
  destruct (0 <=? p_fd p) eqn:X; [| apply Z.leb_gt in X; lia].
  unfold bind. rewrite IH. reflexivity.
Qed.

Lemma socket_open_fds_open s w :
  Forall (fun p => 0 <= p_fd p) (ports s) ->
  socket_open_fds s w = Some (Ok tt, s, w).
Proof.
  intros O. unfold socket_open_fds, bind.
  rewrite (socket_open_fds_loop_open s false w _ O). unfold ret.
  rewrite set_ports_same. reflexivity.
Qed.

Lemma ntoh_quad a b c d :
  is_byte a -> is_byte b -> is_byte c -> is_byte d ->
  let n := ntoh [a; b; c; d] in
  Z.shiftr n 24 = a /\ Z.land (Z.shiftr n 16) 255 = b /\
  Z.land (Z.shiftr n 8) 255 = c /\ Z.land n 255 = d.
Proof.
  unfold is_byte. intros A B C D. cbn [ntoh fold_left].
  change 255 with (Z.ones 8). rewrite !Z.land_ones by lia.
  rewrite !Z.shiftr_div_pow2 by lia.
  change (2 ^ 24) with 16777216. change (2 ^ 16) with 65536.
  change (2 ^ 8) with 256.
  set (n := (((0 * 256 + a) * 256 + b) * 256 + c) * 256 + d).
  assert (E1 : n / 16777216 = a).
  { symmetry. apply (Z.div_unique n 16777216 a (b * 65536 + c * 256 + d));
      unfold n; lia. }
  assert (E2 : n / 65536 = a * 256 + b).
  { symmetry. apply (Z.div_unique n 65536 (a * 256 + b) (c * 256 + d));
      unfold n; lia. }
  assert (E3 : n / 256 = a * 65536 + b * 256 + c).
  { symmetry. apply (Z.div_unique n 256 (a * 65536 + b * 256 + c) d);
      unfold n; lia. }
  rewrite E1, E2, E3. split; [reflexivity |].
  split; [symmetry; apply (Z.mod_unique _ 256 a b); lia |].
  split; [symmetry; apply (Z.mod_unique _ 256 (a * 256 + b) c); lia |].
  symmetry. apply (Z.mod_unique _ 256 (a * 65536 + b * 256 + c) d);
    unfold n; lia.
Qed.

Lemma ntoh_pair p q : ntoh [p; q] = 256 * p + q.
Proof. unfold ntoh. cbn [fold_left]. lia. Qed.

Lemma has_ipv4_prefix_mapped l : has_ipv4_prefix (ipv4_prefix ++ l) = true.
Proof.
  unfold has_ipv4_prefix. cbn [ipv4_prefix app firstn].
  destruct (list_eq_dec Z.eq_dec _ _) as [_ | N];
    [reflexivity | contradiction N; reflexivity].
Qed.

(** ** Bookkeeping of a state transition *)
Lemma wp_any {A} (m : M A) (Q : A -> World -> Prop) w :
  (forall a w1, Q a w1) -> wp m Q w.
Proof.
  intros H. unfold wp. destruct (m w) as [[a w1] |]; [apply H | exact I].
Qed.

Lemma socket_set_state_notifies s st w s' w' :
  socket_set_state s st w = Some (s', w') ->
  exists rest,
    trace w' = EvNotify (state_translation_table (state s))
                        (state_translation_table st) :: rest.
Proof.
  intros H.
  assert (G : wp (socket_set_state s st)
            (fun _ w' => exists rest,
               trace w' = EvNotify (state_translation_table (state s))
                                   (state_translation_table st) :: rest) w).
  { unfold socket_set_state, unit_notify.
    apply wp_bind. apply wp_any. intros s1 w1.
    apply wp_bind. apply wp_any. intros s2 w2.
    apply wp_bind. apply wp_emit. apply wp_ret.
    cbn [trace]. eexists. reflexivity. }
  exact (wp_inv _ _ _ _ _ G H).
Qed.

(** ** Coldplugging a listening unit *)
Lemma socket_set_state_keeps_fds s st w :
  keeps_fds st = true ->
  wpt (socket_set_state s st)
      (fun s' w' => exists new, trace w' = (new ++ trace w)%list /\
                                Forall no_fd_event new) w.
Proof.
  intros K. unfold socket_set_state.
  set (c1 := (_ && _)%bool).
  assert (Hc1 : c1 = negb (keeps_control st)) by (destruct st; reflexivity).
  clearbody c1. subst c1.
  set (c2 := (_ && _)%bool).
  assert (Hc2 : c2 = negb (keeps_fds st)) by (destruct st; reflexivity).
  clearbody c2. subst c2. rewrite K. cbn [negb].
  unfold socket_unwatch_control_pid, unit_unwatch_pid, unit_notify.
  apply wpt_bind.
  destruct (negb (keeps_control st)).
  - destruct (control_pid _ <=? 0).
    + repeat wstep. cbn [trace]. eexists [_].
      split; [reflexivity |]. repeat constructor.
    + repeat wstep. cbn [trace]. eexists [_; _].
      split; [reflexivity |]. repeat constructor.
  - repeat wstep. cbn [trace]. eexists [_].
    split; [reflexivity |]. repeat constructor.
Qed.

Lemma ports_inv_fifo_unit : ports_inv fifo_unit.
Proof.
  constructor.
  - repeat constructor. cbn. discriminate.
  - intros _. repeat constructor.
  - intros _. repeat constructor.
Qed.

(** ** The answers of the manager *)
Lemma wpt_and {A} (m : M A) (P Q : A -> World -> Prop) w :
  wpt m P w -> wpt m Q w -> wpt m (fun a w' => P a w' /\ Q a w') w.
Proof. unfold wpt. destruct (m w) as [[a w']|]; tauto. Qed.

Lemma all_ok_app e t a b :
  all_ok e t (a + b) = all_ok e t a && all_ok e (t + a) b.
Proof. unfold all_ok. rewrite seq_app, forallb_app. reflexivity. Qed.

Lemma calls_ok_trans w w1 w2 :
  env w1 = env w -> (tick w <= tick w1)%nat -> (tick w1 <= tick w2)%nat ->
  calls_ok w w2 = calls_ok w w1 && calls_ok w1 w2.
Proof.
  intros E A B. unfold calls_ok. rewrite E.
  replace (tick w2 - tick w)%nat
    with ((tick w1 - tick w) + (tick w2 - tick w1))%nat by lia.
  rewrite all_ok_app.
  replace (tick w + (tick w1 - tick w))%nat with (tick w1) by lia.
  reflexivity.
Qed.

Lemma calls_ok_same w w' : tick w' = tick w -> calls_ok w w' = true.
Proof. intros E. unfold calls_ok. rewrite E, Nat.sub_diag. reflexivity. Qed.


(** A transition that is run after the calls between [w] and [w1], and
    is passed FailureResources when one of them failed. *)
Lemma latched_after w w1 r0 r1 s' w' :
  env w1 = env w -> (tick w <= tick w1)%nat ->
  r1 = (if calls_ok w w1 then r0 else SOCKET_FAILURE_RESOURCES) ->
  latched w1 r1 s' w' -> latched w r0 s' w'.
Proof.
  intros E T -> (E' & T' & R). split; [congruence |]. split; [lia |].
  rewrite (calls_ok_trans w w1 w') by assumption.
  rewrite R. destruct (calls_ok w w1), (calls_ok w1 w'); reflexivity.
Qed.

(** ** What the transitions ask the manager *)
(** Closing the ports, dropping the control pid and [socket_set_state]
    ask nothing. *)
Lemma socket_close_fds_loop_clock ps : forall w,
  wpt (socket_close_fds_loop ps)
      (fun _ w' => env w' = env w /\ tick w' = tick w) w.
Proof.
  induction ps as [| p rest IH]; intros w; cbn [socket_close_fds_loop].
  - apply wpt_ret. split; reflexivity.
  - destruct (p_fd p <? 0).
    + apply wpt_bind. eapply wpt_conseq; [apply IH |].
      intros ps' w' H. apply wpt_ret. exact H.
    + unfold safe_close. cbn [unit_unwatch_fd set_fd_watch p_fd].
      destruct (0 <=? p_fd p).
      * apply wpt_bind. apply wpt_bind. apply wpt_emit. apply wpt_ret.
        apply wpt_bind. eapply wpt_conseq; [apply IH |].
        intros ps' w' H. apply wpt_ret. exact H.
      * apply wpt_bind. apply wpt_ret.
        apply wpt_bind. eapply wpt_conseq; [apply IH |].
        intros ps' w' H. apply wpt_ret. exact H.
Qed.

Lemma socket_unwatch_control_pid_clock s w :
  wpt (socket_unwatch_control_pid s)
      (fun s' w' => env w' = env w /\ tick w' = tick w /\
                    state s' = state s /\ result s' = result s /\
                    config s' = config s) w.
Proof.
  unfold socket_unwatch_control_pid, unit_unwatch_pid.
  destruct (control_pid s <=? 0); repeat wstep; repeat split.
Qed.

Lemma socket_set_state_asks_nothing s st w :
  wpt (socket_set_state s st)
      (fun _ w' => env w' = env w /\ tick w' = tick w) w.
Proof.
  unfold socket_set_state, unit_notify, unit_unwatch_timer.
  apply wpt_bind.
  assert (C : forall s0 w0, env w0 = env w -> tick w0 = tick w ->
            forall b : bool,
            wpt (s4 <- (if b then socket_close_fds s0 else ret s0) ;;
                 emit (EvNotify (state_translation_table (state s))
                                (state_translation_table st)) ;;; ret s4)
                (fun _ w' => env w' = env w /\ tick w' = tick w) w0).
  { intros s0 w0 E T b. apply wpt_bind. destruct b.
    - unfold socket_close_fds. apply wpt_bind.
      eapply wpt_conseq; [apply socket_close_fds_loop_clock |].
      intros ps' w1 [E1 T1]. apply wpt_ret. apply wpt_bind. apply wpt_emit.
      apply wpt_ret. cbn. split; congruence.
    - apply wpt_ret. apply wpt_bind. apply wpt_emit. apply wpt_ret.
      cbn. split; congruence. }
  match goal with
  | |- wpt (if ?b then _ else _) _ _ => destruct b
  end.
  - apply wpt_bind.
    eapply wpt_conseq; [apply socket_unwatch_control_pid_clock |].
    intros s1 w1 (E1 & T1 & _). apply wpt_ret. apply C; assumption.
  - apply wpt_ret. apply C; reflexivity.
Qed.

Lemma socket_set_state_clock s st w :
  wpt (socket_set_state s st)
      (fun s' w' => env w' = env w /\ tick w' = tick w /\
                    state s' = st /\ result s' = result s /\
                    config s' = config s) w.
Proof.
  eapply wpt_conseq;
    [exact (wpt_and _ _ _ _ (socket_set_state_spec s st w)
                    (socket_set_state_asks_nothing s st w)) |].
  intros s' w' [[P _] [E T]].
  repeat split; try assumption;
    [apply (ssp_state _ _ _ P) | apply (ssp_result _ _ _ P)
    | apply (ssp_config _ _ _ P)].
Qed.

(** [socket_spawn] makes at most four calls, and succeeds iff the four
    of them succeed. *)
Lemma socket_spawn_clock s c w :
  wpt (socket_spawn s c)
      (fun '(r, s') w' =>
         env w' = env w /\ (tick w <= tick w')%nat /\
         calls_ok w w' = (match r with Ok _ => true | Err _ => false end) /\
         all_ok (env w) (tick w) 4 = calls_ok w w' /\
         state s' = state s /\ result s' = result s /\
         config s' = config s) w.
Proof.
  unfold socket_spawn, unit_watch_timer, unit_full_printf_strv, exec_spawn,
    unit_watch_pid, unit_unwatch_timer.
  repeat wstep.
  all: cbn [env tick next_tick] in *.
  all: split; [reflexivity |]; split; [lia |].
  all: unfold calls_ok, all_ok, answer_ok; cbn [env tick next_tick].
  all: repeat match goal with
         | |- context [(S ?n - ?n)%nat] =>
             replace (S n - n)%nat with 1%nat by lia
         | |- context [(S (S ?n) - ?n)%nat] =>
             replace (S (S n) - n)%nat with 2%nat by lia
         | |- context [(S (S (S ?n)) - ?n)%nat] =>
             replace (S (S (S n)) - n)%nat with 3%nat by lia
         | |- context [(S (S (S (S ?n))) - ?n)%nat] =>
             replace (S (S (S (S n))) - n)%nat with 4%nat by lia
         end.
  all: cbn [seq forallb].
  all: repeat match goal with
         | H : o_rc _ _ = _ |- _ => rewrite H; clear H
         end.
  all: cbn [andb]; repeat split; reflexivity.
Qed.

(** ** Where the transitions of the stop path end *)
Lemma latch_result s f :
  result (if result_ne f SOCKET_SUCCESS then set_result s f else s)
  = latch (result s) f.
Proof. unfold latch. destruct (result_ne f SOCKET_SUCCESS); reflexivity. Qed.

Lemma latch_config s f :
  config (if result_ne f SOCKET_SUCCESS then set_result s f else s) = config s.
Proof. destruct (result_ne f SOCKET_SUCCESS); reflexivity. Qed.

Lemma beyond_weaken l l' s' : incl l l' -> beyond l s' -> beyond l' s'.
Proof. intros I [H | H]; [left; apply I; exact H | right; exact H]. Qed.

Lemma lands_beyond w r0 first b later later' s' w' :
  lands w r0 first b later s' w' ->
  In first later' -> incl later later' ->
  latched w r0 s' w' /\ beyond later' s'.
Proof.
  intros [L St] F I. split; [exact L |]. destruct b.
  - left. destruct St as [-> _]. exact F.
  - eapply beyond_weaken; eassumption.
Qed.

Lemma socket_enter_dead_clock s f w :
  wpt (socket_enter_dead s f)
      (fun s' w' => env w' = env w /\ tick w' = tick w /\
                    result s' = latch (result s) f /\
                    state s' = (if result_ne (result s') SOCKET_SUCCESS
                                then SOCKET_FAILED else SOCKET_DEAD) /\
                    config s' = config s) w.
Proof.
  unfold socket_enter_dead.
  eapply wpt_conseq; [apply socket_set_state_clock |].
  intros s' w' (E & T & St & R & C).
  cbn [result set_exec_context config] in *.
  rewrite latch_result in *. rewrite latch_config in C.
  repeat split; try assumption. rewrite R. exact St.
Qed.

Lemma socket_enter_dead_lands s f w :
  wpt (socket_enter_dead s f)
      (fun s' w' => latched w (latch (result s) f) s' w' /\ beyond [] s') w.
Proof.
  eapply wpt_conseq; [apply socket_enter_dead_clock |].
  intros s' w' (E & T & R & St & _). split.
  - split; [exact E |]. split; [lia |].
    rewrite (calls_ok_same _ _ T). exact R.
  - right. exact St.
Qed.

(** A signal state is entered iff [unit_kill_context] has signalled
    processes and the timer is armed. *)
Lemma socket_enter_signal_with_lands k s st f w :
  (is_stop_pre_signal st = true ->
   forall s1 f1 w1,
     wpt (k s1 f1)
         (fun s' w' => latched w1 (latch (result s1) f1) s' w' /\
                       beyond stop_post_states s') w1) ->
  wpt (socket_enter_signal_with k s st f)
      (fun s' w' =>
         lands w (latch (result s) f) st (kill_waits (env w) (tick w))
               (if is_stop_pre_signal st then stop_post_states else [])
               s' w') w.
Proof.
  intros K. unfold socket_enter_signal_with.
  fold (is_stop_pre_signal st).
  set (s0 := if result_ne f SOCKET_SUCCESS then set_result s f else s).
  assert (R0 : result s0 = latch (result s) f) by apply latch_result.
  assert (NEXT : forall f1 s1 w1,
    env w1 = env w -> (tick w <= tick w1)%nat ->
    latch (result s1) f1
    = (if calls_ok w w1 then latch (result s) f else SOCKET_FAILURE_RESOURCES) ->
    wpt (if is_stop_pre_signal st then k s1 f1 else socket_enter_dead s1 f1)
        (fun s' w' =>
           latched w (latch (result s) f) s' w' /\
           beyond (if is_stop_pre_signal st then stop_post_states else []) s')
        w1).
  { intros f1 s1 w1 E T L.
    destruct (is_stop_pre_signal st).
    - eapply wpt_conseq; [apply K; reflexivity |].
      intros s' w' [A B]. split; [| exact B].
      eapply latched_after; eassumption.
    - eapply wpt_conseq; [apply socket_enter_dead_lands |].
      intros s' w' [A B]. split; [| exact B].
      eapply latched_after; eassumption. }
  unfold unit_kill_context, lands, kill_waits, answer_ok.
  apply wpt_bind. apply wpt_bind. apply wpt_ask_rc.
  destruct (o_rc (env w) (tick w)) as [n | e] eqn:K0.
  - apply wpt_bind. apply wpt_emit. apply wpt_ret.
    destruct (0 <? n)%N.
    + unfold unit_watch_timer. apply wpt_bind. apply wpt_bind. apply wpt_ask_rc.
      cbn [env tick next_tick andb].
      destruct (o_rc (env w) (S (tick w))) as [m | e] eqn:K1.
      * apply wpt_ret.
        eapply wpt_conseq; [apply socket_set_state_clock |].
        intros s' w' (E & T & St & R & _). cbn [env tick next_tick] in E, T.
        assert (C : calls_ok w w' = true).
        { unfold calls_ok, all_ok, answer_ok. rewrite T.
          replace (S (S (tick w)) - tick w)%nat with 2%nat by lia.
          cbn [seq forallb]. rewrite K0, K1. reflexivity. }
        split; [| split; assumption].
        split; [exact E |]. split; [lia |]. rewrite C, R. exact R0.
      * apply wpt_ret. apply NEXT; cbn [env tick next_tick];
          [reflexivity | lia |].
        unfold calls_ok, all_ok, answer_ok. cbn [env tick next_tick].
        replace (S (S (tick w)) - tick w)%nat with 2%nat by lia.
        cbn [seq forallb]. rewrite K0, K1. reflexivity.
    + cbn [andb]. apply NEXT; cbn [env tick next_tick]; [reflexivity | lia |].
      unfold calls_ok, all_ok, answer_ok. cbn [env tick next_tick].
      replace (S (tick w) - tick w)%nat with 1%nat by lia.
      cbn [seq forallb]. rewrite K0. exact R0.
  - apply wpt_ret. apply NEXT; cbn [env tick next_tick]; [reflexivity | lia |].
    unfold calls_ok, all_ok, answer_ok. cbn [env tick next_tick].
    replace (S (tick w) - tick w)%nat with 1%nat by lia.
    cbn [seq forallb]. rewrite K0. reflexivity.
Qed.

(** StopPost is entered iff ExecStopPost exists and its spawn
    succeeds. *)
Lemma socket_enter_stop_post_with_lands k s f w :
  (forall s1 f1 w1,
     wpt (k s1 SOCKET_FINAL_SIGTERM f1)
         (fun s' w' => latched w1 (latch (result s1) f1) s' w' /\
                       beyond [SOCKET_FINAL_SIGTERM] s') w1) ->
  wpt (socket_enter_stop_post_with k s f)
      (fun s' w' =>
         lands w (latch (result s) f) SOCKET_STOP_POST
               (command_runs (exec_command (config s) SOCKET_EXEC_STOP_POST)
                             (env w) (tick w))
               [SOCKET_FINAL_SIGTERM] s' w') w.
Proof.
  intros K. unfold socket_enter_stop_post_with.
  set (s0 := if result_ne f SOCKET_SUCCESS then set_result s f else s).
  assert (R0 : result s0 = latch (result s) f) by apply latch_result.
  assert (C0 : config s0 = config s) by apply latch_config.
  assert (NEXT : forall f1 s1 w1,
    env w1 = env w -> (tick w <= tick w1)%nat ->
    latch (result s1) f1
    = (if calls_ok w w1 then latch (result s) f else SOCKET_FAILURE_RESOURCES) ->
    wpt (k s1 SOCKET_FINAL_SIGTERM f1)
        (fun s' w' =>
           latched w (latch (result s) f) s' w' /\
           beyond [SOCKET_FINAL_SIGTERM] s') w1).
  { intros f1 s1 w1 E T L.
    eapply wpt_conseq; [apply K |].
    intros s' w' [A B]. split; [| exact B].
    eapply latched_after; eassumption. }
  apply wpt_bind.
  eapply wpt_conseq; [apply socket_unwatch_control_pid_clock |].
  intros s1 w1 (E1 & T1 & S1 & R1 & C1).
  cbn [control_command set_control_command set_control_command_id config].
  rewrite C1, C0. unfold lands, command_runs.
  destruct (exec_command (config s) SOCKET_EXEC_STOP_POST) as [| c cs].
  - apply NEXT; [exact E1 | lia |].
    rewrite (calls_ok_same _ _ T1). cbn. congruence.
  - apply wpt_bind.
    eapply wpt_conseq; [apply socket_spawn_clock |].
    intros [r s2] w2 (E2 & T2 & O2 & A2 & S2 & R2 & C2).
    cbn [result state set_control_command set_control_command_id] in R2, S2.
    assert (CO : calls_ok w w2 = calls_ok w1 w2).
    { rewrite (calls_ok_trans w w1 w2) by (try assumption; lia).
      rewrite (calls_ok_same _ _ T1). reflexivity. }
    rewrite <- T1, <- E1, A2, O2.
    destruct r.
    + eapply wpt_conseq; [apply socket_set_state_clock |].
      intros s' w' (E & T & St & R & _).
      assert (C : calls_ok w w' = true).
      { rewrite (calls_ok_trans w w2 w') by (try congruence; lia).
        rewrite CO, O2, (calls_ok_same _ _ T). reflexivity. }
      split; [| split; assumption].
      split; [congruence |]. split; [lia |]. rewrite C. congruence.
    + apply NEXT; [congruence | lia |].
      rewrite CO, O2. reflexivity.
Qed.

Lemma socket_enter_stop_post_lands s f w :
  wpt (socket_enter_stop_post s f)
      (fun s' w' =>
         lands w (latch (result s) f) SOCKET_STOP_POST
               (command_runs (exec_command (config s) SOCKET_EXEC_STOP_POST)
                             (env w) (tick w))
               [SOCKET_FINAL_SIGTERM] s' w') w.
Proof.
  unfold socket_enter_stop_post. apply socket_enter_stop_post_with_lands.
  intros s1 f1 w1.
  eapply wpt_conseq;
    [apply (socket_enter_signal_with_lands _ s1 SOCKET_FINAL_SIGTERM f1 w1);
     discriminate |].
  intros s' w' L.
  eapply lands_beyond; [exact L | left; reflexivity | intros x []].
Qed.

Lemma socket_enter_signal_lands s st f w :
  wpt (socket_enter_signal s st f)
      (fun s' w' =>
         lands w (latch (result s) f) st (kill_waits (env w) (tick w))
               (if is_stop_pre_signal st then stop_post_states else [])
               s' w') w.
Proof.
  unfold socket_enter_signal. apply socket_enter_signal_with_lands.
  intros _ s1 f1 w1.
  eapply wpt_conseq; [apply socket_enter_stop_post_lands |].
  intros s' w' L.
  eapply lands_beyond; [exact L | left; reflexivity |].
  intros x Hx. right. exact Hx.
Qed.

(** StopPre is entered iff ExecStopPre exists and its spawn succeeds. *)
Lemma socket_enter_stop_pre_lands s f w :
  wpt (socket_enter_stop_pre s f)
      (fun s' w' =>
         lands w (latch (result s) f) SOCKET_STOP_PRE
               (command_runs (exec_command (config s) SOCKET_EXEC_STOP_PRE)
                             (env w) (tick w))
               stop_post_states s' w') w.
Proof.
  unfold socket_enter_stop_pre.
  set (s0 := if result_ne f SOCKET_SUCCESS then set_result s f else s).
  assert (R0 : result s0 = latch (result s) f) by apply latch_result.
  assert (C0 : config s0 = config s) by apply latch_config.
  assert (NEXT : forall f1 s1 w1,
    env w1 = env w -> (tick w <= tick w1)%nat ->
    latch (result s1) f1
    = (if calls_ok w w1 then latch (result s) f else SOCKET_FAILURE_RESOURCES) ->
    wpt (socket_enter_stop_post s1 f1)
        (fun s' w' =>
           latched w (latch (result s) f) s' w' /\
           beyond stop_post_states s') w1).
  { intros f1 s1 w1 E T L.
    eapply wpt_conseq; [apply socket_enter_stop_post_lands |].
    intros s' w' LL.
    destruct (lands_beyond _ _ _ _ _ stop_post_states _ _ LL) as [A B];
      [left; reflexivity | intros x Hx; right; exact Hx |].
    split; [| exact B].
    eapply latched_after; eassumption. }
  apply wpt_bind.
  eapply wpt_conseq; [apply socket_unwatch_control_pid_clock |].
  intros s1 w1 (E1 & T1 & S1 & R1 & C1).
  cbn [control_command set_control_command set_control_command_id config].
  rewrite C1, C0. unfold lands, command_runs.
  destruct (exec_command (config s) SOCKET_EXEC_STOP_PRE) as [| c cs].
  - apply NEXT; [exact E1 | lia |].
    rewrite (calls_ok_same _ _ T1). cbn. congruence.
  - apply wpt_bind.
    eapply wpt_conseq; [apply socket_spawn_clock |].
    intros [r s2] w2 (E2 & T2 & O2 & A2 & S2 & R2 & C2).
    cbn [result state set_control_command set_control_command_id] in R2, S2.
    assert (CO : calls_ok w w2 = calls_ok w1 w2).
    { rewrite (calls_ok_trans w w1 w2) by (try assumption; lia).
      rewrite (calls_ok_same _ _ T1). reflexivity. }
    rewrite <- T1, <- E1, A2, O2.
    destruct r.
    + eapply wpt_conseq; [apply socket_set_state_clock |].
      intros s' w' (E & T & St & R & _).
      assert (C : calls_ok w w' = true).
      { rewrite (calls_ok_trans w w2 w') by (try congruence; lia).
        rewrite CO, O2, (calls_ok_same _ _ T). reflexivity. }
      split; [| split; assumption].
      split; [congruence |]. split; [lia |]. rewrite C. congruence.
    + apply NEXT; [congruence | lia |].
      rewrite CO, O2. reflexivity.
Qed.

(** ** A latched failure stays *)
Lemma latched_failed w r0 s' w' :
  latched w r0 s' w' -> r0 <> SOCKET_SUCCESS -> result s' <> SOCKET_SUCCESS.
Proof.
  intros (_ & _ & R) N. rewrite R. destruct (calls_ok w w'); [exact N | discriminate].
Qed.

Lemma latch_failed r f : r <> SOCKET_SUCCESS -> latch r f <> SOCKET_SUCCESS.
Proof. unfold latch. destruct f; simpl; congruence. Qed.

Lemma started_failed r0 s' :
  started r0 s' -> r0 <> SOCKET_SUCCESS -> result s' <> SOCKET_SUCCESS.
Proof.
  intros [[_ R] | [_ R]] N; rewrite R; [exact N | discriminate].
Qed.

Lemma failed_set_state s st w :
  result s <> SOCKET_SUCCESS ->
  wp (socket_set_state s st) (fun s' _ => result s' <> SOCKET_SUCCESS) w.
Proof.
  intros N. apply wpt_wp. eapply wpt_conseq; [apply socket_set_state_clock |].
  intros s' w' (_ & _ & _ & R & _). congruence.
Qed.

Lemma failed_enter_dead s f w :
  result s <> SOCKET_SUCCESS ->
  wp (socket_enter_dead s f) (fun s' _ => result s' <> SOCKET_SUCCESS) w.
Proof.
  intros N. apply wpt_wp. eapply wpt_conseq; [apply socket_enter_dead_lands |].
  intros s' w' [L _]. eapply latched_failed; [exact L |].
  apply latch_failed. exact N.
Qed.

Lemma failed_enter_signal s st f w :
  result s <> SOCKET_SUCCESS ->
  wp (socket_enter_signal s st f) (fun s' _ => result s' <> SOCKET_SUCCESS) w.
Proof.
  intros N. apply wpt_wp. eapply wpt_conseq; [apply socket_enter_signal_lands |].
  intros s' w' [L _]. eapply latched_failed; [exact L |].
  apply latch_failed. exact N.
Qed.

Lemma failed_enter_stop_post s f w :
  result s <> SOCKET_SUCCESS ->
  wp (socket_enter_stop_post s f) (fun s' _ => result s' <> SOCKET_SUCCESS) w.
Proof.
  intros N. apply wpt_wp. eapply wpt_conseq; [apply socket_enter_stop_post_lands |].
  intros s' w' [L _]. eapply latched_failed; [exact L |].
  apply latch_failed. exact N.
Qed.

Lemma failed_enter_stop_pre s f w :
  result s <> SOCKET_SUCCESS ->
  wp (socket_enter_stop_pre s f) (fun s' _ => result s' <> SOCKET_SUCCESS) w.
Proof.
  intros N. apply wpt_wp. eapply wpt_conseq; [apply socket_enter_stop_pre_lands |].
  intros s' w' [L _]. eapply latched_failed; [exact L |].
  apply latch_failed. exact N.
Qed.

Lemma failed_enter_listening s w :
  result s <> SOCKET_SUCCESS ->
  wp (socket_enter_listening s) (fun s' _ => result s' <> SOCKET_SUCCESS) w.
Proof.
  intros N. apply wpt_wp. eapply wpt_conseq; [apply socket_enter_listening_spec |].
  intros s' w' [O _]. eapply started_failed; eassumption.
Qed.

Lemma failed_enter_start_post s w :
  result s <> SOCKET_SUCCESS ->
  wp (socket_enter_start_post s) (fun s' _ => result s' <> SOCKET_SUCCESS) w.
Proof.
  intros N. apply wpt_wp. eapply wpt_conseq; [apply socket_enter_start_post_spec |].
  intros s' w' O. cbv beta in O. eapply started_failed; eassumption.
Qed.

Lemma failed_enter_start_chown s w :
  result s <> SOCKET_SUCCESS ->
  wp (socket_enter_start_chown s) (fun s' _ => result s' <> SOCKET_SUCCESS) w.
Proof.
  intros N. eapply wp_conseq; [apply socket_enter_start_chown_spec |].
  intros s' w' O. cbv beta in O. eapply started_failed; eassumption.
Qed.

Lemma failed_run_next s w :
  result s <> SOCKET_SUCCESS ->
  wp (socket_run_next s) (fun s' _ => result s' <> SOCKET_SUCCESS) w.
Proof.
  intros N. unfold socket_run_next.
  destruct (control_command s) as [| c0 [| c cs]]; try apply wp_abort.
  apply wp_bind. apply wpt_wp.
  eapply wpt_conseq; [apply socket_unwatch_control_pid_clock |].
  intros s1 w1 (_ & _ & _ & R1 & _).
  apply wp_bind. apply wpt_wp.
  eapply wpt_conseq; [apply socket_spawn_clock |].
  intros [r s2] w2 (_ & _ & _ & _ & _ & R2 & _). cbn in R2.
  assert (N2 : result s2 <> SOCKET_SUCCESS) by congruence.
  destruct r.
  - apply wp_ret. exact N2.
  - destruct (state_eq (state s2) SOCKET_START_POST);
      [apply failed_enter_stop_pre; exact N2 |].
    destruct (state_eq (state s2) SOCKET_STOP_POST);
      [apply failed_enter_dead; exact N2 | apply failed_enter_signal; exact N2].
Qed.

Lemma failed_fail s cfd w :
  result s <> SOCKET_SUCCESS ->
  wp (s1 <- socket_enter_stop_pre s SOCKET_FAILURE_RESOURCES ;;
      safe_close cfd ;;; ret s1)
     (fun s' _ => result s' <> SOCKET_SUCCESS) w.
Proof.
  intros N. apply wp_bind.
  eapply wp_conseq; [apply failed_enter_stop_pre; exact N |].
  intros s1 w1 I. unfold safe_close. repeat pstep; exact I.
Qed.

Ltac failed_tac N :=
  first
    [ apply failed_fail; exact N
    | eapply wp_conseq;
      [ apply failed_enter_stop_pre; exact N
      | intros ? ? ?; unfold safe_close; repeat pstep; assumption ] ].

Lemma failed_enter_running s cfd w :
  result s <> SOCKET_SUCCESS ->
  wp (socket_enter_running s cfd) (fun s' _ => result s' <> SOCKET_SUCCESS) w.
Proof.
  intros N.
  unfold socket_enter_running, unit_stop_pending, triggers_active_or_pending.
  apply wp_bind. apply wp_get_env. apply wp_bind. apply wp_ask_bool.
  destruct (o_bool (env w) (tick w)).
  - destruct (0 <=? cfd).
    + unfold safe_close. repeat pstep; exact N.
    + apply wp_bind. unfold socket_close_fds. apply wp_bind. apply wpt_wp.
      eapply wpt_conseq; [apply socket_close_fds_loop_clock |].
      intros ps w1 _. apply wp_ret.
      apply wp_bind. apply wpt_wp.
      eapply wpt_conseq; [apply socket_watch_fds_spec |].
      intros [r s2] w2 (_ & _ & (F & _) & _).
      pose proof (of_result _ _ F) as R2. cbn in R2.
      assert (N2 : result s2 <> SOCKET_SUCCESS) by congruence.
      destruct r; [apply wp_ret; exact N2 | apply failed_enter_stop_pre; exact N2].
  - destruct (cfd <? 0).
    + apply wp_bind. apply wp_ask_bool.
      destruct (o_bool _ _); cbn [negb]; [apply failed_set_state; exact N |].
      destruct (service s) as [svc |]; [| failed_tac N].
      unfold manager_add_job. apply wp_bind. repeat pstep.
      * apply failed_set_state; exact N.
      * failed_tac N.
    + destruct (max_connections (config s) <=? n_connections s).
      { unfold safe_close. repeat pstep; exact N. }
      apply wp_bind. eapply wp_conseq; [apply socket_instantiate_service_spec |].
      intros [r s1] w1 (F & _).
      pose proof (of_result _ _ F) as R1.
      assert (N1 : result s1 <> SOCKET_SUCCESS) by congruence.
      destruct r; [| failed_tac N1].
      apply wp_bind.
      eapply wp_conseq; [apply instance_from_socket_spec |].
      intros r w2 _. destruct r as [instance | en].
      2:{ destruct (negb (errno_is_ENOTCONN en)); [failed_tac N1 |].
          unfold safe_close. repeat pstep; exact N1. }
      destruct (unit_name_to_prefix (env w) (id (config s1))) as [prefix |];
        [| failed_tac N1].
      destruct (unit_name_build (env w) prefix instance ".service") as [name |];
        [| failed_tac N1].
      destruct (service s1) as [svc |]; [| apply wp_abort].
      unfold unit_add_name, service_set_socket_fd, manager_add_job.
      repeat pstep.
      all: try (failed_tac N1).
      exact N1.
Qed.

Lemma failed_stop s w :
  result s <> SOCKET_SUCCESS ->
  wp (socket_stop s) (fun '(r, s') _ => result s' <> SOCKET_SUCCESS) w.
Proof.
  intros N. unfold socket_stop.
  destruct (IN_SET (state s) _); [apply wp_ret; exact N |].
  destruct (IN_SET (state s) _).
  - apply wp_bind. eapply wp_conseq; [apply failed_enter_signal; exact N |].
    intros s' w' I'. apply wp_ret. exact I'.
  - apply wp_bind. apply wp_assert. intros _.
    apply wp_bind. eapply wp_conseq; [apply failed_enter_stop_pre; exact N |].
    intros s' w' I'. apply wp_ret. exact I'.
Qed.

Lemma failed_timer_event s w :
  result s <> SOCKET_SUCCESS ->
  wp (socket_timer_event s) (fun s' _ => result s' <> SOCKET_SUCCESS) w.
Proof.
  intros N. unfold socket_timer_event.
  destruct (state s); try apply wp_abort;
    try destruct (send_sigkill (config s));
    first [apply failed_enter_signal | apply failed_enter_stop_pre
          | apply failed_enter_stop_post | apply failed_enter_dead]; exact N.
Qed.

Lemma failed_sigchld_event s pid code status w :
  result s <> SOCKET_SUCCESS ->
  wp (socket_sigchld_event s pid code status)
     (fun s' _ => result s' <> SOCKET_SUCCESS) w.
Proof.
  intros N. unfold socket_sigchld_event.
  apply wp_bind. apply wp_get_env. apply wp_bind. apply wp_assert. intros _.
  destruct (negb (pid =? control_pid s)); [apply wp_ret; exact N |].
  apply wp_bind.
  assert (F : forall Q : SocketResult -> World -> Prop,
            (forall f, Q f w) ->
            wp (if is_clean_exit (env w) code status then ret SOCKET_SUCCESS
                else match code with
                     | CLD_EXITED => ret SOCKET_FAILURE_EXIT_CODE
                     | CLD_KILLED => ret SOCKET_FAILURE_SIGNAL
                     | CLD_DUMPED => ret SOCKET_FAILURE_CORE_DUMP
                     | CLD_OTHER => abort
                     end) Q w).
  { intros Q HQ. destruct (is_clean_exit (env w) code status);
      [apply wp_ret; apply HQ |].
    destruct code; first [apply wp_ret; apply HQ | apply wp_abort]. }
  apply F. clear F. intros f0.
  cbn [control_command set_control_pid].
  set (f := match control_command s with
            | c :: _ => if c_ignore c then SOCKET_SUCCESS else f0
            | [] => f0
            end).
  set (s0 := if result_ne f SOCKET_SUCCESS
             then set_result (set_control_pid s 0) f else set_control_pid s 0).
  assert (N0 : result s0 <> SOCKET_SUCCESS).
  { unfold s0. rewrite latch_result. apply latch_failed. exact N. }
  destruct (_ && _); [apply failed_run_next; exact N0 |].
  cbn [state set_control_command_id set_control_command].
  destruct (state s0); try apply wp_abort;
    try destruct (result_eq f SOCKET_SUCCESS);
    first [apply failed_enter_start_chown | apply failed_enter_signal
          | apply failed_enter_start_post | apply failed_enter_stop_pre
          | apply failed_enter_listening | apply failed_enter_stop_post
          | apply failed_enter_dead]; exact N0.
Qed.

Lemma failed_fd_event s fd revents w :
  result s <> SOCKET_SUCCESS ->
  wp (socket_fd_event s fd revents) (fun s' _ => result s' <> SOCKET_SUCCESS) w.
Proof.
  intros N. unfold socket_fd_event.
  apply wp_bind. apply wp_assert. intros _.
  destruct (state_ne (state s) SOCKET_LISTENING); [apply wp_ret; exact N |].
  destruct (negb (revents =? EV_READ));
    [apply failed_enter_stop_pre; exact N | apply failed_enter_running; exact N].
Qed.

(** Only a start request and [socket_reset_failed] take a failure
    back. *)
Lemma failed_handle s ev w :
  ev <> OnStart -> ev <> OnResetFailed ->
  result s <> SOCKET_SUCCESS ->
  wp (handle s ev) (fun s' _ => result s' <> SOCKET_SUCCESS) w.
Proof.
  intros A B N. destruct ev; cbn [handle]; try congruence.
  - apply wp_bind. eapply wp_conseq; [apply failed_stop; exact N |].
    intros [r s'] w' I'. apply wp_ret. exact I'.
  - apply failed_timer_event. exact N.
  - apply failed_sigchld_event. exact N.
  - apply failed_fd_event. exact N.
  - apply failed_enter_running. exact N.
Qed.







(** ** The exit of a control process that failed *)
Lemma socket_sigchld_event_failure s code status w f :
  0 <= control_pid s ->
  keeps_control (state s) = true ->
  is_clean_exit (env w) code status = false ->
  (forall c cs, control_command s = c :: cs -> c_ignore c = false) ->
  failure_of code = Some f ->
  wpt (socket_sigchld_event s (control_pid s) code status)
      (fun s' w' => step s w s' w' /\ after_failed_control s f w s' w') w.
Proof.
  intros Hp KC CE IG FO.
  assert (FN : result_ne f SOCKET_SUCCESS = true /\ result_eq f SOCKET_SUCCESS = false).
  { destruct code; inversion FO; subst; split; reflexivity. }
  destruct FN as [FN FE].
  unfold socket_sigchld_event. apply wpt_bind. apply wpt_get_env.
  apply wpt_bind. apply Z.leb_le in Hp. rewrite Hp. unfold assert.
  apply wpt_ret. rewrite Z.eqb_refl. cbn [negb].
  apply wpt_bind. rewrite CE.
  assert (G : forall Q : SocketResult -> World -> Prop,
            Q f w ->
            wpt (match code with
                 | CLD_EXITED => ret SOCKET_FAILURE_EXIT_CODE
                 | CLD_KILLED => ret SOCKET_FAILURE_SIGNAL
                 | CLD_DUMPED => ret SOCKET_FAILURE_CORE_DUMP
                 | CLD_OTHER => abort
                 end) Q w).
  { intros Q HQ. destruct code; inversion FO; subst; apply wpt_ret; exact HQ. }
  apply G. clear G.
  cbn [control_command set_control_pid].
  assert (F : match control_command s with
              | c :: _ => if c_ignore c then SOCKET_SUCCESS else f
              | [] => f
              end = f).
  { destruct (control_command s) as [| c cs] eqn:CC; [reflexivity |].
    rewrite (IG c cs eq_refl). reflexivity. }
  rewrite F. rewrite FN, FE. rewrite andb_false_r.
  cbn [state set_control_command_id set_control_command set_result set_control_pid].
  set (s0 := set_control_command_id _ None).
  assert (S0 : step s w s0 w) by (apply step_pure; reflexivity).
  assert (R0 : latch (result s0) f = f).
  { unfold latch. rewrite FN. reflexivity. }
  assert (C0 : config s0 = config s) by reflexivity.
  unfold after_failed_control.
  destruct (state s) eqn:ST; try discriminate KC.
  - eapply wpt_conseq;
      [exact (wpt_and _ _ _ _ (socket_enter_signal_spec s0 _ f w)
                      (socket_enter_signal_lands s0 _ f w)) |].
    intros s' w' [[S1 _] L]. rewrite R0 in L.
    split; [eapply step_trans; eassumption | exact L].
  - eapply wpt_conseq;
      [exact (wpt_and _ _ _ _ (socket_enter_stop_pre_spec s0 f w)
                      (socket_enter_stop_pre_lands s0 f w)) |].
    intros s' w' [[S1 _] L]. rewrite R0, C0 in L.
    split; [eapply step_trans; eassumption | exact L].
  - eapply wpt_conseq;
      [exact (wpt_and _ _ _ _ (socket_enter_stop_pre_spec s0 f w)
                      (socket_enter_stop_pre_lands s0 f w)) |].
    intros s' w' [[S1 _] L]. rewrite R0, C0 in L.
    split; [eapply step_trans; eassumption | exact L].
  - eapply wpt_conseq;
      [exact (wpt_and _ _ _ _ (socket_enter_stop_post_spec s0 f w)
                      (socket_enter_stop_post_lands s0 f w)) |].
    intros s' w' [[S1 _] L]. rewrite R0, C0 in L.
    split; [eapply step_trans; eassumption | exact L].
  - eapply wpt_conseq;
      [exact (wpt_and _ _ _ _ (socket_enter_stop_post_spec s0 f w)
                      (socket_enter_stop_post_lands s0 f w)) |].
    intros s' w' [[S1 _] L]. rewrite R0, C0 in L.
    split; [eapply step_trans; eassumption | exact L].
  - eapply wpt_conseq;
      [exact (wpt_and _ _ _ _ (socket_enter_stop_post_spec s0 f w)
                      (socket_enter_stop_post_lands s0 f w)) |].
    intros s' w' [[S1 _] L]. rewrite R0, C0 in L.
    split; [eapply step_trans; eassumption | exact L].
  - eapply wpt_conseq;
      [exact (wpt_and _ _ _ _ (socket_enter_dead_spec s0 f w)
                      (wpt_and _ _ _ _ (socket_enter_dead_clock s0 f w)
                               (socket_enter_dead_lands s0 f w))) |].
    intros s' w' [[S1 _] [(_ & _ & R & St & _) [L _]]]. rewrite R0 in L, R.
    split; [eapply step_trans; eassumption |]. split; [exact L |].
    rewrite St, R, FN. reflexivity.
  - eapply wpt_conseq;
      [exact (wpt_and _ _ _ _ (socket_enter_dead_spec s0 f w)
                      (wpt_and _ _ _ _ (socket_enter_dead_clock s0 f w)
                               (socket_enter_dead_lands s0 f w))) |].
    intros s' w' [[S1 _] [(_ & _ & R & St & _) [L _]]]. rewrite R0 in L, R.
    split; [eapply step_trans; eassumption |]. split; [exact L |].
    rewrite St, R, FN. reflexivity.
  - eapply wpt_conseq;
      [exact (wpt_and _ _ _ _ (socket_enter_dead_spec s0 f w)
                      (wpt_and _ _ _ _ (socket_enter_dead_clock s0 f w)
                               (socket_enter_dead_lands s0 f w))) |].
    intros s' w' [[S1 _] [(_ & _ & R & St & _) [L _]]]. rewrite R0 in L, R.
    split; [eapply step_trans; eassumption |]. split; [exact L |].
    rewrite St, R, FN. reflexivity.
Qed.

Lemma after_failed_control_latched s f w s' w' :
  after_failed_control s f w s' w' -> latched w f s' w'.
Proof.
  unfold after_failed_control, lands.
  destruct (state s); intros [L _]; exact L.
Qed.

(** ** Queueing the start job of the service *)
Lemma socket_enter_running_activation (s : Socket) (cfd : Z)
    (w : World) :
  cfd < 0 ->
  o_bool (env w) (tick w) = false ->
  exists s' w' new,
    socket_enter_running s cfd w = Some (s', w') /\
    trace w' = (new ++ trace w)%list /\
    n_accepted s' = n_accepted s /\ n_connections s' = n_connections s /\
    if o_bool (env w) (S (tick w)) || job_queued s (env w) (S (S (tick w)))
    then state s' = SOCKET_RUNNING /\ result s' = result s /\
         ports s' = map unwatch_port (ports s) /\
         if o_bool (env w) (S (tick w))
         then forall id, ~ In (EvAddJob id) new
         else exists svc, service s = Some svc /\ In (EvAddJob (svc_id svc)) new
    else stop_path_entered s' /\ Forall (quiet (port_fds s)) new.
Proof.
  intros Hc SP.
  assert (H : wpt (socket_enter_running s cfd)
    (fun s' w' => exists new,
      trace w' = (new ++ trace w)%list /\
      n_accepted s' = n_accepted s /\ n_connections s' = n_connections s /\
      if o_bool (env w) (S (tick w)) || job_queued s (env w) (S (S (tick w)))
      then state s' = SOCKET_RUNNING /\ result s' = result s /\
           ports s' = map unwatch_port (ports s) /\
           if o_bool (env w) (S (tick w))
           then forall id, ~ In (EvAddJob id) new
           else exists svc, service s = Some svc /\
                            In (EvAddJob (svc_id svc)) new
      else stop_path_entered s' /\ Forall (quiet (port_fds s)) new) w).
  { unfold socket_enter_running. apply wpt_bind. apply wpt_get_env.
    apply wpt_bind. unfold unit_stop_pending. apply wpt_ask_bool. rewrite SP.
    assert (C : (cfd <? 0) = true) by (apply Z.ltb_lt; exact Hc).
    rewrite C. apply wpt_bind. unfold triggers_active_or_pending.
    apply wpt_ask_bool. cbn [env tick next_tick].
    assert (RUN : forall w1 pre,
      env w1 = env w -> trace w1 = (pre ++ trace w)%list ->
      (if o_bool (env w) (S (tick w))
       then pre = []
       else exists svc, service s = Some svc /\ pre = [EvAddJob (svc_id svc)]) ->
      wpt (socket_set_state s SOCKET_RUNNING)
        (fun s' w' => exists new,
          trace w' = (new ++ trace w)%list /\
          n_accepted s' = n_accepted s /\ n_connections s' = n_connections s /\
          (state s' = SOCKET_RUNNING /\ result s' = result s /\
           ports s' = map unwatch_port (ports s) /\
           if o_bool (env w) (S (tick w))
           then forall id, ~ In (EvAddJob id) new
           else exists svc, service s = Some svc /\
                            In (EvAddJob (svc_id svc)) new)) w1).
    { intros w1 pre E1 T1 PRE.
      eapply wpt_conseq; [apply socket_set_state_spec |].
      intros s' w' HH; cbv beta in HH. destruct HH as [Q X].
      destruct (extends_new _ _ _ X) as (new & T & F).
      exists (new ++ pre)%list. rewrite T, T1, app_assoc.
      split; [reflexivity |].
      split; [exact (ssp_n_accepted _ _ _ Q) |].
      split; [exact (ssp_n_connections _ _ _ Q) |].
      split; [exact (ssp_state _ _ _ Q) |].
      split; [exact (ssp_result _ _ _ Q) |].
      split; [rewrite (ssp_ports _ _ _ Q); reflexivity |].
      destruct (o_bool (env w) (S (tick w))).
      - subst pre. rewrite app_nil_r. intros id. apply (quiet_no_job _ _ _ F).
      - destruct PRE as (svc & SV & ->). exists svc. split; [exact SV |].
        apply in_or_app. right. left. reflexivity. }
    assert (FAIL : forall w1,
      env w1 = env w -> trace w1 = trace w ->
      wpt (s0 <- socket_enter_stop_pre s SOCKET_FAILURE_RESOURCES ;;
           safe_close cfd ;;; ret s0)
        (fun s' w' => exists new,
          trace w' = (new ++ trace w)%list /\
          n_accepted s' = n_accepted s /\ n_connections s' = n_connections s /\
          (stop_path_entered s' /\ Forall (quiet (port_fds s)) new)) w1).
    { intros w1 E1 T1. apply wpt_bind.
      eapply wpt_conseq; [apply socket_enter_stop_pre_spec |].
      intros s' w' HH; cbv beta in HH. destruct HH as [[SF X] O].
      destruct (extends_new _ _ _ X) as (new & T & F).
      unfold safe_close.
      destruct (0 <=? cfd) eqn:C0; [apply Z.leb_le in C0; lia |].
      apply wpt_bind. apply wpt_ret. apply wpt_ret.
      exists new. rewrite T, T1. split; [reflexivity |].
      split; [exact (sf_n_accepted _ _ SF) |].
      split; [exact (sf_n_connections _ _ SF) |].
      split; [| exact F].
      eapply outcome_stop_path; [exact O | simpl; tauto |].
      intros x Hx. simpl in Hx |- *. tauto. }
    unfold job_queued, answer_ok.
    destruct (o_bool (env w) (S (tick w))) eqn:PN; cbn [negb orb].
    - eapply wpt_conseq; [apply (RUN _ []); reflexivity |].
      intros s' w' HH. exact HH.
    - destruct (service s) as [svc |] eqn:SV.
      + unfold manager_add_job. apply wpt_bind. apply wpt_bind. apply wpt_ask_rc.
        cbn [env tick next_tick].
        destruct (o_rc (env w) (S (S (tick w)))) as [n | en].
        * apply wpt_bind. apply wpt_emit. apply wpt_ret.
          eapply wpt_conseq;
            [apply (RUN _ [EvAddJob (svc_id svc)]); [reflexivity | reflexivity |] |].
          -- exists svc. split; reflexivity.
          -- intros s' w' HH. exact HH.
        * apply wpt_ret. apply FAIL; reflexivity.
      + apply FAIL; reflexivity. }
  destruct (wpt_inv _ _ _ H) as (s' & w' & E & new & Q).
  exists s', w', new. split; [exact E | exact Q].
Qed.

(** ** Scanning a printed int *)
Lemma scan_int_minus_fmt_u n rest :
  0 < n -> ends_number rest ->
  scan_int (String "-" (fmt_u n ++ rest)) = Some (- n, rest).
Proof.
  intros H R.
  assert (H0 : 0 <= n) by lia.
  pose proof (scan_digits_fmt_u n rest H0 R) as E.
  assert (F : 0 < n < 10 ^ Z.of_nat (S (Z.to_nat (Z.log2 n))))
    by (pose proof (fmt_u_fuel n H0); lia).
  destruct (fmt_digits_first _ n "" F) as (d & r & Hd & Ed).
  unfold fmt_u in E |- *. rewrite Ed in E |- *. cbn [append] in E |- *.
  assert (D : 0 <= d < 10) by lia.
  destruct (digit_cases d D) as [-> | [-> | [-> | [-> | [-> | [-> |
    [-> | [-> | [-> | ->]]]]]]]]]; try lia;
    unfold scan_int; cbn [skip_spaces is_space digit_char];
    cbv beta iota; cbn [Ascii.eqb Bool.eqb is_digit_of digit_val];
    (cbn in E |- *; rewrite E; reflexivity).
Qed.

(** [sscanf(value, "%i %n", ...)] reads back the int that ["%i"] has
    printed in front of a blank and a text. *)
Lemma sscanf_i_n_printed (fd : Z) (t : string) :
  no_leading_space t = true ->
  sscanf_i_n (fmt_i fd ++ " " ++ t) = Some (fd, t).
Proof.
  intros T. destruct (Z_lt_ge_dec fd 0) as [N | P].
  - unfold sscanf_i_n, fmt_i.
    destruct (fd <? 0) eqn:C; [| apply Z.ltb_ge in C; lia].
    cbn [append].
    rewrite scan_int_minus_fmt_u by (try lia; right; eauto).
    rewrite skip_spaces_text by exact T. f_equal. f_equal. lia.
  - apply sscanf_i_n_line; [lia | exact T].
Qed.

(** ** The line of a port *)
Lemma deserialize_port_first test fd fds : forall ps w,
  exists ps' fds' w',
    deserialize_port test fd ps fds w = Some (ps', fds', w') /\
    match find test ps with
    | None => ps' = ps /\ fds' = fds /\ w' = w
    | Some q =>
        exists done rest,
          ps = (done ++ q :: rest)%list /\
          existsb test done = false /\
          ps' = (done ++ set_fd q fd :: rest)%list /\
          fds' = snd (fdset_remove fds fd) /\
          trace w' = ((if 0 <=? p_fd q then [EvClose (p_fd q)] else [])
                      ++ trace w)%list
    end.
Proof.
  induction ps as [| p ps IH]; intros w.
  - cbn. eexists. eexists. eexists. split; [reflexivity | auto].
  - cbn [deserialize_port find]. destruct (test p) eqn:T.
    + unfold safe_close, bind.
      destruct (0 <=? p_fd p) eqn:O.
      * eexists. eexists. eexists. split; [reflexivity |].
        exists [], ps. cbn [app trace fdset_remove snd existsb]. auto.
      * eexists. eexists. eexists. split; [reflexivity |].
        exists [], ps. cbn [app trace fdset_remove snd existsb]. auto.
    + unfold bind. destruct (IH w) as (ps' & fds' & w' & E & Q). rewrite E.
      eexists. eexists. eexists. split; [reflexivity |].
      destruct (find test ps) as [q |].
      * destruct Q as (done & rest & -> & X & -> & -> & TR).
        exists (p :: done), rest. cbn [existsb]. rewrite T, X. auto.
      * destruct Q as (-> & -> & ->). auto.
Qed.

(** * Timeouts (C4) *)

Lemma lands_goes_to w first b later s' w' :
  lands w SOCKET_FAILURE_TIMEOUT first b later s' w' ->
  (forall x, In x later -> stage first < stage x) ->
  stage first < 12 ->
  latched w SOCKET_FAILURE_TIMEOUT s' w' /\ goes_to first b s' /\
  stage first <= stage (state s').
Proof.
  intros [L St] LT F. split; [exact L |].
  assert (N : result s' <> SOCKET_SUCCESS).
  { eapply latched_failed; [exact L | discriminate]. }
  assert (G : if b
              then state s' = first /\ result s' = SOCKET_FAILURE_TIMEOUT
              else stage first < stage (state s') /\
                   result s' <> SOCKET_SUCCESS).
  { destruct b.
    - destruct St as [A C]. split; [exact A |].
      destruct L as (_ & _ & R). rewrite C in R. exact R.
    - split; [| exact N]. destruct St as [A | A]; [apply LT; exact A |].
      rewrite A. destruct (result_ne (result s') SOCKET_SUCCESS); exact F. }
  split.
  - destruct first; simpl in F |- *; try exact G; lia.
  - destruct b; [destruct G as [-> _]; lia | destruct G as [G _]; lia].
Qed.

(** C4.  A timer fire in a transient state returns, and goes where the
    timeout table says with FailureTimeout.  The state of the table is
    entered, with result FailureTimeout, exactly when it has something
    to wait for: its control command exists and is spawned, or
    [unit_kill_context] has signalled processes and the timer is armed.
    Otherwise the unit passes on to a state further down the stop path.
    The result is FailureTimeout when every call into the manager
    succeeded and FailureResources when one failed.  The state after
    the timer is always a later one than the state it fired in, so that
    no state is entered twice by timeouts. *)
Theorem timer_event_follows_timeout_table (s : Socket) (w : World)
    (target : SocketState) :
  timeout_table (state s) (send_sigkill (config s)) = Some target ->
  exists s' w',
    socket_timer_event s w = Some (s', w') /\
    goes_to target (enters target s w) s' /\
    latched w SOCKET_FAILURE_TIMEOUT s' w' /\
    stage (state s) < stage (state s').
Proof.
  intros T. unfold socket_timer_event.
  assert (SIG : forall st,
            (forall x, In x (if is_stop_pre_signal st then stop_post_states else []) ->
                       stage st < stage x) ->
            stage st < 12 -> stage (state s) < stage st -> target = st ->
            enters st s w = kill_waits (env w) (tick w) ->
            exists s' w',
              socket_enter_signal s st SOCKET_FAILURE_TIMEOUT w = Some (s', w') /\
              goes_to target (enters target s w) s' /\
              latched w SOCKET_FAILURE_TIMEOUT s' w' /\
              stage (state s) < stage (state s')).
  { intros st L F G -> EN.
    destruct (wpt_inv _ _ _ (socket_enter_signal_lands s st SOCKET_FAILURE_TIMEOUT w))
      as (s' & w' & E & LA).
    exists s', w'. split; [exact E |]. rewrite EN.
    destruct (lands_goes_to _ _ _ _ _ _ LA L F) as (A & B & C).
    split; [exact B |]. split; [exact A | lia]. }
  assert (POST : stage (state s) < 9 -> target = SOCKET_STOP_POST ->
            exists s' w',
              socket_enter_stop_post s SOCKET_FAILURE_TIMEOUT w = Some (s', w') /\
              goes_to target (enters target s w) s' /\
              latched w SOCKET_FAILURE_TIMEOUT s' w' /\
              stage (state s) < stage (state s')).
  { intros G ->.
    destruct (wpt_inv _ _ _ (socket_enter_stop_post_lands s SOCKET_FAILURE_TIMEOUT w))
      as (s' & w' & E & LA).
    exists s', w'. split; [exact E |].
    destruct (lands_goes_to _ _ _ _ _ _ LA) as (A & B & C).
    - intros x [<- | []]. simpl. lia.
    - simpl. lia.
    - split; [exact B |]. split; [exact A | simpl in C; lia]. }
  assert (PRE : stage (state s) < 6 -> target = SOCKET_STOP_PRE ->
            exists s' w',
              socket_enter_stop_pre s SOCKET_FAILURE_TIMEOUT w = Some (s', w') /\
              goes_to target (enters target s w) s' /\
              latched w SOCKET_FAILURE_TIMEOUT s' w' /\
              stage (state s) < stage (state s')).
  { intros G ->.
    destruct (wpt_inv _ _ _ (socket_enter_stop_pre_lands s SOCKET_FAILURE_TIMEOUT w))
      as (s' & w' & E & LA).
    exists s', w'. split; [exact E |].
    destruct (lands_goes_to _ _ _ _ _ _ LA) as (A & B & C).
    - intros x [<- | [<- | []]]; simpl; lia.
    - simpl. lia.
    - split; [exact B |]. split; [exact A | simpl in C; lia]. }
  assert (DEAD : stage (state s) < 12 -> target = SOCKET_DEAD ->
            exists s' w',
              socket_enter_dead s SOCKET_FAILURE_TIMEOUT w = Some (s', w') /\
              goes_to target (enters target s w) s' /\
              latched w SOCKET_FAILURE_TIMEOUT s' w' /\
              stage (state s) < stage (state s')).
  { intros G ->.
    destruct (wpt_inv _ _ _
                (wpt_and _ _ _ _
                   (socket_enter_dead_clock s SOCKET_FAILURE_TIMEOUT w)
                   (socket_enter_dead_lands s SOCKET_FAILURE_TIMEOUT w)))
      as (s' & w' & E & (_ & _ & R & St & _) & (LA & _)).
    exists s', w'. split; [exact E |].
    change (latch (result s) SOCKET_FAILURE_TIMEOUT)
      with SOCKET_FAILURE_TIMEOUT in R, LA.
    rewrite R in St. cbn in St.
    split; [split; assumption |]. split; [exact LA |].
    rewrite St. simpl. exact G. }
  destruct (state s) eqn:ST; simpl in T; try discriminate T;
    injection T as T; symmetry in T.
  all: try destruct (send_sigkill (config s)).
  all: first [ apply SIG | apply POST | apply PRE | apply DEAD ].
  all: simpl; auto; try lia.
  all: intros x Hx; repeat destruct Hx as [<- | Hx]; simpl; try lia; contradiction.
Qed.

(** C8, as the code has it.  [socket_open_fds] goes over the ports in
    list order, leaves the ports that are open as they are, and opens
    the others, first port first.  When the constructor of a port
    fails, it closes every port of the unit: the ports it opened in this
    call, and the ports that were open before the call as well. *)
Theorem open_fds_rollback_closes_every_port (s : Socket) (w : World)
    (r : rc unit) (s' : Socket) (w' : World) :
  socket_open_fds s w = Some (r, s', w') ->
  exists new,
    trace w' = (new ++ trace w)%list /\
    match r with
    | Ok _ =>
        Forall2 opened_or_kept (ports s) (ports s') /\
        rev new = opening (ports s) (ports s')
    | Err _ =>
        (exists t, In (EvOpenFailed t) new) ->
        Forall (fun p' => p_fd p' < 0) (ports s') /\
        (forall p, In p (ports s) -> 0 <= p_fd p -> In (EvClose (p_fd p)) new) /\
        (forall t fd, In (EvOpen t fd) new -> In (EvClose fd) new)
    end.
Proof.
  intros H.
  pose proof (wp_inv _ _ _ _ _ (socket_open_fds_spec s w) H) as P.
  cbv beta iota in P. destruct P as (_ & _ & P).
  destruct r as [u | e].
  - destruct P as [F T]. exists (rev (opening (ports s) (ports s'))).
    split; [exact T |]. split; [exact F | apply rev_involutive].
  - destruct P as (pre & pre' & p & mid & (post & A & B & F & C) & [[P T] | [P T]]).
    + exists (rev (opening pre pre')). split; [exact T |].
      intros (t & I). rewrite <- in_rev in I. apply opening_only_opens in I.
      destruct I as (t' & fd & I). discriminate I.
    + exists (rev (closing mid) ++ EvOpenFailed (p_type p) :: rev (opening pre pre'))%list.
      split; [rewrite T, <- app_assoc; reflexivity |].
      intros _. split; [| split].
      * rewrite P. apply Forall_forall. intros q I. apply in_map_iff in I.
        destruct I as (q0 & <- & _). apply close_port_closed.
      * intros q I Hfd. apply in_or_app. left. rewrite <- in_rev.
        apply closing_closes; [| exact Hfd]. rewrite B. rewrite A in I.
        apply in_app_or in I. apply in_or_app. destruct I as [I | I].
        -- left. eapply kept_open; eauto.
        -- right. exact I.
      * intros t fd I. apply in_app_or in I. destruct I as [I | [I | I]].
        -- rewrite <- in_rev in I.
           apply closing_only_closes in I. destruct I as (fd' & I). discriminate I.
        -- discriminate I.
        -- rewrite <- in_rev in I.
           destruct (opening_opened _ _ _ _ F I) as (q & Iq & <- & Hfd).
           apply in_or_app. left. rewrite <- in_rev.
           apply closing_closes; [| exact Hfd]. rewrite B.
           apply in_or_app. left. exact Iq.
Qed.

(** C10.  An accepted start request of a dead or failed unit resets the
    latched result to Success before it enters StartPre: the start runs
    as [socket_enter_start_pre] on the unit with result Success, so that
    whatever an earlier run latched has no influence on it.  After the
    start the unit is in a state of the start path with result Success,
    or the start itself failed and the unit is on the stop path with
    FailureResources. *)
Theorem start_clears_latched_result (s : Socket) (w : World)
    (s' : Socket) (w' : World) :
  state s = SOCKET_DEAD \/ state s = SOCKET_FAILED ->
  socket_start s w = Some (Ok tt, s', w') ->
  socket_enter_start_pre (set_result s SOCKET_SUCCESS) w = Some (s', w') /\
  (forall r0, socket_start (set_result s r0) w = Some (Ok tt, s', w')) /\
  started SOCKET_SUCCESS s'.
Proof.
  intros ST H.
  assert (G : socket_enter_start_pre (set_result s SOCKET_SUCCESS) w = Some (s', w') /\
              forall r0, socket_start (set_result s r0) w = Some (Ok tt, s', w')).
  { unfold socket_start, bind, get_env in H |- *.
    cbn [state service set_result].
    destruct ST as [ST | ST]; rewrite ST in H |- *;
      cbn [IN_SET existsb SocketState_beq orb] in H |- *.
    all: destruct (service s) as [svc |].
    all: repeat match type of H with
                | context [if ?b then _ else _] => destruct b; [discriminate H |]
                end.
    all: cbn in H |- *.
    all: destruct (socket_enter_start_pre (set_result s SOCKET_SUCCESS) w)
           as [[s1 w1] |] eqn:E; [| discriminate H].
    all: unfold ret in H |- *; injection H as -> ->.
    all: split; [reflexivity | intros r0].
    all: change (set_result (set_result s r0) SOCKET_SUCCESS)
           with (set_result s SOCKET_SUCCESS).
    all: rewrite E; reflexivity. }
  destruct G as [E G]. split; [exact E |]. split; [exact G |].
  exact (wp_inv _ _ _ _ _
           (socket_enter_start_pre_spec (set_result s SOCKET_SUCCESS) w) E).
Qed.

(** C5.  The dispatch of an accepted connection counts the connection
    exactly when it hands the fd over to the service: either
    [service_set_socket_fd] succeeded, [n_connections] went up by one
    and the unit does not close the fd, or nothing was handed over,
    [n_connections] is as it was and the unit closed the fd. *)
Theorem handoff_and_count_go_together (s : Socket) (cfd : Z) (w : World)
    (s' : Socket) (w' : World) :
  0 <= cfd -> ~ In cfd (port_fds s) ->
  socket_enter_running s cfd w = Some (s', w') ->
  exists new,
    trace w' = (new ++ trace w)%list /\
    (((exists id, In (EvSetSocketFd id cfd) new) /\
      n_connections s' = wrap_u (n_connections s + 1) /\
      ~ In (EvClose cfd) new) \/
     ((forall id fd, ~ In (EvSetSocketFd id fd) new) /\
      n_connections s' = n_connections s /\
      In (EvClose cfd) new)).
Proof.
  intros Hfd Hp H.
  pose proof (wp_inv _ _ _ _ _ (socket_enter_running_accept_spec s cfd w Hfd) H) as D.
  cbv beta in D.
  destruct D as [(id & w1 & w2 & [_ (n1 & T1 & F1)] & _ & T2 & [_ (n2 & T3 & F2)] & N)
                | (w1 & [_ (n1 & T1 & F1)] & _ & T2 & N)].
  - exists (n2 ++ EvSetSocketFd id cfd :: n1)%list. split.
    + rewrite T3, T2, T1, <- app_assoc. reflexivity.
    + left. split; [exists id; apply in_or_app; right; left; reflexivity |].
      split; [exact N |]. intros I. apply in_app_or in I.
      destruct I as [I | [I | I]].
      * rewrite Forall_forall in F2. destruct (F2 _ I) as [[_ Q] | [i Q]].
        -- exact (Hp Q).
        -- discriminate Q.
      * discriminate I.
      * rewrite Forall_forall in F1. destruct (F1 _ I) as [_ Q]. exact (Hp Q).
  - exists (EvClose cfd :: n1). split.
    + rewrite T2, T1. reflexivity.
    + right. split; [| split; [exact N | left; reflexivity]].
      intros id fd [I | I]; [discriminate I |].
      rewrite Forall_forall in F1. exact (F1 _ I).
Qed.

(** C6.  A connection that arrives while [n_connections] has reached
    [max_connections] is refused: the dispatch closes the accepted fd
    and returns with the unit exactly as it was, in the state it was in
    and with both counters unchanged; nothing is handed over or queued. *)
Theorem connection_refused_at_limit (s : Socket) (cfd : Z) (w : World) :
  0 <= cfd ->
  max_connections (config s) <= n_connections s ->
  exists w',
    socket_enter_running s cfd w = Some (s, w') /\
    trace w' = EvClose cfd :: trace w.
Proof.
  intros Hfd Hmax.
  unfold socket_enter_running, bind, get_env, unit_stop_pending, ask_bool,
    safe_close, emit, ret.
  assert (C1 : (0 <=? cfd) = true) by (apply Z.leb_le; exact Hfd).
  assert (C2 : (cfd <? 0) = false) by (apply Z.ltb_ge; exact Hfd).
  assert (C3 : (max_connections (config s) <=? n_connections s) = true)
    by (apply Z.leb_le; exact Hmax).
  destruct (o_bool (env w) (tick w)); rewrite ?C1, ?C2, ?C3; cbn;
    eexists; split; reflexivity.
Qed.

(** C7.  When the lookup of the addresses of an accepted connection
    fails, the dispatch tells ENOTCONN from every other error.  For
    ENOTCONN it closes the accepted fd and returns: the unit stays in
    its state, no result is latched and the counters are as they were;
    nothing but the close is recorded.  For any other error it enters
    the stop path with FailureResources and closes the fd. *)
Theorem lookup_failure_drops_or_stops (s : Socket) (cfd : Z) (w w0 : World)
    (s1 : Socket) (w1 : World) (en : errno) (w2 : World) :
  0 <= cfd ->
  unit_stop_pending w = Some (false, w0) ->
  n_connections s < max_connections (config s) ->
  socket_instantiate_service s w0 = Some (Ok tt, s1, w1) ->
  instance_from_socket cfd (n_accepted s1) w1 = Some (Err en, w2) ->
  exists s' w',
    socket_enter_running s cfd w = Some (s', w') /\
    n_connections s' = n_connections s /\
    match en with
    | ENOTCONN =>
        trace w' = EvClose cfd :: trace w /\
        state s' = state s /\ result s' = result s /\
        n_accepted s' = n_accepted s
    | _ =>
        stop_path_entered s' /\
        exists new, trace w' = (EvClose cfd :: new ++ trace w)%list
    end.
Proof.
  intros Hfd Hstop Hmax Hinst Hlook.
  apply wpt_inv.
  assert (C1 : (0 <=? cfd) = true) by (apply Z.leb_le; exact Hfd).
  assert (C2 : (cfd <? 0) = false) by (apply Z.ltb_ge; exact Hfd).
  assert (C3 : (max_connections (config s) <=? n_connections s) = false)
    by (apply Z.leb_gt; exact Hmax).
  pose proof (wp_inv _ _ _ _ _ (socket_instantiate_service_spec s w0) Hinst) as I1.
  cbv beta iota in I1. destruct I1 as (F & P & E1 & T1 & _).
  pose proof (wp_inv _ _ _ _ _ (instance_from_socket_spec cfd (n_accepted s1) w1) Hlook)
    as I2.
  cbv beta in I2. destruct I2 as (E2 & T2).
  assert (W0 : w0 = next_tick w).
  { unfold unit_stop_pending, ask_bool in Hstop. congruence. }
  assert (T0 : trace w2 = trace w) by (rewrite T2, T1, W0; reflexivity).
  assert (X2 : extends (quiet (port_fds s)) w w2).
  { apply extends_same; [rewrite E2, E1, W0; reflexivity | exact T0]. }
  unfold socket_enter_running.
  apply wpt_bind. apply wpt_get_env. cbv beta zeta.
  apply wpt_bind. eapply wpt_known; [exact Hstop |].
  rewrite C2, C3.
  apply wpt_bind. eapply wpt_known; [exact Hinst |].
  apply wpt_bind. eapply wpt_known; [exact Hlook |].
  assert (FAIL : negb (errno_is_ENOTCONN en) = true ->
    wpt (if negb (errno_is_ENOTCONN en)
         then s2 <- socket_enter_stop_pre s1 SOCKET_FAILURE_RESOURCES ;;
              safe_close cfd ;;; ret s2
         else safe_close cfd ;;; ret s1)
        (fun s' w' =>
           n_connections s' = n_connections s /\
           stop_path_entered s' /\
           exists new, trace w' = (EvClose cfd :: new ++ trace w)%list) w2).
  { intros ->.
    eapply wpt_conseq;
      [apply (enter_running_fail_spec s s1 cfd w w2 Hfd);
        [apply (of_n_connections _ _ F)
        | unfold port_fds; rewrite P; reflexivity
        | exact X2] |].
    intros s' w' [D SP]. cbv beta.
    destruct D as (wa & [_ (n1 & Ta & _)] & _ & Tb & N).
    split; [exact N |]. split; [exact SP |]. exists n1. rewrite Tb, Ta. reflexivity. }
  destruct en; try (apply FAIL; reflexivity).
  cbn [errno_is_ENOTCONN negb]. unfold safe_close. rewrite C1.
  repeat wstep. split; [apply (of_n_connections _ _ F) |].
  split; [cbn; rewrite T0; reflexivity |].
  split; [apply (of_state _ _ F) |].
  split; [apply (of_result _ _ F) | apply (of_n_accepted _ _ F)].
Qed.

(** C1, as the code has it.  Each transition that takes a SocketResult
    [f] latches it under the guard [f != SOCKET_SUCCESS], a test of the
    argument: with Success the result stays as it is, and a failure
    replaces the result, whatever was latched before, so that the last
    failure passed wins.  The result after the transition is exactly
    that when every call into the manager succeeded, and
    FailureResources, latched the same way, when a call failed.
    [socket_sigchld_event] latches the failure of a control process
    that did not exit cleanly in the same way.  No event but a start
    request and [socket_reset_failed] takes a latched failure back to
    Success. *)
Theorem transitions_latch_last_failure (s : Socket) (f : SocketResult)
    (w : World) :
  (exists s' w',
     socket_enter_dead s f w = Some (s', w') /\
     result s' = (if result_ne f SOCKET_SUCCESS then f else result s) /\
     (state s' = SOCKET_FAILED <-> result s' <> SOCKET_SUCCESS) /\
     (state s' = SOCKET_DEAD <-> result s' = SOCKET_SUCCESS)) /\
  (exists s' w',
     socket_enter_stop_post s f w = Some (s', w') /\
     latched w (if result_ne f SOCKET_SUCCESS then f else result s) s' w') /\
  (forall st, exists s' w',
     socket_enter_signal s st f w = Some (s', w') /\
     latched w (if result_ne f SOCKET_SUCCESS then f else result s) s' w') /\
  (exists s' w',
     socket_enter_stop_pre s f w = Some (s', w') /\
     latched w (if result_ne f SOCKET_SUCCESS then f else result s) s' w') /\
  (forall pid code status,
     0 <= pid -> pid = control_pid s ->
     keeps_control (state s) = true ->
     is_clean_exit (env w) code status = false ->
     (forall c cs, control_command s = c :: cs -> c_ignore c = false) ->
     failure_of code = Some f ->
     exists s' w',
       socket_sigchld_event s pid code status w = Some (s', w') /\
       latched w f s' w') /\
  (forall ev s' w',
     ev <> OnStart -> ev <> OnResetFailed ->
     result s <> SOCKET_SUCCESS ->
     handle s ev w = Some (s', w') ->
     result s' <> SOCKET_SUCCESS).
Proof.
  fold (latch (result s) f).
  split.
  { destruct (wpt_inv _ _ _ (socket_enter_dead_spec s f w))
      as (s' & w' & E & _ & R & St & _).
    exists s', w'. split; [exact E |]. split; [exact R |].
    rewrite St, R. destruct (latch (result s) f); simpl; split; split;
      intros; congruence. }
  split.
  { destruct (wpt_inv _ _ _ (socket_enter_stop_post_lands s f w))
      as (s' & w' & E & L & _).
    exists s', w'. split; [exact E | exact L]. }
  split.
  { intros st.
    destruct (wpt_inv _ _ _ (socket_enter_signal_lands s st f w))
      as (s' & w' & E & L & _).
    exists s', w'. split; [exact E | exact L]. }
  split.
  { destruct (wpt_inv _ _ _ (socket_enter_stop_pre_lands s f w))
      as (s' & w' & E & L & _).
    exists s', w'. split; [exact E | exact L]. }
  split.
  { intros pid code status Hp -> KC CE IG FO.
    destruct (wpt_inv _ _ _
                (socket_sigchld_event_failure s code status w f Hp KC CE IG FO))
      as (s' & w' & E & _ & A).
    exists s', w'. split; [exact E |].
    eapply after_failed_control_latched; exact A. }
  intros ev s' w' A B N E.
  exact (wp_inv _ _ _ _ _ (failed_handle s ev w A B N) E).
Qed.

(** C1 as stated fails: the start of a unit whose ExecStartPre hangs
    times out, which latches FailureTimeout; the control process then
    exits with status 1 on the SIGTERM it is sent, and the result
    becomes FailureExitCode. *)
Lemma first_failure_is_overwritten :
  option_map (fun x => map result (fst x))
    (run slow_unit [OnStart; OnTimer; OnSigchld 7 CLD_EXITED 1] sample_world)
  = Some [SOCKET_SUCCESS; SOCKET_FAILURE_TIMEOUT; SOCKET_FAILURE_EXIT_CODE].
Proof. vm_compute. reflexivity. Qed.

(** What [socket_set_state] does to the ports.  It closes and
    unwatches, and does nothing else to them: after it every port is
    closed unless the new state keeps the fds, and no port is watched
    unless the new state is Listening; it never opens a port or
    installs a watch, leaves the fds alone in the states that keep them
    and the ports alone in Listening.  The watches of Listening are
    those that [socket_enter_listening] installs before the transition:
    when it ends in Listening, a port is watched iff it is open. *)
Theorem set_state_only_closes_and_unwatches (s : Socket) (st : SocketState)
    (w : World) :
  watches_on_open_fds (ports s) ->
  (exists s' w',
     socket_set_state s st w = Some (s', w') /\
     state s' = st /\
     Forall (fun p' =>
               (0 <= p_fd p' -> keeps_fds st = true) /\
               (p_fd_watch p' = true -> st = SOCKET_LISTENING /\ 0 <= p_fd p'))
            (ports s') /\
     Forall2 (fun p p' =>
                (0 <= p_fd p' -> p_fd p' = p_fd p) /\
                (p_fd_watch p' = true -> p_fd_watch p = true) /\
                (keeps_fds st = true -> p_fd p' = p_fd p) /\
                (st = SOCKET_LISTENING -> p' = p))
             (ports s) (ports s')) /\
  (exists s' w',
     socket_enter_listening s w = Some (s', w') /\
     (state s' = SOCKET_LISTENING ->
      Forall (fun p' => p_fd_watch p' = true <-> 0 <= p_fd p') (ports s') /\
      map p_fd (ports s') = map p_fd (ports s))).
Proof.
  intros C. split.
  - destruct (wpt_inv _ _ _ (socket_set_state_spec s st w))
      as (s' & w' & E & P & _).
    exists s', w'. split; [exact E |]. split; [apply (ssp_state _ _ _ P) |].
    rewrite (ssp_ports _ _ _ P), ports_after_set_state_map.
    unfold watches_on_open_fds in C. split.
    + apply Forall_map. eapply Forall_impl; [| exact C].
      intros p Cp. cbv beta.
      destruct (port_after_set_state_facts st p Cp) as (A & B & _).
      split; assumption.
    + induction C as [| p ps Cp C IH]; simpl; constructor; [| exact IH].
      destruct (port_after_set_state_facts st p Cp) as (_ & _ & A).
      exact A.
  - destruct (wpt_inv _ _ _ (socket_enter_listening_spec s w))
      as (s' & w' & E & _ & L).
    exists s', w'. split; [exact E |]. intros HL.
    destruct (L HL) as [W R]. split; [| apply rewatched_fds; exact R].
    unfold watches_on_open_fds, all_open_watched in *.
    clear E L HL. revert C W.
    induction R as [| p p' ps ps' [K1 K2] R IH]; intros C W; [constructor |].
    inversion C as [| ? ? Cp C']; subst. inversion W as [| ? ? Wp W']; subst.
    constructor; [| apply IH; assumption].
    split; [| exact Wp].
    intros Hw. destruct (Z_lt_ge_dec (p_fd p') 0) as [Hn | Hn]; [| lia].
    assert (Hp : p_fd p < 0) by (rewrite K1 in Hn; exact Hn).
    rewrite (K2 Hp) in Hw. specialize (Cp Hw). lia.
Qed.

(** C2.  The endpoints of a unit are open in Listening, and only a state
    transition changes which fds are open or watched: the code breaks
    this on the start of a unit followed by a readable fd while a stop
    of the unit is pending.  The dispatch then flushes the ports, which
    its comment describes as closing and reopening them, but it only
    calls [socket_close_fds] and [socket_watch_fds] and opens nothing.
    The unit stays in Listening with the fd of its port closed, and
    [socket_set_state] is not called (the only notification of the run
    is that of the start). *)
Lemma fds_closed_without_state_transition :
  option_map (fun x => (map state (fst x), map port_fds (fst x),
                        rev (trace (snd x))))
    (run fifo_unit [OnStart; OnFdEvent 7 EV_READ] (stop_pending_world 2))
  = Some ([SOCKET_LISTENING; SOCKET_LISTENING], [[7]; [-1]],
          [EvOpen SOCKET_FIFO 7; EvNotify UNIT_INACTIVE UNIT_ACTIVE;
           EvClose 7]).
Proof. vm_compute. reflexivity. Qed.

(** C9, as the code has it.  The serializer always writes the [result]
    line, with "success" when no failure is latched; it is the
    deserializer that passes over a [result] line that says success. *)
Theorem result_line_is_always_written (s : Socket) (f : list Line)
    (fds : FDSet) (w : World) :
  (exists r f' fds' w',
     socket_serialize s f fds w = Some (r, f', fds', w') /\
     In ("result", socket_result_to_string (result s)) f') /\
  socket_deserialize_item s "result"
    (socket_result_to_string SOCKET_SUCCESS) fds w = Some (Ok tt, s, fds, w).
Proof.
  split; [| reflexivity].
  unfold socket_serialize.
  match goal with
  | |- exists r f' fds' w', ?m w = Some _ /\ _ =>
      assert (H : wpt m (fun x _ =>
                  In ("result", socket_result_to_string (result s)) (snd (fst x))) w)
  end.
  { apply wpt_bind. apply wpt_get_env.
    set (f3 := unit_serialize_item
                 (unit_serialize_item
                    (unit_serialize_item f "state" (socket_state_to_string (state s)))
                    "result" (socket_result_to_string (result s)))
                 "n-accepted" (fmt_u (n_accepted s))).
    assert (I3 : In ("result", socket_result_to_string (result s)) f3).
    { unfold f3, unit_serialize_item. apply in_or_app. left.
      apply in_or_app. right. left. reflexivity. }
    clearbody f3.
    match goal with
    | |- wpt (bind (socket_serialize_ports _ _ ?f5 _) _) _ _ =>
        assert (I5 : In ("result", socket_result_to_string (result s)) f5)
    end.
    { destruct (control_command_id s), (0 <? control_pid s);
        unfold unit_serialize_item; repeat (apply in_or_app; left); exact I3. }
    apply wpt_bind. eapply wpt_conseq; [apply socket_serialize_ports_spec |].
    intros [[r f'] fds'] w' [more ->].
    destruct r; apply wpt_ret; cbn [fst snd].
    - apply in_or_app. left. apply in_or_app. left. exact I5.
    - apply in_or_app. left. exact I5. }
  destruct (wpt_inv _ _ _ H) as ([[r f'] fds'] & w' & E & I).
  exists r, f', fds', w'. split; [exact E | exact I].
Qed.

(** C9 as stated fails: the lines of a unit whose result is Success *)
Lemma success_result_is_serialized :
  result fifo_unit = SOCKET_SUCCESS /\
  option_map (fun x => snd (fst (fst x)))
    (socket_serialize fifo_unit [] [] sample_world)
  = Some [("state", "dead"); ("result", "success"); ("n-accepted", "0")].
Proof. split; [reflexivity | vm_compute; reflexivity]. Qed.

(** C4 on a unit whose ExecStartPre is running.  When the control
    process is signalled the timer takes the unit to FinalSigterm with
    FailureTimeout; when [unit_kill_context] fails the unit ends failed
    with FailureResources. *)
Lemma timer_event_follows_timeout_table_witness :
  timeout_table (state pre_unit) (send_sigkill (config pre_unit))
    = Some SOCKET_FINAL_SIGTERM /\
  (exists s' w',
     socket_timer_event pre_unit sample_world = Some (s', w') /\
     (state s' = SOCKET_FINAL_SIGTERM /\ result s' = SOCKET_FAILURE_TIMEOUT) /\
     latched sample_world SOCKET_FAILURE_TIMEOUT s' w' /\
     stage (state pre_unit) < stage (state s')) /\
  (exists s' w',
     socket_timer_event pre_unit (failing_world 0) = Some (s', w') /\
     (stage SOCKET_FINAL_SIGTERM < stage (state s') /\
      result s' <> SOCKET_SUCCESS) /\
     latched (failing_world 0) SOCKET_FAILURE_TIMEOUT s' w' /\
     stage (state pre_unit) < stage (state s')).
Proof.
  split; [reflexivity |]. split.
  - apply (timer_event_follows_timeout_table pre_unit sample_world
             SOCKET_FINAL_SIGTERM).
    reflexivity.
  - apply (timer_event_follows_timeout_table pre_unit (failing_world 0)
             SOCKET_FINAL_SIGTERM).
    reflexivity.
Defined.

(** C8 as stated fails: the first FIFO of the unit is open (fd 5) when
    [socket_open_fds] is called, the constructor of the second fails,
    and the rollback closes the first as well. *)
Lemma rollback_closes_port_opened_before :
  port_fds half_open_unit = [5; -1] /\
  option_map (fun x => (fst (fst x), port_fds (snd (fst x)), rev (trace (snd x))))
    (socket_open_fds half_open_unit (failing_world 0))
  = Some (Err (EOTHER 0), [-1; -1], [EvOpenFailed SOCKET_FIFO; EvClose 5]).
Proof. split; [reflexivity | vm_compute; reflexivity]. Qed.

(** C8 on the unit of the counterexample *)
Lemma open_fds_rollback_closes_every_port_witness :
  exists r s' w',
    socket_open_fds half_open_unit (failing_world 0) = Some (r, s', w') /\
    exists new,
      trace w' = (new ++ trace (failing_world 0))%list /\
      match r with
      | Ok _ =>
          Forall2 opened_or_kept (ports half_open_unit) (ports s') /\
          rev new = opening (ports half_open_unit) (ports s')
      | Err _ =>
          (exists t, In (EvOpenFailed t) new) ->
          Forall (fun p' => p_fd p' < 0) (ports s') /\
          (forall p, In p (ports half_open_unit) -> 0 <= p_fd p ->
                     In (EvClose (p_fd p)) new) /\
          (forall t fd, In (EvOpen t fd) new -> In (EvClose fd) new)
      end.
Proof.
  destruct (socket_open_fds half_open_unit (failing_world 0))
    as [[[r s'] w'] |] eqn:E; [| vm_compute in E; discriminate E].
  exists r, s', w'. split; [reflexivity |].
  apply (open_fds_rollback_closes_every_port half_open_unit (failing_world 0)).
  exact E.
Defined.

(** C10 on a dead unit with one FIFO: the start ends in Listening *)
Lemma start_clears_latched_result_witness :
  exists s' w',
    (state fifo_unit = SOCKET_DEAD \/ state fifo_unit = SOCKET_FAILED) /\
    socket_start fifo_unit sample_world = Some (Ok tt, s', w') /\
    socket_enter_start_pre (set_result fifo_unit SOCKET_SUCCESS) sample_world
      = Some (s', w') /\
    (forall r0, socket_start (set_result fifo_unit r0) sample_world
                = Some (Ok tt, s', w')) /\
    started SOCKET_SUCCESS s'.
Proof.
  destruct (socket_start fifo_unit sample_world) as [[[r s'] w'] |] eqn:E;
    [| vm_compute in E; discriminate E].
  assert (R : r = Ok tt).
  { vm_compute in E. injection E as <- _ _. reflexivity. }
  subst r. exists s', w'.
  split; [left; reflexivity |]. split; [reflexivity |].
  apply (start_clears_latched_result fifo_unit sample_world s' w');
    [left; reflexivity | exact E].
Defined.

(** C5 on a listening Accept=yes unit: the connection is handed over. *)
Lemma handoff_and_count_go_together_witness :
  exists s' w',
    0 <= 9 /\ ~ In 9 (port_fds accepting_unit) /\
    socket_enter_running accepting_unit 9 sample_world = Some (s', w') /\
    exists new,
      trace w' = (new ++ trace sample_world)%list /\
      (((exists id, In (EvSetSocketFd id 9) new) /\
        n_connections s' = wrap_u (n_connections accepting_unit + 1) /\
        ~ In (EvClose 9) new) \/
       ((forall id fd, ~ In (EvSetSocketFd id fd) new) /\
        n_connections s' = n_connections accepting_unit /\
        In (EvClose 9) new)).
Proof.
  destruct (socket_enter_running accepting_unit 9 sample_world)
    as [[s' w'] |] eqn:E; [| vm_compute in E; discriminate E].
  assert (P : ~ In 9 (port_fds accepting_unit)).
  { simpl. intros [H | []]. discriminate H. }
  exists s', w'. split; [lia |]. split; [exact P |]. split; [reflexivity |].
  apply (handoff_and_count_go_together accepting_unit 9 sample_world s' w');
    [lia | exact P | exact E].
Defined.

(** C6 on the unit with MaxConnections=1 while its one connection is
    served: the second arrival is closed, nothing is queued. *)
Lemma connection_refused_at_limit_witness :
  0 <= 10 /\
  max_connections (config busy_unit) <= n_connections busy_unit /\
  exists w',
    socket_enter_running busy_unit 10 sample_world = Some (busy_unit, w') /\
    trace w' = EvClose 10 :: trace sample_world.
Proof.
  split; [lia |]. split; [simpl; lia |].
  apply (connection_refused_at_limit busy_unit 10 sample_world);
    [lia | simpl; lia].
Defined.

(** C7 on a listening Accept=yes unit whose connection was reset before
    [getpeername] *)
Lemma lookup_failure_drops_or_stops_witness :
  0 <= 9 /\
  unit_stop_pending (reset_world 5) = Some (false, after_calls 1 (reset_world 5)) /\
  n_connections accepting_unit < max_connections (config accepting_unit) /\
  socket_instantiate_service accepting_unit (after_calls 1 (reset_world 5))
    = Some (Ok tt, set_service accepting_unit (Some sample_service),
            after_calls 4 (reset_world 5)) /\
  instance_from_socket 9
    (n_accepted (set_service accepting_unit (Some sample_service)))
    (after_calls 4 (reset_world 5))
    = Some (Err ENOTCONN, after_calls 6 (reset_world 5)) /\
  exists s' w',
    socket_enter_running accepting_unit 9 (reset_world 5) = Some (s', w') /\
    n_connections s' = n_connections accepting_unit /\
    trace w' = EvClose 9 :: trace (reset_world 5) /\
    state s' = state accepting_unit /\ result s' = result accepting_unit /\
    n_accepted s' = n_accepted accepting_unit.
Proof.
  assert (H1 : unit_stop_pending (reset_world 5)
               = Some (false, after_calls 1 (reset_world 5))) by reflexivity.
  assert (H2 : socket_instantiate_service accepting_unit
                 (after_calls 1 (reset_world 5))
               = Some (Ok tt, set_service accepting_unit (Some sample_service),
                       after_calls 4 (reset_world 5))) by reflexivity.
  assert (H3 : instance_from_socket 9
                 (n_accepted (set_service accepting_unit (Some sample_service)))
                 (after_calls 4 (reset_world 5))
               = Some (Err ENOTCONN, after_calls 6 (reset_world 5)))
    by reflexivity.
  split; [lia |]. split; [exact H1 |]. split; [simpl; lia |].
  split; [exact H2 |]. split; [exact H3 |].
  apply (lookup_failure_drops_or_stops accepting_unit 9 (reset_world 5)
           (after_calls 1 (reset_world 5))
           (set_service accepting_unit (Some sample_service))
           (after_calls 4 (reset_world 5)) ENOTCONN
           (after_calls 6 (reset_world 5)));
    [lia | exact H1 | simpl; lia | exact H2 | exact H3].
Defined.

(** [socket_set_state] on a listening unit with one watched FIFO *)
Lemma set_state_only_closes_and_unwatches_witness :
  watches_on_open_fds (ports listening_unit) /\
  exists s' w',
    socket_set_state listening_unit SOCKET_STOP_POST sample_world = Some (s', w') /\
    state s' = SOCKET_STOP_POST /\
    Forall (fun p' =>
              (0 <= p_fd p' -> keeps_fds SOCKET_STOP_POST = true) /\
              (p_fd_watch p' = true ->
               SOCKET_STOP_POST = SOCKET_LISTENING /\ 0 <= p_fd p'))
           (ports s') /\
    Forall2 (fun p p' =>
               (0 <= p_fd p' -> p_fd p' = p_fd p) /\
               (p_fd_watch p' = true -> p_fd_watch p = true) /\
               (keeps_fds SOCKET_STOP_POST = true -> p_fd p' = p_fd p) /\
               (SOCKET_STOP_POST = SOCKET_LISTENING -> p' = p))
            (ports listening_unit) (ports s').
Proof.
  assert (C : watches_on_open_fds (ports listening_unit)).
  { repeat constructor. simpl. lia. }
  split; [exact C |].
  exact (proj1 (set_state_only_closes_and_unwatches listening_unit
                  SOCKET_STOP_POST sample_world C)).
Defined.

(** C3, as the code has it.  Serializing a unit and feeding every line
    written to [socket_deserialize_item], against the freshly loaded unit
    and the fd set the serializer filled, returns and restores the state
    (in [deserialized_state]), result, n_accepted, control_pid and
    control_command_id, and gives each open port the duplicate of its
    fd, provided the counters are in range, the deserializer can tell
    the ports apart, and the duplicates handed out are pairwise
    distinct. *)
Theorem round_trip_restores_distinguished_endpoints
    (s : Socket) (fds fds' : FDSet) (w w' : World) (lines : list Line)
    (copies : list Z) :
  0 <= n_accepted s < UINT_MOD ->
  0 <= control_pid s < 2 ^ 31 ->
  endpoints_distinguished (env w) [] (ports s) = true ->
  exec_lines_ok (exec_context_serialize (env w) (exec_context s)) = true ->
  socket_serialize s [] fds w = Some (Ok tt, lines, fds', w') ->
  List.length copies = open_count (ports s) ->
  trace w' = (rev (dup_events (ports s) copies) ++ trace w)%list ->
  NoDup copies ->
  exists s2 fds2 w2,
    deserialize_lines (freshly_loaded s) lines fds' w' = Some (s2, fds2, w2) /\
    restored s s2 copies.
Proof.
  intros Hn Hp D X S L T ND.
  destruct (socket_serialize_lines _ _ _ _ _ _ S) as [cs [L' [F [A [T' Ee]]]]].
  assert (cs = copies).
  { apply (dup_events_inj (ports s)); [exact L' | exact L |].
    rewrite T in T'. apply app_inv_tail in T'.
    apply (f_equal (@rev Event)) in T'. rewrite !rev_involutive in T'.
    symmetry. exact T'. }
  subst cs. rewrite F.
  rewrite deserialize_header by assumption.
  rewrite <- Ee in *.
  rewrite (deserialize_port_lines (ports s) [] [] copies (header_restored s)
             fds' w' _ eq_refl eq_refl D L ND A).
  cbn [restore app].
  apply deserialize_exec_lines; [exact X |].
  apply restored_header.
Qed.

(** C3 as stated fails: both FIFOs of the unit are open and have the same
    path; the line of the second finds the first port, whose restored fd
    is closed and replaced, and the second port stays closed. *)
Lemma same_endpoint_twice_loses_a_fd :
  port_fds twin_unit = [5; 6] /\
  option_map (fun x => (port_fds (fst (fst x)), rev (trace (snd x))))
    (round_trip twin_unit [] dup_world)
  = Some ([11; -1], [EvDup 5 10; EvDup 6 11; EvClose 10]).
Proof. split; [reflexivity | vm_compute; reflexivity]. Qed.

(** C3 on a unit with two open ports and a closed one *)
Lemma round_trip_restores_distinguished_endpoints_witness :
  exists s2 fds2 w2,
    deserialize_lines (freshly_loaded served_unit)
      [("state", "listening"); ("result", "success"); ("n-accepted", "3");
       ("fifo", "10 /run/a.pipe"); ("socket", "11 1 0.0.0.0:9000")]
      [11; 10]
      {| env := env dup_world; tick := 2; trace := [EvDup 6 11; EvDup 5 10] |}
    = Some (s2, fds2, w2) /\
    restored served_unit s2 [10; 11].
Proof.
  apply (round_trip_restores_distinguished_endpoints served_unit [] [11; 10]
           dup_world).
  - cbn. unfold UINT_MOD. lia.
  - cbn. lia.
  - vm_compute. reflexivity.
  - vm_compute. reflexivity.
  - vm_compute. reflexivity.
  - reflexivity.
  - reflexivity.
  - repeat constructor; cbn; intuition discriminate.
Defined.

(** X1.  A start request that is refused leaves the unit and the world
    as they are.  The refusals are -EAGAIN while the unit is stopping,
    -ENOENT when its service is not loaded (or is a SysV service), and
    -EBUSY when its service is active. *)
Theorem start_refused_leaves_unit_untouched (s : Socket) (w : World)
    (e : errno) (s' : Socket) (w' : World) :
  socket_start s w = Some (Err e, s', w') ->
  s' = s /\ w' = w /\
  match e with
  | EAGAIN =>
      IN_SET (state s)
        [SOCKET_STOP_PRE; SOCKET_STOP_PRE_SIGKILL; SOCKET_STOP_PRE_SIGTERM;
         SOCKET_STOP_POST; SOCKET_FINAL_SIGTERM; SOCKET_FINAL_SIGKILL] = true
  | ENOENT =>
      exists svc, service s = Some svc /\
        (svc_load_state svc <> UNIT_LOADED \/
         (HAVE_SYSV_COMPAT (env w) = true /\ svc_is_sysv svc = true))
  | EBUSY =>
      exists svc, service s = Some svc /\
        svc_load_state svc = UNIT_LOADED /\
        svc_state svc <> SERVICE_DEAD /\ svc_state svc <> SERVICE_FAILED /\
        svc_state svc <> SERVICE_AUTO_RESTART
  | _ => False
  end.
Proof.
  unfold socket_start, bind, get_env. intros H.
  destruct (IN_SET (state s) _) eqn:S1 in H.
  { unfold ret in H. injection H as <- <- <-. auto. }
  destruct (IN_SET (state s) _) eqn:S2 in H.
  { unfold ret in H. discriminate H. }
  destruct (service s) as [svc |] eqn:SV.
  - destruct (UnitLoadState_beq (svc_load_state svc) UNIT_LOADED) eqn:L;
      cbn [negb] in H.
    + destruct (negb (ServiceState_beq (svc_state svc) SERVICE_DEAD) &&
                negb (ServiceState_beq (svc_state svc) SERVICE_FAILED) &&
                negb (ServiceState_beq (svc_state svc) SERVICE_AUTO_RESTART))
        eqn:B.
      * unfold ret in H. injection H as <- <- <-.
        split; [reflexivity |]. split; [reflexivity |].
        exists svc. split; [reflexivity |].
        apply andb_true_iff in B. destruct B as [B B3].
        apply andb_true_iff in B. destruct B as [B1 B2].
        split; [destruct (svc_load_state svc); (reflexivity || discriminate L) |].
        repeat split; intros E; rewrite E in *; discriminate.
      * destruct (HAVE_SYSV_COMPAT (env w) && svc_is_sysv svc) eqn:Y.
        -- unfold ret in H. injection H as <- <- <-.
           split; [reflexivity |]. split; [reflexivity |].
           exists svc. split; [reflexivity |]. right.
           apply andb_true_iff in Y. exact Y.
        -- destruct (assert _ w) as [[[] w1] |]; [| discriminate H].
           destruct (socket_enter_start_pre _ w1) as [[s2 w2] |];
             discriminate H.
    + unfold ret in H. injection H as <- <- <-.
      split; [reflexivity |]. split; [reflexivity |].
      exists svc. split; [reflexivity |]. left.
      intros E. rewrite E in L. discriminate L.
  - destruct (assert _ w) as [[[] w1] |]; [| discriminate H].
    destruct (socket_enter_start_pre _ w1) as [[s2 w2] |]; discriminate H.
Qed.

(** X2.  A stop request of a unit that is neither dead nor failed
    returns.  Afterwards the unit is on the stop path, dead or failed,
    never in a state of the start path, Listening or Running; on the way
    it only closed fds of its own ports, its counters and its service
    are as they were, and its result is the one it had or
    FailureResources.  The request answers -EAGAIN exactly when it
    interrupted a start. *)
Theorem stop_leaves_the_active_states (s : Socket) (w : World) :
  state s <> SOCKET_DEAD -> state s <> SOCKET_FAILED ->
  exists r s' w',
    socket_stop s w = Some (r, s', w') /\
    step s w s' w' /\
    ~ In (state s') [SOCKET_START_PRE; SOCKET_START_CHOWN; SOCKET_START_POST;
                     SOCKET_LISTENING; SOCKET_RUNNING] /\
    (result s' = result s \/ result s' = SOCKET_FAILURE_RESOURCES) /\
    (r = Err EAGAIN <->
     In (state s) [SOCKET_START_PRE; SOCKET_START_CHOWN; SOCKET_START_POST]).
Proof.
  intros ND NF.
  assert (H : wpt (socket_stop s)
            (fun '(r, s') w' =>
               step s w s' w' /\
               ~ In (state s') [SOCKET_START_PRE; SOCKET_START_CHOWN;
                                SOCKET_START_POST; SOCKET_LISTENING;
                                SOCKET_RUNNING] /\
               (result s' = result s \/ result s' = SOCKET_FAILURE_RESOURCES) /\
               (r = Err EAGAIN <->
                In (state s) [SOCKET_START_PRE; SOCKET_START_CHOWN;
                              SOCKET_START_POST])) w).
  { unfold socket_stop.
    destruct (state s) eqn:ST; try congruence;
      cbn [IN_SET existsb SocketState_beq orb state_eq];
      unfold assert;
      repeat lazymatch goal with
      | |- wpt (bind (ret _) _) _ _ => apply wpt_bind; apply wpt_ret
      end.
    all: try (apply wpt_ret; split; [apply step_refl |]; rewrite ST;
              split; [simpl; intuition discriminate |];
              split; [left; reflexivity |];
              split; [discriminate | simpl; intuition discriminate]).
    all: apply wpt_bind;
      (eapply wpt_conseq;
        [first [apply socket_enter_signal_spec | apply socket_enter_stop_pre_spec] |]);
      intros s1 w1 HH; cbv beta in HH; destruct HH as [SP O];
      apply wpt_ret; (split; [exact SP |]);
      (split; [| split; [apply outcome_result in O; exact O |]]).
    all: try (apply outcome_state in O; simpl in O; intros I; simpl in I;
              destruct O as [O | [O | [O | [O | [O | []]]]]]; rewrite <- O in I;
              intuition discriminate).
    all: simpl; split; intros HH; first [discriminate HH | reflexivity | intuition congruence]. }
  destruct (wpt_inv _ _ _ H) as ([r s'] & w' & E & Q).
  exists r, s', w'. split; [exact E | exact Q].
Qed.

(** X3.  [socket_reset_failed] always returns with the result back at
    Success.  A failed unit becomes dead; a unit in any other state
    keeps its state, and nothing but the result changes.  Doing it
    again changes nothing. *)
Theorem reset_failed_clears_the_failure (s : Socket) (w : World) :
  exists s' w',
    socket_reset_failed s w = Some (s', w') /\
    result s' = SOCKET_SUCCESS /\
    state s' = (if state_eq (state s) SOCKET_FAILED then SOCKET_DEAD
                else state s) /\
    (state s <> SOCKET_FAILED -> s' = set_result s SOCKET_SUCCESS /\ w' = w) /\
    socket_reset_failed s' w' = Some (s', w').
Proof.
  assert (H : wpt (socket_reset_failed s)
            (fun s' w' =>
               result s' = SOCKET_SUCCESS /\
               state s' = (if state_eq (state s) SOCKET_FAILED then SOCKET_DEAD
                           else state s) /\
               (state s <> SOCKET_FAILED ->
                s' = set_result s SOCKET_SUCCESS /\ w' = w)) w).
  { unfold socket_reset_failed. apply wpt_bind.
    destruct (state_eq (state s) SOCKET_FAILED) eqn:F.
    - eapply wpt_conseq; [apply socket_set_state_spec |].
      intros s1 w1 HH; cbv beta in HH. destruct HH as [Q _].
      apply wpt_ret. split; [reflexivity |].
      split; [exact (ssp_state _ _ _ Q) |].
      intros N. exfalso. apply N. apply SocketState_eqb_eq. exact F.
    - apply wpt_ret. apply wpt_ret. repeat split; reflexivity. }
  destruct (wpt_inv _ _ _ H) as (s' & w' & E & R & ST & U).
  exists s', w'. split; [exact E |]. split; [exact R |].
  split; [exact ST |]. split; [exact U |].
  unfold socket_reset_failed, bind.
  assert (N : state_eq (state s') SOCKET_FAILED = false).
  { rewrite ST. destruct (state_eq (state s) SOCKET_FAILED) eqn:F;
      [reflexivity | exact F]. }
  rewrite N. unfold ret. rewrite <- R at 1. rewrite set_result_same.
  reflexivity.
Qed.


(** X5.  [socket_fd_event] ignores events of a unit that is not in
    Listening: the unit and the world are as they were.  In Listening
    an event other than EV_READ makes the unit enter the stop path with
    FailureResources; it closes nothing but fds of its own ports. *)
Theorem fd_event_ignored_or_stops (s : Socket) (fd revents : Z) (w : World) :
  0 <= fd ->
  (state s <> SOCKET_LISTENING -> socket_fd_event s fd revents w = Some (s, w)) /\
  (state s = SOCKET_LISTENING -> revents <> EV_READ ->
   exists s' w',
     socket_fd_event s fd revents w = Some (s', w') /\
     step s w s' w' /\ stop_path_entered s').
Proof.
  intros Hfd. apply Z.leb_le in Hfd.
  unfold socket_fd_event, bind, assert. rewrite Hfd. unfold ret at 1.
  split.
  - intros N. destruct (state_ne (state s) SOCKET_LISTENING) eqn:L;
      [reflexivity |].
    exfalso. apply N. unfold state_ne in L. apply negb_false_iff in L.
    apply SocketState_eqb_eq. exact L.
  - intros L R. unfold state_ne. rewrite L. cbn [SocketState_beq negb].
    destruct (revents =? EV_READ) eqn:V; [apply Z.eqb_eq in V; contradiction |].
    cbn [negb].
    pose proof (socket_enter_stop_pre_spec s SOCKET_FAILURE_RESOURCES w) as H.
    destruct (wpt_inv _ _ _ H) as (s' & w' & E & S1 & O).
    exists s', w'. split; [exact E |]. split; [exact S1 |].
    eapply outcome_stop_path; [exact O | simpl; tauto |].
    intros x Hx. simpl in Hx |- *. tauto.
Qed.

(** X6.  [socket_coldplug] brings a freshly deserialized unit into the
    state it was serialized in: when it returns 0 the state is
    [deserialized_state], and when it fails the unit is still dead (no
    transition was made).  Result and counters are as deserialized.  A
    transient deserialized state without a control pid is refused with
    -EBADMSG before anything is touched. *)
Theorem coldplug_enters_deserialized_state (s : Socket) (w : World)
    (r : rc unit) (s' : Socket) (w' : World) :
  socket_coldplug s w = Some (r, s', w') ->
  result s' = result s /\ n_accepted s' = n_accepted s /\
  n_connections s' = n_connections s /\
  match r with
  | Ok _ => state s' = deserialized_state s
  | Err _ => state s' = SOCKET_DEAD
  end /\
  (keeps_control (deserialized_state s) = true -> control_pid s <= 0 ->
   r = Err EBADMSG /\ s' = s /\ w' = w).
Proof.
  intros H.
  assert (G : wp (socket_coldplug s)
    (fun '(r, s') w' =>
       result s' = result s /\ n_accepted s' = n_accepted s /\
       n_connections s' = n_connections s /\
       match r with
       | Ok _ => state s' = deserialized_state s
       | Err _ => state s' = SOCKET_DEAD
       end /\
       (keeps_control (deserialized_state s) = true -> control_pid s <= 0 ->
        r = Err EBADMSG /\ s' = s /\ w' = w)) w).
  { unfold socket_coldplug. apply wp_bind. apply wp_assert. intros D.
    apply SocketState_eqb_eq in D.
    destruct (state_ne (deserialized_state s) (state s)) eqn:NE.
    2:{ apply wp_ret. unfold state_ne in NE. apply negb_false_iff in NE.
        apply SocketState_eqb_eq in NE.
        split; [reflexivity |]. split; [reflexivity |]. split; [reflexivity |].
        split; [congruence |].
        rewrite NE, D. intros K. discriminate K. }
    apply wp_bind.
    change (IN_SET (deserialized_state s)
              [SOCKET_START_PRE; SOCKET_START_CHOWN; SOCKET_START_POST;
               SOCKET_STOP_PRE; SOCKET_STOP_PRE_SIGTERM;
               SOCKET_STOP_PRE_SIGKILL; SOCKET_STOP_POST;
               SOCKET_FINAL_SIGTERM; SOCKET_FINAL_SIGKILL])
      with (keeps_control (deserialized_state s)).
    assert (K : wp
      (if keeps_control (deserialized_state s)
       then
         if control_pid s <=? 0 then ret (Err EBADMSG, s)
         else
           r <- unit_watch_pid (control_pid s) ;;
           match r with
           | Err e => ret (Err e, s)
           | Ok _ =>
               '(r, s) <- unit_watch_timer s ;;
               match r with
               | Err e => ret (Err e, s)
               | Ok _ => ret (Ok tt, s)
               end
           end
       else ret (Ok tt, s))
      (fun '(r1, s1) w1 =>
         cold_frame s s1 /\
         (keeps_control (deserialized_state s) = true -> control_pid s <= 0 ->
          r1 = Err EBADMSG /\ s1 = s /\ w1 = w) /\
         (r1 = Ok tt ->
          ~ (keeps_control (deserialized_state s) = true /\ control_pid s <= 0))) w).
    { destruct (keeps_control (deserialized_state s)) eqn:KC.
      - destruct (control_pid s <=? 0) eqn:CP.
        + apply wp_ret. split; [apply cold_frame_refl |].
          split; [auto |]. discriminate.
        + apply Z.leb_gt in CP.
          unfold unit_watch_pid, unit_watch_timer.
          repeat pstep; (split; [repeat split |]);
            (split; [intros _ L; lia | intros _ [_ L]; lia]).
      - apply wp_ret. split; [apply cold_frame_refl |].
        split; [discriminate | intros _ [L _]; discriminate L]. }
    eapply wp_conseq; [exact K |]. clear K.
    intros [r1 s1] w1 HH; cbv beta in HH. destruct HH as (F1 & B & NB).
    destruct r1 as [[] | e1].
    2:{ apply wp_ret. destruct F1 as (A1 & A2 & A3 & A4 & A5).
        repeat split; try assumption; try congruence;
          intros; destruct (B H0 H1) as (X & Y & Z); assumption. }
    specialize (NB eq_refl).
    apply wp_bind.
    assert (O : wp
      (if IN_SET (deserialized_state s)
            [SOCKET_START_CHOWN; SOCKET_START_POST; SOCKET_LISTENING;
             SOCKET_RUNNING; SOCKET_STOP_PRE; SOCKET_STOP_PRE_SIGTERM;
             SOCKET_STOP_PRE_SIGKILL]
       then socket_open_fds s1 else ret (Ok tt, s1))
      (fun '(r2, s2) w2 => cold_frame s1 s2) w1).
    { destruct (IN_SET _ _).
      - eapply wp_conseq; [apply socket_open_fds_spec |].
        intros [r2 s2] w2 HH; cbv beta in HH. destruct HH as (F & _).
        apply oframe_cold_frame. exact F.
      - apply wp_ret. apply cold_frame_refl. }
    eapply wp_conseq; [exact O |]. clear O.
    intros [r2 s2] w2 F2; cbv beta in F2.
    pose proof (cold_frame_trans _ _ _ F1 F2) as F12.
    destruct r2 as [[] | e2].
    2:{ apply wp_ret. destruct F12 as (A1 & A2 & A3 & A4 & A5).
        repeat split; try assumption; try congruence;
          intros; exfalso; apply NB; split; assumption. }
    apply wp_bind.
    assert (W : wp
      (if state_eq (deserialized_state s) SOCKET_LISTENING
       then socket_watch_fds s2 else ret (Ok tt, s2))
      (fun '(r3, s3) w3 => cold_frame s2 s3) w2).
    { destruct (state_eq _ _).
      - apply wpt_wp. eapply wpt_conseq; [apply socket_watch_fds_spec |].
        intros [r3 s3] w3 HH; cbv beta in HH. destruct HH as (_ & _ & (F & _) & _).
        apply oframe_cold_frame. exact F.
      - apply wp_ret. apply cold_frame_refl. }
    eapply wp_conseq; [exact W |]. clear W.
    intros [r3 s3] w3 F3; cbv beta in F3.
    pose proof (cold_frame_trans _ _ _ F12 F3) as F13.
    destruct F13 as (A1 & A2 & A3 & A4 & A5).
    destruct r3 as [[] | e3].
    2:{ apply wp_ret.
        repeat split; try assumption; try congruence;
          intros; exfalso; apply NB; split; assumption. }
    apply wp_bind. apply wpt_wp.
    eapply wpt_conseq; [apply socket_set_state_spec |].
    intros s4 w4 HH; cbv beta in HH. destruct HH as [Q _].
    apply wp_ret.
    rewrite (ssp_result _ _ _ Q), (ssp_n_accepted _ _ _ Q),
      (ssp_n_connections _ _ _ Q), (ssp_state _ _ _ Q).
    repeat split; try assumption; try reflexivity;
      intros; exfalso; apply NB; split; assumption. }
  exact (wp_inv _ _ _ _ _ G H).
Qed.

(** X7.  [socket_spawn] always returns.  On success the control pid is
    the pid of the spawned command, the timer is armed and the pid
    watched; on failure the timer is dropped and the control pid is the
    one it was, also when the command had been spawned already and only
    watching its pid failed.  Nothing else of the unit changes. *)
Theorem spawn_sets_control_pid_or_drops_timer (s : Socket) (c : ExecCommand)
    (w : World) :
  exists r s' w',
    socket_spawn s c w = Some (r, s', w') /\
    match r with
    | Ok _ =>
        exists pid, 0 <= pid /\
          s' = set_control_pid (set_timer_watch s true) pid /\
          trace w' = EvWatchPid pid :: EvSpawn c pid :: trace w
    | Err _ =>
        s' = set_timer_watch s false /\
        (trace w' = trace w \/ exists pid, trace w' = EvSpawn c pid :: trace w)
    end.
Proof.
  destruct (wpt_inv _ _ _ (socket_spawn_exact s c w)) as ([r s'] & w' & E & _ & Q).
  exists r, s', w'. split; [exact E | exact Q].
Qed.

(** X8.  When the control process of a start state fails (its exit is
    not clean and its command is not one to ignore), the unit leaves the
    start path with the failure of the exit code, signal or core dump
    latched: from StartPre it goes to FinalSigterm, which it enters
    exactly when [unit_kill_context] has signalled processes and the
    timer is armed; from StartChown and StartPost it goes to StopPre,
    which it enters exactly when ExecStopPre exists and can be spawned.
    Otherwise it passes on down the stop path.  The result is the
    failure of the control process unless a call into the manager
    failed, and FailureResources then.  Nothing is opened, handed over
    or queued, and the counters are as they were. *)
Theorem failed_control_process_stops_the_start (s : Socket) (pid : Z)
    (code : SigchldCode) (status : Z) (w : World) (f : SocketResult) :
  0 <= pid -> pid = control_pid s ->
  is_clean_exit (env w) code status = false ->
  (forall c cs, control_command s = c :: cs -> c_ignore c = false) ->
  failure_of code = Some f ->
  In (state s) [SOCKET_START_PRE; SOCKET_START_CHOWN; SOCKET_START_POST] ->
  exists s' w',
    socket_sigchld_event s pid code status w = Some (s', w') /\
    step s w s' w' /\
    if state_eq (state s) SOCKET_START_PRE
    then lands w f SOCKET_FINAL_SIGTERM (kill_waits (env w) (tick w)) [] s' w'
    else lands w f SOCKET_STOP_PRE
           (command_runs (exec_command (config s) SOCKET_EXEC_STOP_PRE)
                         (env w) (tick w))
           stop_post_states s' w'.
Proof.
  intros Hp -> CE IG FO ST.
  assert (KC : keeps_control (state s) = true).
  { destruct ST as [<- | [<- | [<- | []]]]; reflexivity. }
  destruct (wpt_inv _ _ _
              (socket_sigchld_event_failure s code status w f Hp KC CE IG FO))
    as (s' & w' & E & S1 & A).
  exists s', w'. split; [exact E |]. split; [exact S1 |].
  unfold after_failed_control in A.
  destruct ST as [ST | [ST | [ST | []]]]; rewrite <- ST in *;
    cbn [state_eq SocketState_beq]; exact A.
Qed.

(** X9.  When the control process exits with what counts as a success
    and its command has a successor, the successor is spawned.  When
    the four calls of [socket_spawn] (timer, printf, spawn, watch)
    succeed, the unit stays in its state with its result and its ports,
    the successor is the current command and its pid the control pid.
    When one of them fails the unit enters the stop path with
    FailureResources, and only closes fds of its own ports. *)
Theorem clean_exit_runs_next_command (s : Socket) (pid : Z)
    (code : SigchldCode) (status : Z) (w : World)
    (c1 c2 : ExecCommand) (cs : list ExecCommand) :
  0 <= pid -> pid = control_pid s ->
  counts_as_success (env w) s code status ->
  control_command s = c1 :: c2 :: cs ->
  exists s' w',
    socket_sigchld_event s pid code status w = Some (s', w') /\
    if all_ok (env w) (tick w) 4
    then state s' = state s /\ result s' = result s /\ ports s' = ports s /\
         control_command s' = c2 :: cs /\
         control_command_id s' = control_command_id s /\
         0 <= control_pid s' /\
         trace w' = EvWatchPid (control_pid s') :: EvSpawn c2 (control_pid s')
                      :: trace w
    else step s w s' w' /\ stop_path_entered s'.
Proof.
  intros Hp -> CS CC.
  assert (H : wpt (socket_sigchld_event s (control_pid s) code status)
    (fun s' w' =>
      if all_ok (env w) (tick w) 4
      then state s' = state s /\ result s' = result s /\ ports s' = ports s /\
           control_command s' = c2 :: cs /\
           control_command_id s' = control_command_id s /\
           0 <= control_pid s' /\
           trace w' = EvWatchPid (control_pid s') :: EvSpawn c2 (control_pid s')
                        :: trace w
      else step s w s' w' /\ stop_path_entered s') w).
  { unfold socket_sigchld_event. apply wpt_bind. apply wpt_get_env.
    apply wpt_bind. apply Z.leb_le in Hp. rewrite Hp. unfold assert.
    apply wpt_ret. rewrite Z.eqb_refl. cbn [negb].
    apply wpt_bind. apply (counts_as_success_result _ s); [exact CS |].
    intros f F. rewrite F. cbn [result_ne result_eq SocketResult_beq negb].
    cbn [control_command set_control_pid]. rewrite CC. cbn [andb].
    unfold socket_run_next, socket_unwatch_control_pid.
    cbn [control_command set_control_pid control_pid Z.leb Z.compare].
    rewrite CC. apply wpt_bind. apply wpt_ret. apply wpt_bind.
    eapply wpt_conseq;
      [exact (wpt_and _ _ _ _ (socket_spawn_exact _ c2 w)
                      (socket_spawn_clock _ c2 w)) |].
    intros [r s1] w1 [[E Q] (_ & _ & O & A & _)].
    rewrite A, O.
    destruct r as [[] | en].
    - destruct Q as (pid' & P0 & -> & T). apply wpt_ret.
      cbn. repeat split; try assumption.
    - destruct Q as (-> & T).
      assert (S1 : step s w
                (set_timer_watch
                   (set_control_command (set_control_pid s 0) (c2 :: cs)) false)
                w1).
      { split; [constructor; try reflexivity; apply incl_cons_self |].
        split; [exact E |].
        destruct T as [T | [p T]]; rewrite T.
        - exists []. split; [reflexivity | constructor].
        - exists [EvSpawn c2 p]. split; [reflexivity |].
          constructor; [exact I | constructor]. }
      cbn [state set_timer_watch set_control_command set_control_pid].
      destruct (state_eq (state s) SOCKET_START_POST);
        [| destruct (state_eq (state s) SOCKET_STOP_POST)].
      + eapply wpt_conseq; [apply socket_enter_stop_pre_spec |].
        intros s' w' HH; cbv beta in HH. destruct HH as [S2 O2].
        split; [eapply step_trans; eassumption |].
        eapply outcome_stop_path; [exact O2 | simpl; tauto |].
        intros x Hx. simpl in Hx |- *. tauto.
      + eapply wpt_conseq; [apply socket_enter_dead_spec |].
        intros s' w' HH; cbv beta in HH. destruct HH as (S2 & R & St & _).
        split; [eapply step_trans; eassumption |].
        split; [| exact R]. rewrite St. cbn. tauto.
      + eapply wpt_conseq; [apply socket_enter_signal_spec |].
        intros s' w' HH; cbv beta in HH. destruct HH as [S2 O2].
        split; [eapply step_trans; eassumption |].
        eapply outcome_stop_path; [exact O2 | simpl; tauto |].
        intros x Hx. simpl in Hx. contradiction. }
  destruct (wpt_inv _ _ _ H) as (s' & w' & E & Q).
  exists s', w'. split; [exact E | exact Q].
Qed.


(** X11.  Traffic on a socket that does not accept (the dispatch with no
    accepted fd), while no stop is pending.  When a triggered unit is
    active or pending already, no job is queued and the unit enters
    Running.  Otherwise a start job for the service is queued: when the
    service is there and [manager_add_job] succeeds, the job is queued
    and the unit enters Running; when there is no service or the job
    cannot be queued, no job is queued and the unit enters the stop
    path with FailureResources.  In Running the ports are open as
    before but no longer watched, and the result is untouched. *)
Theorem activation_queues_job_and_enters_running (s : Socket) (cfd : Z)
    (w w1 w2 : World) (pending : bool) :
  cfd < 0 ->
  unit_stop_pending w = Some (false, w1) ->
  triggers_active_or_pending w1 = Some (pending, w2) ->
  exists s' w' new,
    socket_enter_running s cfd w = Some (s', w') /\
    trace w' = (new ++ trace w)%list /\
    n_accepted s' = n_accepted s /\ n_connections s' = n_connections s /\
    if pending || job_queued s (env w2) (tick w2)
    then state s' = SOCKET_RUNNING /\ result s' = result s /\
         ports s' = map unwatch_port (ports s) /\
         if pending
         then forall id, ~ In (EvAddJob id) new
         else exists svc, service s = Some svc /\ In (EvAddJob (svc_id svc)) new
    else stop_path_entered s' /\ Forall (quiet (port_fds s)) new.
Proof.
  intros Hc SP TP.
  unfold unit_stop_pending, ask_bool in SP. injection SP as SP <-.
  unfold triggers_active_or_pending, ask_bool in TP.
  cbn [env tick next_tick] in TP. injection TP as TP <-.
  rewrite <- TP. cbn [env tick next_tick].
  exact (socket_enter_running_activation s cfd w Hc SP).
Qed.

(** X12.  [socket_collect_fds] returns the fds of the open ports, in
    the order of the ports, and their number; closed ports contribute
    nothing, and a unit without an open port gets the empty array.  The
    two loops agree (the assertion on the count holds); the only error
    is the failed allocation, which needs an open port.  No call is
    recorded. *)
Theorem collect_fds_returns_the_open_fds (s : Socket) (w : World) :
  Z.of_nat (List.length (ports s)) < UINT_MOD ->
  exists r w',
    socket_collect_fds s w = Some (r, w') /\
    trace w' = trace w /\
    match r with
    | Ok (fds, n_fds) =>
        fds = open_fds_of (ports s) /\ n_fds = Z.of_nat (List.length fds)
    | Err e => e = ENOMEM /\ exists p, In p (ports s) /\ 0 <= p_fd p
    end.
Proof.
  intros B. unfold socket_collect_fds.
  rewrite collect_count_spec by lia. rewrite Z.add_0_l.
  pose proof (open_fds_of_length (ports s)) as L.
  pose proof (open_fds_of_nonempty (ports s)) as NE.
  pose proof (collect_fill_spec (ports s) []
                (repeat 0 (List.length (open_fds_of (ports s))))) as F.
  cbn [app List.length Z.of_nat] in F.
  specialize (F B). rewrite repeat_length in F. specialize (F (Nat.le_refl _)).
  rewrite skipn_all2 in F by (rewrite repeat_length; apply Nat.le_refl).
  rewrite app_nil_r, Z.add_0_l in F.
  set (fds := open_fds_of (ports s)) in *.
  destruct (Z.of_nat (List.length fds) <=? 0) eqn:Z0.
  - apply Z.leb_le in Z0.
    assert (E : fds = []) by (destruct fds; [reflexivity | cbn [List.length] in Z0; lia]).
    eexists. eexists. split; [reflexivity |]. split; [reflexivity |].
    rewrite E. split; reflexivity.
  - apply Z.leb_gt in Z0.
    unfold bind, alloc_failed, ask_bool.
    destruct (o_bool (env w) (tick w)).
    + eexists. eexists. split; [reflexivity |]. split; [reflexivity |].
      split; [reflexivity |]. apply NE. intros E. rewrite E in Z0.
      cbn [List.length] in Z0. lia.
    + rewrite Nat2Z.id, F. unfold assert. rewrite Z.eqb_refl.
      eexists. eexists. split; [reflexivity |]. split; [reflexivity |].
      split; reflexivity.
Qed.

(** X13.  [socket_verify] accepts a unit that is not loaded as it is.
    A loaded unit passes exactly when it has a port, when, if it
    accepts connections, every port is a socket that can accept, the
    limit on connections is positive and no service is configured for
    it, and when the kill mode is control-group if PAM is used.  Every
    other unit is refused with -EINVAL. *)
Theorem verify_accepts_well_configured_units
    (can_accept : SocketAddress -> bool) (KILL_CONTROL_GROUP : Z)
    (load_state : UnitLoadState) (pam_name : option string) (kill_mode : Z)
    (s : Socket) :
  (load_state <> UNIT_LOADED ->
   socket_verify can_accept KILL_CONTROL_GROUP load_state pam_name kill_mode s
     = Ok tt) /\
  (load_state = UNIT_LOADED ->
   (socket_verify can_accept KILL_CONTROL_GROUP load_state pam_name kill_mode s
      = Ok tt <->
    well_configured can_accept KILL_CONTROL_GROUP pam_name kill_mode s) /\
   (socket_verify can_accept KILL_CONTROL_GROUP load_state pam_name kill_mode s
      = Ok tt \/
    socket_verify can_accept KILL_CONTROL_GROUP load_state pam_name kill_mode s
      = Err EINVAL)).
Proof.
  unfold socket_verify, well_configured, have_non_accept_socket. split.
  - intros N. destruct load_state; try reflexivity. contradiction N. reflexivity.
  - intros ->. cbn [UnitLoadState_beq negb].
    assert (PAM :
      forall b : bool,
        ((if match pam_name with Some _ => true | None => false end &&
             negb (kill_mode =? KILL_CONTROL_GROUP)
          then Err EINVAL else Ok tt) = Ok tt <->
         (pam_name <> None -> kill_mode = KILL_CONTROL_GROUP)) /\
        ((if match pam_name with Some _ => true | None => false end &&
             negb (kill_mode =? KILL_CONTROL_GROUP)
          then Err EINVAL else Ok tt) = Ok tt \/
         (if match pam_name with Some _ => true | None => false end &&
             negb (kill_mode =? KILL_CONTROL_GROUP)
          then @Err unit EINVAL else Ok tt) = Err EINVAL)).
    { intros _. destruct pam_name as [n |]; cbn [andb].
      - destruct (kill_mode =? KILL_CONTROL_GROUP) eqn:K; cbn [negb].
        + apply Z.eqb_eq in K. split; [| left; reflexivity].
          split; [intros _ _; exact K | reflexivity].
        + apply Z.eqb_neq in K. split; [| right; reflexivity].
          split; [discriminate |]. intros H. exfalso. apply K, H. discriminate.
      - split; [| left; reflexivity].
        split; [intros _ N; contradiction N; reflexivity | reflexivity]. }
    specialize (PAM true). destruct PAM as [PAM1 PAM2].
    destruct (ports s) as [| p ps] eqn:P.
    { split; [| right; reflexivity].
      split; [discriminate | intros [N _]; contradiction N; reflexivity]. }
    rewrite <- P.
    assert (NP : ports s <> []) by (rewrite P; discriminate).
    destruct (accept (config s)) eqn:A; cbn [andb negb].
    + destruct (have_non_accept_socket_loop can_accept (ports s)) eqn:H.
      { split; [| right; reflexivity].
        split; [discriminate |]. intros (_ & X & _).
        destruct (X eq_refl) as (F & _).
        apply have_non_accept_socket_loop_false in F. congruence. }
      apply have_non_accept_socket_loop_false in H.
      destruct (max_connections (config s) <=? 0) eqn:MX.
      { split; [| right; reflexivity].
        split; [discriminate |]. intros (_ & X & _).
        destruct (X eq_refl) as (_ & M & _). apply Z.leb_le in MX. lia. }
      apply Z.leb_gt in MX.
      destruct (service s) as [svc |] eqn:SV.
      { split; [| right; reflexivity].
        split; [discriminate |]. intros (_ & X & _).
        destruct (X eq_refl) as (_ & _ & M). discriminate M. }
      split; [| exact PAM2]. rewrite PAM1. split.
      * intros K. split; [exact NP |]. split; [| exact K].
        intros _. repeat split; assumption.
      * intros (_ & _ & K). exact K.
    + split; [| exact PAM2]. rewrite PAM1. split.
      * intros K. split; [exact NP |]. split; [| exact K].
        intros Y. discriminate Y.
      * intros (_ & _ & K). exact K.
Qed.

(** X14.  [socket_distribute_fds] always returns 0.  It gives fds of
    the set only to socket ports that are closed, each such port an fd
    that matches its address, and takes every fd it gives out of the
    set, so that no fd is given to two ports.  Other ports, and the fds
    left in the set, are as they were; no fd left in the set matches a
    socket port that is still closed.  [deserialized_state] becomes
    Listening when an fd was handed out and is untouched otherwise;
    state and result are as they were. *)
Theorem distribute_fds_hands_out_matching_fds
    (matches_fd : SocketAddress -> Z -> bool) (s : Socket) (fds : FDSet)
    (r : rc unit) (s' : Socket) (fds' : FDSet) :
  Forall (fun fd => 0 <= fd) fds ->
  socket_distribute_fds matches_fd s fds = (r, s', fds') ->
  r = Ok tt /\
  distributed matches_fd (ports s) fds (deserialized_state s)
    (ports s') fds' (deserialized_state s') /\
  state s' = state s /\ result s' = result s.
Proof.
  intros POS. unfold socket_distribute_fds.
  pose proof (socket_distribute_fds_loop_spec matches_fd (ports s) fds
                (deserialized_state s) POS) as H.
  destruct (socket_distribute_fds_loop matches_fd (ports s) fds
              (deserialized_state s)) as [[ps' f'] d'].
  intros E. injection E as <- <- <-.
  split; [reflexivity |]. split; [exact H |]. split; reflexivity.
Qed.


(** X16.  Whatever happens to a unit (start and stop requests, timer
    fires, exits of control processes, events on its fds, dispatched
    connections, resets), its ports stay as its state says: after every
    event no port is open unless the state is one of StartChown,
    StartPost, Listening, Running, StopPre, StopPreSigterm and
    StopPreSigkill, no port is watched unless the state is Listening,
    and a watched port is open. *)
Theorem ports_follow_the_state (s : Socket) (evs : list UnitEvent)
    (w : World) (ss : list Socket) (w' : World) :
  ports_inv s ->
  run s evs w = Some (ss, w') ->
  Forall ports_inv ss.
Proof.
  revert s w ss w'. induction evs as [| ev evs IH]; intros s w ss w' I R.
  - cbn in R. injection R as <- <-. constructor.
  - cbn [run] in R. unfold bind in R.
    destruct (handle s ev w) as [[s1 w1] |] eqn:H; [| discriminate R].
    pose proof (wp_inv _ _ _ _ _ (inv_handle s ev w I) H) as I1.
    cbv beta in I1.
    destruct (run s1 evs w1) as [[ss1 w2] |] eqn:R1; [| discriminate R].
    unfold ret in R. injection R as <- <-.
    constructor; [exact I1 | exact (IH _ _ _ _ I1 R1)].
Qed.

(** X17.  [socket_close_fds] always returns.  It closes the fd of every
    open port, once and in the order of the ports, and drops its watch;
    afterwards no port is open, and closed ports are as they were.
    Closing again does nothing. *)
Theorem close_fds_closes_every_open_port (s : Socket) (w : World) :
  exists s' w',
    socket_close_fds s w = Some (s', w') /\
    s' = set_ports s (map close_port (ports s)) /\
    Forall (fun p => p_fd p < 0) (ports s') /\
    trace w' = (rev (closing (ports s)) ++ trace w)%list /\
    socket_close_fds s' w' = Some (s', w').
Proof.
  assert (C : Forall (fun p => p_fd p < 0) (map close_port (ports s))).
  { apply Forall_forall. intros p' I. apply in_map_iff in I.
    destruct I as (p & <- & _). apply close_port_closed. }
  unfold socket_close_fds, bind.
  destruct (wpt_inv _ _ _ (socket_close_fds_loop_exact (ports s) w))
    as (ps1 & w1 & E1 & -> & _ & T1).
  rewrite E1. unfold ret. exists (set_ports s (map close_port (ports s))), w1.
  split; [reflexivity |]. split; [reflexivity |].
  split; [exact C |]. split; [exact T1 |].
  cbn [ports set_ports].
  rewrite (socket_close_fds_loop_closed _ w1 C). reflexivity.
Qed.

(** X18.  [socket_watch_fds] always returns, and installs the watches
    all or none: when it returns 0 every open port is watched, and when
    a watch cannot be installed no open port is watched any more, those
    watched before the call included.  It records no call, changes no
    fd and leaves closed ports as they are. *)
Theorem watch_fds_watches_all_or_none (s : Socket) (w : World) :
  exists r s' w',
    socket_watch_fds s w = Some (r, s', w') /\
    trace w' = trace w /\
    Forall2 rewatched (ports s) (ports s') /\
    match r with
    | Ok _ => all_open_watched (ports s')
    | Err _ => all_open_unwatched (ports s')
    end.
Proof.
  destruct (wpt_inv _ _ _ (socket_watch_fds_spec s w))
    as ([r s'] & w' & E & _ & T & (_ & _ & R) & Q).
  exists r, s', w'. repeat split; assumption.
Qed.

(** X19.  When [socket_open_fds] fails without a constructor of an
    endpoint having failed (the service of the socket cannot be
    instantiated, or its label cannot be read), it returns at once:
    nothing is closed, the ports that were open before the call are as
    they were, and the ports it has opened so far stay open. *)
Theorem open_fds_early_return_keeps_ports_open (s : Socket) (w : World)
    (e : errno) (s' : Socket) (w' : World) (new : list Event) :
  socket_open_fds s w = Some (Err e, s', w') ->
  trace w' = (new ++ trace w)%list ->
  (forall t, ~ In (EvOpenFailed t) new) ->
  (forall fd, ~ In (EvClose fd) new) /\
  (forall p, In p (ports s) -> 0 <= p_fd p -> In p (ports s')) /\
  (forall t fd, In (EvOpen t fd) new ->
                exists p', In p' (ports s') /\ p_fd p' = fd /\ 0 <= fd).
Proof.
  intros H T NF.
  pose proof (wp_inv _ _ _ _ _ (socket_open_fds_spec s w) H) as Q.
  cbv beta iota in Q. destruct Q as (_ & _ & Q).
  destruct Q as (pre & pre' & p & mid & (post & E1 & E2 & FF & C) & Q).
  destruct Q as [[P T1] | [_ T1]].
  - rewrite T1 in T. apply app_inv_tail in T. subst new.
    split; [intros fd; apply opening_closes_nothing |].
    split.
    + intros q I O. rewrite P, E2. rewrite E1 in I.
      apply in_app_or in I. apply in_or_app.
      destruct I as [I | I]; [left | right; exact I].
      exact (kept_open _ _ _ FF I O).
    + intros t fd I. rewrite <- in_rev in I.
      destruct (opening_opened _ _ _ _ FF I) as (p' & I' & F & O).
      exists p'. split; [| split; assumption].
      rewrite P, E2. apply in_or_app. left. exact I'.
  - exfalso. rewrite T1 in T.
    replace (rev (closing mid) ++ EvOpenFailed (p_type p)
               :: rev (opening pre pre') ++ trace w)%list
      with ((rev (closing mid) ++ EvOpenFailed (p_type p)
               :: rev (opening pre pre')) ++ trace w)%list in T
      by (rewrite <- app_assoc; reflexivity).
    apply app_inv_tail in T. subst new.
    apply (NF (p_type p)). apply in_or_app. right. left. reflexivity.
Qed.

(** X20.  After [socket_open_fds] has returned 0 every port of the unit
    is open, and opening again is a no-op: it returns 0 without any call
    and leaves the unit as it is. *)
Theorem open_fds_opens_every_port (s : Socket) (w : World) (s' : Socket)
    (w' : World) :
  socket_open_fds s w = Some (Ok tt, s', w') ->
  Forall (fun p => 0 <= p_fd p) (ports s') /\
  socket_open_fds s' w' = Some (Ok tt, s', w').
Proof.
  intros H.
  pose proof (wp_inv _ _ _ _ _ (socket_open_fds_spec s w) H) as Q.
  cbv beta iota in Q. destruct Q as (_ & _ & FF & _).
  assert (O : Forall (fun p => 0 <= p_fd p) (ports s')).
  { eapply (Forall2_Forall opened_or_kept (fun _ => True)); [| exact FF |].
    - intros p p' K _. unfold opened_or_kept in K.
      destruct (p_fd p <? 0) eqn:X; [tauto |].
      subst. apply Z.ltb_ge in X. exact X.
    - apply Forall_forall. intros; exact I. }
  split; [exact O | apply socket_open_fds_open; exact O].
Qed.

(** X21.  The instance name of an accepted IPv4 connection is
    [nr-a.b.c.d:port-e.f.g.h:port], with the local address first and
    the bytes of addresses and ports read in network order; a
    connection between IPv4-mapped IPv6 addresses gets the same name as
    the IPv4 connection.  Nothing is recorded. *)
Theorem instance_name_of_ipv4_connection (fd nr : Z) (w w1 w2 w3 : World)
    (a1 a2 a3 a4 ap1 ap2 b1 b2 b3 b4 bp1 bp2 : Z) (mapped : bool) :
  0 <= fd ->
  is_byte a1 -> is_byte a2 -> is_byte a3 -> is_byte a4 ->
  is_byte b1 -> is_byte b2 -> is_byte b3 -> is_byte b4 ->
  ask_sockaddr w =
    Some (Ok (if mapped
              then SA_in6 (ipv4_prefix ++ [a1; a2; a3; a4]) [ap1; ap2]
              else SA_in [a1; a2; a3; a4] [ap1; ap2]), w1) ->
  ask_sockaddr w1 =
    Some (Ok (if mapped
              then SA_in6 (ipv4_prefix ++ [b1; b2; b3; b4]) [bp1; bp2]
              else SA_in [b1; b2; b3; b4] [bp1; bp2]), w2) ->
  alloc_failed w2 = Some (false, w3) ->
  instance_from_socket fd nr w =
    Some (Ok (ipv4_instance nr a1 a2 a3 a4 ap1 ap2 b1 b2 b3 b4 bp1 bp2), w3) /\
  trace w3 = trace w.
Proof.
  intros F A1 A2 A3 A4 B1 B2 B3 B4 L R O.
  assert (T : trace w3 = trace w).
  { unfold ask_sockaddr in L, R. unfold alloc_failed, ask_bool in O.
    injection L as _ <-. injection R as _ <-. injection O as _ <-.
    reflexivity. }
  split; [| exact T].
  unfold instance_from_socket, bind, assert, get_env.
  apply Z.leb_le in F. rewrite F. unfold ret at 1. rewrite L, R.
  destruct mapped.
  - cbn [sockaddr_in6_view fst snd]. rewrite O.
    rewrite !has_ipv4_prefix_mapped. cbn [andb].
    cbn [ipv4_prefix app skipn nth].
    unfold ret, ipv4_instance. rewrite !ntoh_pair. reflexivity.
  - cbn [sockaddr_in_view fst snd]. rewrite O.
    destruct (ntoh_quad a1 a2 a3 a4 A1 A2 A3 A4) as (X1 & X2 & X3 & X4).
    destruct (ntoh_quad b1 b2 b3 b4 B1 B2 B3 B4) as (Y1 & Y2 & Y3 & Y4).
    cbv zeta in X1, X2, X3, X4, Y1, Y2, Y3, Y4.
    rewrite X1, X2, X3, X4, Y1, Y2, Y3, Y4.
    unfold ret, ipv4_instance. rewrite !ntoh_pair. reflexivity.
Qed.

(** ** String tables *)
(** X22.  The string tables of states, results and commands are read
    back as they are written: a string names a value exactly when it
    is the string of that value, so that no two values share a string
    and any other string is refused. *)
Theorem string_tables_round_trip :
  (forall st v, socket_state_from_string v = Some st <->
                socket_state_to_string st = v) /\
  (forall r v, socket_result_from_string v = Some r <->
               socket_result_to_string r = v) /\
  (forall c v, socket_exec_command_from_string v = Some c <->
               socket_exec_command_to_string c = v).
Proof.
  split; [| split]; intros x v; split.
  - intros H. unfold socket_state_from_string in H. apply find_some in H.
    apply String.eqb_eq. exact (proj2 H).
  - intros <-. destruct x; reflexivity.
  - intros H. unfold socket_result_from_string in H. apply find_some in H.
    apply String.eqb_eq. exact (proj2 H).
  - intros <-. destruct x; reflexivity.
  - intros H. unfold socket_exec_command_from_string in H. apply find_some in H.
    apply String.eqb_eq. exact (proj2 H).
  - intros <-. destruct x; reflexivity.
Qed.

(** X23.  The line of a FIFO, special file or message queue, as the
    serializer writes it (the fd printed with ["%i"], a blank, the
    path), hands its fd to the first port of that kind and path: no
    port before it in the list matches, the fd the port had is closed,
    the new fd is taken out of the set, and no other port is touched.
    A line whose fd is negative or not in the set, and a line that no
    port matches, is ignored: unit, set and world are as they were, and
    the item still returns 0. *)
Theorem port_line_moves_fd_into_first_match (s : Socket) (key : string)
    (t : SocketPortType) (fd : Z) (path : string) (fds : FDSet)
    (w : World) :
  In (key, t) [("fifo", SOCKET_FIFO); ("special", SOCKET_SPECIAL);
               ("mqueue", SOCKET_MQUEUE)] ->
  - 2 ^ 31 <= fd < 2 ^ 31 ->
  no_leading_space path = true ->
  exists s' fds' w',
    socket_deserialize_item s key (fmt_i fd ++ " " ++ path) fds w
      = Some (Ok tt, s', fds', w') /\
    if (fd <? 0) || negb (fdset_contains fds fd)
    then s' = s /\ fds' = fds /\ w' = w
    else
      match find (fun p => SocketPortType_beq (p_type p) t &&
                           String.eqb (p_path p) path) (ports s) with
      | None => s' = s /\ fds' = fds /\ w' = w
      | Some q =>
          exists done rest,
            ports s = (done ++ q :: rest)%list /\
            existsb (fun p => SocketPortType_beq (p_type p) t &&
                              String.eqb (p_path p) path) done = false /\
            s' = set_ports s (done ++ set_fd q fd :: rest)%list /\
            fds' = snd (fdset_remove fds fd) /\
            trace w' = ((if 0 <=? p_fd q then [EvClose (p_fd q)] else [])
                        ++ trace w)%list
      end.
Proof.
  intros K _ NL.
  pose proof (sscanf_i_n_printed fd path NL) as SC.
  assert (G : forall test,
    exists s' fds' w',
      (if (fd <? 0) || negb (fdset_contains fds fd) then Some (Ok tt, s, fds, w)
       else transplant s test fd fds w) = Some (Ok tt, s', fds', w') /\
      if (fd <? 0) || negb (fdset_contains fds fd)
      then s' = s /\ fds' = fds /\ w' = w
      else
        match find test (ports s) with
        | None => s' = s /\ fds' = fds /\ w' = w
        | Some q =>
            exists done rest,
              ports s = (done ++ q :: rest)%list /\
              existsb test done = false /\
              s' = set_ports s (done ++ set_fd q fd :: rest)%list /\
              fds' = snd (fdset_remove fds fd) /\
              trace w' = ((if 0 <=? p_fd q then [EvClose (p_fd q)] else [])
                          ++ trace w)%list
        end).
  { intros test. destruct ((fd <? 0) || negb (fdset_contains fds fd)).
    - exists s, fds, w. auto.
    - unfold transplant, bind.
      destruct (deserialize_port_first test fd fds (ports s) w)
        as (ps' & fds' & w' & E & Q).
      rewrite E. unfold ret. eexists. eexists. eexists.
      split; [reflexivity |].
      destruct (find test (ports s)) as [q |].
      + destruct Q as (done & rest & A & X & -> & B & C).
        exists done, rest. auto.
      + destruct Q as (-> & -> & ->). rewrite set_ports_same. auto. }
  destruct K as [K | [K | [K | []]]]; injection K as <- <-.
  - rewrite deserialize_item_fifo, SC. apply G.
  - rewrite deserialize_item_special, SC. apply G.
  - rewrite deserialize_item_mqueue, SC. apply G.
Qed.

(** X24.  Every [socket_set_state] returns and announces the
    transition to the manager, with the active states of the old and
    the new state, as the last thing it does (after the fds were
    closed).  Entering a state that has no control process (Dead,
    Listening, Running, Failed) drops the timer, the control command
    and the watch on the control pid; entering any other state leaves
    them alone.  Result, counters and the service are never touched. *)
Theorem set_state_announces_and_cleans_up (s : Socket) (st : SocketState)
    (w : World) :
  exists s' w' rest,
    socket_set_state s st w = Some (s', w') /\
    trace w' = EvNotify (state_translation_table (state s))
                        (state_translation_table st) :: rest /\
    state s' = st /\ result s' = result s /\
    n_accepted s' = n_accepted s /\ n_connections s' = n_connections s /\
    service s' = service s /\
    if keeps_control st
    then control_pid s' = control_pid s /\
         control_command_id s' = control_command_id s /\
         control_command s' = control_command s /\
         timer_watch s' = timer_watch s
    else control_pid s' <= 0 /\ control_command_id s' = None /\
         control_command s' = [] /\ timer_watch s' = false.
Proof.
  destruct (wpt_inv _ _ _ (socket_set_state_spec s st w)) as (s' & w' & E & Q & _).
  destruct (socket_set_state_notifies _ _ _ _ _ E) as [rest T].
  exists s', w', rest. split; [exact E |]. split; [exact T |].
  split; [exact (ssp_state _ _ _ Q) |].
  split; [exact (ssp_result _ _ _ Q) |].
  split; [exact (ssp_n_accepted _ _ _ Q) |].
  split; [exact (ssp_n_connections _ _ _ Q) |].
  split; [exact (ssp_service _ _ _ Q) |].
  pose proof (ssp_control _ _ _ Q) as C.
  destruct (keeps_control st); [exact C |].
  destruct C as (_ & A & B & C & D). auto.
Qed.

(** X25.  Coldplugging a unit that was serialized in Listening and got
    its fds back does not open anything: no endpoint is created or
    closed, the fds of the ports are the restored ones, and the unit
    ends in Listening with every port watched.  When the watches cannot
    be installed it fails, and the unit is left dead with its ports
    open and unwatched. *)
Theorem coldplug_listens_on_restored_fds (s : Socket) (w : World) :
  state s = SOCKET_DEAD ->
  deserialized_state s = SOCKET_LISTENING ->
  Forall (fun p => 0 <= p_fd p) (ports s) ->
  exists r s' w' new,
    socket_coldplug s w = Some (r, s', w') /\
    trace w' = (new ++ trace w)%list /\ Forall no_fd_event new /\
    map p_fd (ports s') = map p_fd (ports s) /\
    match r with
    | Ok _ => state s' = SOCKET_LISTENING /\ all_open_watched (ports s')
    | Err _ => state s' = SOCKET_DEAD /\ all_open_unwatched (ports s')
    end.
Proof.
  intros D L O.
  assert (H : wpt (socket_coldplug s)
    (fun '(r, s') w' => exists new,
       trace w' = (new ++ trace w)%list /\ Forall no_fd_event new /\
       map p_fd (ports s') = map p_fd (ports s) /\
       match r with
       | Ok _ => state s' = SOCKET_LISTENING /\ all_open_watched (ports s')
       | Err _ => state s' = SOCKET_DEAD /\ all_open_unwatched (ports s')
       end) w).
  { unfold socket_coldplug. rewrite L, D.
    cbn [state_eq state_ne SocketState_beq negb IN_SET existsb orb].
    unfold assert. apply wpt_bind. apply wpt_ret.
    apply wpt_bind. apply wpt_ret.
    apply wpt_bind.
    apply (wpt_known _ _ _ _ _ (socket_open_fds_open s w O)).
    apply wpt_bind.
    eapply wpt_conseq; [apply socket_watch_fds_spec |].
    intros [r s1] w1 HH; cbv beta in HH.
    destruct HH as (_ & T1 & (F & _ & R) & Q).
    pose proof (rewatched_fds _ _ R) as FD.
    destruct r as [[] | en].
    - apply wpt_bind.
      assert (G : wpt (socket_set_state s1 SOCKET_LISTENING)
                (fun s' w' =>
                   set_state_post s1 SOCKET_LISTENING s' /\
                   exists new, trace w' = (new ++ trace w1)%list /\
                               Forall no_fd_event new) w1).
      { pose proof (socket_set_state_spec s1 SOCKET_LISTENING w1) as A.
        pose proof (socket_set_state_keeps_fds s1 SOCKET_LISTENING w1 eq_refl) as B.
        unfold wpt in *.
        destruct (socket_set_state s1 SOCKET_LISTENING w1) as [[s' w'] |];
          [| exact A].
        split; [exact (proj1 A) | exact B]. }
      eapply wpt_conseq; [exact G |].
      intros s' w' HH; cbv beta in HH. destruct HH as (P & new & T & N).
      apply wpt_ret. exists new. rewrite T, T1.
      split; [reflexivity |]. split; [exact N |].
      rewrite (ssp_ports _ _ _ P). unfold ports_after_set_state.
      cbn [state_ne SocketState_beq negb keeps_fds IN_SET existsb orb].
      split; [exact FD |]. split; [exact (ssp_state _ _ _ P) | exact Q].
    - apply wpt_ret. exists []. rewrite T1.
      split; [reflexivity |]. split; [constructor |].
      split; [exact FD |]. split; [| exact Q].
      rewrite (of_state _ _ F). exact D. }
  destruct (wpt_inv _ _ _ H) as ([r s'] & w' & E & new & Q).
  exists r, s', w', new. split; [exact E | exact Q].
Qed.

(** X1 on a unit in StopPost: -EAGAIN *)
Lemma start_refused_leaves_unit_untouched_witness :
  socket_start stopping_unit sample_world
    = Some (Err EAGAIN, stopping_unit, sample_world) /\
  stopping_unit = stopping_unit /\ sample_world = sample_world /\
  IN_SET (state stopping_unit)
    [SOCKET_STOP_PRE; SOCKET_STOP_PRE_SIGKILL; SOCKET_STOP_PRE_SIGTERM;
     SOCKET_STOP_POST; SOCKET_FINAL_SIGTERM; SOCKET_FINAL_SIGKILL] = true.
Proof.
  split; [reflexivity |].
  apply (start_refused_leaves_unit_untouched stopping_unit sample_world EAGAIN
           stopping_unit sample_world).
  reflexivity.
Defined.

(** X2 on a listening unit *)
Lemma stop_leaves_the_active_states_witness :
  exists r s' w',
    socket_stop listening_unit sample_world = Some (r, s', w') /\
    step listening_unit sample_world s' w' /\
    ~ In (state s') [SOCKET_START_PRE; SOCKET_START_CHOWN; SOCKET_START_POST;
                     SOCKET_LISTENING; SOCKET_RUNNING] /\
    (result s' = result listening_unit \/ result s' = SOCKET_FAILURE_RESOURCES) /\
    (r = Err EAGAIN <->
     In (state listening_unit)
        [SOCKET_START_PRE; SOCKET_START_CHOWN; SOCKET_START_POST]).
Proof.
  apply (stop_leaves_the_active_states listening_unit sample_world);
    discriminate.
Defined.

(** X5 on a listening unit and an event that is not EV_READ *)
Lemma fd_event_ignored_or_stops_witness :
  (state listening_unit <> SOCKET_LISTENING ->
   socket_fd_event listening_unit 5 4 sample_world
     = Some (listening_unit, sample_world)) /\
  (state listening_unit = SOCKET_LISTENING -> 4 <> EV_READ ->
   exists s' w',
     socket_fd_event listening_unit 5 4 sample_world = Some (s', w') /\
     step listening_unit sample_world s' w' /\ stop_path_entered s').
Proof.
  apply (fd_event_ignored_or_stops listening_unit 5 4 sample_world). lia.
Defined.

(** X6 on a dead unit that was serialized in Listening *)
Lemma coldplug_enters_deserialized_state_witness :
  exists r s' w',
    socket_coldplug restored_unit sample_world = Some (r, s', w') /\
    result s' = result restored_unit /\
    n_accepted s' = n_accepted restored_unit /\
    n_connections s' = n_connections restored_unit /\
    match r with
    | Ok _ => state s' = deserialized_state restored_unit
    | Err _ => state s' = SOCKET_DEAD
    end /\
    (keeps_control (deserialized_state restored_unit) = true ->
     control_pid restored_unit <= 0 ->
     r = Err EBADMSG /\ s' = restored_unit /\ w' = sample_world).
Proof.
  destruct (socket_coldplug restored_unit sample_world)
    as [[[r s'] w'] |] eqn:E; [| vm_compute in E; discriminate E].
  exists r, s', w'. split; [reflexivity |].
  apply (coldplug_enters_deserialized_state restored_unit sample_world).
  exact E.
Defined.

(** X8 on a unit whose ExecStartPre exits with status 1: the control
    group is signalled and the unit is in FinalSigterm with
    FailureExitCode; when [unit_kill_context] fails it ends failed with
    FailureResources. *)
Lemma failed_control_process_stops_the_start_witness :
  (exists s' w',
     socket_sigchld_event pre_unit 7 CLD_EXITED 1 sample_world
       = Some (s', w') /\
     step pre_unit sample_world s' w' /\
     lands sample_world SOCKET_FAILURE_EXIT_CODE SOCKET_FINAL_SIGTERM true []
           s' w') /\
  (exists s' w',
     socket_sigchld_event pre_unit 7 CLD_EXITED 1 (failing_world 0)
       = Some (s', w') /\
     step pre_unit (failing_world 0) s' w' /\
     lands (failing_world 0) SOCKET_FAILURE_EXIT_CODE SOCKET_FINAL_SIGTERM
           false [] s' w').
Proof.
  split.
  - apply (failed_control_process_stops_the_start pre_unit 7 CLD_EXITED 1
             sample_world SOCKET_FAILURE_EXIT_CODE).
    + lia.
    + reflexivity.
    + reflexivity.
    + intros c cs H. injection H as <- _. reflexivity.
    + reflexivity.
    + left. reflexivity.
  - apply (failed_control_process_stops_the_start pre_unit 7 CLD_EXITED 1
             (failing_world 0) SOCKET_FAILURE_EXIT_CODE).
    + lia.
    + reflexivity.
    + reflexivity.
    + intros c cs H. injection H as <- _. reflexivity.
    + reflexivity.
    + left. reflexivity.
Defined.

(** X9 on a unit whose first ExecStartPre command exits cleanly: the
    second command is spawned; when its spawn fails the unit enters the
    stop path. *)
Lemma clean_exit_runs_next_command_witness :
  (exists s' w',
     socket_sigchld_event two_step_unit 7 CLD_EXITED 0 sample_world
       = Some (s', w') /\
     state s' = state two_step_unit /\ result s' = result two_step_unit /\
     ports s' = ports two_step_unit /\
     control_command s' =
       [{| c_path := "/bin/sleep"; c_argv := ["/bin/sleep"; "1"];
           c_ignore := false |}] /\
     control_command_id s' = control_command_id two_step_unit /\
     0 <= control_pid s' /\
     trace w' =
       EvWatchPid (control_pid s')
       :: EvSpawn {| c_path := "/bin/sleep"; c_argv := ["/bin/sleep"; "1"];
                     c_ignore := false |} (control_pid s')
       :: trace sample_world) /\
  (exists s' w',
     socket_sigchld_event two_step_unit 7 CLD_EXITED 0 (failing_world 2)
       = Some (s', w') /\
     step two_step_unit (failing_world 2) s' w' /\ stop_path_entered s').
Proof.
  split.
  - apply (clean_exit_runs_next_command two_step_unit 7 CLD_EXITED 0 sample_world
             {| c_path := "/bin/true"; c_argv := ["/bin/true"]; c_ignore := false |}
             {| c_path := "/bin/sleep"; c_argv := ["/bin/sleep"; "1"];
                c_ignore := false |} []).
    + lia.
    + reflexivity.
    + left. reflexivity.
    + reflexivity.
  - apply (clean_exit_runs_next_command two_step_unit 7 CLD_EXITED 0
             (failing_world 2)
             {| c_path := "/bin/true"; c_argv := ["/bin/true"]; c_ignore := false |}
             {| c_path := "/bin/sleep"; c_argv := ["/bin/sleep"; "1"];
                c_ignore := false |} []).
    + lia.
    + reflexivity.
    + left. reflexivity.
    + reflexivity.
Defined.


(** X11 on a listening unit with its service: the job is queued and the
    unit runs; when [manager_add_job] fails the unit enters the stop
    path and no job is queued. *)
Lemma activation_queues_job_and_enters_running_witness :
  (exists s' w' new,
     socket_enter_running listening_unit (-1) sample_world = Some (s', w') /\
     trace w' = (new ++ trace sample_world)%list /\
     n_accepted s' = n_accepted listening_unit /\
     n_connections s' = n_connections listening_unit /\
     state s' = SOCKET_RUNNING /\ result s' = result listening_unit /\
     ports s' = map unwatch_port (ports listening_unit) /\
     exists svc, service listening_unit = Some svc /\
                 In (EvAddJob (svc_id svc)) new) /\
  (exists s' w' new,
     socket_enter_running listening_unit (-1) (failing_world 2)
       = Some (s', w') /\
     trace w' = (new ++ trace (failing_world 2))%list /\
     n_accepted s' = n_accepted listening_unit /\
     n_connections s' = n_connections listening_unit /\
     stop_path_entered s' /\
     Forall (quiet (port_fds listening_unit)) new).
Proof.
  split.
  - apply (activation_queues_job_and_enters_running listening_unit (-1)
             sample_world (after_calls 1 sample_world)
             (after_calls 2 sample_world) false).
    + lia.
    + reflexivity.
    + reflexivity.
  - apply (activation_queues_job_and_enters_running listening_unit (-1)
             (failing_world 2) (after_calls 1 (failing_world 2))
             (after_calls 2 (failing_world 2)) false).
    + lia.
    + reflexivity.
    + reflexivity.
Defined.

(** X12 on a unit with one open and one closed FIFO *)
Lemma collect_fds_returns_the_open_fds_witness :
  exists r w',
    socket_collect_fds half_open_unit sample_world = Some (r, w') /\
    trace w' = trace sample_world /\
    match r with
    | Ok (fds, n_fds) =>
        fds = open_fds_of (ports half_open_unit) /\
        n_fds = Z.of_nat (List.length fds)
    | Err e => e = ENOMEM /\ exists p, In p (ports half_open_unit) /\ 0 <= p_fd p
    end.
Proof.
  apply (collect_fds_returns_the_open_fds half_open_unit sample_world).
  vm_compute. reflexivity.
Defined.

(** X14 on a unit with one closed socket, and a set that holds its fd *)
Lemma distribute_fds_hands_out_matching_fds_witness :
  exists r s' fds',
    socket_distribute_fds (fun _ fd => fd =? 3) mixed_unit [4; 3] = (r, s', fds') /\
    r = Ok tt /\
    distributed (fun _ fd => fd =? 3) (ports mixed_unit) [4; 3]
      (deserialized_state mixed_unit) (ports s') fds' (deserialized_state s') /\
    state s' = state mixed_unit /\ result s' = result mixed_unit.
Proof.
  destruct (socket_distribute_fds (fun _ fd => fd =? 3) mixed_unit [4; 3])
    as [[r s'] fds'] eqn:E.
  exists r, s', fds'. split; [reflexivity |].
  apply (distribute_fds_hands_out_matching_fds (fun _ fd => fd =? 3)
           mixed_unit [4; 3] r s' fds'); [| exact E].
  repeat constructor; lia.
Defined.

(** X16 on the start and the stop of a unit with one FIFO *)
Lemma ports_follow_the_state_witness :
  exists ss w',
    run fifo_unit [OnStart; OnStop] sample_world = Some (ss, w') /\
    Forall ports_inv ss.
Proof.
  destruct (run fifo_unit [OnStart; OnStop] sample_world)
    as [[ss w'] |] eqn:E; [| vm_compute in E; discriminate E].
  exists ss, w'. split; [reflexivity |].
  apply (ports_follow_the_state fifo_unit [OnStart; OnStop] sample_world ss w');
    [exact ports_inv_fifo_unit | exact E].
Defined.

(** X19 on a unit whose FIFO is opened before the service of its socket
    cannot be instantiated *)
Lemma open_fds_early_return_keeps_ports_open_witness :
  exists e s' w',
    socket_open_fds mixed_unit (failing_world 3) = Some (Err e, s', w') /\
    trace w' = ([EvOpen SOCKET_FIFO 7] ++ trace (failing_world 3))%list /\
    (forall fd, ~ In (EvClose fd) [EvOpen SOCKET_FIFO 7]) /\
    (forall p, In p (ports mixed_unit) -> 0 <= p_fd p -> In p (ports s')) /\
    (forall t fd, In (EvOpen t fd) [EvOpen SOCKET_FIFO 7] ->
                  exists p', In p' (ports s') /\ p_fd p' = fd /\ 0 <= fd).
Proof.
  destruct (socket_open_fds mixed_unit (failing_world 3))
    as [[[r s'] w'] |] eqn:E; [| vm_compute in E; discriminate E].
  assert (R : r = Err (EOTHER 0)).
  { vm_compute in E. injection E as <- _ _. reflexivity. }
  assert (T : trace w' = ([EvOpen SOCKET_FIFO 7] ++ trace (failing_world 3))%list).
  { vm_compute in E. injection E as _ _ <-. reflexivity. }
  subst r. exists (EOTHER 0), s', w'. split; [reflexivity |].
  split; [exact T |].
  apply (open_fds_early_return_keeps_ports_open mixed_unit (failing_world 3)
           (EOTHER 0) s' w' [EvOpen SOCKET_FIFO 7] E T).
  intros t [H | []]. discriminate H.
Defined.

(** X20 on a unit with one FIFO *)
Lemma open_fds_opens_every_port_witness :
  exists s' w',
    socket_open_fds fifo_unit sample_world = Some (Ok tt, s', w') /\
    Forall (fun p => 0 <= p_fd p) (ports s') /\
    socket_open_fds s' w' = Some (Ok tt, s', w').
Proof.
  destruct (socket_open_fds fifo_unit sample_world)
    as [[[r s'] w'] |] eqn:E; [| vm_compute in E; discriminate E].
  assert (R : r = Ok tt).
  { vm_compute in E. injection E as <- _ _. reflexivity. }
  subst r. exists s', w'. split; [reflexivity |].
  apply (open_fds_opens_every_port fifo_unit sample_world s' w' E).
Defined.

(** X21 on a connection from 127.0.0.1 to port 9000 *)
Lemma instance_name_of_ipv4_connection_witness :
  instance_from_socket 9 3 sample_world =
    Some (Ok (ipv4_instance 3 127 0 0 1 35 40 127 0 0 1 35 40),
          after_calls 3 sample_world) /\
  trace (after_calls 3 sample_world) = trace sample_world.
Proof.
  apply (instance_name_of_ipv4_connection 9 3 sample_world
           (after_calls 1 sample_world) (after_calls 2 sample_world)
           (after_calls 3 sample_world) 127 0 0 1 35 40 127 0 0 1 35 40 false);
    try (unfold is_byte; lia); reflexivity.
Defined.

(** X23 on the line of the FIFO of a freshly loaded unit *)
Lemma port_line_moves_fd_into_first_match_witness :
  exists s' fds' w',
    socket_deserialize_item fifo_unit "fifo" "10 /run/x.pipe" [10] sample_world
      = Some (Ok tt, s', fds', w') /\
    ports s' = [fifo_port "/run/x.pipe" 10 false] /\ fds' = [] /\
    trace w' = trace sample_world.
Proof.
  destruct (port_line_moves_fd_into_first_match fifo_unit "fifo" SOCKET_FIFO
              10 "/run/x.pipe" [10] sample_world)
    as (s' & fds' & w' & E & Q).
  - left. reflexivity.
  - lia.
  - reflexivity.
  - exists s', fds', w'. split; [exact E |]. clear Q.
    vm_compute in E. injection E as <- <- <-.
    split; [reflexivity |]. split; reflexivity.
Defined.

(** X25 on a unit restored from Listening *)
Lemma coldplug_listens_on_restored_fds_witness :
  exists r s' w' new,
    socket_coldplug restored_unit sample_world = Some (r, s', w') /\
    trace w' = (new ++ trace sample_world)%list /\ Forall no_fd_event new /\
    map p_fd (ports s') = map p_fd (ports restored_unit) /\
    match r with
    | Ok _ => state s' = SOCKET_LISTENING /\ all_open_watched (ports s')
    | Err _ => state s' = SOCKET_DEAD /\ all_open_unwatched (ports s')
    end.
Proof.
  apply (coldplug_listens_on_restored_fds restored_unit sample_world).
  - reflexivity.
  - reflexivity.
  - repeat constructor. cbn. lia.
Defined.
